(* ===== verification/_CoqProject ===== *)
-Q . S2P
Prelude.v
GoIO.v
GoNet.v
Rewind.v
Utils.v
Uint8Arr.v
VLI.v
Frames.v
Reconstructor.v
GoCrypto.v
External.v
QuicCrypto.v
QuicHeader.v
FingerprintHash.v
TransportParams.v
ClientHello.v
QuicClientHello.v
Gather.v
QuicFingerprinter.v
TlsFingerprinter.v
CaddyApp.v
CaddyHandler.v
CaddyListener.v
CaddyEndToEnd.v
