(* ===== verification/Prelude.v ===== *)
(** * clienthellod: a verification of the TLS and QUIC ClientHello fingerprinter

    ** The program

    clienthellod (package [clienthellod], the Go files at the top; helpers under internal/utils; Caddy
    modules under modcaddy) watches the first bytes of TLS and QUIC connections and
    computes fingerprints of the clients.

    - TLS: [TLSFingerprinter.HandleTCPConn] (tls_fingerprint.go) reads one TLS record off
      a new connection (clienthello.go), parses the ClientHello in it, stores it under the
      client's address and returns a connection that delivers the bytes once more
      (internal/utils/rewindconn.go).
    - QUIC: [QUICFingerprinter.HandlePacket] (quic_fingerprint.go) decodes an Initial packet
      (quic_common.go, quic_crypto.go, quic_frame.go), adds it to the gathering of its
      sender (quic_client_initial.go), which feeds the CRYPTO frames to a reconstructor
      (quic_clienthello_reconstructor.go) until the ClientHello is complete and is parsed
      (quic_clienthello.go, clienthello.go, quic_transport_parameters.go).
    - Identifiers: fingerprint_hash.go hashes the normalised fields with SHA-1.
    - Caddy: a reservoir owns both fingerprinters and the last QUIC visitor of each IP
      (modcaddy/app), a listener wrapper feeds them (modcaddy/listener), an HTTP handler
      answers requests with what they know (modcaddy/handler).

    ** The files

    - [Prelude]: bytes and machine integers, Go errors and outcomes (value, error, panic),
      [make], slicing, sorting, tactics and hints.
    - [GoIO], [GoNet], [GoCrypto]: the parts of Go's standard library the code runs
      through, executable: io readers and [ReadFull], host and port splitting, SHA-1,
      SHA-256, HMAC, AES-128, GCM.  A reader is a class ([IOReader]) with the law that it
      delivers its stream ([StreamReader]); [bytes.Reader], [bytes.Buffer], connections
      that deliver chunks, and the rewound readers are its instances.
    - [External]: packages outside the repository (cryptobyte, hkdf, uTLS, dicttls,
      gopacket) as classes of operations, their documented promises as classes of laws,
      with reference instances that satisfy them.
    - [Rewind]: internal/utils/rewindreader.go, rewindconn.go.  [Utils]: arr_dedup.go,
      typeconv.go, utls.go and the GREASE helpers.  [Uint8Arr]: uint8_not_string.go.
    - [VLI]: variable-length integers of quic_common.go.  [Frames]: quic_frame.go.
      [Reconstructor]: quic_clienthello_reconstructor.go.  [QuicCrypto]: quic_crypto.go.
      [QuicHeader]: [DecodeQUICHeaderAndFrames] and quic_header.go.
    - [FingerprintHash]: hashing and printing of fingerprint_hash.go; the three
      [calcNumericID] are in [TransportParams] (quic_transport_parameters.go),
      [ClientHello] (clienthello.go) and [Gather].
    - [QuicClientHello]: quic_clienthello.go.  [Gather]: quic_client_initial.go and
      [GenerateQUICFingerprint].  [QuicFingerprinter]: quic_fingerprint.go and
      udppacket.go.  [TlsFingerprinter]: tls_fingerprint.go.
    - [CaddyApp], [CaddyHandler], [CaddyListener]: modcaddy/app, handler, listener;
      [CaddyEndToEnd]: the three composed, from the wire to the response.

    Definitions keep the names of the code.  A struct is a record, a method a function from
    the state to its result and the new state.  Objects the code shares by pointer
    (gatherings, ClientHellos) live in a heap that maps refer to by address.  [sync.Map]
    operations and calls under a mutex are atomic steps; goroutines that wait and then
    delete are pending timers, and the time is an argument.  A timer may fire at its time or
    any time later, so histories ([run], the receive loops, [sys_step], [TLS.step],
    [handler_step]) contain the firings as events of their own, in between the calls.
    Calls that block ([Wait], [PeekAwait], [PopAwait]) are relations between the states of
    call and return.

    ** What is shown

    - The whole chain: what a client sent is what a request from it is answered with, before
      the timeouts and whatever else happens in between ([QUIC_end_to_end],
      [TLS_end_to_end]).  The limits of the QUIC side - four packets with numbers within 32,
      33 fragments, 64 KiB - are those of the code and appear as hypotheses.
    - Fingerprints do not depend on delivery: fragments ([reconstructor_any_order]),
      packets ([gather_any_order]) and whole datagrams among those of other senders
      ([fingerprint_any_order]) may come in any order.  They do not depend on what
      clients randomise: GREASE ([ch_calcNumericID_GREASE], [qtp_order_and_GREASE]),
      extension and parameter order ([NormNumID_extension_order]), frame order
      ([header_id_frame_set]).
    - Decoding is the inverse of the wire formats: packet protection
      ([DecodeQUICHeaderAndFrames_roundtrip], and [_sound]: a packet that is accepted is,
      byte for byte, the protection of an Initial packet), frames, integers, transport
      parameters, the raw ClientHello.
    - State: invariants over every history of calls and timers, including interleavings of
      the halves of [HandlePacket] ([QUICFingerprinter_invariant], [gather_invariant],
      [reconstructor_wf], [TLS_timers_exact]); memory bounds ([gather_bounds]); waiting
      calls are safe ([Await_safe]).
    - Refinement: the shared map of gatherings with its expiry goroutines behaves, for every
      sender, like a machine of that sender alone ([sender_step], [HandleIPConn_survives]).
    - Robustness: which inputs can panic and which cannot ([DecodeQUICHeaderAndFrames_panics],
      [UnmarshalClientHello_panics]); what leaves no trace ([HandlePacket_no_trace]); the
      receive and accept loops go on ([HandleIPConn_survives], [Accept_serves]).
    - Transparency: the TLS side gives back every byte ([HandleTCPConn_transparent],
      [Accept_serves]).
    - The handler: whose fingerprint is served ([served_same_host]) and when the association
      of an IP with a QUIC client works ([serveQUIC_association]).
    - Behaviour that looks unintended is stated as it is: [stale_timer_deletes],
      [NewQUICFingerprinter_never_completes], [serveQUIC_migration_once],
      [visitor_update], and the plain theorems [ReadNextVLI_short_read],
      [CRYPTO_short_read], [CRYPTO_length_panics], [qtp_length_panics],
      [full_reconstructor_stuck], [ParseQUICClientHello_wraps], [DedupIntArr_empty],
      [ReadClientHello_accounts], [AddCRYPTOFragment_wraps].

    ** Bounds and fuel

    Loops that are not structural take fuel, and [None] is running out of it.  For the frame
    parser and the parameter parser the fuel is computed from the length of the input and
    is proved to be enough ([ReadAllFrames_terminates], [ParseQUICTransportParameters_total]);
    the loop of the reconstructor removes a pending fragment in every round.  [io.ReadFull]
    needs one read per chunk of the connection and one more ([ReadFull_netConn_total]).
    [maxAlloc] is the largest slice the runtime allocates; datagrams are shorter.

    ** Not modelled

    Logging, registration of the Caddy modules, finalizers (they drop references of dead
    objects), the [raw] bytes of an Initial packet beyond being kept (nothing reads
    them), opening of sockets (results are arguments), encoding/json on whole structures
    (a parameter of the handler), the inside of the third-party packages (uTLS may panic
    or fail in any way), and the exhaustion of memory by a slice that is large but below
    [maxAlloc]. *)
From stdpp Require Export prelude gmap strings sorting.
From Stdlib Require Export ZArith Lia.

#[global] Open Scope Z_scope.

(** ** Machine integers and bytes *)

(** A Go [byte]/[uint8], [uint16], [uint32], [uint64] is a [Z] in range; the
    conversion [uintN(x)] and the wrap-around of arithmetic are written out. *)
Definition u8 (z : Z) : Z := z mod 2 ^ 8.
Definition u16 (z : Z) : Z := z mod 2 ^ 16.
Definition u32 (z : Z) : Z := z mod 2 ^ 32.
Definition u64 (z : Z) : Z := z mod 2 ^ 64.

(** [int64(x)] of a [uint64]. *)
Definition s64 (z : Z) : Z := if z <? 2 ^ 63 then z else z - 2 ^ 64.

Abbreviation bytes := (list Z).
Abbreviation len l := (Z.of_nat (length l)).

Definition is_byte (b : Z) : Prop := 0 <= b < 256.
Definition is_u16 (v : Z) : Prop := 0 <= v < 2 ^ 16.
Definition wf_bytes (l : bytes) : Prop := Forall is_byte l.

#[global] Instance is_byte_dec b : Decision (is_byte b).
Proof. unfold is_byte. apply _. Defined.
#[global] Instance is_u16_dec b : Decision (is_u16 b).
Proof. unfold is_u16. apply _. Defined.
#[global] Instance wf_bytes_dec l : Decision (wf_bytes l).
Proof. unfold wf_bytes. apply _. Defined.

(** [encoding/binary.BigEndian.PutUintN] and [UintN]. *)
Fixpoint be_encode (n : nat) (v : Z) : bytes :=
  match n with
  | O => []
  | S n' => (Z.shiftr v (8 * Z.of_nat n') mod 256) :: be_encode n' v
  end.

Definition be_decode (l : bytes) : Z := foldl (λ acc b, acc * 256 + b) 0 l.

(** The Go idiom [val = val<<8 | uint64(b)] over a slice. *)
Definition shift_in (acc b : Z) : Z := Z.lor (u64 (Z.shiftl acc 8)) b.

(** ** Errors and outcomes *)

(** Values of Go's [error]: the sentinel variables of the package and of [io],
    [errors.New] and [fmt.Errorf] with [%w]. *)
Inductive goerror :=
  | io_EOF
  | io_ErrUnexpectedEOF
  | io_ErrClosedPipe
  | net_ErrClosed
  | ErrNotQUICLongHeaderFormat
  | ErrNotQUICInitialPacket
  | ErrUnsupportedQUICVersion
  | ErrDuplicateFragment
  | ErrOverlapFragment
  | ErrTooManyFragments
  | ErrOffsetTooHigh
  | ErrNeedMoreFrames
  | ErrGatheringExpired
  | ErrPacketRejected
  | ErrGatheredClientInitialsChannelClosedBeforeCompletion
  | errors_New (msg : string)
  | fmt_Errorf (msg : string) (wrapped : goerror).

#[global] Instance goerror_eq_dec : EqDecision goerror.
Proof. solve_decision. Defined.

(** [errors.Is]: walk the chain of wrapped errors. *)
Fixpoint errors_Is (e target : goerror) : bool :=
  bool_decide (e = target) ||
  match e with
  | fmt_Errorf _ e' => errors_Is e' target
  | _ => false
  end.

(** The result of a Go call that can return a value, return an error, or panic. *)
Inductive outcome (A : Type) :=
  | Ok (a : A)
  | Err (e : goerror)
  | Panic (why : string).
Arguments Ok {A} a.
Arguments Err {A} e.
Arguments Panic {A} why.

#[global] Instance outcome_eq_dec {A} `{EqDecision A} : EqDecision (outcome A).
Proof. solve_decision. Defined.

Definition obind {A B} (m : outcome A) (k : A → outcome B) : outcome B :=
  match m with
  | Ok a => k a
  | Err e => Err e
  | Panic w => Panic w
  end.

Definition is_panic {A} (m : outcome A) : bool :=
  match m with Panic _ => true | _ => false end.

Declare Scope go_scope.
Delimit Scope go_scope with go.
Notation "'let!' p := m 'in' k" := (obind m (λ p, k))
  (at level 200, p pattern, m at level 100, k at level 200, right associativity) : go_scope.
#[global] Open Scope go_scope.

(** [if cond { return err }] as a statement. *)
Definition guard (b : bool) (e : goerror) : outcome () := if b then Err e else Ok ().

(** Go's [make([]byte, n)] with a 64-bit length: panics with "makeslice: len
    out of range" above the address-space limit of the runtime (2^48 on 64-bit
    platforms).  Below it the model assumes that the memory is there: that the process
    can be killed when it is not - an error nothing recovers from - is outside. *)
Definition maxAlloc : Z := 2 ^ 48.
Definition make_bytes (n : Z) : outcome bytes :=
  if (n <? 0) || (maxAlloc <? n) then Panic "makeslice: len out of range"
  else Ok (replicate (Z.to_nat n) 0).

(** Writing [d] to the front of a slice: what [copy] and [Read] do to their buffer. *)
Definition copy_into (buf d : bytes) : bytes :=
  take (length buf) d ++ drop (length d) buf.

(** The elements of [l] from [i] up to [j]. *)
Definition slice {A} (i j : nat) (l : list A) : list A := take (j - i) (drop i l).

(** The slice expression [l[i:j]] (of a slice without spare capacity) and the index
    expression [l[i]]; out of range they panic. *)
Definition go_slice (i j : Z) (l : bytes) : outcome bytes :=
  if (0 <=? i) && (i <=? j) && (j <=? len l) then Ok (slice (Z.to_nat i) (Z.to_nat j) l)
  else Panic "slice bounds out of range".

Definition go_index (i : Z) (l : bytes) : outcome Z :=
  if 0 <=? i then
    match l !! Z.to_nat i with Some b => Ok b | None => Panic "index out of range" end
  else Panic "index out of range".

(** ** [sort.Slice] *)

(** [sort.Slice] is not stable: any permutation of the input that is sorted by
    the key is a possible result. *)
Definition sorted_by {A} (key : A → Z) (l : list A) : Prop :=
  StronglySorted (λ a b, key a <= key b) l.

Definition sort_result {A} (key : A → Z) (l l' : list A) : Prop :=
  l' ≡ₚ l ∧ sorted_by key l'.

Section sort_by.
Context {A : Type} (key : A → Z).
Definition sort_by_rel (a b : A) : Prop := key a <= key b.
#[global] Instance sort_by_rel_dec : RelDecision sort_by_rel.
Proof. intros a b. unfold sort_by_rel. apply _. Defined.
Definition sort_by (l : list A) : list A := merge_sort sort_by_rel l.
End sort_by.

(** Sorting a slice of integers by value. *)
Definition sort_ints (l : list Z) : list Z := sort_by id l.

(** ** Tactics *)

(** Case analysis on the scrutinee of the first match of the goal or of a
    hypothesis, keeping the equation. *)
Ltac case_goal :=
  match goal with
  | |- context [match ?x with _ => _ end] => destruct x eqn:?
  end.

Ltac case_hyp H :=
  match type of H with
  | context [match ?x with _ => _ end] => destruct x eqn:?
  end.

Ltac bool_facts :=
  repeat match goal with
  | H : (_ && _) = true |- _ => apply andb_true_iff in H; destruct H
  | H : (_ || _) = false |- _ => apply orb_false_iff in H; destruct H
  | H : negb _ = true |- _ => apply negb_true_iff in H
  | H : negb _ = false |- _ => apply negb_false_iff in H
  | H : (_ <? _) = true |- _ => apply Z.ltb_lt in H
  | H : (_ <? _) = false |- _ => apply Z.ltb_ge in H
  | H : (_ <=? _) = true |- _ => apply Z.leb_le in H
  | H : (_ <=? _) = false |- _ => apply Z.leb_gt in H
  | H : (_ =? _) = true |- _ => apply Z.eqb_eq in H
  | H : (_ =? _) = false |- _ => apply Z.eqb_neq in H
  | H : bool_decide _ = true |- _ => apply bool_decide_eq_true in H
  | H : bool_decide _ = false |- _ => apply bool_decide_eq_false in H
  end.

(** Discharge a decidable closed goal by evaluation. *)
Ltac decide_now := apply (bool_decide_unpack _); vm_compute; exact I.

Create HintDb gohints discriminated.
Create HintDb golen discriminated.
#[export] Hint Rewrite @length_app @length_take @length_drop @length_replicate
  @length_cons @length_nil @length_insert : golen.

Ltac len_solve := autorewrite with golen in *; lia.

(** ** Lemmas on integers and bytes *)

Lemma u64_small z : 0 <= z < 2 ^ 64 → u64 z = z.
Proof. apply Z.mod_small. Qed.

Lemma u64_range z : 0 <= u64 z < 2 ^ 64.
Proof. apply Z.mod_pos_bound. lia. Qed.

Lemma u8_range z : is_byte (u8 z).
Proof. unfold is_byte, u8. apply (Z.mod_pos_bound z 256). lia. Qed.

Lemma u8_small z : is_byte z → u8 z = z.
Proof. apply Z.mod_small. Qed.

Lemma lor_byte acc b : is_byte b → Z.lor (Z.shiftl acc 8) b = acc * 256 + b.
Proof.
  intros Hb. pose proof (Z.add_lor_land (Z.shiftl acc 8) b) as E.
  assert (Z.land (Z.shiftl acc 8) b = 0) as E0; [clear E|rewrite Z.shiftl_mul_pow2 in *; lia].
  apply Z.bits_inj'. intros i Hi. rewrite Z.land_spec, Z.bits_0.
  destruct (decide (i < 8)).
  - by rewrite Z.shiftl_spec_low by lia.
  - rewrite andb_comm. rewrite (Z.bits_above_log2 b); [done|unfold is_byte in Hb; lia|].
    destruct (decide (b = 0)) as [->|]; [simpl; lia|].
    apply Z.lt_le_trans with 8; [|lia]. apply Z.log2_lt_pow2; unfold is_byte in Hb; lia.
Qed.

Lemma shift_in_byte acc b :
  is_byte b → 0 <= acc < 2 ^ 56 → shift_in acc b = acc * 256 + b.
Proof.
  intros Hb Ha. unfold shift_in.
  rewrite u64_small; [by apply lor_byte|]. rewrite Z.shiftl_mul_pow2; lia.
Qed.

Lemma length_be_encode n v : length (be_encode n v) = n.
Proof. induction n; simpl; congruence. Qed.
#[export] Hint Rewrite length_be_encode : golen.

Lemma be_encode_wf n v : wf_bytes (be_encode n v).
Proof.
  induction n; simpl; constructor; [|done].
  unfold is_byte. apply Z.mod_pos_bound. lia.
Qed.
#[export] Hint Resolve be_encode_wf u8_range : gohints.

Lemma be_decode_acc l acc :
  foldl (λ a b, a * 256 + b) acc l = acc * 256 ^ len l + be_decode l.
Proof.
  unfold be_decode. revert acc. induction l as [|b l IH]; intros acc; [simpl; lia|].
  cbn [foldl length]. rewrite IH, (IH (0 * 256 + b)), Nat2Z.inj_succ, Z.pow_succ_r by lia.
  ring.
Qed.

Lemma be_decode_cons b l : be_decode (b :: l) = b * 256 ^ len l + be_decode l.
Proof. unfold be_decode at 1. simpl. by rewrite be_decode_acc. Qed.

Lemma be_decode_app l1 l2 :
  be_decode (l1 ++ l2) = be_decode l1 * 256 ^ len l2 + be_decode l2.
Proof. unfold be_decode at 1. rewrite foldl_app, be_decode_acc. done. Qed.

Lemma be_decode_range l : wf_bytes l → 0 <= be_decode l < 256 ^ len l.
Proof.
  induction 1 as [|b l Hb Hl IH]; [unfold be_decode; simpl; lia|].
  rewrite be_decode_cons. simpl length. rewrite Nat2Z.inj_succ, Z.pow_succ_r by lia.
  unfold is_byte in Hb. nia.
Qed.

Lemma pow256 n : 256 ^ Z.of_nat n = 2 ^ (8 * Z.of_nat n).
Proof. rewrite Z.pow_mul_r by lia. done. Qed.

Lemma be_decode_encode n v : be_decode (be_encode n v) = v mod 256 ^ Z.of_nat n.
Proof.
  induction n as [|n IH]; [simpl; by rewrite Z.mod_1_r|].
  cbn [be_encode]. rewrite be_decode_cons, length_be_encode, IH.
  rewrite Nat2Z.inj_succ, Z.pow_succ_r by lia.
  rewrite (Z.mul_comm 256), Z.rem_mul_r by lia.
  rewrite Z.shiftr_div_pow2 by lia. rewrite <- pow256. ring.
Qed.

Lemma be_encode_mod n v : be_encode n (v mod 256 ^ Z.of_nat n) = be_encode n v.
Proof.
  revert v. induction n as [|n IH]; intros v; [done|]. cbn [be_encode]. f_equal.
  - rewrite !Z.shiftr_div_pow2 by lia. rewrite <- pow256.
    rewrite Nat2Z.inj_succ, Z.pow_succ_r, (Z.mul_comm 256), Z.rem_mul_r by lia.
    rewrite (Z.mul_comm (256 ^ _) (_ mod 256)), Z.div_add by lia.
    rewrite Z.div_small by (apply Z.mod_pos_bound; lia).
    rewrite Z.add_0_l. apply Z.mod_mod. lia.
  - rewrite <- (IH (v mod _)), <- (IH v). f_equal.
    rewrite Nat2Z.inj_succ, Z.pow_succ_r by lia.
    rewrite (Z.mul_comm 256), Z.rem_mul_r by lia.
    rewrite (Z.mul_comm (256 ^ _) (_ mod 256)), Z.mod_add by lia. apply Z.mod_mod. lia.
Qed.

Lemma be_decode_inj l1 l2 :
  wf_bytes l1 → wf_bytes l2 → length l1 = length l2 →
  be_decode l1 = be_decode l2 → l1 = l2.
Proof.
  intros H1. revert l2. induction H1 as [|b l1 Hb Hl IH]; intros l2 H2 Hlen Heq.
  { by destruct l2. }
  destruct H2 as [|b2 l2 Hb2 Hl2]; [done|]. injection Hlen as Hlen.
  rewrite !be_decode_cons, Hlen in Heq.
  pose proof (be_decode_range l1 Hl) as R1. pose proof (be_decode_range l2 Hl2) as R2.
  rewrite Hlen in R1. unfold is_byte in *.
  assert (b = b2) as -> by nia. f_equal. apply IH; auto. lia.
Qed.

Lemma be_encode_decode l : wf_bytes l → be_encode (length l) (be_decode l) = l.
Proof.
  intros Hl. apply be_decode_inj; auto with gohints; [by rewrite length_be_encode|].
  rewrite be_decode_encode. apply Z.mod_small. by apply be_decode_range.
Qed.

(** The [val<<8 | b] loop computes the big-endian value when it fits. *)
Lemma shift_in_be_decode l :
  wf_bytes l → (length l <= 8)%nat → foldl shift_in 0 l = be_decode l.
Proof.
  intros Hl. induction l as [|b l IH] using rev_ind; intros Hlen; [done|].
  rewrite length_app in Hlen. simpl in Hlen.
  apply Forall_app in Hl as [Hl Hb]. rewrite Forall_singleton in Hb.
  rewrite foldl_app, be_decode_app, IH by (done || lia). simpl.
  rewrite shift_in_byte; [unfold be_decode; simpl; lia|done|].
  pose proof (be_decode_range l Hl) as R. split; [lia|].
  apply Z.lt_le_trans with (256 ^ len l); [lia|].
  replace (2 ^ 56) with (256 ^ 7) by done. apply Z.pow_le_mono_r; lia.
Qed.

(** ** Lemmas on outcomes *)

Lemma Ok_inj {A} (a b : A) : Ok a = Ok b → a = b.
Proof. by intros [= ->]. Qed.

Lemma obind_ext {A B} (m : outcome A) (f g : A → outcome B) :
  (∀ a, f a = g a) → obind m f = obind m g.
Proof. intros H. destruct m; simpl; auto. Qed.

Lemma obind_assoc {A B C} (m : outcome A) (f : A → outcome B) (g : B → outcome C) :
  obind (obind m f) g = obind m (λ a, obind (f a) g).
Proof. by destruct m. Qed.

(** ** Lemmas on lists *)

(** A list without the first occurrence of [x]; [None] if there is none. *)
Fixpoint remove_first {A} `{EqDecision A} (x : A) (l : list A) : option (list A) :=
  match l with
  | [] => None
  | y :: l => if decide (x = y) then Some l else cons y <$> remove_first x l
  end.

Lemma remove_first_Some {A} `{EqDecision A} (x : A) l rest :
  remove_first x l = Some rest → ∃ before after, l = before ++ x :: after ∧ rest = before ++ after.
Proof.
  revert rest. induction l as [|y l IH]; intros rest; cbn [remove_first]; [done|].
  destruct (decide (x = y)) as [<-|_]; [intros [= <-]; by exists [], l|].
  destruct (remove_first x l) as [l'|]; [|done]. intros [= <-].
  destruct (IH l' eq_refl) as (l1 & l2 & -> & ->). by exists (y :: l1), l2.
Qed.

Lemma wf_bytes_app l1 l2 : wf_bytes (l1 ++ l2) ↔ wf_bytes l1 ∧ wf_bytes l2.
Proof. apply Forall_app. Qed.

Lemma wf_bytes_take n l : wf_bytes l → wf_bytes (take n l).
Proof. apply Forall_take. Qed.

Lemma wf_bytes_drop n l : wf_bytes l → wf_bytes (drop n l).
Proof. apply Forall_drop. Qed.

Lemma wf_bytes_zeros n : wf_bytes (replicate n 0).
Proof. apply Forall_replicate. unfold is_byte. lia. Qed.

Lemma wf_bytes_copy_into buf d : wf_bytes buf → wf_bytes d → wf_bytes (copy_into buf d).
Proof.
  intros. unfold copy_into. apply wf_bytes_app.
  split; [by apply wf_bytes_take|by apply wf_bytes_drop].
Qed.
#[export] Hint Resolve wf_bytes_take wf_bytes_drop wf_bytes_zeros wf_bytes_copy_into : gohints.

Lemma length_copy_into buf d : length (copy_into buf d) = length buf.
Proof. unfold copy_into. len_solve. Qed.
#[export] Hint Rewrite length_copy_into : golen.

Lemma copy_into_full buf d : length d = length buf → copy_into buf d = d.
Proof.
  intros H. unfold copy_into.
  rewrite take_ge, drop_ge by lia. apply app_nil_r.
Qed.

Lemma copy_into_zeros n d :
  (length d <= n)%nat → copy_into (replicate n 0) d = d ++ replicate (n - length d) 0.
Proof.
  intros Hd. unfold copy_into. rewrite length_replicate, take_ge by lia.
  by rewrite drop_replicate.
Qed.

Lemma make_bytes_ok n : 0 <= n <= maxAlloc → make_bytes n = Ok (replicate (Z.to_nat n) 0).
Proof.
  intros. unfold make_bytes. rewrite (proj2 (Z.ltb_ge n 0)), (proj2 (Z.ltb_ge maxAlloc n)) by lia.
  done.
Qed.

Lemma go_slice_ok i j l :
  0 <= i <= j → j <= len l → go_slice i j l = Ok (slice (Z.to_nat i) (Z.to_nat j) l).
Proof.
  intros [? ?] ?. unfold go_slice.
  by rewrite (proj2 (Z.leb_le 0 i)), (proj2 (Z.leb_le i j)), (proj2 (Z.leb_le j _)).
Qed.

Lemma go_slice_prefix a b : go_slice 0 (len a) (a ++ b) = Ok a.
Proof.
  rewrite go_slice_ok by (rewrite ?length_app; lia). unfold slice.
  by rewrite Nat2Z.id, drop_0, Nat.sub_0_r, take_app_length.
Qed.

Lemma go_slice_mid a b c : go_slice (len a) (len a + len b) (a ++ b ++ c) = Ok b.
Proof.
  rewrite go_slice_ok by (rewrite ?length_app; lia). unfold slice.
  replace (Z.to_nat (len a + len b) - Z.to_nat (len a))%nat with (length b) by lia.
  by rewrite Nat2Z.id, drop_app_length, take_app_length.
Qed.

Lemma length_slice {A} i j (l : list A) :
  (i <= j)%nat → (j <= length l)%nat → length (slice i j l) = (j - i)%nat.
Proof. intros. unfold slice. len_solve. Qed.

(** ** Lemmas on sorting *)

Section sort_by_lemmas.
Context {A : Type} (key : A → Z).

#[local] Instance sort_by_rel_total : Total (sort_by_rel key).
Proof. intros a b. unfold sort_by_rel. lia. Qed.
#[local] Instance sort_by_rel_trans : Transitive (sort_by_rel key).
Proof. intros a b c. unfold sort_by_rel. lia. Qed.

Lemma sort_by_result l : sort_result key l (sort_by key l).
Proof.
  split; [apply merge_sort_Permutation|].
  by apply (StronglySorted_merge_sort (sort_by_rel key)).
Qed.

(** Two results of [sort.Slice] agree when the keys are pairwise distinct. *)
Lemma sort_result_unique l l1 l2 :
  NoDup (key <$> l) → sort_result key l l1 → sort_result key l l2 → l1 = l2.
Proof.
  intros Hnd [P1 S1] [P2 S2].
  assert (NoDup (key <$> l1)) as Hnd1 by by rewrite P1.
  assert (l1 ≡ₚ l2) as P by by rewrite P1, P2. clear P1 P2 l Hnd.
  revert l2 P S2. induction S1 as [|a l1 S1 IH Ha]; intros l2 P S2.
  { symmetry. by apply Permutation_nil. }
  destruct S2 as [|b l2 S2 Hb]; [by apply Permutation_sym, Permutation_nil in P|].
  rewrite fmap_cons, NoDup_cons in Hnd1. destruct Hnd1 as [Hna Hnd1].
  assert (a = b) as <-.
  { assert (a ∈ b :: l2) as [->|Hin]%elem_of_cons by (rewrite <- P; constructor); [done|].
    assert (b ∈ a :: l1) as [->|Hin']%elem_of_cons by (rewrite P; constructor); [done|].
    rewrite Forall_forall in Ha, Hb. specialize (Ha _ Hin'). specialize (Hb _ Hin).
    destruct Hna. assert (key a = key b) as -> by lia. by apply list_elem_of_fmap_2. }
  f_equal. apply IH; [done|by eapply Permutation_cons_inv|done].
Qed.
End sort_by_lemmas.

(** Sorting integers by value has one result, whatever the algorithm does. *)
Lemma sort_ints_unique l l' : sort_result id l l' → l' = sort_ints l.
Proof.
  intros [P S]. destruct (sort_by_result id l) as [P' S'].
  unfold sorted_by in *. simpl in *.
  apply (StronglySorted_unique Z.le); [done|done|]. unfold sort_ints. by rewrite P, P'.
Qed.

Lemma sort_ints_perm l1 l2 : l1 ≡ₚ l2 → sort_ints l1 = sort_ints l2.
Proof.
  intros P. apply sort_ints_unique. destruct (sort_by_result id l1) as [P' S'].
  split; [unfold sort_ints; by rewrite P', P|done].
Qed.
