(* ===== verification/GoIO.v ===== *)
(** * Go's [io] readers

    The parts of Go's [io] and [bytes] packages the program reads through:
    the [io.Reader] interface as a type class, [bytes.Reader],
    [bytes.Buffer], a network connection that delivers its bytes in arbitrary
    chunks, and [io.ReadFull].  The law a reader owes its clients - what is
    delivered is the next part of its stream - is the class [StreamReader]. *)
From S2P Require Import Prelude.

(** [Read(b)] with [len(b) = n]: the bytes written to the front of [b], the
    error returned, and the reader afterwards. *)
Class IOReader (R : Type) := io_read : R → nat → (bytes * option goerror) * R.

(** What a reader still holds, and that reads take it from the front. *)
Class StreamReader (R : Type) `{IOReader R} := {
  stream : R → bytes;
  read_stream r n d e r' :
    io_read r n = (d, e, r') → stream r = d ++ stream r' ∧ (length d <= n)%nat
}.

(** ** [bytes.Reader] *)

Record bytesReader := mkBytesReader { br_s : bytes; br_i : nat }.

Definition NewReader (b : bytes) : bytesReader := mkBytesReader b 0.
Definition br_rest (r : bytesReader) : bytes := drop (br_i r) (br_s r).
Definition br_Len (r : bytesReader) : Z := len (br_rest r).
Definition br_Size (r : bytesReader) : Z := len (br_s r).
Definition br_Reset (b : bytes) : bytesReader := NewReader b.

(** At the end of the slice [Read] returns [io.EOF] whatever the length of the
    buffer, zero included. *)
#[global] Instance bytesReader_read : IOReader bytesReader := λ r n,
  if (length (br_s r) <=? br_i r)%nat then ([], Some io_EOF, r)
  else
    let d := take n (br_rest r) in
    (d, None, mkBytesReader (br_s r) (br_i r + length d)).

(** ** [bytes.Buffer] *)

Record bytesBuffer := NewBuffer { bb_rest : bytes }.

(** An empty buffer returns [io.EOF] unless the destination is empty too. *)
#[global] Instance bytesBuffer_read : IOReader bytesBuffer := λ r n,
  match bb_rest r with
  | [] => ([], match n with O => None | S _ => Some io_EOF end, NewBuffer [])
  | _ => (take n (bb_rest r), None, NewBuffer (drop n (bb_rest r)))
  end.

(** ** A network connection *)

(** A connection delivers its bytes in chunks of arbitrary sizes (an empty chunk
    is a [Read] that returns [0, nil]) and then the error it ends with. *)
Record netConn := mkConn { nc_chunks : list bytes; nc_end : goerror }.

#[global] Instance netConn_read : IOReader netConn := λ c n,
  match nc_chunks c with
  | [] => ([], Some (nc_end c), c)
  | ch :: rest =>
    if (length ch <=? n)%nat then (ch, None, mkConn rest (nc_end c))
    else (take n ch, None, mkConn (drop n ch :: rest) (nc_end c))
  end.

(** ** [io.ReadFull] *)

(** [io.ReadFull(r, buf)] with [len(buf) = n], [acc] the bytes read so far.
    [None] means the fuel ran out: a reader may answer [0, nil] for ever. *)
Fixpoint ReadFull_loop `{IOReader R} (fuel : nat) (r : R) (n : nat) (acc : bytes)
    : option (bytes * option goerror * R) :=
  if (n <=? length acc)%nat then Some (acc, None, r)
  else match fuel with
  | O => None
  | S fuel' =>
    match io_read r (n - length acc)%nat with
    | (d, None, r') => ReadFull_loop fuel' r' n (acc ++ d)
    | (d, Some e, r') =>
      let acc' := acc ++ d in
      if (n <=? length acc')%nat then Some (acc', None, r')
      else if (0 <? length acc')%nat && bool_decide (e = io_EOF)
      then Some (acc', Some io_ErrUnexpectedEOF, r')
      else Some (acc', Some e, r')
    end
  end.

Definition ReadFull `{IOReader R} (fuel : nat) (r : R) (n : nat) :
    option (bytes * option goerror * R) := ReadFull_loop fuel r n [].

(** ** Laws *)

#[global, program] Instance bytesReader_stream : StreamReader bytesReader :=
  {| stream := br_rest |}.
Next Obligation.
  intros [s i] n d e r'. unfold io_read, bytesReader_read, br_rest. simpl.
  case_goal; intros [= <- <- <-]; simpl; [by split; [|apply Nat.le_0_l]|]. split.
  - rewrite <- drop_drop. destruct (decide (n <= length (drop i s))%nat).
    + rewrite length_take_le by lia. by rewrite take_drop.
    + rewrite take_ge by lia. rewrite (drop_ge (drop i s)) by lia. by rewrite app_nil_r.
  - rewrite length_take. lia.
Qed.

#[global, program] Instance bytesBuffer_stream : StreamReader bytesBuffer :=
  {| stream := bb_rest |}.
Next Obligation.
  intros [[|b s]] n d e r'; unfold io_read, bytesBuffer_read; cbn [bb_rest];
    intros [= <- <- <-]; cbn [bb_rest]; [by split; [|simpl; lia]|].
  split; [by rewrite take_drop|len_solve].
Qed.

#[global, program] Instance netConn_stream : StreamReader netConn :=
  {| stream := λ c, concat (nc_chunks c) |}.
Next Obligation.
  intros [[|ch rest] e0] n d e r'; unfold io_read, netConn_read; cbn [nc_chunks].
  - intros [= <- <- <-]. split; [done|simpl; lia].
  - case_goal; intros [= <- <- <-]; simpl.
    + apply Nat.leb_le in Heqb. by split.
    + split; [by rewrite app_assoc, take_drop|len_solve].
Qed.

Section read_full.
Context `{StreamReader R}.

Lemma ReadFull_loop_stream fuel (r : R) n acc d e r' :
  (length acc <= n)%nat →
  ReadFull_loop fuel r n acc = Some (d, e, r') →
  ∃ d', d = acc ++ d' ∧ stream r = d' ++ stream r' ∧ (length d <= n)%nat ∧
        (e = None ↔ length d = n).
Proof.
  revert r acc. induction fuel as [|fuel IH]; intros r acc Hacc; simpl; case_goal.
  1,3: apply Nat.leb_le in Heqb; intros [= <- <- <-]; exists [];
       rewrite app_nil_r; repeat split; try done; lia.
  - done.
  - apply Nat.leb_gt in Heqb. destruct (io_read _ _) as [[d0 e0] r0] eqn:Hr.
    apply read_stream in Hr as [Hs Hd]. destruct e0 as [e0|].
    + case_goal.
      { intros [= <- <- <-]. exists d0. apply Nat.leb_le in Heqb0.
        rewrite length_app in *. repeat split; try done; lia. }
      apply Nat.leb_gt in Heqb0. intros E.
      assert (d = acc ++ d0 ∧ r' = r0 ∧ e ≠ None) as (-> & -> & He)
        by (case_match; simplify_eq; done).
      exists d0. rewrite length_app in *. repeat split; try done; lia.
    + intros (d' & -> & Hs' & Hl & He)%IH; [|rewrite length_app; lia].
      exists (d0 ++ d'). split_and!; [by rewrite app_assoc| |done|apply He..].
      by rewrite Hs, Hs', app_assoc.
Qed.

(** A completed [io.ReadFull] has taken exactly what it reports from the front
    of the stream, and succeeds exactly when that fills the buffer. *)
Lemma ReadFull_stream fuel (r : R) n d e r' :
  ReadFull fuel r n = Some (d, e, r') →
  stream r = d ++ stream r' ∧ (length d <= n)%nat ∧ (e = None ↔ length d = n).
Proof.
  intros (d' & -> & ?)%ReadFull_loop_stream; simpl; [done|lia].
Qed.
End read_full.

Lemma br_rest_NewReader b : br_rest (NewReader b) = b.
Proof. done. Qed.

Lemma bytesReader_read_nonempty (r : bytesReader) n :
  br_rest r ≠ [] →
  io_read r n = (take n (br_rest r), None,
                 mkBytesReader (br_s r) (br_i r + length (take n (br_rest r)))).
Proof.
  intros Hne. unfold io_read, bytesReader_read. case_goal; [|done].
  apply Nat.leb_le in Heqb. unfold br_rest in Hne. by rewrite drop_ge in Hne by lia.
Qed.

Lemma bytesReader_read_empty (r : bytesReader) n :
  br_rest r = [] → io_read r n = ([], Some io_EOF, r).
Proof.
  intros He. unfold io_read, bytesReader_read. case_goal; [done|].
  apply Nat.leb_gt in Heqb. apply (f_equal length) in He.
  unfold br_rest in He. rewrite length_drop in He. simpl in He. lia.
Qed.

(** [io.ReadFull] on a byte slice: three reads are always enough. *)
Lemma ReadFull_bytesReader (r : bytesReader) n :
  ∃ r', ReadFull 3 r n =
    Some (take n (br_rest r),
          (if (n <=? length (br_rest r))%nat then None
           else if (0 <? length (br_rest r))%nat then Some io_ErrUnexpectedEOF
           else Some io_EOF), r')
    ∧ br_rest r' = drop n (br_rest r).
Proof.
  unfold ReadFull. cbn [ReadFull_loop length].
  destruct (n <=? 0)%nat eqn:En.
  { apply Nat.leb_le in En. assert (n = 0)%nat as -> by lia. by exists r. }
  apply Nat.leb_gt in En. rewrite Nat.sub_0_r.
  destruct (decide (br_rest r = [])) as [He|Hne].
  { rewrite bytesReader_read_empty by done. exists r. rewrite He. simpl.
    rewrite take_nil, drop_nil. destruct n; [lia|]. done. }
  destruct (io_read r n) as [[d e] r1] eqn:Hr. pose proof Hr as Hr'.
  rewrite bytesReader_read_nonempty in Hr by done.
  injection Hr as Hd He Hr1. subst e.
  apply read_stream in Hr' as [Hs Hl]. simpl in Hs.
  assert (br_rest r1 = drop n (br_rest r)) as Hrest.
  { rewrite <- (take_drop n (br_rest r)) in Hs at 1. rewrite <- Hd in Hs.
    by apply app_inv_head in Hs. }
  rewrite app_nil_l. destruct (n <=? length (br_rest r))%nat eqn:E1.
  - apply Nat.leb_le in E1. exists r1.
    assert (length d = n) as Hdn by (rewrite <- Hd; len_solve).
    rewrite (proj2 (Nat.leb_le n (length d))) by lia. by rewrite <- Hd.
  - apply Nat.leb_gt in E1. assert (d = br_rest r) as Hdr by (rewrite <- Hd; apply take_ge; lia).
    rewrite Hdr. destruct (n <=? length (br_rest r))%nat eqn:E2; [apply Nat.leb_le in E2; lia|].
    rewrite bytesReader_read_empty by (rewrite Hrest; apply drop_ge; lia).
    rewrite app_nil_r, E2. destruct (br_rest r) eqn:Eb; [done|]. exists r1.
    rewrite Hrest. rewrite take_ge by lia. done.
Qed.

Lemma bytesReader_read_app (r : bytesReader) a t :
  br_rest r = a ++ t → a ++ t ≠ [] →
  ∃ r', io_read r (length a) = (a, None, r') ∧ br_rest r' = t.
Proof.
  intros Hr Hne. destruct (io_read r (length a)) as [[d e] r'] eqn:E. pose proof E as E'.
  rewrite bytesReader_read_nonempty, Hr, take_app_length in E by by rewrite Hr.
  injection E as <- <- _. exists r'. split; [done|].
  apply read_stream in E' as [Hs _]. simpl in Hs. rewrite Hr in Hs. by apply app_inv_head in Hs.
Qed.

Lemma netConn_read_cons ch rest e n :
  io_read (mkConn (ch :: rest) e) n =
  if (length ch <=? n)%nat then (ch, None, mkConn rest e)
  else (take n ch, None, mkConn (drop n ch :: rest) e).
Proof. done. Qed.

(** [io.ReadFull] on a connection: however the bytes are chunked, one read per chunk and
    one more are enough when the bytes are there. *)
Lemma ReadFull_loop_netConn (c : netConn) n acc fuel :
  (length acc <= n)%nat → (n - length acc <= length (stream c))%nat →
  (length (nc_chunks c) < fuel)%nat →
  ∃ c', ReadFull_loop fuel c n acc = Some (acc ++ take (n - length acc) (stream c), None, c') ∧
        stream c' = drop (n - length acc) (stream c) ∧
        (length (nc_chunks c') <= length (nc_chunks c))%nat.
Proof.
  revert c acc. induction fuel as [|fuel IH]; intros c acc Ha Hn Hf; [lia|].
  cbn [ReadFull_loop]. destruct (n <=? length acc)%nat eqn:E.
  { apply Nat.leb_le in E. replace (n - length acc)%nat with 0%nat by lia.
    exists c. rewrite take_0, drop_0, app_nil_r. done. }
  apply Nat.leb_gt in E. destruct c as [[|ch rest] e]; simpl in Hn; [lia|].
  rewrite netConn_read_cons.
  change (stream (mkConn (ch :: rest) e)) with (ch ++ stream (mkConn rest e)).
  destruct (length ch <=? n - length acc)%nat eqn:El.
  - apply Nat.leb_le in El. rewrite length_app in Hn.
    destruct (IH (mkConn rest e) (acc ++ ch)) as (c' & -> & Hs & Hc);
      [len_solve|simpl; len_solve|simpl in *; lia|].
    exists c'. rewrite length_app in *.
    replace (n - (length acc + length ch))%nat with (n - length acc - length ch)%nat in * by lia.
    rewrite take_app_ge, drop_app_ge, <- app_assoc by lia. split; [done|].
    split; [done|]. simpl in *. lia.
  - apply Nat.leb_gt in El. exists (mkConn (drop (n - length acc) ch :: rest) e).
    assert (n <=? length (acc ++ take (n - length acc) ch) = true)%nat as Hdone
      by (apply Nat.leb_le; len_solve).
    rewrite take_app_le, drop_app_le by lia.
    destruct fuel; cbn [ReadFull_loop]; rewrite Hdone; done.
Qed.

Lemma ReadFull_netConn (c : netConn) n fuel :
  (n <= length (stream c))%nat → (length (nc_chunks c) < fuel)%nat →
  ∃ c', ReadFull fuel c n = Some (take n (stream c), None, c') ∧
        stream c' = drop n (stream c) ∧ (length (nc_chunks c') <= length (nc_chunks c))%nat.
Proof.
  intros Hn Hf. destruct (ReadFull_loop_netConn c n [] fuel) as (c' & Hr & Hs & Hc);
    cbn [length]; [lia..|]. cbn [length] in *. rewrite Nat.sub_0_r in *. by exists c'.
Qed.

(** With one read per chunk and one more, [io.ReadFull] ends on every connection, also on
    one that stops too early. *)
Lemma ReadFull_loop_netConn_total (c : netConn) n acc fuel :
  (length (nc_chunks c) < fuel)%nat →
  ∃ d e c', ReadFull_loop fuel c n acc = Some (d, e, c') ∧
    (length (nc_chunks c') <= length (nc_chunks c))%nat.
Proof.
  revert c acc. induction fuel as [|fuel IH]; intros c acc Hf; [lia|]. cbn [ReadFull_loop].
  destruct (n <=? length acc)%nat eqn:E; [by eauto|]. apply Nat.leb_gt in E.
  destruct c as [[|ch rest] e].
  { unfold io_read, netConn_read. cbn [nc_chunks nc_end]. repeat case_match; eauto 10. }
  rewrite netConn_read_cons. destruct (length ch <=? n - length acc)%nat eqn:El.
  - destruct (IH (mkConn rest e) (acc ++ ch)) as (d & e' & c' & -> & Hc); [simpl in *; lia|].
    eexists _, _, _. split; [reflexivity|]. simpl in *. lia.
  - apply Nat.leb_gt in El.
    assert (n <=? length (acc ++ take (n - length acc) ch) = true)%nat as Hdone
      by (apply Nat.leb_le; len_solve).
    destruct fuel; cbn [ReadFull_loop]; rewrite Hdone; eexists _, _, _; (split; [reflexivity|]); done.
Qed.

Lemma ReadFull_netConn_total (c : netConn) n fuel :
  (length (nc_chunks c) < fuel)%nat →
  ∃ d e c', ReadFull fuel c n = Some (d, e, c') ∧ (length (nc_chunks c') <= length (nc_chunks c))%nat.
Proof. apply ReadFull_loop_netConn_total. Qed.
