(* ===== verification/GoNet.v ===== *)
(** * Host and port

    [net.SplitHostPort] and [net.JoinHostPort] of Go's standard library, with which the
    HTTP handler gets at the IP part of a client's address, and that splitting inverts
    joining. *)
From S2P Require Import Prelude.
From Stdlib Require Import Ascii.
From stdpp Require Import pretty.

Abbreviation colon := (":"%char).
Abbreviation lbracket := ("["%char).
Abbreviation rbracket := ("]"%char).

(** [strings.IndexByte] and [strings.LastIndexByte]; [None] is -1. *)
Fixpoint index_byte (c : ascii) (l : list ascii) : option nat :=
  match l with
  | [] => None
  | x :: l => if bool_decide (x = c) then Some O else S <$> index_byte c l
  end.

Fixpoint last_index_byte (c : ascii) (l : list ascii) : option nat :=
  match l with
  | [] => None
  | x :: l =>
    match last_index_byte c l with
    | Some i => Some (S i)
    | None => if bool_decide (x = c) then Some O else None
    end
  end.

Definition missingPort : goerror := errors_New "missing port in address".
Definition tooManyColons : goerror := errors_New "too many colons in address".

Definition split_chars (l : list ascii) : outcome (list ascii * list ascii) :=
  let finish i host j k :=
    if index_byte lbracket (drop j l) then Err (errors_New "unexpected '[' in address")
    else if index_byte rbracket (drop k l) then Err (errors_New "unexpected ']' in address")
    else Ok (host, drop (S i) l) in
  match last_index_byte colon l with
  | None => Err missingPort
  | Some i =>
    if bool_decide (head l = Some lbracket) then
      match index_byte rbracket l with
      | None => Err (errors_New "missing ']' in address")
      | Some e =>
        if bool_decide (S e = length l) then Err missingPort
        else if bool_decide (S e = i) then finish i (slice 1 e l) 1%nat (S e)
        else if bool_decide (l !! S e = Some colon) then Err tooManyColons else Err missingPort
      end
    else if index_byte colon (take i l) then Err tooManyColons
    else finish i (take i l) O O
  end.

Definition SplitHostPort (hostport : string) : outcome (string * string) :=
  let! (host, port) := split_chars (String.list_ascii_of_string hostport) in
  Ok (String.string_of_list_ascii host, String.string_of_list_ascii port).

Definition join_chars (host port : list ascii) : list ascii :=
  if index_byte colon host then lbracket :: host ++ rbracket :: colon :: port
  else host ++ colon :: port.

Definition JoinHostPort (host port : string) : string :=
  String.string_of_list_ascii (join_chars (String.list_ascii_of_string host) (String.list_ascii_of_string port)).

(** [String] of a [net.UDPAddr], without a zone. *)
Definition UDPAddr_String (ip : string) (port : Z) : string := JoinHostPort ip (pretty port).

(** An address without brackets and with a plain port. *)
Definition host_ok (host : list ascii) : Prop := lbracket ∉ host ∧ rbracket ∉ host.
Definition port_ok (port : list ascii) : Prop := colon ∉ port ∧ lbracket ∉ port ∧ rbracket ∉ port.
Definition addr_ok (host port : string) : Prop :=
  host_ok (String.list_ascii_of_string host) ∧ port_ok (String.list_ascii_of_string port).

#[global] Instance addr_ok_dec host port : Decision (addr_ok host port).
Proof. unfold addr_ok, host_ok, port_ok. apply _. Defined.

Lemma index_byte_None c l : index_byte c l = None ↔ c ∉ l.
Proof.
  induction l as [|x l IH]; cbn [index_byte]; [by split; [inversion 2|]|].
  rewrite elem_of_cons. case_bool_decide as Hx; [subst; naive_solver|].
  rewrite fmap_None, IH. naive_solver.
Qed.

Lemma index_byte_app c l l' : c ∉ l → index_byte c (l ++ c :: l') = Some (length l).
Proof.
  induction l as [|x l IH]; cbn [index_byte app]; intros Hc.
  - by rewrite bool_decide_eq_true_2.
  - apply not_elem_of_cons in Hc as [Hx Hc]. rewrite bool_decide_eq_false_2 by congruence. by rewrite IH.
Qed.

Lemma last_index_byte_app c l l' : c ∉ l' → last_index_byte c (l ++ c :: l') = Some (length l).
Proof.
  intros Hc. induction l as [|x l IH]; cbn [last_index_byte app length].
  - assert (last_index_byte c l' = None) as ->; [|by rewrite bool_decide_eq_true_2].
    clear -Hc. induction l' as [|x l' IH]; cbn [last_index_byte]; [done|].
    apply not_elem_of_cons in Hc as [Hx Hc]. rewrite IH by done.
    by rewrite bool_decide_eq_false_2 by congruence.
  - by rewrite IH.
Qed.

Lemma split_bracketed host port :
  host_ok host → port_ok port →
  split_chars (lbracket :: host ++ rbracket :: colon :: port) = Ok (host, port).
Proof.
  intros [H1 H2] (P1 & P2 & P3). unfold split_chars. set (l := lbracket :: _).
  assert (l = (lbracket :: host ++ [rbracket]) ++ colon :: port) as E
    by (unfold l; by rewrite <- app_comm_cons, <- app_assoc).
  assert (last_index_byte colon l = Some (S (S (length host)))) as ->.
  { rewrite E, last_index_byte_app by done. f_equal. rewrite length_cons, length_app. simpl. lia. }
  rewrite bool_decide_eq_true_2 by done.
  assert (index_byte rbracket l = Some (S (length host))) as ->.
  { unfold l. rewrite app_comm_cons. rewrite (index_byte_app rbracket (lbracket :: host)); [done|].
    apply not_elem_of_cons. by split; [discriminate|]. }
  rewrite bool_decide_eq_false_2.
  2: { unfold l. rewrite length_cons, length_app. simpl. lia. }
  rewrite bool_decide_eq_true_2 by done. cbv zeta.
  assert (index_byte lbracket (drop 1 l) = None) as ->.
  { apply index_byte_None. unfold l. change (drop 1 (lbracket :: ?t)) with t.
    rewrite elem_of_app, !elem_of_cons. naive_solver. }
  assert (drop (S (S (length host))) l = colon :: port) as Hd2.
  { unfold l. cbn [drop]. change (rbracket :: colon :: port) with ([rbracket] ++ colon :: port).
    rewrite app_assoc. replace (S (length host)) with (length (host ++ [rbracket]))
      by (rewrite length_app; simpl; lia). apply drop_app_length. }
  rewrite Hd2. assert (index_byte rbracket (colon :: port) = None) as ->.
  { apply index_byte_None. apply not_elem_of_cons. by split; [discriminate|]. }
  f_equal. f_equal.
  + unfold l, slice. cbn [drop]. replace (S (length host) - 1)%nat with (length host) by lia.
    apply take_app_length.
  + replace (S (S (S (length host)))) with (S (S (length host)) + 1)%nat by lia.
    rewrite <- drop_drop, Hd2. done.
Qed.

Lemma split_plain host port :
  host_ok host → port_ok port → colon ∉ host →
  split_chars (host ++ colon :: port) = Ok (host, port).
Proof.
  intros [H1 H2] (P1 & P2 & P3) Ec. unfold split_chars. rewrite last_index_byte_app by done.
  rewrite bool_decide_eq_false_2.
  2: { destruct host as [|x host]; cbn; intros [= ->]. apply H1. by left. }
  rewrite take_app_length. rewrite (proj2 (index_byte_None colon host)) by done. cbv zeta.
  rewrite !drop_0.
  assert (∀ b, b ≠ colon → b ∉ host → b ∉ port → index_byte b (host ++ colon :: port) = None) as Hb.
  { intros b ???. apply index_byte_None. rewrite elem_of_app, elem_of_cons. naive_solver. }
  rewrite !Hb by done. f_equal. f_equal.
  replace (S (length host)) with (length host + 1)%nat by lia.
  by rewrite <- drop_drop, drop_app_length.
Qed.

Lemma split_join_chars host port :
  host_ok host → port_ok port → split_chars (join_chars host port) = Ok (host, port).
Proof.
  intros Hh Hp. unfold join_chars. destruct (index_byte colon host) eqn:Ec.
  - by apply split_bracketed.
  - apply index_byte_None in Ec. by apply split_plain.
Qed.

(** The IP of an address is found again, IPv4 and IPv6. *)
Lemma SplitHostPort_JoinHostPort host port :
  addr_ok host port → SplitHostPort (JoinHostPort host port) = Ok (host, port).
Proof.
  intros [Hh Hp]. unfold SplitHostPort, JoinHostPort. rewrite String.list_ascii_of_string_of_list_ascii.
  rewrite split_join_chars by done. cbn [obind]. by rewrite !String.string_of_list_ascii_of_string.
Qed.
