(* ===== verification/Rewind.v ===== *)
(** * Rewinding readers and connections

    internal/utils/rewindreader.go and internal/utils/rewindconn.go: a reader
    (a connection) with bytes put back in front of it.  Both are shown to
    satisfy the reader law, so what was put back is delivered again, unchanged
    and in order. *)
From S2P Require Import Prelude GoIO.

(** ** [rewindReader] *)

(** An [io.Reader] as the frame parser passes it around: the reader it was given,
    under any number of rewinds. *)
Inductive ioReader (R : Type) :=
  | Direct (r : R)
  | rewindReader (Reader : ioReader R) (rr : bytesReader).
Arguments Direct {R} r.
Arguments rewindReader {R} Reader rr.

Definition RewindReader {R} (r : ioReader R) (buf : bytes) : ioReader R :=
  if len buf =? 0 then r else rewindReader r (NewReader buf).

(** [rewindReader.Read] (and dispatch to the reader underneath). *)
Fixpoint rewindReader_Read `{IOReader R} (c : ioReader R) (n : nat)
    : (bytes * option goerror) * ioReader R :=
  match c with
  | Direct r => let '(d, e, r') := io_read r n in (d, e, Direct r')
  | rewindReader inner rr =>
    if br_Size rr =? 0 then
      let '(d, e, inner') := rewindReader_Read inner n in
      (d, e, rewindReader inner' rr)
    else
      let '(d, e, rr') := io_read rr n in
      if bool_decide (e = Some io_EOF) || (br_Len rr' =? 0) then
        let '(d2, e2, inner') := rewindReader_Read inner (n - length d) in
        (d ++ d2, e2, rewindReader inner' (br_Reset []))
      else (d, e, rewindReader inner rr')
  end.

#[global] Instance ioReader_read `{IOReader R} : IOReader (ioReader R) :=
  rewindReader_Read.

Fixpoint ioReader_stream `{StreamReader R} (c : ioReader R) : bytes :=
  match c with
  | Direct r => stream r
  | rewindReader inner rr => br_rest rr ++ ioReader_stream inner
  end.

Lemma br_Size_rest rr : br_Size rr = 0 → br_rest rr = [].
Proof.
  unfold br_Size, br_rest. intros. destruct (br_s rr); [apply drop_nil|done].
Qed.

Lemma br_Len_rest rr : br_Len rr = 0 → br_rest rr = [].
Proof. unfold br_Len. by destruct (br_rest rr). Qed.

Lemma bytesReader_read_EOF (rr rr' : bytesReader) n d :
  io_read rr n = (d, Some io_EOF, rr') → d = [] ∧ rr' = rr ∧ br_rest rr = [].
Proof.
  destruct (decide (br_rest rr = [])) as [He|Hne].
  - rewrite bytesReader_read_empty by done. by intros [= <- <-].
  - by rewrite bytesReader_read_nonempty.
Qed.

#[global, program] Instance ioReader_lawful `{StreamReader R} : StreamReader (ioReader R) :=
  {| stream := ioReader_stream |}.
Next Obligation.
  intros R ?? c. induction c as [r|inner IH rr]; intros n d e r';
    unfold io_read at 1; unfold ioReader_read; simpl.
  - destruct (io_read r n) as [[d0 e0] r0] eqn:Hr. intros [= <- <- <-].
    by apply read_stream in Hr.
  - case_goal.
    + destruct (rewindReader_Read inner n) as [[d0 e0] i0] eqn:Hr. intros [= <- <- <-].
      apply IH in Hr as [Hs Hl]. simpl. bool_facts. by rewrite br_Size_rest.
    + destruct (io_read rr n) as [[d0 e0] rr0] eqn:Hr.
      pose proof Hr as Hr'. apply read_stream in Hr' as [Hs Hl]. simpl in Hs.
      case_goal.
      * destruct (rewindReader_Read inner _) as [[d2 e2] i2] eqn:Hi. intros [= <- <- <-].
        apply IH in Hi as [Hs2 Hl2]. simpl. rewrite Hs, Hs2.
        assert (br_rest rr0 = []) as ->.
        { apply orb_true_iff in Heqb0 as [?|?]; bool_facts.
          - subst. apply bytesReader_read_EOF in Hr as (?&->&?). done.
          - by apply br_Len_rest. }
        rewrite app_nil_r, length_app, app_assoc. split; [done|lia].
      * intros [= <- <- <-]. simpl. rewrite Hs. by rewrite app_assoc.
Qed.

Lemma RewindReader_stream `{StreamReader R} (r : ioReader R) buf :
  stream (RewindReader r buf) = buf ++ stream r.
Proof.
  unfold RewindReader. case_goal; [|done]. bool_facts. by destruct buf.
Qed.

(** ** [rewindConn] *)

(** A connection as [RewindConn] returns it. *)
Inductive conn (C : Type) :=
  | plainConn (c : C)
  | rewindConn (Conn : C) (reader : bytesReader).
Arguments plainConn {C} c.
Arguments rewindConn {C} Conn reader.

(** [c == nil] is [None]. *)
Definition RewindConn {C} (c : option C) (buf : bytes) : outcome (conn C) :=
  match c with
  | None => Err (errors_New "cannot rewind nil connection")
  | Some c => Ok (if len buf =? 0 then plainConn c else rewindConn c (NewReader buf))
  end.

Definition rewindConn_Read `{IOReader C} (c : conn C) (n : nat)
    : (bytes * option goerror) * conn C :=
  match c with
  | plainConn c => let '(d, e, c') := io_read c n in (d, e, plainConn c')
  | rewindConn inner reader =>
    if br_Size reader =? 0 then
      let '(d, e, inner') := io_read inner n in (d, e, rewindConn inner' reader)
    else
      let '(d, e, reader') := io_read reader n in
      if bool_decide (e = Some io_EOF) then (d, None, rewindConn inner (br_Reset []))
      else (d, e, rewindConn inner reader')
  end.

#[global] Instance conn_read `{IOReader C} : IOReader (conn C) := rewindConn_Read.

(** [rewindConn.CloseWrite]; the two parameters are the type assertions to
    [net.TCPConn] and to an interface with [CloseWrite], with the result of the
    method when the assertion holds. *)
Definition CloseWrite {C} (asTCPConn asCloseWriter : C → option (option goerror))
    (c : conn C) : option goerror :=
  let inner := match c with plainConn c => c | rewindConn c _ => c end in
  match asTCPConn inner with
  | Some r => r
  | None =>
    match asCloseWriter inner with
    | Some r => r
    | None => Some (errors_New "not supported")
    end
  end.

#[global, program] Instance conn_lawful `{StreamReader C} : StreamReader (conn C) :=
  {| stream := λ c, match c with
                    | plainConn c => stream c
                    | rewindConn c reader => br_rest reader ++ stream c
                    end |}.
Next Obligation.
  intros C ?? [c|inner rd] n d e r'; unfold io_read at 1; unfold conn_read; simpl.
  - destruct (io_read c n) as [[d0 e0] c0] eqn:Hr. intros [= <- <- <-].
    by apply read_stream in Hr.
  - case_goal.
    + destruct (io_read inner n) as [[d0 e0] c0] eqn:Hr. intros [= <- <- <-].
      apply read_stream in Hr as [Hs Hl]. bool_facts. by rewrite br_Size_rest.
    + destruct (io_read rd n) as [[d0 e0] r0] eqn:Hr. pose proof Hr as Hr'.
      apply read_stream in Hr' as [Hs Hl]. simpl in Hs. case_goal.
      * intros [= <- <- <-]. bool_facts. subst.
        apply bytesReader_read_EOF in Hr as (->&->&->). split; [done|simpl; lia].
      * intros [= <- <- <-]. rewrite Hs. by rewrite app_assoc.
Qed.

(** ** Reading a stream to exhaustion *)

(** The bytes delivered by a sequence of [Read] calls with buffers of the given
    sizes (errors do not stop the caller here). *)
Fixpoint reads `{IOReader R} (r : R) (ns : list nat) : bytes * R :=
  match ns with
  | [] => ([], r)
  | n :: ns =>
    let '(d, _, r1) := io_read r n in
    let '(d', r2) := reads r1 ns in (d ++ d', r2)
  end.

Lemma reads_stream `{StreamReader R} (r : R) ns d r' :
  reads r ns = (d, r') → stream r = d ++ stream r'.
Proof.
  revert r d. induction ns as [|n ns IH]; intros r d; simpl; [by intros [= <- <-]|].
  destruct (io_read r n) as [[d0 e0] r0] eqn:Hr. destruct (reads r0 ns) as [d1 r1] eqn:Hrs.
  intros [= <- <-]. apply read_stream in Hr as [-> _]. rewrite (IH _ _ Hrs). by rewrite app_assoc.
Qed.

(** Whatever buffer sizes the caller uses, a rewound connection delivers the
    rewound bytes first and then exactly what the underlying connection would
    have delivered: nothing lost, duplicated or reordered. *)
Theorem RewindConn_transparent `{StreamReader C} (c : C) buf rc ns d rc' :
  RewindConn (Some c) buf = Ok rc → reads rc ns = (d, rc') →
  buf ++ stream c = d ++ stream rc'.
Proof.
  intros Hrc Hrs. apply reads_stream in Hrs. rewrite <- Hrs. clear Hrs.
  unfold RewindConn in Hrc. injection Hrc as <-. case_goal; [|done].
  bool_facts. by destruct buf.
Qed.

Lemma RewindConn_transparent_witness :
  [1; 2; 3] ++ stream (mkConn [[4]; [5; 6]] io_EOF) =
  [1; 2; 3; 4; 5] ++ stream (rewindConn (mkConn [[6]] io_EOF) (NewReader [])).
Proof.
  apply (RewindConn_transparent (mkConn [[4]; [5; 6]] io_EOF) [1; 2; 3]
           (rewindConn (mkConn [[4]; [5; 6]] io_EOF) (NewReader [1; 2; 3]))
           [2; 2; 7; 7; 1]%nat [1; 2; 3; 4; 5] (rewindConn (mkConn [[6]] io_EOF) (NewReader [])));
    reflexivity.
Defined.

(** An error returned by a rewound connection is one its underlying
    connection returned; the end of the rewound bytes is reported as [0, nil]. *)
Theorem rewindConn_errors_from_conn `{IOReader C} (c : C) rd n d e rc' :
  rewindConn_Read (rewindConn c rd) n = (d, Some e, rc') →
  br_Size rd = 0 ∧ ∃ d' c', io_read c n = (d', Some e, c').
Proof.
  simpl. case_goal.
  - destruct (io_read c n) as [[d0 e0] c0] eqn:Hr. intros [= <- -> <-].
    bool_facts. eauto.
  - destruct (decide (br_rest rd = [])).
    + rewrite bytesReader_read_empty by done. simpl. done.
    + rewrite bytesReader_read_nonempty by done. simpl. done.
Qed.

Lemma rewindConn_errors_from_conn_witness :
  br_Size (NewReader []) = 0 ∧
  ∃ d' c', io_read (mkConn [] io_EOF) 4 = (d', Some io_EOF, c').
Proof.
  apply (rewindConn_errors_from_conn (mkConn [] io_EOF) (NewReader []) 4 []
           io_EOF (rewindConn (mkConn [] io_EOF) (NewReader []))).
  reflexivity.
Defined.
