(* ===== verification/Utils.v ===== *)
(** * Slices, conversions and GREASE

    internal/utils/arr_dedup.go, internal/utils/typeconv.go,
    internal/utils/utls.go, and [dedupUint8], [isGREASEU16], [ungreaseU16],
    [ungreasePSK], [isGREASEALPN] of fingerprint_hash.go. *)
From S2P Require Import Prelude.

(** ** Removing adjacent duplicates in place *)

(** One iteration of the loop of [DedupIntArr]: [j] is the index of the last kept
    element, [arr] the backing array. *)
Definition dedup_step (st : nat * list Z) (i : nat) : nat * list Z :=
  let '(j, arr) := st in
  if bool_decide (arr !! j = arr !! i) then (j, arr)
  else (S j, match arr !! i with Some v => <[S j := v]> arr | None => arr end).

(** [DedupIntArr(arr)]; [spare] is what lies between [len(arr)] and [cap(arr)],
    which the final slice expression [arr[:j+1]] can reach. *)
Definition DedupIntArr (arr spare : list Z) : outcome (list Z) :=
  let arr := sort_ints arr in
  let '(j, arr') := foldl dedup_step (0%nat, arr) (seq 1 (length arr - 1)) in
  if (S j <=? length (arr' ++ spare))%nat then Ok (take (S j) (arr' ++ spare))
  else Panic "slice bounds out of range".

(** [dedupUint8]: [out] is the prefix of length [m] of the array it ranges over,
    so [append] overwrites that array in place. *)
Definition dedupUint8_step (st : nat * list Z) (i : nat) : nat * list Z :=
  let '(m, arr) := st in
  match arr !! i with
  | None => (m, arr)
  | Some v =>
    if bool_decide (arr !! (m - 1)%nat = Some v) then (m, arr) else (S m, <[m := v]> arr)
  end.

Definition dedupUint8 (s : list Z) : list Z :=
  match s with
  | [] => s
  | _ =>
    let '(m, arr) := foldl dedupUint8_step (1%nat, s) (seq 1 (length s - 1)) in
    take m arr
  end.

(** Reference: keep the first of every run of equal neighbours. *)
Fixpoint dedup_adj (l : list Z) : list Z :=
  match l with
  | a :: ((b :: _) as l') => if a =? b then dedup_adj l' else a :: dedup_adj l'
  | _ => l
  end.

(** ** Conversions *)

Definition Uint16ToUint8 (a : list Z) : bytes :=
  foldl (λ b v, b ++ [u8 (Z.shiftr v 8); u8 v]) [] a.

(** ** GREASE *)

Definition IsGREASEUint16 (v : Z) : bool :=
  (Z.shiftr v 8 =? Z.land v 0xff) && (Z.land v 0xf =? 0xa).

Definition isGREASEU16 (v : Z) : bool :=
  let high := Z.land (Z.shiftr v 8) 0xFF in
  let low := Z.land v 0xFF in
  (high =? low) && (Z.land low 0x0F =? 0x0A).

Definition ungreaseU16 (v : Z) : Z := if isGREASEU16 v then 0x0A0A else v.

Definition pskGREASE : list Z := [0x0B; 0x2A; 0x49; 0x68; 0x87; 0xA6; 0xC5; 0xE4].

Definition ungreasePSK (v : Z) : Z :=
  if existsb (Z.eqb v) pskGREASE then 0x0B else v.

(** Strings are the byte sequences they hold. *)
Definition isGREASEALPN (s : bytes) : bool :=
  match s with
  | [a; b] => (a =? b) && (Z.land a 0x0F =? 0x0A)
  | _ => false
  end.

(** ** Lemmas *)

Lemma Uint16ToUint8_flat a : Uint16ToUint8 a = flat_map (be_encode 2) a.
Proof.
  unfold Uint16ToUint8.
  assert (∀ acc, foldl (λ b v, b ++ [u8 (Z.shiftr v 8); u8 v]) acc a
                 = acc ++ flat_map (be_encode 2) a) as H; [|apply H].
  induction a as [|v a IH]; intros acc; simpl; [by rewrite app_nil_r|].
  rewrite IH. unfold u8. by rewrite Z.shiftr_0_r, <- app_assoc.
Qed.

(** The sixteen reserved values of RFC 8701. *)
Definition grease_values : list Z := (λ k, 0x0A0A + 0x1010 * Z.of_nat k) <$> seq 0 16.

Lemma u16_exhaustive (P : Z → bool) :
  (let r := Z.of_nat <$> seq 0 256 in
   forallb (λ h, forallb (λ l, P (h * 256 + l)) r) r) = true →
  ∀ v, is_u16 v → P v = true.
Proof.
  intros H v [Hv1 Hv2]. cbv zeta in H. rewrite forallb_forall in H.
  assert (∀ b, 0 <= b < 256 → In b (Z.of_nat <$> seq 0 256)) as Hin.
  { intros b Hb. apply list_elem_of_In, list_elem_of_fmap. exists (Z.to_nat b).
    split; [lia|]. apply elem_of_seq. lia. }
  assert (0 <= v / 256 < 256) as Hd.
  { split; [apply Z.div_pos; lia|apply Z.div_lt_upper_bound; lia]. }
  specialize (H (v / 256) (Hin _ Hd)). rewrite forallb_forall in H.
  specialize (H (v mod 256) (Hin _ ltac:(apply Z.mod_pos_bound; lia))).
  by rewrite Z.mul_comm, <- Z.div_mod in H.
Qed.

Lemma grease_check v :
  is_u16 v →
  eqb (IsGREASEUint16 v) (existsb (Z.eqb v) grease_values) &&
  eqb (isGREASEU16 v) (existsb (Z.eqb v) grease_values) = true.
Proof.
  revert v.
  apply (u16_exhaustive (λ v,
    eqb (IsGREASEUint16 v) (existsb (Z.eqb v) grease_values) &&
    eqb (isGREASEU16 v) (existsb (Z.eqb v) grease_values))).
  vm_compute. reflexivity.
Qed.

(** The two GREASE tests of the code base (internal/utils and
    fingerprint_hash.go) agree on every [uint16], and accept exactly the sixteen
    values RFC 8701 reserves. *)
Theorem grease_tests_agree v :
  is_u16 v →
  IsGREASEUint16 v = isGREASEU16 v ∧ (isGREASEU16 v = true ↔ v ∈ grease_values).
Proof.
  intros Hv. apply grease_check in Hv. apply andb_true_iff in Hv as [H1 H2].
  apply eqb_prop in H1, H2. rewrite H1, H2. split; [done|].
  rewrite existsb_exists. setoid_rewrite Z.eqb_eq. setoid_rewrite <- list_elem_of_In.
  split; [by intros (x & Hx & ->)|eauto].
Qed.

Lemma grease_tests_agree_witness :
  IsGREASEUint16 0x3A3A = isGREASEU16 0x3A3A ∧
  (isGREASEU16 0x3A3A = true ↔ 0x3A3A ∈ grease_values).
Proof. apply (grease_tests_agree 0x3A3A). unfold is_u16. lia. Defined.

Lemma ungreaseU16_idem v : ungreaseU16 (ungreaseU16 v) = ungreaseU16 v.
Proof. unfold ungreaseU16. destruct (isGREASEU16 v) eqn:E; [done|by rewrite E]. Qed.

Lemma ungreasePSK_idem v : ungreasePSK (ungreasePSK v) = ungreasePSK v.
Proof. unfold ungreasePSK. destruct (existsb (Z.eqb v) pskGREASE) eqn:E; [done|by rewrite E]. Qed.

(** *** Adjacent duplicates *)

Lemma dedup_adj_cons2 a b l :
  dedup_adj (a :: b :: l) = if a =? b then dedup_adj (b :: l) else a :: dedup_adj (b :: l).
Proof. done. Qed.

Lemma dedup_adj_last l x : last (dedup_adj (l ++ [x])) = Some x.
Proof.
  induction l as [|a l IH]; [done|]. rewrite <- app_comm_cons.
  destruct (l ++ [x]) as [|b l'] eqn:E; [by destruct l|].
  rewrite dedup_adj_cons2. case_goal; [done|]. by rewrite last_cons, IH.
Qed.

Lemma dedup_adj_snoc l x y :
  dedup_adj ((l ++ [x]) ++ [y]) =
  if bool_decide (x = y) then dedup_adj (l ++ [x]) else dedup_adj (l ++ [x]) ++ [y].
Proof.
  induction l as [|a l IH].
  { simpl. destruct (x =? y) eqn:E; bool_facts.
    - subst. by rewrite bool_decide_true.
    - by rewrite bool_decide_false. }
  rewrite <- !app_comm_cons.
  destruct (l ++ [x]) as [|b l'] eqn:E; [by destruct l|].
  rewrite <- !app_comm_cons in *. rewrite !dedup_adj_cons2.
  destruct (a =? b); [done|]. rewrite IH. by case_bool_decide.
Qed.

Lemma dedup_adj_elem l x : x ∈ dedup_adj l ↔ x ∈ l.
Proof.
  induction l as [|a l IH]; [done|]. simpl. destruct l as [|b l']; [done|].
  case_goal.
  - bool_facts. subst. rewrite IH, !elem_of_cons. tauto.
  - rewrite !elem_of_cons, IH, elem_of_cons. done.
Qed.

Lemma dedup_adj_sorted l :
  StronglySorted Z.le l → StronglySorted Z.lt (dedup_adj l).
Proof.
  induction 1 as [|a l Hs IH Ha]; [constructor|]. simpl.
  destruct l as [|b l']; [repeat constructor|]. case_goal; [done|]. bool_facts.
  constructor; [done|]. apply Forall_forall. intros y Hy. rewrite (dedup_adj_elem (b :: l')) in Hy.
  rewrite Forall_forall in Ha. pose proof (Ha b ltac:(constructor)).
  apply elem_of_cons in Hy as [->|Hy]; [lia|].
  inversion_clear Hs as [|?? Hs' Hb]. rewrite Forall_forall in Hb. specialize (Hb _ Hy). lia.
Qed.

Lemma dedup_adj_length l : (length (dedup_adj l) <= length l)%nat.
Proof.
  induction l as [|a l IH]; [done|]. simpl. destruct l as [|b l']; [simpl; lia|].
  case_goal; simpl in *; lia.
Qed.

(** The invariant of the in-place loops: after [i] elements the kept prefix is the
    reference result for them, and the unread suffix is untouched. *)
Definition dedup_inv (orig : list Z) (i m : nat) (arr : list Z) : Prop :=
  length arr = length orig ∧ (1 <= m <= i)%nat ∧
  take m arr = dedup_adj (take i orig) ∧ drop i arr = drop i orig.

Lemma dedup_inv_step orig i m arr v :
  dedup_inv orig i m arr → orig !! i = Some v →
  dedup_inv orig (S i) (if bool_decide (arr !! (m - 1)%nat = Some v) then m else S m)
    (if bool_decide (arr !! (m - 1)%nat = Some v) then arr else <[m := v]> arr)
  ∧ arr !! i = Some v.
Proof.
  intros (Hlen & Hm & Htake & Hdrop) Hv.
  pose proof (lookup_lt_Some _ _ _ Hv) as Hi.
  assert (arr !! i = Some v) as Hai.
  { rewrite <- (Nat.add_0_r i), <- lookup_drop, Hdrop, lookup_drop, Nat.add_0_r. done. }
  split; [|done].
  assert (∃ l x, take i orig = l ++ [x]) as (l & x & Hl).
  { destruct (exists_last (l := take i orig)) as (l & x & ->); eauto.
    intros E. apply (f_equal length) in E. rewrite length_take in E. simpl in E. lia. }
  assert (arr !! (m - 1)%nat = Some x) as Hx.
  { rewrite <- (dedup_adj_last l x), <- Hl, <- Htake, last_lookup.
    rewrite length_take, Nat.min_l by lia. rewrite lookup_take_lt by lia. f_equal. lia. }
  assert (take (S i) orig = (l ++ [x]) ++ [v]) as HS.
  { rewrite <- Hl. by apply take_S_r. }
  unfold dedup_inv. rewrite Hx, HS, dedup_adj_snoc, <- Hl, <- Htake.
  assert (drop (S i) arr = drop (S i) orig) as HdS.
  { replace (S i) with (i + 1)%nat by lia. rewrite <- !drop_drop. by rewrite Hdrop. }
  destruct (decide (x = v)) as [->|Hne].
  - rewrite !bool_decide_true by done. split_and!; try done; lia.
  - rewrite !bool_decide_false by congruence. rewrite length_insert. split_and!; try done; try lia.
    + rewrite (take_S_r _ _ v) by (apply list_lookup_insert_eq; lia).
      by rewrite take_insert_ge by lia.
    + by rewrite drop_insert_lt by lia.
Qed.

Lemma dedup_inv_init a orig : dedup_inv (a :: orig) 1 1 (a :: orig).
Proof. unfold dedup_inv. simpl. rewrite take_0. split_and!; try done; lia. Qed.

Lemma dedupUint8_loop orig k i m arr :
  dedup_inv orig i m arr → (i + k = length orig)%nat →
  ∃ m' arr', foldl dedupUint8_step (m, arr) (seq i k) = (m', arr') ∧
             dedup_inv orig (length orig) m' arr'.
Proof.
  revert i m arr. induction k as [|k IH]; intros i m arr Hinv Hk; simpl.
  { rewrite Nat.add_0_r in Hk. subst. eauto. }
  destruct (lookup_lt_is_Some_2 orig i) as [v Hv]; [lia|].
  destruct (dedup_inv_step _ _ _ _ _ Hinv Hv) as [Hinv' Hai]. rewrite Hai.
  destruct (bool_decide (arr !! (m - 1)%nat = Some v)); apply IH; try done; lia.
Qed.

Lemma dedupUint8_dedup_adj s : dedupUint8 s = dedup_adj s.
Proof.
  destruct s as [|a s]; [done|]. unfold dedupUint8.
  destruct (dedupUint8_loop (a :: s) (length s) 1 1 (a :: s)) as (m & arr & Hf & Hinv).
  { apply dedup_inv_init. } { simpl. lia. }
  replace (length (a :: s) - 1)%nat with (length s) by (simpl; lia). rewrite Hf.
  destruct Hinv as (_ & _ & -> & _). by rewrite take_ge by lia.
Qed.

(** Sorting and then removing duplicates depends on the set of elements only. *)
Lemma dedup_sort_set l1 l2 :
  (∀ x, x ∈ l1 ↔ x ∈ l2) → dedupUint8 (sort_ints l1) = dedupUint8 (sort_ints l2).
Proof.
  intros Hset. rewrite !dedupUint8_dedup_adj.
  assert (∀ l, StronglySorted Z.lt (dedup_adj (sort_ints l)) ∧
               ∀ x, x ∈ dedup_adj (sort_ints l) ↔ x ∈ l) as H.
  { intros l. destruct (sort_by_result id l) as [P S]. split; [by apply dedup_adj_sorted|].
    intros x. rewrite dedup_adj_elem. unfold sort_ints. by rewrite P. }
  destruct (H l1) as [S1 E1], (H l2) as [S2 E2].
  assert (∀ l, StronglySorted Z.lt l → NoDup l ∧ StronglySorted Z.le l) as Hlt.
  { induction 1 as [|a l _ [IH1 IH2] Ha]; [split; constructor|]. rewrite Forall_forall in Ha.
    split; constructor; try done; [intros Hin; specialize (Ha a Hin); lia|].
    apply Forall_forall. intros x Hx. specialize (Ha x Hx). lia. }
  destruct (Hlt _ S1) as [N1 L1], (Hlt _ S2) as [N2 L2].
  apply (StronglySorted_unique Z.le); [done|done|]. apply NoDup_Permutation; [done|done|].
  intros x. by rewrite E1, E2.
Qed.

Lemma DedupIntArr_loop orig k i j arr :
  dedup_inv orig i (S j) arr → (i + k = length orig)%nat →
  ∃ j' arr', foldl dedup_step (j, arr) (seq i k) = (j', arr') ∧
             dedup_inv orig (length orig) (S j') arr'.
Proof.
  revert i j arr. induction k as [|k IH]; intros i j arr Hinv Hk; simpl.
  { rewrite Nat.add_0_r in Hk. subst. eauto. }
  destruct (lookup_lt_is_Some_2 orig i) as [v Hv]; [lia|].
  destruct (dedup_inv_step _ _ _ _ _ Hinv Hv) as [Hinv' Hai]. rewrite Hai.
  simpl in Hinv'. rewrite Nat.sub_0_r in Hinv'.
  destruct (bool_decide (arr !! j = Some v)); apply IH; try done; lia.
Qed.

Lemma DedupIntArr_dedup_adj a arr spare :
  DedupIntArr (a :: arr) spare = Ok (dedup_adj (sort_ints (a :: arr))).
Proof.
  unfold DedupIntArr. destruct (sort_ints (a :: arr)) as [|b s] eqn:E.
  { destruct (sort_by_result id (a :: arr)) as [P _]. unfold sort_ints in E. rewrite E in P.
    by apply Permutation_nil in P. }
  destruct (DedupIntArr_loop (b :: s) (length s) 1 0 (b :: s)) as (j & arr' & Hf & Hinv).
  { apply dedup_inv_init. } { simpl. lia. }
  replace (length (b :: s) - 1)%nat with (length s) by (simpl; lia). rewrite Hf.
  destruct Hinv as (Hl & Hm & Ht & _). rewrite (proj2 (Nat.leb_le _ _)) by len_solve.
  rewrite take_app_le by lia. rewrite Ht. by rewrite take_ge by lia.
Qed.

(** On a non-empty slice [DedupIntArr] returns the elements of its argument,
    each once, in strictly increasing order, whatever its capacity. *)
Theorem DedupIntArr_correct a arr spare :
  ∃ out, DedupIntArr (a :: arr) spare = Ok out ∧
         StronglySorted Z.lt out ∧ (∀ x, x ∈ out ↔ x ∈ a :: arr).
Proof.
  rewrite DedupIntArr_dedup_adj. destruct (sort_by_result id (a :: arr)) as [P S].
  eexists. split; [done|]. split; [by apply dedup_adj_sorted|].
  intros x. rewrite dedup_adj_elem. unfold sort_ints. by rewrite P.
Qed.

(** On an empty slice [DedupIntArr] panics when the slice has no capacity and
    otherwise returns one stale element of the backing array. *)
Theorem DedupIntArr_empty spare :
  DedupIntArr [] spare =
  match spare with
  | [] => Panic "slice bounds out of range"
  | x :: _ => Ok [x]
  end.
Proof. destruct spare as [|x spare]; [done|]. cbn. by rewrite take_0. Qed.
