(* ===== verification/Uint8Arr.v ===== *)
(** * Byte arrays in JSON

    internal/utils/uint8_not_string.go: [Uint8Arr], whose [MarshalJSON] prints a byte slice as
    an array of numbers by way of [fmt.Sprintf], [strings.Fields] and [strings.Join].
    Shown: the output is the JSON array of the bytes, and determines them. *)
From S2P Require Import Prelude.
From Stdlib Require Import Ascii.
From stdpp Require Import pretty.

#[local] Open Scope Z_scope.

(** ** The library functions *)

Definition is_space (c : ascii) : bool :=
  bool_decide (c ∈ [" "; "009"; "010"; "011"; "012"; "013"]%char).

(** [strings.Join]. *)
Fixpoint strings_Join (sep : list ascii) (words : list (list ascii)) : list ascii :=
  match words with
  | [] => []
  | [w] => w
  | w :: words => w ++ sep ++ strings_Join sep words
  end.

(** [strings.Fields]: [cur] is the word being read. *)
Fixpoint fields_from (cur : list ascii) (s : list ascii) : list (list ascii) :=
  match s with
  | [] => match cur with [] => [] | _ => [cur] end
  | c :: s =>
    if is_space c then match cur with [] => fields_from [] s | _ => cur :: fields_from [] s end
    else fields_from (cur ++ [c]) s
  end.

Definition strings_Fields (s : list ascii) : list (list ascii) := fields_from [] s.

(** A number in decimal. *)
Definition decimal (b : Z) : list ascii := String.list_ascii_of_string (pretty b).

(** [fmt.Sprintf] of a slice with [%d]: the numbers in brackets, separated by spaces. *)
Definition Sprintf_d (u : list Z) : list ascii :=
  "["%char :: strings_Join [" "%char] (decimal <$> u) ++ ["]"%char].

(** ** [MarshalJSON] *)

(** [None] is the [nil] slice; there is no error. *)
Definition MarshalJSON (u : option (list Z)) : list ascii :=
  match u with
  | None => ["["; "]"]%char
  | Some u => strings_Join [","%char] (strings_Fields (Sprintf_d u))
  end.

(** ** Lemmas *)

Definition word_ok (w : list ascii) : Prop := w ≠ [] ∧ Forall (λ c, is_space c = false) w.

Lemma fields_from_word cur w s :
  Forall (λ c, is_space c = false) w → fields_from cur (w ++ s) = fields_from (cur ++ w) s.
Proof.
  intros Hw. revert cur. induction Hw as [|c w Hc _ IH]; intros cur; [by rewrite app_nil_r|].
  cbn [app fields_from]. rewrite Hc, IH. by rewrite <- app_assoc.
Qed.

(** Splitting words joined by one space gives them back. *)
Lemma Fields_Join words :
  Forall word_ok words → strings_Fields (strings_Join [" "%char] words) = words.
Proof.
  unfold strings_Fields. induction 1 as [|w words [Hne Hw] Hws IH]; [done|].
  destruct words as [|w' words].
  - cbn [strings_Join]. rewrite <- (app_nil_r w) at 1. rewrite fields_from_word by done.
    rewrite app_nil_l. cbn. by destruct w.
  - change (strings_Join _ (w :: w' :: words)) with
      (w ++ " "%char :: strings_Join [" "%char] (w' :: words)).
    rewrite fields_from_word by done. rewrite app_nil_l. cbn [fields_from]. cbn [is_space].
    change (is_space " ") with true. cbv iota. destruct w; [done|]. by rewrite IH.
Qed.

Lemma Join_cons_char sep c w words :
  c :: strings_Join sep (w :: words) = strings_Join sep ((c :: w) :: words).
Proof. by destruct words. Qed.

Lemma Join_app_last sep words w x :
  strings_Join sep (words ++ [w]) ++ x = strings_Join sep (words ++ [w ++ x]).
Proof.
  induction words as [|w0 words IH]; [done|]. cbn [app].
  destruct (words ++ [w]) as [|a l] eqn:E1; [by destruct words|].
  destruct (words ++ [w ++ x]) as [|a' l'] eqn:E2; [by destruct words|].
  change (strings_Join sep (w0 :: a :: l)) with (w0 ++ sep ++ strings_Join sep (a :: l)).
  change (strings_Join sep (w0 :: a' :: l')) with (w0 ++ sep ++ strings_Join sep (a' :: l')).
  by rewrite <- !app_assoc, IH.
Qed.

(** Brackets around joined words are part of the first and the last word. *)
Lemma bracket_words (words : list (list ascii)) :
  ∃ words', (Forall word_ok words → Forall word_ok words') ∧
    ∀ sep, "["%char :: strings_Join sep words ++ ["]"%char] = strings_Join sep words'.
Proof.
  destruct words as [|w words _] using rev_ind.
  { exists [["["; "]"]%char]. split; [|done]. intros _. apply Forall_singleton. by split; [|repeat constructor]. }
  assert (∀ w c, is_space c = false → word_ok w → word_ok (c :: w)) as Hcons
    by (intros ? ? ? [? ?]; by split; [|constructor]).
  assert (word_ok w → word_ok (w ++ ["]"%char])) as Hsnoc.
  { intros [? ?]. split; [by destruct w|]. apply Forall_app. by split; [|repeat constructor]. }
  destruct words as [|w0 words].
  - exists ["["%char :: w ++ ["]"%char]]. split; [|by intros].
    cbn [app]. rewrite !Forall_singleton. intros ?. by apply Hcons; auto.
  - exists (("["%char :: w0) :: words ++ [w ++ ["]"%char]]). split.
    + cbn [app]. rewrite !Forall_cons, !Forall_app, !Forall_singleton. intros (? & ? & ?).
      split; [by apply Hcons|]. by auto.
    + intros sep. rewrite Join_app_last. cbn [app]. apply Join_cons_char.
Qed.

(** Facts about the 256 bytes, by computation. *)
Fixpoint parse_decimal (acc : Z) (l : list ascii) : option Z :=
  match l with
  | [] => Some acc
  | c :: l =>
    let d := Z.of_N (N_of_ascii c) - 48 in
    if (0 <=? d) && (d <=? 9) then parse_decimal (10 * acc + d) l else None
  end.

Definition decimal_good (b : Z) : bool :=
  bool_decide (parse_decimal 0 (decimal b) = Some b) && bool_decide (decimal b ≠ []) &&
  forallb (λ c, negb (is_space c) && negb (bool_decide (c = ","%char)) && negb (bool_decide (c = "]"%char)))
    (decimal b).

Lemma decimal_good_byte b : is_byte b → decimal_good b = true.
Proof.
  intros Hb. assert (forallb decimal_good (Z.of_nat <$> seq 0 256) = true) as H by (vm_compute; reflexivity).
  rewrite forallb_forall in H. apply H. apply list_elem_of_In, list_elem_of_fmap.
  exists (Z.to_nat b). unfold is_byte in Hb. split; [lia|]. apply elem_of_seq. lia.
Qed.

Lemma decimal_spec b : is_byte b →
  parse_decimal 0 (decimal b) = Some b ∧ word_ok (decimal b) ∧ ","%char ∉ decimal b ∧ "]"%char ∉ decimal b.
Proof.
  intros Hb%decimal_good_byte. unfold decimal_good in Hb. rewrite !andb_true_iff, !bool_decide_eq_true in Hb.
  destruct Hb as [[Hp Hn] Hc]. rewrite forallb_forall in Hc. split; [done|].
  assert (∀ c, c ∈ decimal b → is_space c = false ∧ c ≠ ","%char ∧ c ≠ "]"%char) as H.
  { intros c Hin%list_elem_of_In. specialize (Hc c Hin).
    rewrite !andb_true_iff, !negb_true_iff, !bool_decide_eq_false in Hc. naive_solver. }
  split; [split; [done|]; apply Forall_forall; intros c Hin; by apply H|].
  split; intros Hin; by destruct (H _ Hin) as (_ & ? & ?).
Qed.

Lemma MarshalJSON_array u :
  Forall is_byte u → MarshalJSON (Some u) = "["%char :: strings_Join [","%char] (decimal <$> u) ++ ["]"%char].
Proof.
  intros Hu. unfold MarshalJSON, Sprintf_d.
  destruct (bracket_words (decimal <$> u)) as (ws & Hok & Hb). rewrite !Hb, Fields_Join; [done|].
  apply Hok. apply Forall_fmap. eapply Forall_impl; [exact Hu|]. intros b Hb'. by apply decimal_spec.
Qed.

(** ** Reading it back *)

(** A parser of JSON arrays of numbers: [cur] is the number being read. *)
Fixpoint parse_items (cur : list ascii) (l : list ascii) : option (list Z) :=
  match l with
  | [] => None
  | c :: l =>
    if bool_decide (c = ","%char) then b ← parse_decimal 0 cur; (b ::.) <$> parse_items [] l
    else if bool_decide (c = "]"%char) then
      match l with [] => (λ b, [b]) <$> parse_decimal 0 cur | _ => None end
    else parse_items (cur ++ [c]) l
  end.

Definition parse_array (l : list ascii) : option (list Z) :=
  match l with
  | "["%char :: l => if bool_decide (l = ["]"%char]) then Some [] else parse_items [] l
  | _ => None
  end.

Lemma parse_items_number cur w l :
  ","%char ∉ w → "]"%char ∉ w → parse_items cur (w ++ l) = parse_items (cur ++ w) l.
Proof.
  revert cur. induction w as [|c w IH]; intros cur H1 H2; [by rewrite app_nil_r|].
  apply not_elem_of_cons in H1 as [? ?]. apply not_elem_of_cons in H2 as [? ?]. cbn [app parse_items].
  rewrite !bool_decide_eq_false_2 by congruence. rewrite IH by done. by rewrite <- app_assoc.
Qed.

Lemma parse_items_Join u :
  Forall is_byte u → u ≠ [] → parse_items [] (strings_Join [","%char] (decimal <$> u) ++ ["]"%char]) = Some u.
Proof.
  induction 1 as [|b u Hb Hu IH]; [done|]. intros _. destruct (decimal_spec b Hb) as (Hp & _ & H1 & H2).
  destruct u as [|b' u].
  - cbn [fmap list_fmap strings_Join]. rewrite parse_items_number by done. rewrite app_nil_l.
    cbn [parse_items]. rewrite bool_decide_eq_false_2, bool_decide_eq_true_2 by done. by rewrite Hp.
  - change (strings_Join [","%char] (decimal <$> b :: b' :: u)) with
      (decimal b ++ ","%char :: strings_Join [","%char] (decimal <$> b' :: u)).
    rewrite <- app_assoc, parse_items_number by done. rewrite app_nil_l. cbn [app parse_items].
    rewrite bool_decide_eq_true_2 by done. rewrite Hp. cbn [mbind option_bind].
    by rewrite IH.
Qed.

(** ** Properties *)

(** C39: the detour over spaces is exact: a byte slice is marshalled as the JSON array of its
    elements, which a parser reads back; [nil] is marshalled as the empty array. *)
Theorem MarshalJSON_roundtrip u :
  Forall is_byte u →
  MarshalJSON (Some u) = "["%char :: strings_Join [","%char] (decimal <$> u) ++ ["]"%char] ∧
  parse_array (MarshalJSON (Some u)) = Some u ∧ parse_array (MarshalJSON None) = Some [].
Proof.
  intros Hu. split; [by apply MarshalJSON_array|]. split; [|done].
  rewrite MarshalJSON_array by done. destruct u as [|b u]; [done|]. cbn [parse_array].
  rewrite bool_decide_eq_false_2; [by apply parse_items_Join|].
  inversion_clear Hu as [|?? Hb _]. destruct (decimal_spec b Hb) as (_ & [Hn _] & _ & H2).
  cbn [fmap list_fmap]. intros E. destruct (decimal b) as [|c w]; [done|].
  apply not_elem_of_cons in H2 as [H2 _]. apply H2.
  destruct (decimal <$> u); cbn in E; congruence.
Qed.

Lemma MarshalJSON_roundtrip_witness :
  MarshalJSON (Some [0; 255; 17]) =
    "["%char :: strings_Join [","%char] (decimal <$> [0; 255; 17]) ++ ["]"%char] ∧
  parse_array (MarshalJSON (Some [0; 255; 17])) = Some [0; 255; 17] ∧ parse_array (MarshalJSON None) = Some [].
Proof.
  apply (MarshalJSON_roundtrip [0; 255; 17]). repeat (apply Forall_cons; split; [unfold is_byte; lia|]).
  apply Forall_nil_2.
Defined.
