(* ===== verification/VLI.v ===== *)
(** * QUIC variable-length integers

    [ReadNextVLI], [DecodeVLI], [unsetVLIBits] and
    [IsGREASETransportParameter] of quic_common.go, over any [io.Reader].  The
    reader-level code is related to a pure function on the stream ([vli_parse]),
    and that function to the encoding of RFC 9000, section 16 ([vli_encode]). *)
From S2P Require Import Prelude GoIO.

(** ** The code *)

(** The [switch] on the two top bits of the first byte. *)
Definition vli_size (b0 : Z) : option nat :=
  let c := Z.land b0 0xc0 in
  if c =? 0x00 then Some 1%nat
  else if c =? 0x40 then Some 2%nat
  else if c =? 0x80 then Some 4%nat
  else if c =? 0xc0 then Some 8%nat
  else None.

(** The decoding loop, after [encodedBytes[0] &= 0x3f]. *)
Definition vli_value (n : nat) (encodedBytes : bytes) : Z :=
  foldl shift_in 0 (take n (alter (λ b, Z.land b 0x3f) 0%nat encodedBytes)).

Definition ReadNextVLI `{IOReader R} (r : R) : outcome (Z * Z) * R :=
  let '(d, err, r) := io_read r 1 in
  match err with
  | Some err => (Err err, r)
  | None =>
    let encodedBytes := copy_into [0] d in
    match vli_size (hd 0 encodedBytes) with
    | None => (Err (errors_New "invalid first byte"), r)
    | Some n =>
      let '(encodedBytes, err, r) :=
        if (1 <? n)%nat then
          let '(d, err, r) := io_read r (n - 1) in
          (encodedBytes ++ copy_into (replicate (n - 1) 0) d, err, r)
        else (encodedBytes, None, r) in
      match err with
      | Some err => (Err err, r)
      | None => (Ok (vli_value n encodedBytes, Z.of_nat n), r)
      end
    end
  end.

Definition DecodeVLI (vli : bytes) : outcome Z :=
  let! (val, n) := fst (ReadNextVLI (NewReader vli)) in
  if n =? len vli then Ok val else Err (errors_New "invalid VLI length").

Definition UNSET_VLI_BITS : bool := true.

(** Indexing an empty slice panics. *)
Definition unsetVLIBits (vli : bytes) : outcome bytes :=
  if UNSET_VLI_BITS then
    match vli with
    | [] => Panic "index out of range"
    | b :: vli => Ok (Z.land b 0x3f :: vli)
    end
  else Ok vli.

Definition IsGREASETransportParameter (paramType : Z) : bool :=
  (27 <=? paramType) && (u64 (paramType - 27) mod 31 =? 0).

(** ** Readers that deliver all they have *)

(** A reader that, for a non-empty buffer, delivers as much of its stream as fits
    and reports [io.EOF] exactly at the end of it.  [ok] delimits the states in
    which it does. *)
Class PromptReader (R : Type) `{StreamReader R} (ok : R → Prop) :=
  prompt_read r n :
    ok r → (0 < n)%nat →
    ∃ r', io_read r n =
            (take n (stream r), match stream r with [] => Some io_EOF | _ => None end, r')
          ∧ stream r' = drop n (stream r) ∧ ok r'.

#[global] Instance bytesReader_prompt : PromptReader bytesReader (λ _, True).
Proof.
  intros r n _ Hn. destruct (decide (br_rest r = [])) as [He|Hne].
  - rewrite bytesReader_read_empty by done. exists r. simpl. rewrite He.
    by rewrite take_nil, drop_nil.
  - destruct (io_read r n) as [[d e] r'] eqn:Hr. exists r'. pose proof Hr as Hs.
    rewrite bytesReader_read_nonempty in Hr by done. injection Hr as <- <- _.
    apply read_stream in Hs as [Hs _]. simpl in *. split; [by destruct (br_rest r)|].
    split; [|done]. rewrite <- (take_drop n (br_rest r)) in Hs at 1.
    by apply app_inv_head in Hs.
Qed.

#[global] Instance bytesBuffer_prompt : PromptReader bytesBuffer (λ _, True).
Proof.
  intros [[|b s]] n _ Hn; unfold io_read, bytesBuffer_read; simpl.
  - exists (NewBuffer []). destruct n; [lia|]. simpl. done.
  - exists (NewBuffer (drop n (b :: s))). destruct n; [lia|]. done.
Qed.

(** ** The pure parser *)

(** What [ReadNextVLI] returns and leaves behind on a stream: a multi-byte integer
    needs one byte after the first, and what is missing after that reads as zero. *)
Definition vli_parse (s : bytes) : outcome (Z * Z) * bytes :=
  match s with
  | [] => (Err io_EOF, [])
  | b :: t =>
    match vli_size b with
    | None => (Err (errors_New "invalid first byte"), t)
    | Some n =>
      if (1 <? n)%nat then
        match t with
        | [] => (Err io_EOF, [])
        | _ => (Ok (vli_value n (b :: copy_into (replicate (n - 1) 0) (take (n - 1) t)),
                    Z.of_nat n), drop (n - 1) t)
        end
      else (Ok (vli_value n [b], Z.of_nat n), t)
    end
  end.

(** The same promise for the next read only, of one byte. *)
Definition prompt1 `{StreamReader R} (ok : R → Prop) (r : R) : Prop :=
  ∃ r', io_read r 1 =
          (take 1 (stream r), match stream r with [] => Some io_EOF | _ => None end, r')
        ∧ stream r' = drop 1 (stream r) ∧ ok r'.

Lemma ReadNextVLI_parse1 `{PromptReader R ok} (r : R) :
  prompt1 ok r → ∃ r', ReadNextVLI r = (fst (vli_parse (stream r)), r')
               ∧ stream r' = snd (vli_parse (stream r)) ∧ ok r'.
Proof.
  intros (r1 & Hr1 & Hs1 & Hok1). unfold ReadNextVLI. rewrite Hr1.
  destruct (stream r) as [|b t]; [by exists r1|]. simpl in Hs1. rewrite drop_0 in Hs1.
  replace (copy_into [0] (take 1 (b :: t))) with [b] by (simpl; by rewrite take_0).
  cbn [hd vli_parse]. destruct (vli_size b) as [n|]; [|by exists r1].
  destruct (1 <? n)%nat eqn:En; [|by exists r1]. apply Nat.ltb_lt in En.
  destruct (prompt_read r1 (n - 1) Hok1 ltac:(lia)) as (r2 & -> & Hs2 & Hok2).
  rewrite Hs1 in *. exists r2. destruct t as [|b' t']; simpl in *; [|done].
  by rewrite drop_nil in Hs2.
Qed.

Lemma ReadNextVLI_parse `{PromptReader R ok} (r : R) :
  ok r → ∃ r', ReadNextVLI r = (fst (vli_parse (stream r)), r')
               ∧ stream r' = snd (vli_parse (stream r)) ∧ ok r'.
Proof. intros Hok. apply ReadNextVLI_parse1, prompt_read; [done|lia]. Qed.

(** ** The encoding of RFC 9000, section 16 *)

(** [v] in [n] bytes: the two top bits of the first byte hold log2 [n]. *)
Definition vli_encode (n : nat) (v : Z) : bytes :=
  be_encode n (Z.log2 (Z.of_nat n) * 2 ^ (8 * Z.of_nat n - 2) + v).

Definition vli_fits (n : nat) (v : Z) : Prop :=
  n ∈ [1; 2; 4; 8]%nat ∧ 0 <= v < 2 ^ (8 * Z.of_nat n - 2).

#[global] Instance vli_fits_dec n v : Decision (vli_fits n v).
Proof. unfold vli_fits. apply _. Defined.

(** ** Lemmas *)

Lemma byte_exhaustive (P : Z → bool) :
  forallb P (Z.of_nat <$> seq 0 256) = true → ∀ b, is_byte b → P b = true.
Proof.
  intros H b Hb. rewrite forallb_forall in H. apply H.
  apply list_elem_of_In, list_elem_of_fmap. exists (Z.to_nat b).
  unfold is_byte in Hb. split; [lia|]. apply elem_of_seq. lia.
Qed.

(** The first byte of an encoding: its size class and its low six bits. *)
Lemma vli_first_byte b :
  is_byte b → ∃ n, vli_size b = Some n ∧ n ∈ [1; 2; 4; 8]%nat ∧
    is_byte (Z.land b 0x3f) ∧ Z.land b 0x3f < 64 ∧ b = Z.log2 (Z.of_nat n) * 64 + Z.land b 0x3f.
Proof.
  intros Hb.
  pose (P := λ b, match vli_size b with
             | Some n => bool_decide (n ∈ [1; 2; 4; 8]%nat) && (0 <=? Z.land b 0x3f) &&
                         (Z.land b 0x3f <? 64) &&
                         (b =? Z.log2 (Z.of_nat n) * 64 + Z.land b 0x3f)
             | None => false end).
  assert (P b = true) as HP by (apply byte_exhaustive; [vm_compute; reflexivity|done]).
  unfold P in HP. destruct (vli_size b) as [n|]; [|done]. exists n. bool_facts.
  unfold is_byte. split_and!; try done; lia.
Qed.

Lemma vli_value_be n b t :
  is_byte b → wf_bytes t → (length t = n - 1)%nat → (1 <= n <= 8)%nat →
  vli_value n (b :: t) = be_decode (Z.land b 0x3f :: t).
Proof.
  intros Hb Ht Hl Hn. unfold vli_value. simpl alter. rewrite take_ge by (simpl; lia).
  destruct (vli_first_byte b Hb) as (_ & _ & _ & Hb' & _).
  apply shift_in_be_decode; [by constructor|simpl; lia].
Qed.

Lemma vli_encode_first n v :
  vli_fits n v →
  ∃ b t, vli_encode n v = b :: t ∧ is_byte b ∧ wf_bytes t ∧ (length t = n - 1)%nat ∧
         vli_size b = Some n ∧ be_decode (Z.land b 0x3f :: t) = v.
Proof.
  intros [Hn Hv]. unfold vli_encode.
  pose proof (be_encode_wf n (Z.log2 (Z.of_nat n) * 2 ^ (8 * Z.of_nat n - 2) + v)) as Hwf.
  pose proof (be_decode_encode n (Z.log2 (Z.of_nat n) * 2 ^ (8 * Z.of_nat n - 2) + v)) as Hdec.
  pose proof (length_be_encode n (Z.log2 (Z.of_nat n) * 2 ^ (8 * Z.of_nat n - 2) + v)) as Hlen.
  assert (Hmod : (Z.log2 (Z.of_nat n) * 2 ^ (8 * Z.of_nat n - 2) + v) mod 256 ^ Z.of_nat n
                 = Z.log2 (Z.of_nat n) * 2 ^ (8 * Z.of_nat n - 2) + v).
  { apply Z.mod_small. rewrite !elem_of_cons, elem_of_nil in Hn.
    destruct Hn as [->|[->|[->|[->|[]]]]]; simpl in *; lia. }
  rewrite Hmod in Hdec. destruct (be_encode _ _) as [|b t].
  { rewrite !elem_of_cons, elem_of_nil in Hn. simpl in Hlen. lia. }
  apply Forall_cons in Hwf as [Hb Ht]. simpl in Hlen. exists b, t.
  rewrite be_decode_cons in *. pose proof (be_decode_range t Ht) as Hr.
  destruct (vli_first_byte b Hb) as (m & Hm & Hm' & Hland0 & Hland & Hbeq).
  assert (n = m) as <-.
  { assert (length t = n - 1)%nat as Hlt by lia. rewrite Hlt in *.
    rewrite !elem_of_cons, elem_of_nil in Hn, Hm'.
    destruct Hn as [->|[->|[->|[->|[]]]]], Hm' as [->|[->|[->|[->|[]]]]];
      try done; exfalso; simpl in *; unfold is_byte in *; lia. }
  assert (length t = n - 1)%nat as Hlt by lia. rewrite Hlt in *.
  split_and!; try done.
  rewrite !elem_of_cons, elem_of_nil in Hn.
  destruct Hn as [->|[->|[->|[->|[]]]]]; simpl in *; lia.
Qed.

Lemma vli_parse_encode n v rest :
  vli_fits n v → vli_parse (vli_encode n v ++ rest) = (Ok (v, Z.of_nat n), rest).
Proof.
  intros Hf. destruct (vli_encode_first n v Hf) as (b & t & -> & Hb & Ht & Hl & Hsz & Hval).
  assert (1 <= n <= 8)%nat as Hn.
  { destruct Hf as [Hn _]. rewrite !elem_of_cons, elem_of_nil in Hn. lia. }
  rewrite <- app_comm_cons. unfold vli_parse. rewrite Hsz.
  destruct (1 <? n)%nat eqn:En.
  - apply Nat.ltb_lt in En. destruct (t ++ rest) as [|c s] eqn:E.
    { destruct t; [simpl in Hl; lia|done]. }
    rewrite <- E. rewrite take_app_le, take_ge by lia. rewrite drop_app_ge by lia.
    rewrite copy_into_full by (rewrite length_replicate; lia).
    rewrite vli_value_be by (done || lia). rewrite Hval.
    replace (n - 1 - length t)%nat with 0%nat by lia. by rewrite drop_0.
  - apply Nat.ltb_ge in En. assert (n = 1)%nat as -> by lia.
    destruct t; [|simpl in Hl; lia]. rewrite vli_value_be by (done || simpl; lia).
    by rewrite Hval.
Qed.

Lemma vli_parse_ok_range s v n rest :
  wf_bytes s → vli_parse s = (Ok (v, n), rest) → 0 <= v < 2 ^ 62 ∧ 1 <= n <= 8.
Proof.
  intros Hs. destruct Hs as [|b t Hb Ht]; simpl; [done|].
  destruct (vli_first_byte b Hb) as (m & -> & Hm & Hl1 & Hl2 & _).
  assert (1 <= m <= 8)%nat as Hm8 by (rewrite !elem_of_cons, elem_of_nil in Hm; lia).
  assert (∀ t', wf_bytes t' → (length t' = m - 1)%nat → 0 <= vli_value m (b :: t') < 2 ^ 62) as HV.
  { intros t' Hw Hl. rewrite vli_value_be by (done || lia). rewrite be_decode_cons.
    pose proof (be_decode_range t' Hw) as Hr.
    assert (256 ^ len t' <= 256 ^ 7) by (apply Z.pow_le_mono_r; lia).
    unfold is_byte in *. split; [nia|]. replace (2 ^ 62) with (64 * 256 ^ 7) by done. nia. }
  case_goal.
  - apply Nat.ltb_lt in Heqb0. destruct t as [|c t]; [done|]. intros [= <- <- <-].
    split; [apply HV|lia].
    + apply wf_bytes_copy_into; auto with gohints.
    + by rewrite length_copy_into, length_replicate.
  - apply Nat.ltb_ge in Heqb0. intros [= <- <- <-].
    split; [apply HV; [constructor|simpl; lia]|lia].
Qed.

(** A successful parse consumes at least one byte. *)
Lemma vli_parse_consumes s v n rest :
  vli_parse s = (Ok (v, n), rest) → (length rest < length s)%nat.
Proof.
  destruct s as [|b t]; simpl; [done|]. case_goal; [|done]. case_goal.
  - destruct t; [done|]. intros [= <- <- <-]. len_solve.
  - intros [= <- <- <-]. lia.
Qed.

Lemma vli_parse_suffix s : ∃ d, s = d ++ snd (vli_parse s).
Proof.
  destruct s as [|b t]; simpl; [by exists []|]. case_goal; [|by exists [b]]. case_goal.
  - destruct t as [|c t]; [by exists [b]|]. exists (b :: take (n - 1) (c :: t)).
    rewrite <- app_comm_cons. cbn [snd]. by rewrite take_drop.
  - by exists [b].
Qed.

Lemma vli_parse_no_panic s w rest : vli_parse s ≠ (Panic w, rest).
Proof. destruct s as [|b t]; simpl; [done|]. repeat case_goal; done. Qed.

Lemma vli_parse_err s e rest :
  wf_bytes s → vli_parse s = (Err e, rest) → e = io_EOF ∧ rest = [].
Proof.
  intros Hs. destruct Hs as [|b t Hb Ht]; simpl; [by intros [= <- <-]|].
  destruct (vli_first_byte b Hb) as (m & -> & _). repeat case_goal; intros [= <- <-]; done.
Qed.

Lemma vli_parse_wf s : wf_bytes s → wf_bytes (snd (vli_parse s)).
Proof.
  intros Hs. destruct (vli_parse_suffix s) as [d Hd]. rewrite Hd in Hs.
  by apply wf_bytes_app in Hs as [_ ?].
Qed.
#[export] Hint Resolve vli_parse_wf : gohints.

(** A first byte of size class [n] and [n - 1] more bytes are an encoding. *)
Lemma vli_encoding n b t :
  is_byte b → wf_bytes t → vli_size b = Some n → (length t = n - 1)%nat →
  vli_fits n (be_decode (Z.land b 0x3f :: t)) ∧ b :: t = vli_encode n (be_decode (Z.land b 0x3f :: t)).
Proof.
  intros Hb Ht Hs Hl. destruct (vli_first_byte b Hb) as (n' & Hsz & Hn & Hl0 & Hl1 & Hbeq).
  assert (n' = n) as -> by congruence.
  assert (1 <= n <= 8)%nat as Hn8 by (rewrite !elem_of_cons, elem_of_nil in Hn; lia).
  pose proof (be_decode_range t Ht) as Hr.
  assert (vli_fits n (be_decode (Z.land b 0x3f :: t))) as Hfit.
  { split; [done|]. rewrite be_decode_cons, Hl in *. unfold is_byte in *.
    replace (8 * Z.of_nat n - 2) with (8 * Z.of_nat (n - 1) + 6) by lia.
    rewrite Z.pow_add_r, <- pow256 by lia. nia. }
  split; [done|]. apply be_decode_inj; [by constructor|apply be_encode_wf|
    unfold vli_encode; rewrite length_be_encode; simpl; lia|].
  unfold vli_encode. rewrite be_decode_encode, !be_decode_cons, Hl in *.
  replace (8 * Z.of_nat n - 2) with (8 * Z.of_nat (n - 1) + 6) by lia.
  rewrite Z.pow_add_r, <- pow256 by lia. rewrite Z.mod_small; [nia|].
  replace (Z.of_nat n) with (Z.of_nat (n - 1) + 1) at 3 by lia.
  rewrite Z.pow_add_r by lia. unfold is_byte in *.
  assert (0 <= Z.log2 (Z.of_nat n) <= 3).
  { rewrite !elem_of_cons, elem_of_nil in Hn. by destruct Hn as [->|[->|[->|[->|[]]]]]. }
  nia.
Qed.

(** What is read before the end of the stream is an encoding. *)
Lemma vli_parse_inv s v k rest :
  wf_bytes s → vli_parse s = (Ok (v, k), rest) → rest ≠ [] →
  ∃ n, k = Z.of_nat n ∧ vli_fits n v ∧ s = vli_encode n v ++ rest.
Proof.
  intros Hs. destruct Hs as [|b t Hb Ht]; [done|]. cbn [vli_parse].
  destruct (vli_first_byte b Hb) as (n & Hsz & Hn & _). rewrite Hsz.
  assert (1 <= n <= 8)%nat as Hn8 by (rewrite !elem_of_cons, elem_of_nil in Hn; lia).
  destruct (1 <? n)%nat eqn:En.
  - destruct t as [|c t]; [done|]. intros [= <- <- <-] Hne. exists n. split; [done|].
    assert (n - 1 < length (c :: t))%nat as Hlt.
    { destruct (decide (n - 1 < length (c :: t))%nat); [done|]. by rewrite drop_ge in Hne by lia. }
    assert (length (take (n - 1) (c :: t)) = n - 1)%nat as Hl by (rewrite length_take; lia).
    rewrite copy_into_full by by rewrite length_replicate.
    destruct (vli_encoding n b (take (n - 1) (c :: t))) as [Hf He]; [done|auto with gohints|done|done|].
    rewrite vli_value_be by auto with gohints. split; [done|]. rewrite <- He.
    by rewrite <- app_comm_cons, take_drop.
  - apply Nat.ltb_ge in En. intros [= <- <- <-] _. exists n. split; [done|].
    destruct (vli_encoding n b []) as [Hf He]; [done|constructor|done|simpl; lia|].
    rewrite vli_value_be by (done || constructor || simpl; lia). split; [done|]. by rewrite <- He.
Qed.

(** Reading a VLI from a byte slice fails or takes a part off its front, an encoding of the
    value unless the slice ended there. *)
Lemma ReadNextVLI_cases (r : bytesReader) :
  wf_bytes (br_rest r) →
  (∃ e r', ReadNextVLI r = (Err e, r')) ∨
  (∃ v n d r', ReadNextVLI r = (Ok (v, n), r') ∧ br_rest r = d ++ br_rest r' ∧ 0 <= v < 2 ^ 62 ∧
     (br_rest r' ≠ [] → ∃ n', vli_fits n' v ∧ d = vli_encode n' v)).
Proof.
  intros Hw. destruct (ReadNextVLI_parse r I) as (r' & -> & Hs & _). simpl in Hs |- *.
  destruct (vli_parse_suffix (br_rest r)) as [d Hd].
  destruct (vli_parse (br_rest r)) as [[[v n]|e|w] rest] eqn:Ev; simpl in *; subst rest.
  - right. exists v, n, d, r'. split; [done|]. split; [done|].
    split; [by destruct (vli_parse_ok_range _ _ _ _ Hw Ev)|].
    intros Hne. destruct (vli_parse_inv _ _ _ _ Hw Ev Hne) as (n' & _ & Hf & He). exists n'.
    split; [done|]. rewrite Hd in He. by apply app_inv_tail in He.
  - left. eauto.
  - by apply vli_parse_no_panic in Ev.
Qed.

Lemma vli_encode_nonempty n v t : vli_fits n v → vli_encode n v ++ t ≠ [].
Proof. intros Hf. by destruct (vli_encode_first n v Hf) as (b & u & -> & _). Qed.

Lemma vli_encode_wf n v : wf_bytes (vli_encode n v).
Proof. apply be_encode_wf. Qed.
#[export] Hint Resolve vli_encode_wf : gohints.

(** Reading an encoding from a byte slice. *)
Lemma ReadNextVLI_encode (r : bytesReader) n v t :
  br_rest r = vli_encode n v ++ t → vli_fits n v →
  ∃ r', ReadNextVLI r = (Ok (v, Z.of_nat n), r') ∧ br_rest r' = t.
Proof.
  intros Hr Hf. destruct (ReadNextVLI_parse r I) as (r' & -> & Hs & _). exists r'.
  simpl in Hs |- *. rewrite Hs, Hr, (vli_parse_encode n v t Hf). done.
Qed.

(** ** Properties *)

(** C30: Reading back an encoded integer, in any of the four sizes RFC 9000 allows for
    it, yields the value and its size and leaves the bytes after it unread. *)
Theorem ReadNextVLI_roundtrip n v rest :
  vli_fits n v →
  ∃ r', ReadNextVLI (NewReader (vli_encode n v ++ rest)) = (Ok (v, Z.of_nat n), r')
        ∧ br_rest r' = rest.
Proof.
  intros Hf. destruct (ReadNextVLI_parse (NewReader (vli_encode n v ++ rest)) I)
    as (r' & -> & Hs & _).
  simpl in Hs. rewrite br_rest_NewReader, vli_parse_encode in Hs by done.
  exists r'. simpl. rewrite br_rest_NewReader, vli_parse_encode by done. done.
Qed.

Lemma ReadNextVLI_roundtrip_witness :
  ∃ r', ReadNextVLI (NewReader (vli_encode 4 30000 ++ [7])) = (Ok (30000, 4), r')
        ∧ br_rest r' = [7].
Proof. apply (ReadNextVLI_roundtrip 4 30000 [7]). decide_now. Defined.

(** C31: [DecodeVLI] accepts exactly the RFC 9000 encodings: a slice decodes to [v] iff
    it is one of the encodings of [v]. *)
Theorem DecodeVLI_exact p v :
  wf_bytes p →
  DecodeVLI p = Ok v ↔ ∃ n, vli_fits n v ∧ p = vli_encode n v.
Proof.
  intros Hp. unfold DecodeVLI.
  destruct (ReadNextVLI_parse (NewReader p) I) as (r' & -> & _ & _).
  simpl. rewrite br_rest_NewReader. split.
  - destruct Hp as [|b t Hb Ht]; [done|]. cbn [vli_parse fst].
    destruct (vli_first_byte b Hb) as (n & Hsz & Hn & Hl0 & Hl1 & Hbeq). rewrite Hsz.
    assert (1 <= n <= 8)%nat as Hn8 by (rewrite !elem_of_cons, elem_of_nil in Hn; lia).
    assert (∀ val, val = be_decode (Z.land b 0x3f :: t) → (length t = n - 1)%nat →
                   vli_fits n val ∧ b :: t = vli_encode n val) as Hfin
      by (intros val -> Hl; by apply vli_encoding).
    destruct (1 <? n)%nat eqn:En.
    + apply Nat.ltb_lt in En. destruct t as [|c t]; [done|]. simpl obind.
      case_goal; [|done]. bool_facts. intros [= <-].
      assert (length (c :: t) = n - 1)%nat as Hl by (simpl in *; lia).
      exists n. apply Hfin; [|done]. rewrite take_ge by lia.
      rewrite copy_into_full by (by rewrite length_replicate). by apply vli_value_be.
    + apply Nat.ltb_ge in En. simpl obind. case_goal; [|done]. bool_facts. intros [= <-].
      assert (length t = n - 1)%nat as Hl by (simpl in *; lia). destruct t; [|simpl in *; lia].
      exists n. apply Hfin; [|done]. by apply vli_value_be.
  - intros (n & Hf & ->). rewrite <- (app_nil_r (vli_encode n v)).
    rewrite vli_parse_encode by done. simpl.
    unfold vli_encode. rewrite app_nil_r, length_be_encode. by rewrite Z.eqb_refl.
Qed.

Lemma DecodeVLI_exact_witness :
  DecodeVLI [0x80; 0x00; 0x75; 0x30] = Ok 30000 ↔
  ∃ n, vli_fits n 30000 ∧ [0x80; 0x00; 0x75; 0x30] = vli_encode n 30000.
Proof.
  apply (DecodeVLI_exact [0x80; 0x00; 0x75; 0x30] 30000). decide_now.
Defined.

(** A value [ReadNextVLI] returns from a byte slice is below 2^62 and its size is at
    most 8; its only error is [io.EOF] ("invalid first byte" is dead code), it never
    panics, and it consumes bytes from the front only. *)
Theorem ReadNextVLI_bounds p :
  wf_bytes p →
  ∃ d r', stream (NewReader p) = d ++ stream r' ∧
    ((∃ v n, ReadNextVLI (NewReader p) = (Ok (v, n), r') ∧
             0 <= v < 2 ^ 62 ∧ 1 <= n <= 8 ∧ d ≠ []) ∨
     (ReadNextVLI (NewReader p) = (Err io_EOF, r') ∧ stream r' = [])).
Proof.
  intros Hp. destruct (ReadNextVLI_parse (NewReader p) I) as (r' & -> & Hs & _).
  simpl in *. rewrite br_rest_NewReader in *. destruct (vli_parse_suffix p) as [d Hd].
  exists d, r'. rewrite Hs. split; [done|].
  destruct (vli_parse p) as [o rest] eqn:E. simpl in *. destruct o as [[v n]|e|w].
  - left. exists v, n. pose proof (vli_parse_ok_range _ _ _ _ Hp E) as [? ?].
    split_and!; try done; try lia. intros ->. apply vli_parse_consumes in E.
    simpl in Hd. subst. lia.
  - right. apply vli_parse_err in E as [-> ->]; done.
  - by apply vli_parse_no_panic in E.
Qed.

Lemma ReadNextVLI_bounds_witness :
  ∃ d r', stream (NewReader [0x44; 0xbc; 1]) = d ++ stream r' ∧
    ((∃ v n, ReadNextVLI (NewReader [0x44; 0xbc; 1]) = (Ok (v, n), r') ∧
             0 <= v < 2 ^ 62 ∧ 1 <= n <= 8 ∧ d ≠ []) ∨
     (ReadNextVLI (NewReader [0x44; 0xbc; 1]) = (Err io_EOF, r') ∧ stream r' = [])).
Proof. apply (ReadNextVLI_bounds [0x44; 0xbc; 1]). decide_now. Defined.

(** A truncated integer is not rejected: if at least one byte follows the first, the
    missing bytes read as zero, and the size reported is the announced one although
    fewer bytes were read ([r.Read]'s count is ignored). *)
Theorem ReadNextVLI_short_read b t n :
  vli_size b = Some n → t ≠ [] → (length t < n - 1)%nat →
  fst (ReadNextVLI (NewReader (b :: t))) =
    Ok (vli_value n (b :: t ++ replicate (n - 1 - length t) 0), Z.of_nat n).
Proof.
  intros Hsz Ht Hl. destruct (ReadNextVLI_parse (NewReader (b :: t)) I) as (r' & -> & _ & _).
  change (stream (NewReader (b :: t))) with (b :: t). cbn [vli_parse fst]. rewrite Hsz.
  rewrite (proj2 (Nat.ltb_lt 1 n)) by lia. destruct t as [|c t]; [done|].
  cbn [fst]. unfold copy_into. rewrite (take_ge (c :: t)) by lia.
  rewrite length_replicate, take_ge, drop_replicate by lia. done.
Qed.

Lemma ReadNextVLI_short_read_witness :
  fst (ReadNextVLI (NewReader [0x80; 0x01])) = Ok (0x10000, 4).
Proof. apply (ReadNextVLI_short_read 0x80 [0x01] 4); [reflexivity|discriminate|simpl; lia]. Defined.

(** [IsGREASETransportParameter] recognises exactly the identifiers 31*N + 27 that
    RFC 9000, section 18.1, reserves. *)
Theorem IsGREASETransportParameter_spec p :
  0 <= p < 2 ^ 64 →
  IsGREASETransportParameter p = true ↔ ∃ k, 0 <= k ∧ p = 31 * k + 27.
Proof.
  intros Hp. unfold IsGREASETransportParameter. split.
  - intros H. bool_facts. rewrite u64_small in H0 by lia.
    exists ((p - 27) / 31). split; [apply Z.div_pos; lia|].
    pose proof (Z.div_mod (p - 27) 31). lia.
  - intros (k & Hk & ->). rewrite u64_small by lia.
    apply andb_true_iff. split; [apply Z.leb_le; lia|]. apply Z.eqb_eq.
    replace (31 * k + 27 - 27) with (k * 31) by lia. apply Z.mod_mul. lia.
Qed.

Lemma IsGREASETransportParameter_spec_witness :
  IsGREASETransportParameter 2508523926926946207 = true ↔
  ∃ k, 0 <= k ∧ 2508523926926946207 = 31 * k + 27.
Proof. apply (IsGREASETransportParameter_spec 2508523926926946207). lia. Defined.
