(* ===== verification/Frames.v ===== *)
(** * QUIC frames

    quic_frame.go: the PADDING, PING and CRYPTO frames of an Initial packet, the
    frame parser [ReadAllFrames] and [ReassembleCRYPTOFrames].  The parser works
    on a reader it re-wraps after every PADDING frame; it is shown to compute a
    pure function of the packet's bytes ([frames_parse]), to terminate on every
    input and to invert the wire format. *)
From S2P Require Import Prelude GoIO Rewind VLI.

(** ** Frames *)

Definition QUICFrame_PADDING : Z := 0.
Definition QUICFrame_PING : Z := 1.
Definition QUICFrame_CRYPTO : Z := 6.

Inductive QUICFrame :=
  | PADDING (Length : Z)
  | PING
  | CRYPTO (Offset Length : Z) (data : bytes).

#[global] Instance QUICFrame_eq_dec : EqDecision QUICFrame.
Proof. solve_decision. Defined.

Definition FrameType (f : QUICFrame) : Z :=
  match f with
  | PADDING _ => QUICFrame_PADDING
  | PING => QUICFrame_PING
  | CRYPTO _ _ _ => QUICFrame_CRYPTO
  end.

Definition Offset (f : QUICFrame) : Z := match f with CRYPTO o _ _ => o | _ => 0 end.
Definition data (f : QUICFrame) : bytes := match f with CRYPTO _ _ d => d | _ => [] end.

(** [CRYPTO.Data]: a copy of the data. *)
Definition Data (f : QUICFrame) : bytes := [] ++ data f.

Definition FrameTypes (qfs : list QUICFrame) : list Z :=
  foldl (λ acc f, acc ++ [FrameType f]) [] qfs.

Definition FrameTypesUint8 (qfs : list QUICFrame) : list Z :=
  foldl (λ acc f, acc ++ [u8 (Z.land (FrameType f) 0xFF)]) [] qfs.

(** ** Reading frames *)

Section read.
Context `{IOReader R}.

(** The loop of [PADDING.ReadReader]: [b] is the one-byte buffer reused by every
    read, [Length] the zero bytes seen.  [None]: the fuel ran out. *)
Fixpoint PADDING_loop (fuel : nat) (r : ioReader R) (b : bytes) (Length : Z)
    : option (outcome QUICFrame * ioReader R) :=
  match fuel with
  | O => None
  | S fuel =>
    let '(d, err, r) := io_read r 1 in
    match err with
    | Some err =>
      if bool_decide (err = io_EOF) then Some (Ok (PADDING Length), r)
      else Some (Err err, r)
    | None =>
      let b := copy_into b d in
      if negb (hd 0 b =? 0x00) then Some (Ok (PADDING Length), RewindReader r b)
      else PADDING_loop fuel r b (u64 (Length + 1))
    end
  end.

Definition PADDING_ReadReader (fuel : nat) (r : ioReader R)
    : option (outcome QUICFrame * ioReader R) := PADDING_loop fuel r [0] 1.

Definition PING_ReadReader (r : ioReader R) : outcome QUICFrame * ioReader R :=
  (Ok PING, r).

Definition CRYPTO_ReadReader (r : ioReader R) : outcome QUICFrame * ioReader R :=
  match ReadNextVLI r with
  | (Err e, r) => (Err e, r)
  | (Panic w, r) => (Panic w, r)
  | (Ok (offset, _), r) =>
    match ReadNextVLI r with
    | (Err e, r) => (Err e, r)
    | (Panic w, r) => (Panic w, r)
    | (Ok (length, _), r) =>
      match make_bytes length with
      | Err e => (Err e, r)
      | Panic w => (Panic w, r)
      | Ok buf =>
        let '(d, err, r) := io_read r (Z.to_nat length) in
        match err with
        | Some e => (Err e, r)
        | None => (Ok (CRYPTO offset length (copy_into buf d)), r)
        end
      end
    end
  end.

Definition unknown_frame_type : goerror := errors_New "unknown frame type".

(** The loop of [ReadAllFrames]; [frames] is what has been appended so far. *)
Fixpoint ReadAllFrames_loop (fuel : nat) (r : ioReader R) (frames : list QUICFrame)
    : option (outcome (list QUICFrame)) :=
  match fuel with
  | O => None
  | S fuel' =>
    match ReadNextVLI r with
    | (Err e, _) => Some (if bool_decide (e = io_EOF) then Ok frames else Err e)
    | (Panic w, _) => Some (Panic w)
    | (Ok (frameType, _), r) =>
      let read :=
        if frameType =? QUICFrame_PADDING then PADDING_ReadReader fuel r
        else if frameType =? QUICFrame_PING then Some (PING_ReadReader r)
        else if frameType =? QUICFrame_CRYPTO then Some (CRYPTO_ReadReader r)
        else Some (Err unknown_frame_type, r) in
      match read with
      | None => None
      | Some (Err e, _) => Some (Err e)
      | Some (Panic w, _) => Some (Panic w)
      | Some (Ok frame, r) => ReadAllFrames_loop fuel' r (frames ++ [frame])
      end
    end
  end.

Definition ReadAllFrames (fuel : nat) (r : ioReader R)
    : option (outcome (list QUICFrame)) := ReadAllFrames_loop fuel r [].
End read.

(** [ReadAllFrames(bytes.NewBuffer(p))], with fuel for the bytes of [p]. *)
Definition ReadAllFrames_buffer (p : bytes) : option (outcome (list QUICFrame)) :=
  ReadAllFrames (S (length p)) (Direct (NewBuffer p)).

(** ** Reassembling CRYPTO frames *)

Definition is_CRYPTO (f : QUICFrame) : bool := FrameType f =? QUICFrame_CRYPTO.

(** One iteration of the reassembly loop: [base] is the offset of the first frame. *)
Definition reassemble_step (base : Z) (acc : outcome bytes) (frame : QUICFrame)
    : outcome bytes :=
  let! reassembled := acc in
  if u64 (base + len reassembled) =? Offset frame then Ok (reassembled ++ data frame)
  else Err (errors_New "failed to reassemble CRYPTO frames").

(** [None] is Go's [nil]: no CRYPTO frame is not an error.  [sort_slice] stands for
    [sort.Slice] with the offset as key. *)
Definition ReassembleCRYPTOFrames (sort_slice : list QUICFrame → list QUICFrame)
    (frames : list QUICFrame) : outcome (option bytes) :=
  let cryptoFrames := List.filter is_CRYPTO frames in
  match cryptoFrames with
  | [] => Ok None
  | _ =>
    let cryptoFrames := sort_slice cryptoFrames in
    let base := match cryptoFrames with [] => 0 | f :: _ => Offset f end in
    let! reassembled := foldl (reassemble_step base) (Ok []) cryptoFrames in
    Ok (Some reassembled)
  end.

(** ** The pure parser *)

(** Zero bytes at the front of a stream, and what follows them. *)
Fixpoint zeros_run (s : bytes) : nat * bytes :=
  match s with
  | b :: s' => if b =? 0 then let '(k, rest) := zeros_run s' in (S k, rest) else (O, s)
  | [] => (O, [])
  end.

Definition crypto_parse (s : bytes) : outcome QUICFrame * bytes :=
  match vli_parse s with
  | (Err e, s) => (Err e, s)
  | (Panic w, s) => (Panic w, s)
  | (Ok (offset, _), s) =>
    match vli_parse s with
    | (Err e, s) => (Err e, s)
    | (Panic w, s) => (Panic w, s)
    | (Ok (length, _), s) =>
      match make_bytes length with
      | Err e => (Err e, s)
      | Panic w => (Panic w, s)
      | Ok buf =>
        if (0 <? length) && bool_decide (s = []) then (Err io_EOF, [])
        else (Ok (CRYPTO offset length (copy_into buf (take (Z.to_nat length) s))),
              drop (Z.to_nat length) s)
      end
    end
  end.

Definition frame_parse (frameType : Z) (s : bytes) : outcome QUICFrame * bytes :=
  if frameType =? QUICFrame_PADDING then
    let '(k, rest) := zeros_run s in (Ok (PADDING (u64 (1 + Z.of_nat k))), rest)
  else if frameType =? QUICFrame_PING then (Ok PING, s)
  else if frameType =? QUICFrame_CRYPTO then crypto_parse s
  else (Err unknown_frame_type, s).

Fixpoint frames_parse (fuel : nat) (s : bytes) (frames : list QUICFrame)
    : option (outcome (list QUICFrame)) :=
  match fuel with
  | O => None
  | S fuel =>
    match vli_parse s with
    | (Err e, _) => Some (if bool_decide (e = io_EOF) then Ok frames else Err e)
    | (Panic w, _) => Some (Panic w)
    | (Ok (frameType, _), s) =>
      match frame_parse frameType s with
      | (Err e, _) => Some (Err e)
      | (Panic w, _) => Some (Panic w)
      | (Ok frame, s) => frames_parse fuel s (frames ++ [frame])
      end
    end
  end.

(** ** The parser computes the pure function *)

(** A reader whose rewinds have all been consumed. *)
Fixpoint clean (c : ioReader bytesBuffer) : Prop :=
  match c with
  | Direct _ => True
  | rewindReader inner rr => br_Size rr = 0 ∧ clean inner
  end.

Lemma clean_read c n :
  clean c →
  ∃ c', io_read c n =
          (take n (stream c),
           match stream c, n with [], S _ => Some io_EOF | _, _ => None end, c')
        ∧ stream c' = drop n (stream c) ∧ clean c'.
Proof.
  unfold io_read, ioReader_read. revert n. induction c as [[s]|inner IH rr]; intros n Hc.
  - exists (Direct (NewBuffer (drop n s))). simpl. unfold io_read, bytesBuffer_read. simpl.
    destruct s as [|b s]; [by destruct n|by destruct n].
  - destruct Hc as [Hrr Hc]. destruct (IH n Hc) as (c' & Hr & Hs & Hc').
    exists (rewindReader c' rr). simpl in *. rewrite Hrr. simpl. rewrite Hr.
    rewrite br_Size_rest by done. done.
Qed.

#[global] Instance ioReader_prompt : PromptReader (ioReader bytesBuffer) clean.
Proof.
  intros c n Hc Hn. destruct (clean_read c n Hc) as (c' & Hr & Hs & Hc').
  exists c'. rewrite Hr. destruct n; [lia|]. by destruct (stream c).
Qed.

(** Reading one byte also works when one byte has just been put back. *)
Lemma pending_prompt1 c b :
  clean c → prompt1 clean (RewindReader c [b]).
Proof.
  intros Hc. destruct (clean_read c 0 Hc) as (c' & Hr & Hs & Hc').
  exists (rewindReader c' (br_Reset [])). unfold io_read, ioReader_read in *.
  unfold RewindReader. simpl in *. rewrite Hr. rewrite Hs.
  destruct (ioReader_stream c); done.
Qed.

Lemma clean_prompt1 c : clean c → prompt1 clean c.
Proof. intros Hc. apply prompt_read; [done|lia]. Qed.

Lemma PADDING_loop_parse fuel c b L :
  clean c → b = [0] → 0 <= L → (length (stream c) < fuel)%nat →
  ∃ c', PADDING_loop fuel c b (u64 L) =
          Some (Ok (PADDING (u64 (L + Z.of_nat (fst (zeros_run (stream c)))))), c')
        ∧ stream c' = snd (zeros_run (stream c)) ∧ prompt1 clean c'.
Proof.
  intros Hc -> HL Hfuel. revert c L Hc HL Hfuel.
  induction fuel as [|fuel IH]; intros c L Hc HL Hfuel; [lia|]. cbn [PADDING_loop].
  destruct (prompt_read c 1 Hc ltac:(lia)) as (c1 & -> & Hs1 & Hc1).
  destruct (stream c) as [|b t].
  { simpl. rewrite Z.add_0_r. exists c1. eauto using clean_prompt1. }
  change (drop 1 (b :: t)) with t in Hs1.
  replace (copy_into [0] (take 1 (b :: t))) with [b] by (simpl; by rewrite take_0).
  cbn [hd zeros_run]. destruct (b =? 0) eqn:Eb; cbn [negb].
  - bool_facts. subst b. replace (u64 (u64 L + 1)) with (u64 (L + 1)).
    2: { unfold u64. by rewrite Z.add_mod_idemp_l. }
    destruct (IH c1 (L + 1) Hc1 ltac:(lia)) as (c' & -> & Hs' & Hp').
    { rewrite Hs1. simpl in Hfuel. lia. }
    rewrite Hs1 in *. destruct (zeros_run t) as [k rest]. exists c'. cbn [fst snd] in *.
    split; [|done]. do 5 f_equal. lia.
  - cbn [fst snd Z.of_nat]. rewrite Z.add_0_r. exists (RewindReader c1 [b]).
    split; [done|]. split; [|by apply pending_prompt1].
    rewrite RewindReader_stream, Hs1. done.
Qed.

Lemma CRYPTO_ReadReader_parse c :
  clean c → ∃ c', CRYPTO_ReadReader c = (fst (crypto_parse (stream c)), c')
                  ∧ stream c' = snd (crypto_parse (stream c)) ∧ clean c'.
Proof.
  intros Hc. unfold CRYPTO_ReadReader, crypto_parse.
  destruct (ReadNextVLI_parse c Hc) as (c1 & -> & Hs1 & Hc1).
  destruct (vli_parse (stream c)) as [[[off n1]|e|w] s1]; cbn [fst snd] in *; [|by exists c1..].
  destruct (ReadNextVLI_parse c1 Hc1) as (c2 & -> & Hs2 & Hc2). rewrite Hs1 in *.
  destruct (vli_parse s1) as [[[L n2]|e|w] s2]; cbn [fst snd] in *; [|by exists c2..].
  destruct (make_bytes L) as [buf|e|w] eqn:Hbuf; [|by exists c2..].
  destruct (clean_read c2 (Z.to_nat L) Hc2) as (c3 & -> & Hs3 & Hc3). exists c3.
  rewrite Hs2 in *. destruct s2 as [|b s2].
  - rewrite drop_nil in *. destruct (Z.to_nat L) eqn:EL.
    + by rewrite (proj2 (Z.ltb_ge 0 L)) by lia.
    + by rewrite (proj2 (Z.ltb_lt 0 L)) by lia.
  - rewrite andb_comm. done.
Qed.

Lemma zeros_run_length s : (length (snd (zeros_run s)) <= length s)%nat.
Proof.
  induction s as [|b s IH]; simpl; [lia|]. case_goal; [|simpl; lia].
  destruct (zeros_run s). simpl in *. lia.
Qed.

Lemma crypto_parse_length s : (length (snd (crypto_parse s)) <= length s)%nat.
Proof.
  unfold crypto_parse. destruct (vli_parse_suffix s) as [d1 H1].
  destruct (vli_parse s) as [o1 s1]. simpl in H1. subst s.
  destruct o1 as [[off n1]|e|w]; simpl; [|len_solve..].
  destruct (vli_parse_suffix s1) as [d2 H2].
  destruct (vli_parse s1) as [o2 s2]. simpl in H2. subst s1.
  destruct o2 as [[L n2]|e|w]; simpl; [|len_solve..].
  repeat case_goal; simpl; len_solve.
Qed.

Lemma frame_parse_length ft s : (length (snd (frame_parse ft s)) <= length s)%nat.
Proof.
  unfold frame_parse. case_goal.
  { pose proof (zeros_run_length s). by destruct (zeros_run s). }
  repeat case_goal; simpl; try lia. apply crypto_parse_length.
Qed.

Lemma ReadAllFrames_loop_parse fuel c frames :
  prompt1 clean c → (length (stream c) < fuel)%nat →
  ReadAllFrames_loop fuel c frames = frames_parse fuel (stream c) frames.
Proof.
  revert c frames. induction fuel as [|fuel IH]; intros c frames Hc Hfuel; [done|].
  cbn [ReadAllFrames_loop frames_parse].
  destruct (ReadNextVLI_parse1 c Hc) as (c1 & -> & Hs1 & Hc1).
  destruct (vli_parse (stream c)) as [[[ft n]|e|w] s1] eqn:Ev; cbn [fst snd] in *; [|done..].
  pose proof (vli_parse_consumes _ _ _ _ Ev) as Hcons.
  pose proof (frame_parse_length ft s1) as Hlen. unfold frame_parse in *.
  destruct (ft =? QUICFrame_PADDING).
  { unfold PADDING_ReadReader. change 1 with (u64 1).
    destruct (PADDING_loop_parse (S fuel) c1 [0] 1 Hc1) as (c2 & -> & Hs2 & Hc2);
      [done|lia|rewrite Hs1; lia|].
    rewrite Hs1 in *. destruct (zeros_run s1) as [k rest]. cbn [fst snd] in *.
    rewrite IH; [by rewrite Hs2|done|rewrite Hs2; lia]. }
  destruct (ft =? QUICFrame_PING).
  { cbn [fst snd] in *. unfold PING_ReadReader.
    rewrite IH; [by rewrite Hs1|by apply clean_prompt1|rewrite Hs1; lia]. }
  destruct (ft =? QUICFrame_CRYPTO); [|done].
  destruct (CRYPTO_ReadReader_parse c1 Hc1) as (c2 & -> & Hs2 & Hc2). rewrite Hs1 in *.
  destruct (crypto_parse s1) as [[f|e|w] s2]; cbn [fst snd] in *; [|done..].
  rewrite IH; [by rewrite Hs2|by apply clean_prompt1|rewrite Hs2; lia].
Qed.

(** Enough fuel for the bytes always gives a result. *)
Lemma frames_parse_total fuel s frames :
  (length s < fuel)%nat → ∃ o, frames_parse fuel s frames = Some o.
Proof.
  revert s frames. induction fuel as [|fuel IH]; intros s frames Hfuel; [lia|].
  cbn [frames_parse]. destruct (vli_parse s) as [[[ft n]|e|w] s1] eqn:Ev; [|by eauto..].
  pose proof (vli_parse_consumes _ _ _ _ Ev) as Hcons.
  pose proof (frame_parse_length ft s1) as Hlen.
  destruct (frame_parse ft s1) as [[f|e|w] s2]; [|by eauto..]. apply IH. simpl in *. lia.
Qed.

(** More fuel does not change the result. *)
Lemma frames_parse_mono fuel fuel' s frames o :
  (fuel <= fuel')%nat → frames_parse fuel s frames = Some o →
  frames_parse fuel' s frames = Some o.
Proof.
  revert fuel' s frames. induction fuel as [|fuel IH]; intros [|fuel'] s frames Hle;
    cbn [frames_parse]; [done|done|lia|].
  destruct (vli_parse s) as [[[ft n]|e|w] s1]; [|done..].
  destruct (frame_parse ft s1) as [[f|e|w] s2]; [|done..]. apply IH. lia.
Qed.

Lemma frames_parse_acc fuel s pre acc :
  frames_parse fuel s (pre ++ acc) =
  match frames_parse fuel s acc with
  | Some (Ok fs) => Some (Ok (pre ++ fs))
  | o => o
  end.
Proof.
  revert s acc. induction fuel as [|fuel IH]; intros s acc; [done|]. cbn [frames_parse].
  destruct (vli_parse s) as [[[ft n]|e|w] s1]; [|by case_bool_decide|done].
  destruct (frame_parse ft s1) as [[f|e|w] s2]; [|done..].
  rewrite <- app_assoc. apply IH.
Qed.

(** ** The wire format *)

(** The shortest size an integer fits in. *)
Definition vli_len (v : Z) : nat :=
  if v <? 2 ^ 6 then 1 else if v <? 2 ^ 14 then 2 else if v <? 2 ^ 30 then 4 else 8.

Definition encode_frame (f : QUICFrame) : bytes :=
  match f with
  | PADDING L => replicate (Z.to_nat L) 0
  | PING => [1]
  | CRYPTO off L d => 6 :: vli_encode (vli_len off) off ++ vli_encode (vli_len L) L ++ d
  end.

(** What a parsed frame satisfies. *)
Definition frame_wf (f : QUICFrame) : Prop :=
  match f with
  | PADDING L => 1 <= L < 2 ^ 64
  | PING => True
  | CRYPTO off L d => 0 <= off < 2 ^ 62 ∧ 0 <= L <= maxAlloc ∧ len d = L ∧ wf_bytes d
  end.

#[global] Instance frame_wf_dec f : Decision (frame_wf f).
Proof. destruct f; simpl; apply _. Defined.

(** A run of zero bytes is one PADDING frame. *)
Fixpoint no_adjacent_padding (fs : list QUICFrame) : bool :=
  match fs with
  | PADDING _ :: ((PADDING _ :: _)) => false
  | _ :: fs => no_adjacent_padding fs
  | [] => true
  end.

Lemma vli_len_fits v : 0 <= v < 2 ^ 62 → vli_fits (vli_len v) v.
Proof.
  intros Hv. unfold vli_len, vli_fits.
  repeat case_goal; bool_facts; (split; [repeat constructor|simpl; lia]).
Qed.

Lemma vli_encode_len_nonempty v : (1 <= length (vli_encode (vli_len v) v))%nat.
Proof. unfold vli_encode. rewrite length_be_encode. unfold vli_len. repeat case_goal; lia. Qed.

Lemma zeros_run_replicate k s :
  match s with b :: _ => b ≠ 0 | [] => True end →
  zeros_run (replicate k 0 ++ s) = (k, s).
Proof.
  intros Hs. induction k as [|k IH]; simpl; [|by rewrite IH].
  destruct s as [|b s]; [done|]. simpl. by rewrite (proj2 (Z.eqb_neq b 0)).
Qed.

(** Reading a CRYPTO frame whose data may be cut short. *)
Lemma crypto_parse_encode off L d :
  0 <= off < 2 ^ 62 → 0 <= L <= maxAlloc → (L = 0 ∨ d ≠ []) →
  crypto_parse (vli_encode (vli_len off) off ++ vli_encode (vli_len L) L ++ d) =
  (Ok (CRYPTO off L (copy_into (replicate (Z.to_nat L) 0) (take (Z.to_nat L) d))),
   drop (Z.to_nat L) d).
Proof.
  intros Ho HL Hd. unfold crypto_parse.
  rewrite vli_parse_encode by by apply vli_len_fits.
  rewrite vli_parse_encode by (apply vli_len_fits; unfold maxAlloc in *; lia).
  rewrite make_bytes_ok by done.
  destruct ((0 <? L) && bool_decide (d = [])) eqn:E; [|done].
  bool_facts. destruct Hd; [lia|done].
Qed.

Lemma encode_frames_head fs t :
  no_adjacent_padding (PADDING 1 :: fs) = true → hd 1 t ≠ 0 →
  match flat_map encode_frame fs ++ t with b :: _ => b ≠ 0 | [] => True end.
Proof. destruct fs as [|[]]; [|done..]. by destruct t. Qed.

Lemma no_adjacent_padding_tail f fs :
  no_adjacent_padding (f :: fs) = true → no_adjacent_padding fs = true.
Proof. by destruct f, fs as [|[] fs]. Qed.

(** The frames, followed by something that is not more padding. *)
Lemma frames_parse_encode_app fs t fuel acc :
  Forall frame_wf fs → no_adjacent_padding fs = true → hd 1 t ≠ 0 → (length fs < fuel)%nat →
  frames_parse fuel (flat_map encode_frame fs ++ t) acc = frames_parse (fuel - length fs) t (acc ++ fs).
Proof.
  intros Hwf Hadj Ht. revert fuel acc Hwf Hadj.
  induction fs as [|f fs IH]; intros [|fuel] acc Hwf Hadj Hfuel; try (simpl in Hfuel; lia).
  { by rewrite app_nil_r. }
  apply Forall_cons in Hwf as [Hf Hwf]. pose proof (no_adjacent_padding_tail _ _ Hadj) as Hadj'.
  assert (acc ++ f :: fs = (acc ++ [f]) ++ fs) as -> by by rewrite <- app_assoc.
  simpl in Hfuel. cbn [flat_map frames_parse length Nat.sub]. rewrite <- app_assoc.
  destruct f as [L| |off L d].
  - simpl in Hf. cbn [encode_frame].
    replace (Z.to_nat L) with (S (Z.to_nat (L - 1))) by lia. cbn [replicate app].
    change (vli_parse (0 :: ?s)) with (@Ok (Z * Z) (0, 1), s).
    cbv beta iota. unfold frame_parse. cbv beta iota delta [QUICFrame_PADDING Z.eqb].
    rewrite zeros_run_replicate by (apply encode_frames_head; [by destruct fs as [|[]]|done]).
    replace (u64 (1 + Z.of_nat (Z.to_nat (L - 1)))) with L; [apply IH; done || lia|].
    rewrite u64_small; lia.
  - change (vli_parse (encode_frame PING ++ ?s)) with (@Ok (Z * Z) (1, 1), s).
    apply IH; done || lia.
  - destruct Hf as (Ho & HL & Hl & Hd). cbn [encode_frame]. rewrite <- app_comm_cons.
    change (vli_parse (6 :: ?s)) with (@Ok (Z * Z) (6, 1), s). cbv beta iota.
    change (frame_parse 6 ?s) with (crypto_parse s). rewrite <- !app_assoc.
    rewrite crypto_parse_encode; [|done|done|].
    2: { destruct d; [simpl in Hl; lia|by right]. }
    rewrite take_app_le, take_ge, drop_app_ge by lia.
    replace (Z.to_nat L - length d)%nat with 0%nat by lia. rewrite drop_0.
    rewrite copy_into_full by (rewrite length_replicate; lia).
    rewrite (app_assoc acc). apply IH; done || lia.
Qed.

Lemma frames_parse_encode fs fuel acc :
  Forall frame_wf fs → no_adjacent_padding fs = true → (length fs < fuel)%nat →
  frames_parse fuel (flat_map encode_frame fs) acc = Some (Ok (acc ++ fs)).
Proof.
  intros Hwf Hadj Hf. rewrite <- (app_nil_r (flat_map encode_frame fs)).
  rewrite frames_parse_encode_app by done. by destruct (fuel - length fs)%nat eqn:E; [lia|].
Qed.

Lemma encode_frames_length fs :
  Forall frame_wf fs → (length fs <= length (flat_map encode_frame fs))%nat.
Proof.
  induction 1 as [|f fs Hf _ IH]; simpl; [lia|]. rewrite length_app.
  assert (1 <= length (encode_frame f))%nat; [|lia].
  destruct f; simpl in *; autorewrite with golen; lia.
Qed.

Lemma ReadAllFrames_buffer_parse p fuel :
  (length p < fuel)%nat →
  ReadAllFrames fuel (Direct (NewBuffer p)) = frames_parse fuel p [].
Proof. intros. by apply (ReadAllFrames_loop_parse fuel (Direct (NewBuffer p))), H; apply clean_prompt1. Qed.

Lemma ReadAllFrames_encode fs :
  Forall frame_wf fs → no_adjacent_padding fs = true →
  ReadAllFrames_buffer (flat_map encode_frame fs) = Some (Ok fs).
Proof.
  intros Hwf Hadj. unfold ReadAllFrames_buffer.
  rewrite ReadAllFrames_buffer_parse by lia.
  apply (frames_parse_encode fs _ []); [done|done|].
  pose proof (encode_frames_length fs Hwf). lia.
Qed.

(** A frame of another type ends it. *)
Lemma ReadAllFrames_unknown fs b t :
  Forall frame_wf fs → no_adjacent_padding fs = true → 1 < b < 64 → b ≠ 6 →
  ReadAllFrames_buffer (flat_map encode_frame fs ++ b :: t) = Some (Err unknown_frame_type).
Proof.
  intros Hwf Hadj Hb H6. unfold ReadAllFrames_buffer. rewrite ReadAllFrames_buffer_parse by lia.
  pose proof (encode_frames_length fs Hwf) as Hl.
  rewrite frames_parse_encode_app; [|done|done|simpl; lia|rewrite length_app; lia].
  replace (S (length (flat_map encode_frame fs ++ b :: t)) - length fs)%nat
    with (S (length (flat_map encode_frame fs ++ b :: t) - length fs)) by (rewrite length_app; lia).
  cbn [frames_parse]. change (b :: t) with ([b] ++ t).
  assert (vli_encode 1 b = [b]) as He
    by (unfold vli_encode; cbn [be_encode]; rewrite Z.shiftr_0_r, Z.mod_small by (simpl; lia); done).
  rewrite <- He, vli_parse_encode by (split; [by left|simpl; lia]).
  unfold frame_parse, QUICFrame_PADDING, QUICFrame_PING, QUICFrame_CRYPTO.
  rewrite !(proj2 (Z.eqb_neq _ _)) by lia. done.
Qed.

(** ** Properties *)

(** C28: [ReadAllFrames] terminates on every packet: with fuel for the bytes it has a
    result, and any larger amount of fuel gives the same one. *)
Theorem ReadAllFrames_terminates p :
  ∃ o, ReadAllFrames_buffer p = Some o ∧
       ∀ fuel, (length p < fuel)%nat → ReadAllFrames fuel (Direct (NewBuffer p)) = Some o.
Proof.
  destruct (frames_parse_total (S (length p)) p []) as [o Ho]; [lia|]. exists o.
  unfold ReadAllFrames_buffer. rewrite ReadAllFrames_buffer_parse by lia. split; [done|].
  intros fuel Hf. rewrite ReadAllFrames_buffer_parse by lia.
  apply (frames_parse_mono (S (length p))); [lia|done].
Qed.

(** C12: Parsing inverts the wire format: a sequence of well-formed frames without
    adjacent PADDING frames, written out in order, is read back exactly. *)
Theorem ReadAllFrames_roundtrip fs :
  Forall frame_wf fs → no_adjacent_padding fs = true →
  ReadAllFrames_buffer (flat_map encode_frame fs) = Some (Ok fs).
Proof. apply ReadAllFrames_encode. Qed.

Lemma ReadAllFrames_roundtrip_witness :
  ReadAllFrames_buffer (flat_map encode_frame
    [PING; PADDING 3; CRYPTO 1191 2 [9; 8]; PADDING 2; CRYPTO 0 1 [7]; PING])
  = Some (Ok [PING; PADDING 3; CRYPTO 1191 2 [9; 8]; PADDING 2; CRYPTO 0 1 [7]; PING]).
Proof. apply ReadAllFrames_roundtrip; [decide_now|reflexivity]. Defined.

(** A CRYPTO frame whose data is cut short by the end of the packet is accepted, its
    missing bytes read as zero (the count returned by [r.Read] is ignored). *)
Theorem CRYPTO_short_read off L d :
  0 <= off < 2 ^ 62 → len d < L <= maxAlloc → d ≠ [] →
  ReadAllFrames_buffer (6 :: vli_encode (vli_len off) off ++ vli_encode (vli_len L) L ++ d)
  = Some (Ok [CRYPTO off L (d ++ replicate (Z.to_nat L - length d) 0)]).
Proof.
  intros Ho HL Hd. unfold ReadAllFrames_buffer.
  rewrite ReadAllFrames_buffer_parse by lia. cbn [length frames_parse].
  change (vli_parse (6 :: ?s)) with (@Ok (Z * Z) (6, 1), s). cbv beta iota.
  change (frame_parse 6 ?s) with (crypto_parse s).
  rewrite crypto_parse_encode; [|done|lia|by right].
  rewrite take_ge, drop_ge by lia. unfold copy_into.
  rewrite take_ge, drop_replicate by (rewrite length_replicate; lia).
  rewrite length_app. pose proof (vli_encode_len_nonempty off).
  destruct (length (vli_encode _ off)); [lia|]. done.
Qed.

Lemma CRYPTO_short_read_witness :
  ReadAllFrames_buffer [6; 0; 4; 0xaa] = Some (Ok [CRYPTO 0 4 [0xaa; 0; 0; 0]]).
Proof.
  apply (CRYPTO_short_read 0 4 [0xaa]); [lia|unfold maxAlloc; simpl; lia|discriminate].
Defined.

(** A CRYPTO frame that announces more than the runtime can allocate makes
    [ReadAllFrames] panic: unlike the token and payload lengths, this length is not
    compared with the bytes at hand before [make]. *)
Theorem CRYPTO_length_panics off L d :
  0 <= off < 2 ^ 62 → maxAlloc < L < 2 ^ 62 →
  ReadAllFrames_buffer (6 :: vli_encode (vli_len off) off ++ vli_encode (vli_len L) L ++ d)
  = Some (Panic "makeslice: len out of range").
Proof.
  intros Ho HL. unfold ReadAllFrames_buffer.
  rewrite ReadAllFrames_buffer_parse by lia. cbn [length frames_parse].
  change (vli_parse (6 :: ?s)) with (@Ok (Z * Z) (6, 1), s). cbv beta iota.
  change (frame_parse 6 ?s) with (crypto_parse s). unfold crypto_parse.
  rewrite vli_parse_encode by by apply vli_len_fits.
  rewrite vli_parse_encode by (apply vli_len_fits; unfold maxAlloc in *; lia).
  unfold make_bytes. rewrite (proj2 (Z.ltb_lt maxAlloc L)), orb_true_r by lia. done.
Qed.

Lemma CRYPTO_length_panics_witness :
  ReadAllFrames_buffer (6 :: vli_encode (vli_len 0) 0 ++ vli_encode (vli_len (2 ^ 62 - 1)) (2 ^ 62 - 1) ++ [])
  = Some (Panic "makeslice: len out of range").
Proof. apply (CRYPTO_length_panics 0 (2 ^ 62 - 1) []); unfold maxAlloc; lia. Defined.

(** The parser depends on the reader it is given: over a [bytes.Reader], which
    answers [io.EOF] to an empty read at its end, the byte put back after PADDING
    is lost when it is the last one of the packet. *)
Example ReadAllFrames_bytesReader_drops_last :
  ReadAllFrames 9 (Direct (NewReader [0; 0; 1])) = Some (Ok [PADDING 2]) ∧
  ReadAllFrames 9 (Direct (NewBuffer [0; 0; 1])) = Some (Ok [PADDING 2; PING]).
Proof. split; reflexivity. Qed.

(** ** Well-formedness of parsed frames *)

Lemma zeros_run_bounds s : (fst (zeros_run s) <= length s)%nat.
Proof.
  induction s as [|b s IH]; simpl; [lia|]. case_goal; simpl; [|lia].
  destruct (zeros_run s). simpl in *. lia.
Qed.

Lemma zeros_run_wf s : wf_bytes s → wf_bytes (snd (zeros_run s)).
Proof.
  induction 1 as [|b s Hb Hs IH]; simpl; [constructor|]. case_goal; [|by constructor].
  by destruct (zeros_run s).
Qed.

Lemma frame_parse_wf ft s f s' :
  wf_bytes s → len s < 2 ^ 63 → frame_parse ft s = (Ok f, s') → frame_wf f ∧ wf_bytes s'.
Proof.
  intros Hs Hlen. unfold frame_parse. case_goal.
  { pose proof (zeros_run_bounds s) as Hb. pose proof (zeros_run_wf s Hs) as Hw.
    destruct (zeros_run s) as [k rest]. intros [= <- <-]. simpl in *.
    rewrite u64_small by lia. split; [lia|done]. }
  case_goal; [by intros [= <- <-]|]. case_goal; [|done].
  unfold crypto_parse. destruct (vli_parse s) as [[[off n1]|e|w] s1] eqn:E1; [|done..].
  pose proof (vli_parse_ok_range _ _ _ _ Hs E1) as [Hoff _].
  pose proof (vli_parse_wf s Hs) as Hs1. rewrite E1 in Hs1. simpl in Hs1.
  destruct (vli_parse s1) as [[[L n2]|e|w] s2] eqn:E2; [|done..].
  pose proof (vli_parse_ok_range _ _ _ _ Hs1 E2) as [HL _].
  pose proof (vli_parse_wf s1 Hs1) as Hs2. rewrite E2 in Hs2. simpl in Hs2.
  destruct (make_bytes L) as [buf|e|w] eqn:Hbuf; [|done..].
  case_goal; [done|]. intros [= <- <-]. unfold make_bytes in Hbuf.
  case_hyp Hbuf; [done|]. injection Hbuf as <-. bool_facts.
  split; [|by apply wf_bytes_drop]. simpl. split_and!; try lia.
  - autorewrite with golen. lia.
  - apply wf_bytes_copy_into; auto with gohints.
Qed.

Lemma frames_parse_wf fuel s acc fs :
  wf_bytes s → len s < 2 ^ 63 → Forall frame_wf acc →
  frames_parse fuel s acc = Some (Ok fs) → Forall frame_wf fs.
Proof.
  revert s acc. induction fuel as [|fuel IH]; intros s acc Hs Hlen Hacc; [done|].
  cbn [frames_parse]. destruct (vli_parse s) as [[[ft n]|e|w] s1] eqn:E1; [|by case_bool_decide; intros [= <-]|done].
  pose proof (vli_parse_consumes _ _ _ _ E1) as Hc.
  pose proof (vli_parse_wf s Hs) as Hs1. rewrite E1 in Hs1. simpl in Hs1.
  pose proof (frame_parse_length ft s1) as Hl.
  destruct (frame_parse ft s1) as [[f|e|w] s2] eqn:E2; [|done..]. simpl in Hl.
  apply frame_parse_wf in E2 as [Hf Hs2]; [|done|lia].
  apply IH; [done|lia|]. apply Forall_app. split; [done|by constructor].
Qed.

Lemma ReadAllFrames_buffer_wf p fs :
  wf_bytes p → len p < 2 ^ 63 → ReadAllFrames_buffer p = Some (Ok fs) → Forall frame_wf fs.
Proof.
  intros Hp Hl. unfold ReadAllFrames_buffer. rewrite ReadAllFrames_buffer_parse by lia.
  by apply frames_parse_wf.
Qed.

(** ** Reassembly *)

(** The data of [f] lies in [s] at its offset, counted from [base]. *)
Definition at_offset (base : Z) (s : bytes) (f : QUICFrame) : Prop :=
  ∃ pre post, s = pre ++ data f ++ post ∧ Offset f = u64 (base + len pre).

(** A byte string cut into consecutive CRYPTO frames. *)
Fixpoint fragments (off : Z) (pieces : list bytes) : list QUICFrame :=
  match pieces with
  | [] => []
  | d :: pieces => CRYPTO off (len d) d :: fragments (off + len d) pieces
  end.

Lemma reassemble_fail base l e : foldl (reassemble_step base) (Err e) l = Err e.
Proof. induction l; simpl; auto. Qed.

Lemma reassemble_sound base l acc s :
  foldl (reassemble_step base) (Ok acc) l = Ok s →
  (∃ post, s = acc ++ post) ∧ Forall (at_offset base s) l.
Proof.
  revert acc. induction l as [|f l IH]; intros acc; simpl.
  { intros [= <-]. split; [exists []; by rewrite app_nil_r|constructor]. }
  case_goal; [|by rewrite reassemble_fail]. bool_facts.
  intros [[post ->] Hl]%IH. split; [exists (data f ++ post); by rewrite app_assoc|].
  constructor; [|done]. exists acc, post. split; [by rewrite app_assoc|done].
Qed.

Lemma fragments_ge off pieces f : f ∈ fragments off pieces → off <= Offset f.
Proof.
  revert off. induction pieces as [|d ps IH]; intros off; simpl; [by intros ?%elem_of_nil|].
  intros [->|Hf]%elem_of_cons; [simpl; lia|]. apply IH in Hf. lia.
Qed.

Lemma fragments_sorted off pieces :
  sorted_by Offset (fragments off pieces) ∧
  (Forall (λ d, d ≠ []) pieces → NoDup (Offset <$> fragments off pieces)).
Proof.
  revert off. induction pieces as [|d ps IH]; intros off; simpl.
  { split; [constructor|intros; constructor]. }
  destruct (IH (off + len d)) as [Hs Hnd]. split.
  - constructor; [done|]. apply Forall_forall. intros f Hf%fragments_ge. simpl. lia.
  - intros [Hd Hps]%Forall_cons. apply NoDup_cons. split; [|auto].
    intros (f & Hf & Hin)%list_elem_of_fmap. apply fragments_ge in Hin.
    simpl in Hf. destruct d; [done|]. simpl in Hin. lia.
Qed.

Lemma reassemble_fragments base acc pieces :
  0 <= base → base + len acc + len (concat pieces) < 2 ^ 64 →
  foldl (reassemble_step base) (Ok acc) (fragments (base + len acc) pieces)
  = Ok (acc ++ concat pieces).
Proof.
  revert acc. induction pieces as [|d ps IH]; intros acc Hb Hlen; simpl.
  { by rewrite app_nil_r. }
  rewrite length_app in Hlen || (simpl in Hlen; rewrite length_app in Hlen).
  rewrite u64_small, Z.eqb_refl by lia.
  replace (base + len acc + len d) with (base + len (acc ++ d)) by len_solve.
  rewrite IH by len_solve. by rewrite app_assoc.
Qed.

Lemma fragments_filter off pieces :
  List.filter is_CRYPTO (fragments off pieces) = fragments off pieces.
Proof. revert off. induction pieces as [|d ps IH]; intros off; simpl; [done|]. by rewrite IH. Qed.

(** Whatever [ReassembleCRYPTOFrames] returns holds the data of every CRYPTO frame at
    its offset, counted from the smallest one. *)
Theorem ReassembleCRYPTOFrames_sound sort_slice frames s :
  (∀ l, sort_result Offset l (sort_slice l)) →
  ReassembleCRYPTOFrames sort_slice frames = Ok (Some s) →
  ∃ base, ∀ f, f ∈ frames → is_CRYPTO f = true → base <= Offset f ∧ at_offset base s f.
Proof.
  intros Hsort. unfold ReassembleCRYPTOFrames.
  destruct (List.filter is_CRYPTO frames) as [|f0 l0] eqn:Hfl; [done|]. rewrite <- Hfl. clear f0 l0 Hfl.
  destruct (Hsort (List.filter is_CRYPTO frames)) as [P S].
  set (l := sort_slice (List.filter is_CRYPTO frames)) in *.
  set (base := match l with [] => 0 | f :: _ => Offset f end).
  destruct (foldl _ _ l) as [s'|e|w] eqn:Hf; [|done..]. simpl. intros [= <-].
  apply reassemble_sound in Hf as [_ Hat]. exists base. intros f Hin Hc.
  assert (f ∈ l) as Hfl.
  { rewrite P. apply list_elem_of_In, filter_In. by rewrite <- list_elem_of_In. }
  rewrite Forall_forall in Hat. split; [|by apply Hat].
  unfold base. destruct l as [|f0 l']; [by apply elem_of_nil in Hfl|].
  apply elem_of_cons in Hfl as [->|Hfl]; [lia|]. inversion_clear S as [|?? _ Hall].
  rewrite Forall_forall in Hall. by apply Hall.
Qed.

Lemma ReassembleCRYPTOFrames_sound_witness :
  ∃ base, ∀ f, f ∈ [CRYPTO 12 1 [3]; PING; CRYPTO 10 2 [1; 2]] → is_CRYPTO f = true →
    base <= Offset f ∧ at_offset base [1; 2; 3] f.
Proof.
  apply (ReassembleCRYPTOFrames_sound (sort_by Offset)); [apply sort_by_result|reflexivity].
Defined.

(** C26: The frames of a CRYPTO stream, in any order and mixed with any other frames,
    reassemble to the stream, for every algorithm [sort.Slice] may use. *)
Theorem ReassembleCRYPTOFrames_complete sort_slice base pieces frames :
  (∀ l, sort_result Offset l (sort_slice l)) →
  0 <= base → base + len (concat pieces) < 2 ^ 64 →
  pieces ≠ [] → Forall (λ d, d ≠ []) pieces →
  List.filter is_CRYPTO frames ≡ₚ fragments base pieces →
  ReassembleCRYPTOFrames sort_slice frames = Ok (Some (concat pieces)).
Proof.
  intros Hsort Hb Hlen Hne Hps P. unfold ReassembleCRYPTOFrames.
  assert (sort_slice (List.filter is_CRYPTO frames) = fragments base pieces) as Heq.
  { destruct (fragments_sorted base pieces) as [Hs Hnd].
    apply (sort_result_unique Offset (fragments base pieces)); [by apply Hnd| |by split].
    destruct (Hsort (List.filter is_CRYPTO frames)) as [P' S']. split; [by rewrite P'|done]. }
  destruct (List.filter is_CRYPTO frames) as [|f0 l0] eqn:Hfl.
  { apply Permutation_nil in P. by destruct pieces. }
  rewrite Heq. pose proof (reassemble_fragments base [] pieces Hb) as Hre.
  simpl in Hre. rewrite Z.add_0_r in Hre. specialize (Hre Hlen).
  destruct pieces as [|d ps]; [done|]. cbn [fragments] in *. simpl Offset. by rewrite Hre.
Qed.

Lemma ReassembleCRYPTOFrames_complete_witness :
  ReassembleCRYPTOFrames (sort_by Offset)
    [PADDING 5; CRYPTO 12 1 [3]; PING; CRYPTO 10 2 [1; 2]] = Ok (Some (concat [[1; 2]; [3]])).
Proof.
  apply (ReassembleCRYPTOFrames_complete (sort_by Offset) 10 [[1; 2]; [3]]).
  - apply sort_by_result.
  - lia.
  - simpl. lia.
  - discriminate.
  - repeat constructor; discriminate.
  - simpl. apply perm_swap.
Defined.
