(* ===== verification/Reconstructor.v ===== *)
(** * Reconstructing a ClientHello from CRYPTO fragments

    quic_clienthello_reconstructor.go: [QUICClientHelloReconstructor], which
    collects CRYPTO fragments in any order into one buffer.  Shown: a
    well-formedness invariant every call preserves (memory bounds included), that
    the buffer only ever grows along the stream the fragments come from, and that
    the fragments of a ClientHello, in every order, rebuild it. *)
From S2P Require Import Prelude Frames.

(** ** State and operations *)

Record QUICClientHelloReconstructor := mkReconstructor {
  fullLen : Z;              (* uint32, 0 until it is known *)
  buf : bytes;              (* the assembled prefix *)
  frags : gmap Z bytes      (* pending fragments by offset *)
}.

Definition NewQUICClientHelloReconstructor : QUICClientHelloReconstructor :=
  mkReconstructor 0 [] ∅.

Definition maxCRYPTOFragments : Z := 32.
Definition maxCRYPTOLength : Z := 0x10000.

(** The condition of the overlap loop for the new fragment [offset], [frag] and a
    pending one. *)
Definition overlaps (offset : Z) (frag : bytes) (p : Z * bytes) : bool :=
  let '(off, f) := p in
  ((off <? offset) && (offset <? u64 (off + len f))) ||
  ((offset <? off) && (off <? u64 (offset + len frag))).

(** The assembly loop.  Every iteration removes a pending fragment, so fuel above
    their number is never exhausted (lemma [assemble_done]). *)
Fixpoint assemble (fuel : nat) (buf : bytes) (frags : gmap Z bytes)
    : bytes * gmap Z bytes :=
  match fuel with
  | O => (buf, frags)
  | S fuel =>
    match frags !! (len buf) with
    | Some f => assemble fuel (buf ++ f) (delete (len buf) frags)
    | None => (buf, frags)
    end
  end.

(** [binary.BigEndian.Uint32([]byte{0, buf[1], buf[2], buf[3]}) + 4]. *)
Definition parse_fullLen (buf : bytes) : Z :=
  u32 (be_decode (0 :: slice 1 4 buf) + 4).

(** What follows the assembly loop: learn the full length, decide completion. *)
Definition check_complete (fullLen : Z) (buf : bytes) : option goerror * Z :=
  let learn := (fullLen =? 0) && (4 <? len buf) in
  let fullLen := if learn then parse_fullLen buf else fullLen in
  if learn && (maxCRYPTOLength <? fullLen) then (Some ErrOffsetTooHigh, fullLen)
  else if (0 <? fullLen) && (fullLen <=? u32 (len buf)) then (Some io_EOF, fullLen)
  else (None, fullLen).

(** [None] is a [nil] error. *)
Definition AddCRYPTOFragment (qchr : QUICClientHelloReconstructor) (offset : Z) (frag : bytes)
    : option goerror * QUICClientHelloReconstructor :=
  if bool_decide (is_Some (frags qchr !! offset)) then (Some ErrDuplicateFragment, qchr)
  else if existsb (overlaps offset frag) (map_to_list (frags qchr))
  then (Some ErrOverlapFragment, qchr)
  else if offset <? len (buf qchr) then (Some ErrOverlapFragment, qchr)
  else if maxCRYPTOFragments <? Z.of_nat (size (frags qchr)) then (Some ErrTooManyFragments, qchr)
  else if maxCRYPTOLength <? u64 (offset + len frag) then (Some ErrOffsetTooHigh, qchr)
  else
    let frags1 := <[offset := frag]> (frags qchr) in
    let '(buf', frags') := assemble (S (size frags1)) (buf qchr) frags1 in
    let '(err, fullLen') := check_complete (fullLen qchr) buf' in
    (err, mkReconstructor fullLen' buf' frags').

(** [None] is [nil]. *)
Definition ReconstructAsBytes (qchr : QUICClientHelloReconstructor) : option bytes :=
  if fullLen qchr =? 0 then None
  else if u32 (len (buf qchr)) <? fullLen qchr then None
  else Some (buf qchr).

Fixpoint FromFrames (qr : QUICClientHelloReconstructor) (frames : list QUICFrame)
    : option goerror * QUICClientHelloReconstructor :=
  match frames with
  | [] => (Some ErrNeedMoreFrames, qr)
  | CRYPTO off _ d :: frames =>
    match AddCRYPTOFragment qr off d with
    | (None, qr) => FromFrames qr frames
    | (Some err, qr) => (if errors_Is err io_EOF then None else Some err, qr)
    end
  | _ :: frames => FromFrames qr frames
  end.

(** ** The assembly loop *)

Lemma assemble_done fuel b m b' m' :
  (size m < fuel)%nat → assemble fuel b m = (b', m') → m' !! (len b') = None.
Proof.
  revert b m. induction fuel as [|fuel IH]; intros b m Hsz; simpl; [lia|].
  case_goal; [|by intros [= <- <-]]. apply IH.
  pose proof (map_size_delete_Some (len b) m ltac:(eauto)).
  destruct (decide (size m = 0%nat)) as [E|]; [|lia].
  apply map_size_empty_inv in E. by rewrite E, lookup_empty in Heqo.
Qed.

Lemma assemble_prefix fuel b m b' m' :
  assemble fuel b m = (b', m') → ∃ t, b' = b ++ t.
Proof.
  revert b m. induction fuel as [|fuel IH]; intros b m; simpl.
  { intros [= <- <-]. exists []. by rewrite app_nil_r. }
  case_goal; [|intros [= <- <-]; exists []; by rewrite app_nil_r].
  intros [t ->]%IH. exists (l ++ t). by rewrite app_assoc.
Qed.

Lemma assemble_subseteq fuel b m b' m' :
  assemble fuel b m = (b', m') → m' ⊆ m.
Proof.
  revert b m. induction fuel as [|fuel IH]; intros b m; simpl; [by intros [= <- <-]|].
  case_goal; [|by intros [= <- <-]]. intros Hm%IH.
  etransitivity; [done|]. apply delete_subseteq.
Qed.

(** An invariant of the loop body is an invariant of the loop. *)
Lemma assemble_ind (P : bytes → gmap Z bytes → Prop) fuel b m b' m' :
  (∀ b m f, P b m → m !! (len b) = Some f → P (b ++ f) (delete (len b) m)) →
  P b m → assemble fuel b m = (b', m') → P b' m'.
Proof.
  intros Hstep. revert b m. induction fuel as [|fuel IH]; intros b m HP; simpl.
  { by intros [= <- <-]. }
  case_goal; [|by intros [= <- <-]]. apply IH. by apply Hstep.
Qed.

(** ** How a call ends *)

(** Either the fragment is refused and nothing changes, or it passes every check and
    the state is the assembled one. *)
Lemma AddCRYPTOFragment_cases qchr offset frag err qchr' :
  AddCRYPTOFragment qchr offset frag = (err, qchr') →
  (qchr' = qchr ∧ ∃ e, err = Some e ∧
     e ∈ [ErrDuplicateFragment; ErrOverlapFragment; ErrTooManyFragments; ErrOffsetTooHigh]) ∨
  (frags qchr !! offset = None ∧
   (∀ off f, frags qchr !! off = Some f → overlaps offset frag (off, f) = false) ∧
   len (buf qchr) <= offset ∧ Z.of_nat (size (frags qchr)) <= maxCRYPTOFragments ∧
   u64 (offset + len frag) <= maxCRYPTOLength ∧
   (let m := <[offset := frag]> (frags qchr) in
    assemble (S (size m)) (buf qchr) m = (buf qchr', frags qchr')) ∧
   check_complete (fullLen qchr) (buf qchr') = (err, fullLen qchr')).
Proof.
  unfold AddCRYPTOFragment. repeat case_goal; intros [= <- <-];
    try (left; split; [done|]; eexists; split; [done|]; set_solver).
  right. bool_facts. simpl. split_and!; try done.
  - by apply eq_None_not_Some.
  - intros off f Hf. destruct (overlaps offset frag (off, f)) eqn:E; [|done].
    rewrite <- not_true_iff_false in Heqb0. destruct Heqb0.
    apply existsb_exists. exists (off, f). split; [|done].
    by apply list_elem_of_In, elem_of_map_to_list.
Qed.

(** ** Well-formedness *)

(** A pending fragment lies strictly beyond the assembled prefix and below the
    64 KiB limit; two pending fragments do not overlap; at most 33 are pending;
    the full length, once known, is read from the assembled prefix; all data are
    bytes. *)
Record wf (q : QUICClientHelloReconstructor) : Prop := {
  wf_pending : ∀ o f, frags q !! o = Some f →
    len (buf q) < o ∧ o + len f <= maxCRYPTOLength;
  wf_disjoint : ∀ o1 f1 o2 f2, frags q !! o1 = Some f1 → frags q !! o2 = Some f2 →
    o1 < o2 → o1 + len f1 <= o2;
  wf_count : Z.of_nat (size (frags q)) <= maxCRYPTOFragments + 1;
  wf_buf : len (buf q) <= maxCRYPTOLength;
  wf_fullLen : fullLen q = 0 ∧ len (buf q) <= 4 ∨
               fullLen q = parse_fullLen (buf q) ∧ 4 < len (buf q);
  wf_data : wf_bytes (buf q) ∧ map_Forall (λ _, wf_bytes) (frags q)
}.

Lemma slice_prefix {A} i j (l1 l2 : list A) :
  (j <= length l1)%nat → slice i j (l1 ++ l2) = slice i j l1.
Proof.
  intros Hj. unfold slice. destruct (decide (i <= length l1)%nat).
  - rewrite drop_app_le by done. rewrite take_app_le; [done|]. rewrite length_drop. lia.
  - replace (j - i)%nat with 0%nat by lia. by rewrite !take_0.
Qed.

Lemma parse_fullLen_prefix b t : 4 < len b → parse_fullLen (b ++ t) = parse_fullLen b.
Proof. intros. unfold parse_fullLen. by rewrite slice_prefix by lia. Qed.

Lemma parse_fullLen_pos b : wf_bytes b → 4 < len b → 4 <= parse_fullLen b < 2 ^ 24 + 4.
Proof.
  intros Hb Hl. unfold parse_fullLen, u32.
  assert (wf_bytes (slice 1 4 b)) as Hs by (apply wf_bytes_take, wf_bytes_drop, Hb).
  pose proof (be_decode_range _ Hs) as Hr. rewrite be_decode_cons.
  assert (length (slice 1 4 b) = 3)%nat as -> by (unfold slice; len_solve).
  assert (length (slice 1 4 b) = 3)%nat as E by (unfold slice; len_solve). rewrite E in Hr.
  change (256 ^ Z.of_nat 3) with (2 ^ 24) in *. rewrite Z.mod_small; lia.
Qed.

Lemma check_complete_fullLen fl b err fl' :
  check_complete fl b = (err, fl') →
  fl' = (if (fl =? 0) && (4 <? len b) then parse_fullLen b else fl).
Proof. unfold check_complete. repeat case_goal; by intros [= <- <-]. Qed.

Lemma check_complete_cases fl b err fl' :
  check_complete fl b = (err, fl') →
  err = Some ErrOffsetTooHigh ∨
  (err = Some io_EOF ∧ 0 < fl' ∧ fl' <= u32 (len b)) ∨
  (err = None ∧ (fl' <= 0 ∨ u32 (len b) < fl')).
Proof.
  unfold check_complete. set (learn := (fl =? 0) && (4 <? len b)).
  set (fl1 := if learn then parse_fullLen b else fl). destruct (learn && _); [intros [= <- <-]; by left|].
  destruct ((0 <? fl1) && (fl1 <=? _)) eqn:E; intros [= <- <-]; right; [left|right].
  - by bool_facts.
  - split; [done|]. apply andb_false_iff in E as [|]; bool_facts; [by left|by right].
Qed.

Lemma wf_New : wf NewQUICClientHelloReconstructor.
Proof.
  split; cbn [frags buf fullLen NewQUICClientHelloReconstructor].
  - intros o f H. by rewrite lookup_empty in H.
  - intros o1 f1 o2 f2 H. by rewrite lookup_empty in H.
  - by rewrite map_size_empty.
  - done.
  - by left.
  - split; [constructor|apply map_Forall_empty].
Qed.

(** The loop invariant: pending fragments lie at or beyond the prefix and do not
    overlap, and the prefix stays below the limit. *)
Definition loop_inv (b : bytes) (m : gmap Z bytes) : Prop :=
  len b <= maxCRYPTOLength ∧
  (∀ o f, m !! o = Some f → len b <= o ∧ o + len f <= maxCRYPTOLength) ∧
  (∀ o1 f1 o2 f2, m !! o1 = Some f1 → m !! o2 = Some f2 → o1 < o2 → o1 + len f1 <= o2) ∧
  wf_bytes b ∧ map_Forall (λ _, wf_bytes) m.

Lemma loop_inv_step b m f :
  loop_inv b m → m !! (len b) = Some f → loop_inv (b ++ f) (delete (len b) m).
Proof.
  intros (Hb & Hp & Hd & Hwb & Hwm) Hf. destruct (Hp _ _ Hf) as [_ Hmax]. unfold loop_inv.
  rewrite length_app, Nat2Z.inj_add, wf_bytes_app. split; [lia|].
  split; [|split; [|split; [split; [done|by eapply Hwm]|by apply map_Forall_delete]]].
  - intros o g [Ho Hg]%lookup_delete_Some. destruct (Hp _ _ Hg). split; [|lia].
    apply (Hd _ _ _ _ Hf Hg). lia.
  - intros o1 f1 o2 f2 [_ H1]%lookup_delete_Some [_ H2]%lookup_delete_Some. by eapply Hd.
Qed.

Lemma overlaps_false offset frag off f :
  0 <= off → 0 <= offset → off + len f < 2 ^ 64 → offset + len frag < 2 ^ 64 →
  overlaps offset frag (off, f) = false →
  (off < offset → off + len f <= offset) ∧ (offset < off → offset + len frag <= off).
Proof.
  intros. unfold overlaps in *. rewrite !u64_small in * by lia. split; intros; bool_facts;
    repeat match goal with H : _ && _ = false |- _ => apply andb_false_iff in H end; 
    destruct_or!; bool_facts; lia.
Qed.

Lemma loop_inv_insert q offset frag :
  wf q → wf_bytes frag → 0 <= offset → offset + len frag < 2 ^ 64 → frags q !! offset = None →
  (∀ off f, frags q !! off = Some f → overlaps offset frag (off, f) = false) →
  len (buf q) <= offset → offset + len frag <= maxCRYPTOLength →
  loop_inv (buf q) (<[offset := frag]> (frags q)).
Proof.
  intros Hwf Hfr Ho Hlt Hnone Hov Hbuf Hmax. unfold maxCRYPTOLength in *. unfold loop_inv.
  split_and!; [apply Hwf| | |apply Hwf|apply map_Forall_insert_2; [done|apply Hwf]].
  - intros o f [[-> ->]|[? Hf]]%lookup_insert_Some; [done|].
    destruct (wf_pending _ Hwf _ _ Hf). unfold maxCRYPTOLength in *. lia.
  - intros o1 f1 o2 f2 [[<- <-]|[? H1]]%lookup_insert_Some
      [[<- <-]|[? H2]]%lookup_insert_Some Hlt12; [lia| | |by eapply wf_disjoint].
    + destruct (wf_pending _ Hwf _ _ H2). unfold maxCRYPTOLength in *.
      apply (overlaps_false offset frag o2 f2); auto; lia.
    + destruct (wf_pending _ Hwf _ _ H1). unfold maxCRYPTOLength in *.
      apply (overlaps_false offset frag o1 f1); auto; lia.
Qed.

Lemma loop_size q offset frag m :
  wf q → frags q !! offset = None → Z.of_nat (size (frags q)) <= maxCRYPTOFragments →
  m ⊆ <[offset := frag]> (frags q) → Z.of_nat (size m) <= maxCRYPTOFragments + 1.
Proof.
  intros Hwf Hn Hc Hsub. apply map_subseteq_size in Hsub.
  rewrite map_size_insert_None in Hsub by done. lia.
Qed.

Lemma wf_fullLen_step q t err fl :
  wf q → check_complete (fullLen q) (buf q ++ t) = (err, fl) →
  fl = 0 ∧ len (buf q ++ t) <= 4 ∨ fl = parse_fullLen (buf q ++ t) ∧ 4 < len (buf q ++ t).
Proof.
  intros Hwf Hc%check_complete_fullLen. subst fl. destruct (wf_data _ Hwf) as [Hb _].
  destruct (wf_fullLen _ Hwf) as [[-> ?]|[Hfl ?]].
  - simpl. case_goal; bool_facts; [right|left]; done.
  - right. rewrite parse_fullLen_prefix by done.
    rewrite (proj2 (Z.eqb_neq (fullLen q) 0)) by (pose proof (parse_fullLen_pos _ Hb); lia).
    simpl. rewrite length_app. split; [done|lia].
Qed.

Lemma AddCRYPTOFragment_wf q offset frag :
  wf q → wf_bytes frag → 0 <= offset → offset + len frag < 2 ^ 64 →
  wf (snd (AddCRYPTOFragment q offset frag)).
Proof.
  intros Hwf Hfr Ho Hlt. destruct (AddCRYPTOFragment q offset frag) as [err q'] eqn:E.
  apply AddCRYPTOFragment_cases in E as [[-> _]|(Hn & Hov & Hb & Hc & Hmax & Has & Hcc)];
    [done|]. cbv zeta in Has. cbn [snd]. rewrite u64_small in Hmax by lia.
  pose proof (assemble_done _ _ _ _ _ (Nat.lt_succ_diag_r _) Has) as Hdone.
  pose proof (assemble_subseteq _ _ _ _ _ Has) as Hsub.
  destruct (assemble_prefix _ _ _ _ _ Has) as [t Ht].
  apply (assemble_ind loop_inv) in Has as (Hl1 & Hl2 & Hl3 & Hl4 & Hl5);
    [|apply loop_inv_step|by apply loop_inv_insert].
  split; [|done| |done| |done].
  - intros o f Hf. destruct (Hl2 _ _ Hf). split; [|done].
    destruct (decide (o = len (buf q'))) as [->|]; [by rewrite Hdone in Hf|lia].
  - by eapply loop_size.
  - rewrite Ht in *. by eapply wf_fullLen_step.
Qed.

(** ** Sequences of calls *)

Fixpoint add_all (q : QUICClientHelloReconstructor) (l : list (Z * bytes))
    : list (option goerror) * QUICClientHelloReconstructor :=
  match l with
  | [] => ([], q)
  | (offset, frag) :: l =>
    let '(err, q1) := AddCRYPTOFragment q offset frag in
    let '(errs, q2) := add_all q1 l in (err :: errs, q2)
  end.

(** Arguments as a parsed CRYPTO frame supplies them ([frame_valid_call]): the end of the
    fragment does not wrap around.  The exported method accepts others
    ([AddCRYPTOFragment_wraps]). *)
Definition valid_call (c : Z * bytes) : Prop :=
  0 <= c.1 ∧ c.1 + len c.2 < 2 ^ 64 ∧ wf_bytes c.2.

Lemma frame_valid_call off L d : frame_wf (CRYPTO off L d) → valid_call (off, d).
Proof. intros (Ho & HL & Hl & Hd). unfold valid_call, maxAlloc in *. cbn [fst snd]. split; [lia|]. split; [lia|done]. Qed.

#[global] Instance valid_call_dec c : Decision (valid_call c).
Proof. unfold valid_call. apply _. Defined.

Lemma add_all_wf q l : wf q → Forall valid_call l → wf (snd (add_all q l)).
Proof.
  intros Hq Hl. revert q Hq. induction Hl as [|[o f] l (Ho & Hlt & Hf) Hl IH]; intros q Hq; [done|].
  simpl in *. pose proof (AddCRYPTOFragment_wf q o f Hq Hf Ho Hlt) as Hq1.
  destruct (AddCRYPTOFragment q o f) as [err q1]. simpl in Hq1.
  specialize (IH q1 Hq1). by destruct (add_all q1 l).
Qed.

(** The bytes of [l], placed at [off], are those of the stream [f]. *)
Definition agrees (f : Z → Z) (off : Z) (l : bytes) : Prop :=
  ∀ i b, l !! i = Some b → f (off + Z.of_nat i) = b.

Lemma agrees_app f off l1 l2 :
  agrees f off l1 → agrees f (off + len l1) l2 → agrees f off (l1 ++ l2).
Proof.
  intros H1 H2 i b [Hi|[Hi Hb]]%lookup_app_Some; [by apply H1|].
  apply H2 in Hb. rewrite <- Hb. f_equal. lia.
Qed.

Definition consistent (f : Z → Z) (b : bytes) (m : gmap Z bytes) : Prop :=
  agrees f 0 b ∧ map_Forall (agrees f) m.

Lemma AddCRYPTOFragment_consistent f q offset frag :
  consistent f (buf q) (frags q) → agrees f offset frag →
  let q' := snd (AddCRYPTOFragment q offset frag) in consistent f (buf q') (frags q').
Proof.
  intros Hq Hf. destruct (AddCRYPTOFragment q offset frag) as [err q'] eqn:E. cbn [snd].
  apply AddCRYPTOFragment_cases in E as [[-> _]|(_ & _ & _ & _ & _ & Has & _)]; [done|].
  cbv zeta in Has. revert Has. apply (assemble_ind (consistent f)).
  - intros b m g [Hb Hm] Hg. split; [|by apply map_Forall_delete].
    apply agrees_app; [done|]. by apply Hm.
  - destruct Hq as [Hb Hm]. split; [done|]. by apply map_Forall_insert_2.
Qed.

Lemma add_all_consistent f q l :
  consistent f (buf q) (frags q) → Forall (λ c, agrees f c.1 c.2) l →
  consistent f (buf (snd (add_all q l))) (frags (snd (add_all q l))).
Proof.
  intros Hq Hl. revert q Hq. induction Hl as [|[o g] l Hg Hl IH]; intros q Hq; [done|].
  simpl. pose proof (AddCRYPTOFragment_consistent f q o g Hq Hg) as Hq1.
  destruct (AddCRYPTOFragment q o g) as [err q1]. specialize (IH q1 Hq1).
  by destruct (add_all q1 l).
Qed.

(** ** The fragments of one message, in any order *)

Section pieces.
Context (pieces : list bytes).
Hypothesis pieces_nonempty : Forall (λ d, d ≠ []) pieces.

(** Where piece [i] starts. *)
Definition piece_off (i : nat) : Z := len (concat (take i pieces)).

Lemma piece_off_S i p : pieces !! i = Some p → piece_off (S i) = piece_off i + len p.
Proof.
  intros Hp. unfold piece_off. rewrite (take_S_r _ _ _ Hp), concat_app. simpl.
  rewrite app_nil_r. len_solve.
Qed.

Lemma piece_len_pos i p : pieces !! i = Some p → 0 < len p.
Proof.
  intros Hp. rewrite Forall_lookup in pieces_nonempty.
  specialize (pieces_nonempty _ _ Hp). destruct p; [done|]. simpl. lia.
Qed.

Lemma piece_off_lt i j : (i < j <= length pieces)%nat → piece_off i < piece_off j.
Proof.
  intros [Hij Hj]. induction j as [|j IH]; [lia|].
  destruct (lookup_lt_is_Some_2 pieces j ltac:(lia)) as [p Hp].
  pose proof (piece_len_pos _ _ Hp). rewrite (piece_off_S _ _ Hp).
  destruct (decide (i = j)) as [->|]; [lia|]. specialize (IH ltac:(lia) ltac:(lia)). lia.
Qed.

Lemma piece_off_inj i j :
  (i < length pieces)%nat → (j < length pieces)%nat → piece_off i = piece_off j → i = j.
Proof.
  intros Hi Hj E. destruct (lt_eq_lt_dec i j) as [[Hlt|]|Hlt]; [|done|].
  - pose proof (piece_off_lt i j). lia.
  - pose proof (piece_off_lt j i). lia.
Qed.

(** Piece [i] ends before piece [j] starts. *)
Lemma piece_end_le i j p :
  pieces !! i = Some p → (i < j <= length pieces)%nat → piece_off i + len p <= piece_off j.
Proof.
  intros Hp Hij. rewrite <- (piece_off_S _ _ Hp).
  destruct (decide (S i = j)) as [->|]; [lia|]. pose proof (piece_off_lt (S i) j). lia.
Qed.

Lemma piece_off_all : piece_off (length pieces) = len (concat pieces).
Proof. unfold piece_off. by rewrite take_ge. Qed.

(** The pieces with indices in [A] have been received, the first [k] of them are
    assembled, and the others are pending. *)
Definition received (A : list nat) (k : nat) (b : bytes) (m : gmap Z bytes) : Prop :=
  (k <= length pieces)%nat ∧ b = concat (take k pieces) ∧ (∀ i, (i < k)%nat → i ∈ A) ∧
  ∀ o f, m !! o = Some f ↔ ∃ i, i ∈ A ∧ (k <= i)%nat ∧ pieces !! i = Some f ∧ o = piece_off i.

Lemma received_step A k b m f :
  received A k b m → m !! (len b) = Some f → received A (S k) (b ++ f) (delete (len b) m).
Proof.
  intros (Hk & Hb & HA & Hm) Hf. pose proof Hf as Hf0.
  apply Hm in Hf0 as (i & Hi & Hki & Hp & Ho).
  assert (len b = piece_off k) as Hbk by (rewrite Hb; done).
  pose proof (lookup_lt_Some _ _ _ Hp) as Hin.
  assert (i = k) as ->.
  { rewrite Hbk in Ho. destruct (decide (i = k)); [done|].
    pose proof (piece_off_lt k i). lia. }
  split_and!; [lia| | |].
  - rewrite (take_S_r _ _ _ Hp), concat_app, Hb. simpl. by rewrite app_nil_r.
  - intros j Hj. destruct (decide (j = k)) as [->|]; [done|]. apply HA. lia.
  - intros o g. rewrite lookup_delete_Some, Hm. split.
    + intros (Hne & j & Hj & Hkj & Hg & ->). exists j. split_and!; try done.
      destruct (decide (j = k)) as [->|]; [by destruct Hne|lia].
    + intros (j & Hj & Hkj & Hg & ->). split; [|exists j; split_and!; done || lia].
      rewrite Hbk. intros E. apply piece_off_inj in E; [lia|lia|by eapply lookup_lt_Some].
Qed.

Lemma received_assemble A k b m b' m' :
  received A k b m → (∀ i, i ∈ A → (i < length pieces)%nat) →
  assemble (S (size m)) b m = (b', m') →
  ∃ k', received A k' b' m' ∧ k' ∉ A.
Proof.
  intros Hr HA Has.
  pose proof (assemble_done _ _ _ _ _ (Nat.lt_succ_diag_r _) Has) as Hdone.
  apply (assemble_ind (λ b m, ∃ k, received A k b m)) in Has as [k' Hr']; [| |eauto].
  2: { intros ??? [j Hj] Hf. exists (S j). by eapply received_step. }
  exists k'. split; [done|]. intros Hin. destruct Hr' as (Hk & -> & _ & Hm).
  destruct (lookup_lt_is_Some_2 pieces k' (HA _ Hin)) as [p Hp].
  assert (m' !! piece_off k' = Some p) as Hx by (apply Hm; eauto 10).
  unfold piece_off in Hx. by rewrite Hdone in Hx.
Qed.

Lemma received_size A k b m : received A k b m → (size m <= length A)%nat.
Proof.
  intros (_ & _ & _ & Hm). rewrite <- length_map_to_list, <- (length_fmap fst).
  rewrite <- (length_fmap piece_off A). apply submseteq_length, NoDup_submseteq.
  - apply NoDup_fst_map_to_list.
  - intros o ([o' f] & -> & Hin)%list_elem_of_fmap. apply elem_of_map_to_list in Hin.
    apply Hm in Hin as (i & Hi & _ & _ & ->). cbn [fst]. by apply list_elem_of_fmap_2.
Qed.

Lemma received_no_overlap A k b m i p off f :
  received A k b m → i ∉ A → pieces !! i = Some p → m !! off = Some f →
  len (concat pieces) < 2 ^ 64 → overlaps (piece_off i) p (off, f) = false.
Proof.
  intros (_ & _ & _ & Hm) Hi Hp Hf Hmax. apply Hm in Hf as (j & Hj & _ & Hpj & ->).
  pose proof (lookup_lt_Some _ _ _ Hp). pose proof (lookup_lt_Some _ _ _ Hpj).
  assert (piece_off i + len p < 2 ^ 64 ∧ piece_off j + len f < 2 ^ 64) as [H1 H2].
  { rewrite <- piece_off_all in Hmax.
    pose proof (piece_end_le i (length pieces) p Hp ltac:(lia)).
    pose proof (piece_end_le j (length pieces) f Hpj ltac:(lia)). lia. }
  unfold overlaps. rewrite !u64_small by (unfold piece_off in *; lia).
  destruct (lt_eq_lt_dec i j) as [[Hlt| ->]|Hlt]; [|done|].
  - pose proof (piece_end_le i j p Hp ltac:(lia)). pose proof (piece_len_pos _ _ Hp).
    apply orb_false_iff. split; apply andb_false_iff; [left|right]; apply Z.ltb_ge; lia.
  - pose proof (piece_end_le j i f Hpj ltac:(lia)). pose proof (piece_len_pos _ _ Hpj).
    apply orb_false_iff. split; apply andb_false_iff; [right|left]; apply Z.ltb_ge; lia.
Qed.

(** The message fits, and its header announces its length. *)
Hypothesis msg_len : 4 < len (concat pieces) <= maxCRYPTOLength.
Hypothesis msg_header : parse_fullLen (concat pieces) = len (concat pieces).

Definition fullLen_of (b : bytes) : Z := if 4 <? len b then len (concat pieces) else 0.

Lemma parse_fullLen_take k b :
  b = concat (take k pieces) → 4 < len b → parse_fullLen b = len (concat pieces).
Proof.
  intros -> Hl. rewrite <- msg_header. rewrite <- (take_drop k pieces) at 2.
  by rewrite concat_app, parse_fullLen_prefix.
Qed.

Lemma check_complete_pieces k b b0 t :
  (k <= length pieces)%nat → b = concat (take k pieces) → b = b0 ++ t →
  check_complete (fullLen_of b0) b =
    ((if bool_decide (k = length pieces) then Some io_EOF else None), fullLen_of b).
Proof.
  intros Hk Hb Ht. unfold check_complete, fullLen_of. unfold maxCRYPTOLength in *.
  assert (len b = piece_off k) as Hlb by (rewrite Hb; done).
  pose proof piece_off_all as Hall.
  assert (len b <= len (concat pieces) ∧ (len b = len (concat pieces) ↔ k = length pieces))
    as [Hle Hiff].
  { destruct (decide (k = length pieces)) as [->|Hne]; [rewrite Hlb, Hall; done|].
    pose proof (piece_off_lt k (length pieces)). split; [lia|]. split; [lia|done]. }
  assert (len b0 <= len b) as Hb0 by (rewrite Ht; len_solve).
  destruct (4 <? len b) eqn:E4; bool_facts.
  - assert (u32 (len b) = len b) as Hu by (apply Z.mod_small; lia). rewrite Hu.
    destruct (4 <? len b0) eqn:E0; bool_facts.
    + rewrite (proj2 (Z.eqb_neq _ 0)) by lia. cbn [andb].
      rewrite (proj2 (Z.ltb_lt 0 _)) by lia. cbn [andb].
      case_bool_decide; [rewrite (proj2 (Z.leb_le _ _)) by lia|rewrite (proj2 (Z.leb_gt _ _)) by lia];
        done.
    + cbn [Z.eqb andb]. rewrite (parse_fullLen_take k b Hb) by lia.
      rewrite (proj2 (Z.ltb_ge 65536 _)) by lia. rewrite (proj2 (Z.ltb_lt 0 _)) by lia.
      cbn [andb].
      case_bool_decide; [rewrite (proj2 (Z.leb_le _ _)) by lia|rewrite (proj2 (Z.leb_gt _ _)) by lia];
        done.
  - rewrite (proj2 (Z.ltb_ge 4 (len b0))) by lia. cbn.
    rewrite bool_decide_false by lia. done.
Qed.

(** One more piece: accepted, and [io.EOF] exactly when it completes the message. *)
Lemma add_piece A k q i p :
  received A k (buf q) (frags q) → k ∉ A → (∀ j, j ∈ A → (j < length pieces)%nat) →
  fullLen q = fullLen_of (buf q) → Z.of_nat (length A) <= maxCRYPTOFragments →
  i ∉ A → pieces !! i = Some p →
  ∃ k' q', AddCRYPTOFragment q (piece_off i) p =
             ((if bool_decide (k' = length pieces) then Some io_EOF else None), q') ∧
           received (i :: A) k' (buf q') (frags q') ∧ k' ∉ i :: A ∧
           fullLen q' = fullLen_of (buf q').
Proof.
  intros Hr HkA HA Hfl Hcnt Hi Hp. pose proof (lookup_lt_Some _ _ _ Hp) as Hin.
  pose proof Hr as (Hk & Hb & Hpre & Hm). unfold maxCRYPTOLength in *.
  assert (piece_off i + len p <= len (concat pieces)) as Hend.
  { rewrite <- piece_off_all. by apply piece_end_le; [|lia]. }
  assert (frags q !! piece_off i = None) as Hnone.
  { apply eq_None_not_Some. intros [f Hf]. apply Hm in Hf as (j & Hj & _ & Hpj & E).
    apply piece_off_inj in E as ->; [done|done|by eapply lookup_lt_Some]. }
  assert (k <= i)%nat as Hki.
  { destruct (decide (i < k)%nat) as [Hlt|]; [by destruct Hi; auto|lia]. }
  unfold AddCRYPTOFragment. rewrite bool_decide_false by (rewrite Hnone; by intros []).
  assert (existsb (overlaps (piece_off i) p) (map_to_list (frags q)) = false) as ->.
  { apply not_true_iff_false. intros ([off f] & Hf & Hov)%existsb_exists.
    apply list_elem_of_In, elem_of_map_to_list in Hf.
    rewrite (received_no_overlap A k (buf q) (frags q) i p off f) in Hov; [done..|lia]. }
  rewrite (proj2 (Z.ltb_ge _ _)).
  2: { rewrite Hb. change (piece_off k <= piece_off i).
       destruct (decide (k = i)) as [->|]; [lia|]. pose proof (piece_off_lt k i). lia. }
  rewrite (proj2 (Z.ltb_ge _ _)) by (pose proof (received_size _ _ _ _ Hr); lia).
  unfold maxCRYPTOLength. rewrite u64_small by (unfold piece_off in *; lia).
  rewrite (proj2 (Z.ltb_ge _ _)) by lia.
  destruct (assemble _ _ _) as [b' m'] eqn:Has.
  destruct (assemble_prefix _ _ _ _ _ Has) as [t Ht].
  apply (received_assemble (i :: A) k) in Has as (k' & Hr' & Hk').
  2: { split_and!; [done|done|intros j Hj; right; auto|]. intros o f.
       rewrite lookup_insert_Some, Hm. split.
       - intros [[<- <-]|[_ (j & ? & ?)]]; [exists i; split_and!; try done; left|].
         exists j. split; [by right|done].
       - intros (j & [->|Hj]%elem_of_cons & Hkj & Hpj & ->); [left; split; congruence|].
         right. split; [|eauto]. intros E. apply piece_off_inj in E as ->; [done|done|].
         by eapply lookup_lt_Some. }
  2: { intros j [->|Hj]%elem_of_cons; auto. }
  rewrite Hfl, (check_complete_pieces k' b' (buf q) t); [|apply Hr'|apply Hr'|done].
  exists k', (mkReconstructor (fullLen_of b') b' m'). done.
Qed.

(** What the calls for the pieces [order] return. *)
Definition results (order : list nat) : list (option goerror) :=
  replicate (length order - 1) None ++ [Some io_EOF].

(** What a cut of a permutation of the first numbers says about the element at the cut
    and those after it. *)
Lemma perm_seq_cons (A order : list nat) i n :
  A ++ i :: order ≡ₚ seq 0 n →
  i ∉ A ∧ (i < n)%nat ∧ ∀ j, j ∈ order → (j < n)%nat ∧ j ∉ i :: A.
Proof.
  intros HP. assert (NoDup (A ++ i :: order)) as Hnd by (rewrite HP; apply NoDup_seq).
  assert (∀ j, j ∈ A ++ i :: order → (j < n)%nat) as Hlt.
  { intros j Hj. rewrite HP in Hj. apply elem_of_seq in Hj. lia. }
  apply NoDup_app in Hnd as (_ & HA & Hnd). apply NoDup_cons in Hnd as [Hi _].
  split; [intros Hx; apply (HA _ Hx); left|].
  split; [apply Hlt, elem_of_app; right; left|]. intros j Hj.
  split; [apply Hlt, elem_of_app; right; by right|].
  intros [->|Hx]%elem_of_cons; [done|]. apply (HA _ Hx). by right.
Qed.

Lemma add_pieces A k q order :
  received A k (buf q) (frags q) → k ∉ A → (∀ j, j ∈ A → (j < length pieces)%nat) →
  fullLen q = fullLen_of (buf q) →
  A ++ order ≡ₚ seq 0 (length pieces) → order ≠ [] →
  (length pieces <= Z.to_nat maxCRYPTOFragments + 1)%nat →
  ∃ q', add_all q ((λ i, (piece_off i, default [] (pieces !! i))) <$> order) = (results order, q')
        ∧ buf q' = concat pieces ∧ fullLen q' = len (concat pieces).
Proof.
  revert A k q. induction order as [|i order IH]; intros A k q Hr HkA HA Hfl HP Hne Hn; [done|].
  destruct (perm_seq_cons _ _ _ _ HP) as (Hi & Hin & Hlater).
  destruct (lookup_lt_is_Some_2 pieces i Hin) as [p Hp].
  pose proof (Permutation_length HP) as Hlen. rewrite length_app, length_seq in Hlen. simpl in Hlen.
  unfold maxCRYPTOFragments in *.
  destruct (add_piece A k q i p) as (k' & q1 & Hadd & Hr1 & Hk1 & Hfl1); try done.
  { unfold maxCRYPTOFragments. lia. }
  rewrite fmap_cons. cbn [add_all]. rewrite Hp. cbn [default from_option id]. rewrite Hadd.
  assert (∀ j, j ∈ i :: A → (j < length pieces)%nat) as HA1.
  { intros j [->|Hj]%elem_of_cons; auto. }
  destruct order as [|i' order].
  - simpl. exists q1. destruct Hr1 as (Hk'le & Hb & Hpre & Hm).
    assert (k' = length pieces) as ->.
    { destruct (decide (k' < length pieces)%nat) as [Hlt|]; [|lia]. destruct Hk1.
      assert (k' ∈ A ++ [i]) as Hx by (rewrite HP; apply elem_of_seq; lia).
      apply elem_of_app in Hx as [Hx|Hx]; [by right|]. apply list_elem_of_singleton in Hx as ->. left. }
    rewrite bool_decide_true by done. split; [done|]. rewrite take_ge in Hb by lia.
    split; [done|]. rewrite Hfl1, Hb. unfold fullLen_of.
    by rewrite (proj2 (Z.ltb_lt 4 _)) by lia.
  - assert (k' ≠ length pieces) as Hk'n.
    { intros ->. destruct Hr1 as (_ & _ & Hpre & _).
      destruct (Hlater i') as [Hi' Hx]; [left|]. by apply Hx, Hpre. }
    rewrite bool_decide_false by done.
    destruct (IH (i :: A) k' q1) as (q' & Hq' & Hb & Hf); try done.
    { rewrite <- HP. simpl. apply Permutation_middle. }
    rewrite Hq'. exists q'. split; [|done]. unfold results. simpl.
    by rewrite Nat.sub_0_r.
Qed.
End pieces.

(** ** Packets *)

(** Several batches of fragments, one after the other. *)
Lemma add_all_app q l1 l2 :
  add_all q (l1 ++ l2) =
  let '(e1, q1) := add_all q l1 in let '(e2, q2) := add_all q1 l2 in (e1 ++ e2, q2).
Proof.
  revert q. induction l1 as [|[o f] l1 IH]; intros q; cbn [add_all app].
  { by destruct (add_all q l2). }
  destruct (AddCRYPTOFragment q o f) as [e q1]. rewrite IH.
  destruct (add_all q1 l1) as [e1 q2]. by destruct (add_all q2 l2).
Qed.

Lemma length_add_all q l : length (fst (add_all q l)) = length l.
Proof.
  revert q. induction l as [|[o f] l IH]; intros q; cbn [add_all]; [done|].
  destruct (AddCRYPTOFragment q o f) as [e q1]. specialize (IH q1).
  destruct (add_all q1 l). simpl in *. lia.
Qed.

Lemma add_all_any_order pieces order :
  Forall (λ d, d ≠ []) pieces → 4 < len (concat pieces) <= maxCRYPTOLength →
  parse_fullLen (concat pieces) = len (concat pieces) →
  (length pieces <= 33)%nat → order ≡ₚ seq 0 (length pieces) →
  ∃ q, add_all NewQUICClientHelloReconstructor
         ((λ i, (piece_off pieces i, default [] (pieces !! i))) <$> order)
       = (replicate (length pieces - 1) None ++ [Some io_EOF], q)
       ∧ ReconstructAsBytes q = Some (concat pieces).
Proof.
  intros Hne Hlen Hhdr Hn HP.
  destruct (add_pieces pieces Hne Hlen Hhdr [] 0 NewQUICClientHelloReconstructor order)
    as (q & Hq & Hb & Hf); try done.
  - split_and!; [lia|by rewrite take_0|lia|]. intros o f. simpl. rewrite lookup_empty.
    split; [done|]. by intros (i & Hi%elem_of_nil & _).
  - apply not_elem_of_nil.
  - by intros j ?%elem_of_nil.
  - intros ->. apply Permutation_nil in HP. destruct pieces; [simpl in Hlen; lia|done].
  - exists q. unfold results in Hq. apply Permutation_length in HP. rewrite length_seq in HP.
    rewrite <- HP. split; [done|]. unfold ReconstructAsBytes. rewrite Hf, Hb.
    unfold maxCRYPTOLength in *. unfold u32. rewrite Z.mod_small by lia.
    rewrite (proj2 (Z.eqb_neq _ 0)), Z.ltb_irrefl by lia. done.
Qed.

Definition crypto_calls (frames : list QUICFrame) : list (Z * bytes) :=
  (λ f, (Offset f, data f)) <$> List.filter is_CRYPTO frames.

(** A packet whose CRYPTO frames are all taken without completing the message. *)
Lemma FromFrames_more q frames q' n :
  add_all q (crypto_calls frames) = (replicate n None, q') →
  FromFrames q frames = (Some ErrNeedMoreFrames, q').
Proof.
  revert q n. induction frames as [|f frames IH]; intros q n.
  { simpl. intros [= _ <-]. done. }
  destruct f as [L| |off L d]; [apply IH|apply IH|].
  change (crypto_calls (CRYPTO off L d :: frames)) with ((off, d) :: crypto_calls frames).
  cbn [add_all FromFrames].
  destruct (AddCRYPTOFragment q off d) as [err q1].
  destruct (add_all q1 _) as [errs q2] eqn:E. destruct n as [|n]; [done|].
  intros [= -> -> ->]. by eapply IH.
Qed.

(** A packet with the CRYPTO frame that completes the message. *)
Lemma FromFrames_complete q frames n q' :
  add_all q (crypto_calls frames) = (replicate n None ++ [Some io_EOF], q') →
  FromFrames q frames = (None, q').
Proof.
  revert q n. induction frames as [|f frames IH]; intros q n.
  { simpl. by destruct n. }
  destruct f as [L| |off L d]; [apply IH|apply IH|].
  change (crypto_calls (CRYPTO off L d :: frames)) with ((off, d) :: crypto_calls frames).
  cbn [add_all FromFrames].
  destruct (AddCRYPTOFragment q off d) as [err q1].
  destruct (add_all q1 _) as [errs q2] eqn:E. destruct n as [|n].
  - intros [= -> -> ->]. destruct (crypto_calls frames) as [|[o g] l]; [by injection E as <-|].
    cbn [add_all] in E. destruct (AddCRYPTOFragment _ _ _), (add_all _ _). done.
  - intros [= -> -> ->]. by eapply IH.
Qed.

(** ** Properties *)

(** A fragment whose end wraps around 2^64 passes the check against 64 KiB and is kept. *)
Example AddCRYPTOFragment_wraps :
  AddCRYPTOFragment NewQUICClientHelloReconstructor (2 ^ 64 - 1) [1; 2] =
    (None, mkReconstructor 0 [] {[2 ^ 64 - 1 := [1; 2]]}).
Proof. vm_compute. reflexivity. Qed.

(** C18: Every reconstructor that fragments of parsed CRYPTO frames (whose offset and length
    do not wrap around 2^64) can lead to is well formed: the assembled prefix and each
    pending fragment stay within 64 KiB, pending fragments are disjoint and lie beyond
    the prefix, and at most 33 are ever pending. *)
Theorem reconstructor_wf l :
  Forall valid_call l → wf (snd (add_all NewQUICClientHelloReconstructor l)).
Proof. intros Hl. apply add_all_wf; [apply wf_New|done]. Qed.

Lemma reconstructor_wf_witness :
  wf (snd (add_all NewQUICClientHelloReconstructor
             [(5, [1; 2]); (0, [1; 0; 0; 9]); (6, [7]); (70000, [1])])).
Proof. apply reconstructor_wf. decide_now. Defined.

(** C19: No corruption: if every fragment offered is part of one byte stream, then the
    assembled buffer is the beginning of that stream, whatever the order, the
    duplicates and the refusals. *)
Theorem reconstructor_prefix (f : Z → Z) l i b :
  Forall (λ c, agrees f c.1 c.2) l →
  buf (snd (add_all NewQUICClientHelloReconstructor l)) !! i = Some b → f (Z.of_nat i) = b.
Proof.
  intros Hl Hb. destruct (add_all_consistent f NewQUICClientHelloReconstructor l) as [Hbuf _].
  - split; [by intros ??|apply map_Forall_empty].
  - done.
  - by apply Hbuf in Hb.
Qed.

Lemma reconstructor_prefix_witness : (λ z : Z, z * z) (Z.of_nat 2) = 4.
Proof.
  apply (reconstructor_prefix (λ z, z * z) [(2, [4]); (0, [0; 1]); (1, [1])] 2 4);
    [|reflexivity].
  repeat apply Forall_cons_2; try apply Forall_nil_2;
    intros [|[|i]] b Hb; try discriminate Hb; injection Hb as <-; reflexivity.
Defined.

(** C4: order independence: a message of 5 bytes to 64 KiB whose header announces its length,
    cut into at most 33 non-empty fragments and delivered in any order, is rebuilt
    exactly; every call but the last returns [nil], the last returns [io.EOF]. *)
Theorem reconstructor_any_order pieces order :
  Forall (λ d, d ≠ []) pieces → 4 < len (concat pieces) <= maxCRYPTOLength →
  parse_fullLen (concat pieces) = len (concat pieces) →
  (length pieces <= 33)%nat → order ≡ₚ seq 0 (length pieces) →
  ∃ q, add_all NewQUICClientHelloReconstructor
         ((λ i, (piece_off pieces i, default [] (pieces !! i))) <$> order)
       = (replicate (length pieces - 1) None ++ [Some io_EOF], q)
       ∧ ReconstructAsBytes q = Some (concat pieces).
Proof. apply add_all_any_order. Qed.

Lemma reconstructor_any_order_witness :
  ∃ q, add_all NewQUICClientHelloReconstructor
         ((λ i, (piece_off [[1; 0; 0; 6]; [9]; [8; 7; 6; 5; 4]] i,
                 default [] ([[1; 0; 0; 6]; [9]; [8; 7; 6; 5; 4]] !! i))) <$> [2; 0; 1]%nat)
       = ([None; None; Some io_EOF], q)
       ∧ ReconstructAsBytes q = Some [1; 0; 0; 6; 9; 8; 7; 6; 5; 4].
Proof.
  apply (reconstructor_any_order [[1; 0; 0; 6]; [9]; [8; 7; 6; 5; 4]] [2; 0; 1]%nat).
  - repeat constructor; discriminate.
  - unfold maxCRYPTOLength. simpl. lia.
  - reflexivity.
  - simpl. lia.
  - simpl. transitivity [0; 2; 1]%nat; [apply perm_swap|apply perm_skip, perm_swap].
Defined.

(** A fragment refused as duplicate, overlapping or one too many leaves the
    reconstructor exactly as it was. *)
Theorem refused_unchanged q offset frag e q' :
  AddCRYPTOFragment q offset frag = (Some e, q') →
  e ∈ [ErrDuplicateFragment; ErrOverlapFragment; ErrTooManyFragments] → q' = q.
Proof.
  intros E He. apply AddCRYPTOFragment_cases in E as [[-> _]|(_ & _ & _ & _ & _ & _ & Hc)]; [done|].
  exfalso. rewrite !elem_of_cons, elem_of_nil in He.
  apply check_complete_cases in Hc as [[= ->]|[[[= ->] _]|[[=] _]]]; by destruct_or! He.
Qed.

Lemma refused_unchanged_witness :
  mkReconstructor 0 [] {[ 3 := [1; 2] ]} = mkReconstructor 0 [] {[ 3 := [1; 2] ]}.
Proof.
  apply (refused_unchanged (mkReconstructor 0 [] {[ 3 := [1; 2] ]}) 4 [9] ErrOverlapFragment);
    [vm_compute; reflexivity|]. right. left.
Defined.

(** A full reconstructor never recovers: once 33 fragments are pending every further
    call is refused and changes nothing, the fragment that would fill the gap included. *)
Theorem full_reconstructor_stuck q l :
  maxCRYPTOFragments < Z.of_nat (size (frags q)) →
  snd (add_all q l) = q ∧ Forall (λ e, e ≠ None ∧ e ≠ Some io_EOF) (fst (add_all q l)).
Proof.
  intros Hfull. induction l as [|[o f] l IH]; [split; [done|constructor]|]. cbn [add_all].
  destruct (AddCRYPTOFragment q o f) as [err q1] eqn:E.
  apply AddCRYPTOFragment_cases in E as [[-> (e & -> & He)]|(_ & _ & _ & Hc & _)]; [|lia].
  destruct (add_all q l) as [errs q2]. destruct IH as [IH1 IH2]. simpl in *. split; [done|].
  constructor; [|done]. split; [done|]. intros [= ->].
  rewrite !elem_of_cons, elem_of_nil in He. by destruct_or! He.
Qed.

Definition full_example : QUICClientHelloReconstructor :=
  snd (add_all NewQUICClientHelloReconstructor
         ((λ i, (2 * Z.of_nat i, [7])) <$> seq 1 33)).

Lemma full_reconstructor_stuck_witness :
  snd (add_all full_example [(0, [1; 1])]) = full_example ∧
  Forall (λ e, e ≠ None ∧ e ≠ Some io_EOF) (fst (add_all full_example [(0, [1; 1])])).
Proof. apply full_reconstructor_stuck. vm_compute. reflexivity. Defined.

(** Completion is reported exactly when the bytes are there: a call that returns
    [io.EOF] leaves the whole buffer to [ReconstructAsBytes], and a call that returns
    [nil] leaves nothing. *)
Theorem completion_reported q offset frag err q' :
  wf q → wf_bytes frag → 0 <= offset → offset + len frag < 2 ^ 64 →
  AddCRYPTOFragment q offset frag = (err, q') →
  (err = Some io_EOF → ReconstructAsBytes q' = Some (buf q')) ∧
  (err = None → ReconstructAsBytes q' = None).
Proof.
  intros Hwf Hf Ho Hlt E. pose proof (AddCRYPTOFragment_wf q offset frag Hwf Hf Ho Hlt) as Hwf'.
  rewrite E in Hwf'. cbn [snd] in Hwf'. unfold ReconstructAsBytes.
  apply AddCRYPTOFragment_cases in E as [[-> (e & -> & He)]|(_ & _ & _ & _ & _ & _ & Hc)].
  { split; [|done]. intros [= ->]. rewrite !elem_of_cons, elem_of_nil in He. by destruct_or! He. }
  assert (0 <= fullLen q') as Hfl.
  { destruct (wf_fullLen _ Hwf') as [[-> _]|[-> Hl]]; [lia|].
    pose proof (parse_fullLen_pos _ (proj1 (wf_data _ Hwf')) Hl). lia. }
  apply check_complete_cases in Hc as [->|[(-> & H1 & H2)|[-> H1]]]; (split; [|done]) || (split; [done|]).
  - done.
  - intros _. rewrite (proj2 (Z.eqb_neq _ 0)) by lia. by rewrite (proj2 (Z.ltb_ge _ _)) by lia.
  - intros _. destruct (fullLen q' =? 0) eqn:E0; [done|]. bool_facts.
    by rewrite (proj2 (Z.ltb_lt _ _)) by lia.
Qed.

Lemma completion_reported_witness :
  (Some io_EOF = Some io_EOF →
   ReconstructAsBytes (mkReconstructor 6 [1; 0; 0; 2; 5; 6] ∅) = Some [1; 0; 0; 2; 5; 6]) ∧
  (Some io_EOF = None → ReconstructAsBytes (mkReconstructor 6 [1; 0; 0; 2; 5; 6] ∅) = None).
Proof.
  apply (completion_reported NewQUICClientHelloReconstructor 0 [1; 0; 0; 2; 5; 6] (Some io_EOF)
           (mkReconstructor 6 [1; 0; 0; 2; 5; 6] ∅)).
  - apply wf_New.
  - decide_now.
  - lia.
  - simpl. lia.
  - vm_compute. reflexivity.
Defined.
