(* ===== verification/GoCrypto.v ===== *)
(** * Cryptographic primitives of Go's standard library

    The functions of [crypto/sha1], [crypto/sha256], [crypto/hmac], [crypto/aes]
    and [crypto/cipher] the program calls, as executable definitions (FIPS 180-4,
    RFC 2104, FIPS 197, SP 800-38D).  Nothing of the program is proved from the
    inside of a hash or of the block cipher; of GCM only that opening inverts
    sealing, for any block cipher. *)
From S2P Require Import Prelude.

(** ** Words and blocks *)

Definition rotl32 (n x : Z) : Z := Z.lor (u32 (Z.shiftl x n)) (Z.shiftr x (32 - n)).
Definition rotr32 (n x : Z) : Z := rotl32 (32 - n) x.

Fixpoint chunks (fuel n : nat) (l : bytes) : list bytes :=
  match fuel, l with
  | _, [] => []
  | O, _ => [l]
  | S fuel, _ => take n l :: chunks fuel n (drop n l)
  end.

Definition words32 (block : bytes) : list Z := be_decode <$> chunks (length block) 4 block.

(** Padding of the SHA family: 0x80, zeros, the bit length in eight bytes. *)
Definition sha_pad (m : bytes) : bytes :=
  m ++ 0x80 :: replicate (Z.to_nat ((55 - len m) mod 64)) 0 ++ be_encode 8 (8 * len m).

(** ** SHA-1 *)

(** Message schedule, newest word first. *)
Fixpoint sha1_schedule (n : nat) (w : list Z) : list Z :=
  match n with
  | O => w
  | S n => sha1_schedule n
      (rotl32 1 (Z.lxor (Z.lxor (nth 2 w 0) (nth 7 w 0)) (Z.lxor (nth 13 w 0) (nth 15 w 0))) :: w)
  end.

Definition sha1_f (t : nat) (b c d : Z) : Z * Z :=
  if (t <? 20)%nat then (Z.lxor d (Z.land b (Z.lxor c d)), 0x5A827999)
  else if (t <? 40)%nat then (Z.lxor (Z.lxor b c) d, 0x6ED9EBA1)
  else if (t <? 60)%nat then (Z.lor (Z.land b c) (Z.land d (Z.lor b c)), 0x8F1BBCDC)
  else (Z.lxor (Z.lxor b c) d, 0xCA62C1D6).

Fixpoint sha1_rounds (t : nat) (w : list Z) (s : Z * Z * Z * Z * Z) : Z * Z * Z * Z * Z :=
  match w with
  | [] => s
  | wt :: w =>
    let '(a, b, c, d, e) := s in
    let '(f, k) := sha1_f t b c d in
    sha1_rounds (S t) w (u32 (rotl32 5 a + f + e + k + wt), a, rotl32 30 b, c, d)
  end.

Definition sha1_block (s : Z * Z * Z * Z * Z) (block : bytes) : Z * Z * Z * Z * Z :=
  let '(a, b, c, d, e) := s in
  let '(a', b', c', d', e') :=
    sha1_rounds 0 (rev (sha1_schedule 64 (rev (words32 block)))) s in
  (u32 (a + a'), u32 (b + b'), u32 (c + c'), u32 (d + d'), u32 (e + e')).

(** [sha1.Sum], the 20-byte digest. *)
Definition sha1 (m : bytes) : bytes :=
  let p := sha_pad m in
  let '(a, b, c, d, e) :=
    foldl sha1_block (0x67452301, 0xEFCDAB89, 0x98BADCFE, 0x10325476, 0xC3D2E1F0)
      (chunks (length p) 64 p) in
  flat_map (be_encode 4) [a; b; c; d; e].

(** ** SHA-256 and HMAC *)

(** FIPS 180-4: the first 32 bits of the fractional parts of the cube roots of the first
    64 primes and of the square roots of the first 8. *)
Fixpoint icbrt (bits : nat) (r x : Z) : Z :=
  match bits with
  | O => r
  | S bits =>
    let r' := r + 2 ^ Z.of_nat bits in
    icbrt bits (if r' * r' * r' <=? x then r' else r) x
  end.

Definition is_prime (n : nat) : bool :=
  forallb (λ d, negb (Nat.eqb (Nat.modulo n d) 0)) (seq 2 (n - 2)).

Definition primes : list Z :=
  Eval vm_compute in Z.of_nat <$> List.filter is_prime (seq 2 310).

Definition sha256_k : list Z :=
  Eval vm_compute in (λ p, u32 (icbrt 40 0 (p * 2 ^ 96))) <$> take 64 primes.

Definition sha256_init : list Z :=
  Eval vm_compute in (λ p, u32 (Z.sqrt (p * 2 ^ 64))) <$> take 8 primes.

Definition sha256_sig (r1 r2 s x : Z) : Z :=
  Z.lxor (Z.lxor (rotr32 r1 x) (rotr32 r2 x)) (Z.shiftr x s).

Fixpoint sha256_schedule (n : nat) (w : list Z) : list Z :=
  match n with
  | O => w
  | S n => sha256_schedule n
      (u32 (sha256_sig 17 19 10 (nth 1 w 0) + nth 6 w 0 +
            sha256_sig 7 18 3 (nth 14 w 0) + nth 15 w 0) :: w)
  end.

Definition sha256_round (s : list Z) (kw : Z * Z) : list Z :=
  match s with
  | [a; b; c; d; e; f; g; h] =>
    let S1 := Z.lxor (Z.lxor (rotr32 6 e) (rotr32 11 e)) (rotr32 25 e) in
    let ch := Z.lxor (Z.land e f) (Z.land (Z.lxor e 0xffffffff) g) in
    let t1 := h + S1 + ch + kw.1 + kw.2 in
    let S0 := Z.lxor (Z.lxor (rotr32 2 a) (rotr32 13 a)) (rotr32 22 a) in
    let maj := Z.lxor (Z.lxor (Z.land a b) (Z.land a c)) (Z.land b c) in
    [u32 (t1 + S0 + maj); a; b; c; u32 (d + t1); e; f; g]
  | _ => s
  end.

Definition sha256_block (s : list Z) (block : bytes) : list Z :=
  let w := rev (sha256_schedule 48 (rev (words32 block))) in
  zip_with (λ x y, u32 (x + y)) s (foldl sha256_round s (zip sha256_k w)).

Definition sha256 (m : bytes) : bytes :=
  let p := sha_pad m in
  flat_map (be_encode 4) (foldl sha256_block sha256_init (chunks (length p) 64 p)).

Definition hmac_sha256 (key m : bytes) : bytes :=
  let k := if 64 <? len key then sha256 key else key in
  let k := k ++ replicate (64 - length k) 0 in
  sha256 ((Z.lxor 0x5c <$> k) ++ sha256 ((Z.lxor 0x36 <$> k) ++ m)).

(** ** AES-128 *)

Definition aes_sbox : list Z := [
   99; 124; 119; 123; 242; 107; 111; 197; 48; 1; 103; 43; 254; 215; 171; 118;
   202; 130; 201; 125; 250; 89; 71; 240; 173; 212; 162; 175; 156; 164; 114; 192;
   183; 253; 147; 38; 54; 63; 247; 204; 52; 165; 229; 241; 113; 216; 49; 21;
   4; 199; 35; 195; 24; 150; 5; 154; 7; 18; 128; 226; 235; 39; 178; 117;
   9; 131; 44; 26; 27; 110; 90; 160; 82; 59; 214; 179; 41; 227; 47; 132;
   83; 209; 0; 237; 32; 252; 177; 91; 106; 203; 190; 57; 74; 76; 88; 207;
   208; 239; 170; 251; 67; 77; 51; 133; 69; 249; 2; 127; 80; 60; 159; 168;
   81; 163; 64; 143; 146; 157; 56; 245; 188; 182; 218; 33; 16; 255; 243; 210;
   205; 12; 19; 236; 95; 151; 68; 23; 196; 167; 126; 61; 100; 93; 25; 115;
   96; 129; 79; 220; 34; 42; 144; 136; 70; 238; 184; 20; 222; 94; 11; 219;
   224; 50; 58; 10; 73; 6; 36; 92; 194; 211; 172; 98; 145; 149; 228; 121;
   231; 200; 55; 109; 141; 213; 78; 169; 108; 86; 244; 234; 101; 122; 174; 8;
   186; 120; 37; 46; 28; 166; 180; 198; 232; 221; 116; 31; 75; 189; 139; 138;
   112; 62; 181; 102; 72; 3; 246; 14; 97; 53; 87; 185; 134; 193; 29; 158;
   225; 248; 152; 17; 105; 217; 142; 148; 155; 30; 135; 233; 206; 85; 40; 223;
   140; 161; 137; 13; 191; 230; 66; 104; 65; 153; 45; 15; 176; 84; 187; 22].

Definition sub_byte (b : Z) : Z := nth (Z.to_nat b) aes_sbox 0.

Definition xtime (b : Z) : Z :=
  let b2 := Z.shiftl b 1 in if b2 <? 256 then b2 else Z.lxor b2 0x11b.

Definition xor_bytes (a b : bytes) : bytes := zip_with Z.lxor a b.

(** Round keys as lists of four-byte words, newest first. *)
Fixpoint aes_expand (n i : nat) (rcon : Z) (w : list bytes) : list bytes :=
  match n with
  | O => w
  | S n =>
    let prev := nth 0 w [] in
    let '(t, rcon') :=
      if Nat.eqb (Nat.modulo i 4) 0 then
        (match sub_byte <$> (drop 1 prev ++ take 1 prev) with
         | b :: t => Z.lxor b rcon :: t
         | [] => []
         end, xtime rcon)
      else (prev, rcon) in
    aes_expand n (S i) rcon' (xor_bytes (nth 3 w []) t :: w)
  end.

Definition aes_round_keys (key : bytes) : list bytes :=
  let ws := rev (aes_expand 40 4 1 (rev (chunks 4 4 key))) in
  (λ r, concat (take 4 (drop (4 * r) ws))) <$> seq 0 11.

(** The state is kept as the 16 input bytes, column by column. *)
Definition shift_rows (s : bytes) : bytes :=
  (λ i, nth i s 0) <$> [0; 5; 10; 15; 4; 9; 14; 3; 8; 13; 2; 7; 12; 1; 6; 11]%nat.

Definition mix_column (c : bytes) : bytes :=
  match c with
  | [a; b; c; d] =>
    let m x y z w := Z.lxor (Z.lxor (xtime x) (Z.lxor (xtime y) y)) (Z.lxor z w) in
    [m a b c d; m b c d a; m c d a b; m d a b c]
  | _ => c
  end.

Definition aes_round (s k : bytes) : bytes :=
  xor_bytes (concat (mix_column <$> chunks 4 4 (shift_rows (sub_byte <$> s)))) k.

(** [cipher.Encrypt] of [aes.NewCipher(key)] on one 16-byte block. *)
Definition aes128_encrypt (key block : bytes) : bytes :=
  match aes_round_keys key with
  | k0 :: ks =>
    let s := foldl aes_round (xor_bytes block k0) (take 9 ks) in
    xor_bytes (shift_rows (sub_byte <$> s)) (nth 9 ks [])
  | [] => []
  end.

(** ** GCM *)

(** Product in GF(2^128), most significant bit first. *)
Fixpoint gf_mul (n : nat) (x v z : Z) : Z :=
  match n with
  | O => z
  | S n =>
    gf_mul n x
      (if Z.odd v then Z.lxor (Z.shiftr v 1) (Z.shiftl 0xe1 120) else Z.shiftr v 1)
      (if Z.testbit x (Z.of_nat n) then Z.lxor z v else z)
  end.

Definition pad16 (l : bytes) : bytes := l ++ replicate (Z.to_nat ((- len l) mod 16)) 0.

Definition ghash (h : Z) (aad ct : bytes) : Z :=
  let d := pad16 aad ++ pad16 ct ++ be_encode 8 (8 * len aad) ++ be_encode 8 (8 * len ct) in
  foldl (λ y b, gf_mul 128 (Z.lxor y (be_decode b)) h 0) 0 (chunks (length d) 16 d).

Section gcm.
Context (E : bytes → bytes).   (* the block cipher under a fixed key *)

(** The key stream for [n] blocks, from counter [ctr] on. *)
Fixpoint gcm_stream (n : nat) (nonce : bytes) (ctr : Z) : bytes :=
  match n with
  | O => []
  | S n => E (nonce ++ be_encode 4 ctr) ++ gcm_stream n nonce (ctr + 1)
  end.

(** Key stream for [l]; blocks shorter than 16 bytes do not occur for a real cipher,
    and what the stream does not cover is left as it is. *)
Fixpoint xor_stream (l ks : bytes) : bytes :=
  match l, ks with
  | b :: l, k :: ks => Z.lxor b k :: xor_stream l ks
  | l, [] => l
  | [], _ => []
  end.

Definition gcm_crypt (nonce l : bytes) : bytes :=
  xor_stream l (gcm_stream (Z.to_nat (len l / 16 + 1)) nonce 2).

Definition gcm_tag (nonce ct aad : bytes) : bytes :=
  be_encode 16 (Z.lxor (ghash (be_decode (E (replicate 16 0))) aad ct)
                       (be_decode (E (nonce ++ be_encode 4 1)))).

(** [aead.Seal]. *)
Definition gcm_seal (nonce plaintext aad : bytes) : bytes :=
  let ct := gcm_crypt nonce plaintext in ct ++ gcm_tag nonce ct aad.

(** [aead.Open] with a 12-byte nonce and the 16-byte tag after the ciphertext. *)
Definition gcm_open (nonce ciphertext aad : bytes) : outcome bytes :=
  if negb (len nonce =? 12) then Panic "crypto/cipher: incorrect nonce length given to GCM"
  else if len ciphertext <? 16 then Err (errors_New "cipher: message authentication failed")
  else
    let n := (length ciphertext - 16)%nat in
    let ct := take n ciphertext in
    if bool_decide (drop n ciphertext = gcm_tag nonce ct aad)
    then Ok (gcm_crypt nonce ct)
    else Err (errors_New "cipher: message authentication failed").

Lemma xor_stream_involutive l ks : xor_stream (xor_stream l ks) ks = l.
Proof.
  revert ks. induction l as [|b l IH]; intros [|k ks]; simpl; try done.
  by rewrite Z.lxor_assoc, Z.lxor_nilpotent, Z.lxor_0_r, IH.
Qed.

Lemma length_xor_stream l ks : length (xor_stream l ks) = length l.
Proof. revert ks. induction l as [|b l IH]; intros [|k ks]; simpl; auto. Qed.

Lemma length_gcm_crypt nonce l : length (gcm_crypt nonce l) = length l.
Proof. apply length_xor_stream. Qed.

Lemma gcm_crypt_involutive nonce l : gcm_crypt nonce (gcm_crypt nonce l) = l.
Proof.
  unfold gcm_crypt at 1. rewrite length_gcm_crypt. apply xor_stream_involutive.
Qed.

(** Opening inverts sealing. *)
Lemma gcm_open_seal nonce plaintext aad :
  len nonce = 12 → gcm_open nonce (gcm_seal nonce plaintext aad) aad = Ok plaintext.
Proof.
  intros Hn. unfold gcm_open, gcm_seal. rewrite Hn. cbn [negb Z.eqb Pos.eqb].
  set (ct := gcm_crypt nonce plaintext).
  assert (length (gcm_tag nonce ct aad) = 16%nat) as Ht by apply length_be_encode.
  rewrite length_app, Ht. rewrite (proj2 (Z.ltb_ge _ _)) by lia.
  replace (length ct + 16 - 16)%nat with (length ct) by lia.
  rewrite take_app_length, drop_app_length, bool_decide_true by done.
  f_equal. apply gcm_crypt_involutive.
Qed.
End gcm.

(** ** Lengths *)

Lemma length_sha1 m : length (sha1 m) = 20%nat.
Proof.
  unfold sha1. destruct (foldl _ _ _) as [[[[a b] c] d] e].
  cbn [flat_map]. rewrite !length_app, !length_be_encode. done.
Qed.

Lemma sha1_wf m : wf_bytes (sha1 m).
Proof.
  unfold sha1. destruct (foldl _ _ _) as [[[[a b] c] d] e]. cbn [flat_map].
  repeat (apply wf_bytes_app; split); try apply be_encode_wf. constructor.
Qed.
#[export] Hint Rewrite length_sha1 : golen.
#[export] Hint Resolve sha1_wf : gohints.

(** ** Bytes in, bytes out *)

Lemma lxor_byte a b : is_byte a → is_byte b → is_byte (Z.lxor a b).
Proof.
  unfold is_byte. intros [Ha Ha'] [Hb Hb'].
  assert (0 <= Z.lxor a b) as H0 by (apply Z.lxor_nonneg; lia). split; [done|].
  assert (Z.shiftr (Z.lxor a b) 8 = 0) as Hs.
  { rewrite Z.shiftr_lxor, !Z.shiftr_div_pow2, !Z.div_small by lia. done. }
  rewrite Z.shiftr_div_pow2 in Hs by lia. apply Z.div_small_iff in Hs; lia.
Qed.

Lemma xor_bytes_wf a b : wf_bytes a → wf_bytes b → wf_bytes (xor_bytes a b).
Proof.
  intros Ha. revert b. induction Ha as [|x a Hx Ha IH]; intros b Hb; [constructor|].
  destruct Hb as [|y b Hy Hb]; [constructor|]. constructor; [by apply lxor_byte|by apply IH].
Qed.

Lemma nth_wf i l : wf_bytes l → is_byte (nth i l 0).
Proof.
  intros Hl. destruct (decide (i < length l)%nat) as [Hi|Hi].
  - eapply Forall_forall; [exact Hl|]. apply list_elem_of_In, nth_In, Hi.
  - rewrite nth_overflow by lia. unfold is_byte. lia.
Qed.

Lemma sub_byte_wf b : is_byte (sub_byte b).
Proof. apply nth_wf. decide_now. Qed.

Lemma sub_bytes_wf l : wf_bytes (sub_byte <$> l).
Proof. apply Forall_fmap, Forall_true. intros b. apply sub_byte_wf. Qed.
#[export] Hint Resolve lxor_byte xor_bytes_wf sub_byte_wf sub_bytes_wf : gohints.

Lemma xtime_wf b : is_byte b → is_byte (xtime b).
Proof.
  intros Hb. unfold xtime. rewrite Z.shiftl_mul_pow2 by lia. unfold is_byte in *.
  case_goal; bool_facts; [lia|].
  replace (Z.lxor (b * 2 ^ 1) 283) with (Z.lxor (b * 2 ^ 1 - 256) 27).
  { apply lxor_byte; unfold is_byte; lia. }
  assert (b * 2 ^ 1 = Z.lxor (b * 2 ^ 1 - 256) 256) as E.
  { pose proof (Z.add_lor_land (b * 2 ^ 1 - 256) 256) as A.
    pose proof (Z.lxor_lor (b * 2 ^ 1 - 256) 256) as L.
    assert (Z.land (b * 2 ^ 1 - 256) 256 = 0) as H0; [|rewrite L by done; lia].
    apply Z.bits_inj'. intros i Hi. rewrite Z.land_spec, Z.bits_0.
    change 256 with (2 ^ 8) at 2. rewrite Z.pow2_bits_eqb by lia.
    destruct (8 =? i) eqn:Ei; [|by rewrite andb_comm]. bool_facts. subst i.
    rewrite Z.testbit_eqb by lia. rewrite Z.div_small by lia. done. }
  rewrite E at 2. rewrite Z.lxor_assoc. done.
Qed.

Lemma aes_expand_wf n i rcon w :
  is_byte rcon → Forall wf_bytes w → Forall wf_bytes (aes_expand n i rcon w).
Proof.
  assert (∀ w j, Forall wf_bytes w → wf_bytes (nth j w [])) as Hnth.
  { intros w' j Hw'. revert j. induction Hw'; intros [|j]; simpl; try constructor; auto. }
  revert i rcon w. induction n as [|n IH]; intros i rcon w Hr Hw; [done|]. cbn [aes_expand].
  destruct (Nat.eqb (Nat.modulo i 4) 0).
  - apply IH; [by apply xtime_wf|]. constructor; [|done]. apply xor_bytes_wf; [by apply Hnth|].
    pose proof (sub_bytes_wf (drop 1 (nth 0 w []) ++ take 1 (nth 0 w []))) as Hs.
    destruct Hs; constructor; auto with gohints.
  - apply IH; [done|]. constructor; [|done]. apply xor_bytes_wf; by apply Hnth.
Qed.

Lemma chunks_wf fuel n l : wf_bytes l → Forall wf_bytes (chunks fuel n l).
Proof.
  revert l. induction fuel as [|fuel IH]; intros l Hl; destruct l as [|b l]; simpl;
    rewrite ?Forall_cons, ?Forall_nil; try done.
  split; [by apply wf_bytes_take|by apply IH, wf_bytes_drop].
Qed.

Lemma aes_round_keys_wf key : wf_bytes key → Forall wf_bytes (aes_round_keys key).
Proof.
  intros Hk. unfold aes_round_keys. apply Forall_fmap, Forall_true. intros r.
  unfold compose, wf_bytes. rewrite Forall_concat. apply Forall_take, Forall_drop, Forall_rev.
  apply aes_expand_wf; [unfold is_byte; lia|]. apply Forall_rev. by apply chunks_wf.
Qed.

Lemma aes128_encrypt_wf key block : wf_bytes key → wf_bytes (aes128_encrypt key block).
Proof.
  intros Hk%aes_round_keys_wf. unfold aes128_encrypt. destruct Hk as [|k0 ks _ Hks]; [constructor|].
  cbv zeta. apply xor_bytes_wf.
  - apply Forall_fmap, Forall_true. intros i. apply nth_wf, sub_bytes_wf.
  - destruct (nth_in_or_default 9 ks []) as [Hin| ->]; [|constructor].
    rewrite Forall_forall in Hks. apply Hks. by apply list_elem_of_In.
Qed.

Lemma gcm_crypt_wf E nonce l :
  (∀ b, wf_bytes (E b)) → wf_bytes l → wf_bytes (gcm_crypt E nonce l).
Proof.
  intros HE Hl. unfold gcm_crypt. generalize (Z.to_nat (len l / 16 + 1)) as n. intros n.
  assert (∀ ctr, wf_bytes (gcm_stream E n nonce ctr)) as Hs.
  { induction n; intros ctr; simpl; [constructor|]. apply wf_bytes_app. auto. }
  specialize (Hs 2). revert Hs. generalize (gcm_stream E n nonce 2) as ks.
  induction Hl as [|b l Hb Hl IH]; intros ks Hks; [destruct ks; apply Forall_nil_2|].
  destruct Hks as [|k ks Hk Hks]; simpl; [by constructor|].
  constructor; [by apply lxor_byte|]. by apply IH.
Qed.

Lemma gcm_open_wf E nonce c aad p :
  (∀ b, wf_bytes (E b)) → wf_bytes c → gcm_open E nonce c aad = Ok p →
  wf_bytes p ∧ len p <= len c.
Proof.
  intros HE Hc. unfold gcm_open. repeat case_goal; try done. intros [= <-].
  split; [apply gcm_crypt_wf; auto with gohints|]. rewrite length_gcm_crypt. len_solve.
Qed.

(** ** Test vectors *)

Example sha1_abc : sha1 [97; 98; 99] =
  be_encode 20 0xa9993e364706816aba3e25717850c26c9cd0d89d.
Proof. vm_compute. reflexivity. Qed.

Example sha256_abc : sha256 [97; 98; 99] =
  be_encode 32 0xba7816bf8f01cfea414140de5dae2223b00361a396177a9cb410ff61f20015ad.
Proof. vm_compute. reflexivity. Qed.

(** FIPS 197, appendix B. *)
Example aes128_fips : aes128_encrypt (be_encode 16 0x2b7e151628aed2a6abf7158809cf4f3c)
                        (be_encode 16 0x3243f6a8885a308d313198a2e0370734) =
  be_encode 16 0x3925841d02dc09fbdc118597196a0b32.
Proof. vm_compute. reflexivity. Qed.
