(* ===== verification/External.v ===== *)
(** * Third-party packages

    The packages outside the repository that the protocol code calls, as type
    classes: the operations the code uses, and - in separate classes - what their
    documentation promises about them.  [golang.org/x/crypto/cryptobyte]
    (readers and the builder), [golang.org/x/crypto/hkdf], the number registry
    [github.com/refraction-networking/utls/dicttls] and the TLS parser
    [github.com/refraction-networking/utls].  Each class has an instance, so that definitions over it can be evaluated and the promises are
    known to be satisfiable. *)
From S2P Require Import Prelude GoCrypto.

(** ** [cryptobyte.String] *)

(** A [cryptobyte.String] is the slice of the bytes left to read.  A read returns
    the value and the rest, or [None] where the method returns [false]. *)
Class Cryptobyte := {
  cb_Skip : Z → bytes → option bytes;
  cb_ReadUint8 : bytes → option (Z * bytes);
  cb_ReadUint16 : bytes → option (Z * bytes);
  cb_ReadUint8LengthPrefixed : bytes → option (bytes * bytes);
  cb_ReadUint16LengthPrefixed : bytes → option (bytes * bytes);
  cb_Empty : bytes → bool;
  (* the builder: [B] is the builder's state *)
  cb_Builder : Type;
  cb_NewBuilder : cb_Builder;
  cb_AddUint16 : cb_Builder → Z → cb_Builder;
  cb_AddBytes : cb_Builder → bytes → cb_Builder;
  cb_AddUint8LengthPrefixed : cb_Builder → (cb_Builder → cb_Builder) → cb_Builder;
  cb_Bytes : cb_Builder → outcome bytes
}.

(** Reading [n] bytes, the primitive every read is documented in terms of. *)
Definition take_exactly (n : nat) (s : bytes) : option (bytes * bytes) :=
  if (n <=? length s)%nat then Some (take n s, drop n s) else None.

Class CryptobyteLaws (CB : Cryptobyte) : Prop := {
  cb_Skip_spec n s : 0 <= n → cb_Skip n s = snd <$> take_exactly (Z.to_nat n) s;
  cb_ReadUint8_spec s :
    cb_ReadUint8 s = prod_map be_decode id <$> take_exactly 1 s;
  cb_ReadUint16_spec s :
    cb_ReadUint16 s = prod_map be_decode id <$> take_exactly 2 s;
  cb_ReadUint8LengthPrefixed_spec s :
    cb_ReadUint8LengthPrefixed s =
      (take_exactly 1 s ≫= λ '(l, s), take_exactly (Z.to_nat (be_decode l)) s);
  cb_ReadUint16LengthPrefixed_spec s :
    cb_ReadUint16LengthPrefixed s =
      (take_exactly 2 s ≫= λ '(l, s), take_exactly (Z.to_nat (be_decode l)) s);
  cb_Empty_spec s : cb_Empty s = bool_decide (s = []);
  cb_Bytes_New : cb_Bytes cb_NewBuilder = Ok [];
  cb_Bytes_AddUint16 b v :
    cb_Bytes (cb_AddUint16 b v) = let! x := cb_Bytes b in Ok (x ++ be_encode 2 v);
  cb_Bytes_AddBytes b v :
    cb_Bytes (cb_AddBytes b v) = let! x := cb_Bytes b in Ok (x ++ v);
  cb_Bytes_AddUint8LengthPrefixed b f c :
    cb_Bytes (f cb_NewBuilder) = Ok c → len c < 256 →
    cb_Bytes (cb_AddUint8LengthPrefixed b f) =
      let! x := cb_Bytes b in Ok (x ++ len c :: c)
}.

Definition cryptobyte_ref : Cryptobyte := {|
  cb_Skip n s := snd <$> take_exactly (Z.to_nat n) s;
  cb_ReadUint8 s := prod_map be_decode id <$> take_exactly 1 s;
  cb_ReadUint16 s := prod_map be_decode id <$> take_exactly 2 s;
  cb_ReadUint8LengthPrefixed s :=
    take_exactly 1 s ≫= λ '(l, s), take_exactly (Z.to_nat (be_decode l)) s;
  cb_ReadUint16LengthPrefixed s :=
    take_exactly 2 s ≫= λ '(l, s), take_exactly (Z.to_nat (be_decode l)) s;
  cb_Empty s := match s with [] => true | _ => false end;
  cb_Builder := outcome bytes;
  cb_NewBuilder := Ok [];
  cb_AddUint16 b v := let! x := b in Ok (x ++ be_encode 2 v);
  cb_AddBytes b v := let! x := b in Ok (x ++ v);
  cb_AddUint8LengthPrefixed b f :=
    let! x := b in
    let! c := f (Ok []) in
    if len c <? 256 then Ok (x ++ len c :: c)
    else Err (errors_New "cryptobyte: pending child length exceeds 1-byte length prefix");
  cb_Bytes b := b
|}.

#[global] Instance cryptobyte_ref_laws : CryptobyteLaws cryptobyte_ref.
Proof.
  split; try done.
  - intros s. by destruct s.
  - intros b f c Hf Hc. simpl in *. rewrite Hf. simpl.
    by rewrite (proj2 (Z.ltb_lt _ _)) by done.
Qed.

(** Reads from a string that starts with what is read. *)
Section cryptobyte_lemmas.
Context {CB : Cryptobyte} {CBL : CryptobyteLaws CB}.

Lemma take_exactly_app a s : take_exactly (length a) (a ++ s) = Some (a, s).
Proof.
  unfold take_exactly. rewrite (proj2 (Nat.leb_le _ _)) by len_solve.
  by rewrite take_app_length, drop_app_length.
Qed.

Lemma take_exactly_app' n a s : length a = n → take_exactly n (a ++ s) = Some (a, s).
Proof. intros <-. apply take_exactly_app. Qed.

Lemma take_exactly_Some n s a t :
  take_exactly n s = Some (a, t) ↔ s = a ++ t ∧ length a = n.
Proof.
  split; [|intros [-> ?]; by apply take_exactly_app'].
  unfold take_exactly. case_goal; [|done]. apply Nat.leb_le in Heqb. intros [= <- <-].
  by rewrite take_drop, length_take_le.
Qed.

Lemma cb_Skip_app a s : cb_Skip (len a) (a ++ s) = Some s.
Proof. rewrite cb_Skip_spec by lia. by rewrite Nat2Z.id, take_exactly_app. Qed.

Lemma cb_ReadUint8_cons b s : cb_ReadUint8 (b :: s) = Some (b, s).
Proof.
  rewrite cb_ReadUint8_spec. unfold take_exactly. simpl. rewrite take_0, drop_0. simpl.
  done.
Qed.

Lemma cb_ReadUint16_app v s : is_u16 v → cb_ReadUint16 (be_encode 2 v ++ s) = Some (v, s).
Proof.
  intros Hv. rewrite cb_ReadUint16_spec, (take_exactly_app' 2) by apply length_be_encode.
  unfold is_u16 in Hv. cbn -[be_decode be_encode]. rewrite be_decode_encode.
  rewrite Z.mod_small by (simpl; lia). done.
Qed.

Lemma cb_ReadUint8LengthPrefixed_app a s :
  len a < 256 → cb_ReadUint8LengthPrefixed (len a :: a ++ s) = Some (a, s).
Proof.
  intros Ha. rewrite cb_ReadUint8LengthPrefixed_spec.
  change (len a :: a ++ s) with ([len a] ++ a ++ s). rewrite (take_exactly_app' 1) by done.
  cbn -[be_decode take_exactly]. rewrite be_decode_cons. change (be_decode []) with 0.
  replace (Z.to_nat (len a * 256 ^ len [] + 0)) with (length a) by (simpl; lia).
  apply take_exactly_app.
Qed.

Lemma cb_ReadUint16LengthPrefixed_app a s :
  len a < 2 ^ 16 → cb_ReadUint16LengthPrefixed (be_encode 2 (len a) ++ a ++ s) = Some (a, s).
Proof.
  intros Ha. rewrite cb_ReadUint16LengthPrefixed_spec, (take_exactly_app' 2) by apply length_be_encode.
  cbn -[be_decode be_encode]. rewrite be_decode_encode, Z.mod_small by (simpl; lia). rewrite Nat2Z.id.
  apply take_exactly_app.
Qed.
End cryptobyte_lemmas.

(** ** [hkdf] *)

(** [hkdf.Extract(sha256.New, secret, salt)] and the first [Read] of [n] bytes from
    [hkdf.Expand(sha256.New, prk, info)]. *)
Class Hkdf := {
  hkdf_Extract : bytes → bytes → bytes;
  hkdf_Expand_Read : bytes → bytes → nat → bytes * option goerror
}.

(** RFC 5869: up to 255 blocks of output are available. *)
Class HkdfLaws (HK : Hkdf) : Prop :=
  hkdf_Expand_Read_spec prk info n :
    (n <= 255 * 32)%nat →
    ∃ d, hkdf_Expand_Read prk info n = (d, None) ∧ length d = n ∧ wf_bytes d.

(** RFC 5869 over HMAC-SHA-256. *)
Fixpoint hkdf_blocks (fuel : nat) (prk info prev : bytes) (i : Z) : bytes :=
  match fuel with
  | O => []
  | S fuel =>
    let t := hmac_sha256 prk (prev ++ info ++ [i]) in t ++ hkdf_blocks fuel prk info t (i + 1)
  end.

(** The output is cut to the bytes asked for (HMAC-SHA-256 blocks have 32 bytes). *)
Definition hkdf_ref : Hkdf := {|
  hkdf_Extract secret salt := hmac_sha256 salt secret;
  hkdf_Expand_Read prk info n :=
    if (255 * 32 <? n)%nat then ([], Some (errors_New "hkdf: entropy limit reached"))
    else (copy_into (replicate n 0)
            ((λ b, b mod 256) <$> hkdf_blocks (n / 32 + 1) prk info [] 1), None)
|}.

#[global] Instance hkdf_ref_laws : HkdfLaws hkdf_ref.
Proof.
  intros prk info n Hn. simpl. rewrite (proj2 (Nat.ltb_ge _ _)) by done.
  eexists. split; [done|]. split; [by rewrite length_copy_into, length_replicate|].
  apply wf_bytes_copy_into; [apply wf_bytes_zeros|]. apply Forall_fmap, Forall_true.
  intros b. unfold is_byte. simpl. apply Z.mod_pos_bound. lia.
Qed.

(** ** [dicttls] *)

(** The constants of the IANA registries that the code compares with. *)
Class Dicttls := {
  QUICTransportParameter_max_idle_timeout : Z;
  QUICTransportParameter_max_udp_payload_size : Z;
  QUICTransportParameter_initial_max_data : Z;
  QUICTransportParameter_initial_max_stream_data_bidi_local : Z;
  QUICTransportParameter_initial_max_stream_data_bidi_remote : Z;
  QUICTransportParameter_initial_max_stream_data_uni : Z;
  QUICTransportParameter_initial_max_streams_bidi : Z;
  QUICTransportParameter_initial_max_streams_uni : Z;
  QUICTransportParameter_ack_delay_exponent : Z;
  QUICTransportParameter_max_ack_delay : Z;
  QUICTransportParameter_active_connection_id_limit : Z;
  ExtType_quic_transport_parameters : Z
}.

(** The registered values: RFC 9000, section 18.2, and RFC 9001, section 8.2. *)
Definition dicttls_ref : Dicttls := {|
  QUICTransportParameter_max_idle_timeout := 0x01;
  QUICTransportParameter_max_udp_payload_size := 0x03;
  QUICTransportParameter_initial_max_data := 0x04;
  QUICTransportParameter_initial_max_stream_data_bidi_local := 0x05;
  QUICTransportParameter_initial_max_stream_data_bidi_remote := 0x06;
  QUICTransportParameter_initial_max_stream_data_uni := 0x07;
  QUICTransportParameter_initial_max_streams_bidi := 0x08;
  QUICTransportParameter_initial_max_streams_uni := 0x09;
  QUICTransportParameter_ack_delay_exponent := 0x0a;
  QUICTransportParameter_max_ack_delay := 0x0b;
  QUICTransportParameter_active_connection_id_limit := 0x0e;
  ExtType_quic_transport_parameters := 57
|}.

Class DicttlsRegistered (DT : Dicttls) : Prop := dicttls_values : DT = dicttls_ref.

#[global] Instance dicttls_ref_registered : DicttlsRegistered dicttls_ref.
Proof. done. Qed.

(** ** [utls] *)

(** The extension types the code switches on, with the fields it uses. *)
Inductive TLSExtension :=
  | SupportedCurvesExtension (Curves : list Z)
  | SupportedPointsExtension (SupportedPoints : bytes)
  | SignatureAlgorithmsExtension (SupportedSignatureAlgorithms : list Z)
  | ALPNExtension (AlpnProtocols : list bytes)
  | UtlsCompressCertExtension (Algorithms : list Z)
  | FakeRecordSizeLimitExtension (Limit : Z)
  | SupportedVersionsExtension (Versions : list Z)
  | PSKKeyExchangeModesExtension (Modes : bytes)
  | KeyShareExtension (KeyShareGroups : list Z)
  | ApplicationSettingsExtension (SupportedProtocols : list bytes)
  | GenericExtension (Id : Z) (Data : bytes)
  | OtherExtension.

Record ClientHelloSpec := mkSpec {
  spec_CipherSuites : list Z;
  spec_CompressionMethods : bytes;
  spec_Extensions : list TLSExtension
}.

(** [Fingerprinter.RawClientHello] with [AllowBluntMimicry], [UnmarshalClientHello] and the
    GREASE placeholder.  Both parsers may panic: [RawClientHello] in its outcome,
    [UnmarshalClientHello], which has no error result, by [inr]; its result is the server
    name, [None] for a [nil] message. *)
Class Utls := {
  RawClientHello : bytes → outcome ClientHelloSpec;
  tls_UnmarshalClientHello : bytes → option bytes + string;
  GREASE_PLACEHOLDER : Z
}.

(** Documented: "GREASE_PLACEHOLDER" is the canonical GREASE value. *)
Class UtlsLaws (UT : Utls) : Prop := GREASE_PLACEHOLDER_spec : GREASE_PLACEHOLDER = 0x0a0a.

(** ** [gopacket] *)

(** [DecodeFromBytes] of [layers.UDP]: the two ports and the payload. *)
Class Gopacket := udp_DecodeFromBytes : bytes → (Z * Z * bytes) + goerror.
