(* ===== verification/QuicCrypto.v ===== *)
(** * Keys, header protection and decryption of Initial packets

    quic_crypto.go.  The hash and cipher primitives are those of GoCrypto.v; HKDF
    and the label builder are the interfaces of External.v. *)
From S2P Require Import Prelude GoCrypto External.

(** The bytes of a Go string literal. *)
Definition bytes_of_string (s : string) : bytes :=
  (λ a, Z.of_N (Ascii.N_of_ascii a)) <$> String.list_ascii_of_string s.

Section quic_crypto.
Context {CB : Cryptobyte} {HK : Hkdf}.

Definition hkdfExpandLabel (key label context : bytes) (length : Z) : outcome bytes :=
  let hkdfLabel := cb_AddUint16 cb_NewBuilder (u16 length) in
  let hkdfLabel := cb_AddUint8LengthPrefixed hkdfLabel (λ b,
    cb_AddBytes (cb_AddBytes b (bytes_of_string "tls13 ")) label) in
  let hkdfLabel := cb_AddUint8LengthPrefixed hkdfLabel (λ b, cb_AddBytes b context) in
  let! hkdfLabelBytes := cb_Bytes hkdfLabel in
  let! out := make_bytes length in
  let '(d, err) := hkdf_Expand_Read key hkdfLabelBytes (Z.to_nat length) in
  match err with
  | Some err => Err err
  | None =>
    if negb (len d =? length) then Err (errors_New "failed to read all bytes, short read")
    else Ok (copy_into out d)
  end.

Definition initialSalt : bytes := [
  0x38; 0x76; 0x2c; 0xf7;
  0xf5; 0x59; 0x34; 0xb3;
  0x4d; 0x17; 0x9a; 0xe6;
  0xa4; 0xc8; 0x0c; 0xad;
  0xcc; 0xbb; 0x7f; 0x0a].

Definition ClientInitialKeysCalc (initialRandom : bytes) : outcome (bytes * bytes * bytes) :=
  let initialSecret := hkdf_Extract initialRandom initialSalt in
  let! clientSecret := hkdfExpandLabel initialSecret (bytes_of_string "client in") [] 32 in
  let! clientKey := hkdfExpandLabel clientSecret (bytes_of_string "quic key") [] 16 in
  let! clientIV := hkdfExpandLabel clientSecret (bytes_of_string "quic iv") [] 12 in
  let! clientHpKey := hkdfExpandLabel clientSecret (bytes_of_string "quic hp") [] 16 in
  Ok (clientKey, clientIV, clientHpKey).
End quic_crypto.

(** [aes.NewCipher] cannot fail on a 16-byte key; [cipher.Encrypt] writes one block
    into the 16-byte destination. *)
Definition ComputeHeaderProtection (clientHpKey sample : bytes) : outcome bytes :=
  if negb (len clientHpKey =? 16) || negb (len sample =? 16) then Panic "invalid input"
  else Ok (take 5 (copy_into (replicate 16 0) (aes128_encrypt clientHpKey sample))).

(** [iv] is overwritten in place; [iv[11]] is the first access. *)
Definition buildIV (iv : bytes) (seq_ : Z) : outcome bytes :=
  if len iv <? 12 then Panic "index out of range"
  else Ok (foldl (λ iv i,
             alter (λ b, Z.lxor b (u8 (Z.land (Z.shiftr seq_ (Z.of_nat i * 8)) 0xFF)))
                   (11 - i)%nat iv)
           iv (seq 0 8)).

(** [append(ciphertext, authtag...)] is the concatenation: in the one call there is,
    the tag already follows the ciphertext in the payload it is cut from. *)
Definition DecryptAES128GCM (iv : bytes) (recordNum : Z)
    (key ciphertext recdata authtag : bytes) : outcome bytes :=
  let! iv := buildIV iv recordNum in
  if negb (len iv =? 12) || negb (len key =? 16) || negb (len authtag =? 16)
  then Err (errors_New "invalid input")
  else gcm_open (aes128_encrypt key) iv (ciphertext ++ authtag) recdata.

(** ** Lemmas *)

Lemma buildIV_spec iv seq_ :
  length iv = 12%nat → 0 <= seq_ < 2 ^ 64 →
  buildIV iv seq_ = Ok (xor_bytes iv (replicate 4 0 ++ be_encode 8 seq_)).
Proof.
  intros Hl Hs. unfold buildIV. rewrite (proj2 (Z.ltb_ge _ _)) by lia. f_equal.
  do 12 (destruct iv as [|? iv]; [done|]). destruct iv; [|done].
  assert (∀ x, u8 (Z.land x 0xFF) = x mod 256) as Hu8.
  { intros x. unfold u8. change 0xFF with (Z.ones 8). rewrite Z.land_ones by lia.
    apply Z.mod_mod. lia. }
  cbn [be_encode seq foldl Nat.sub alter list_alter replicate app xor_bytes zip_with].
  rewrite !Hu8, !Z.lxor_0_r. done.
Qed.

Lemma xor_bytes_involutive a b : length a = length b → xor_bytes (xor_bytes a b) b = a.
Proof.
  unfold xor_bytes. revert b. induction a as [|x a IH]; intros [|y b] Hl; try done. simpl.
  injection Hl as Hl. by rewrite Z.lxor_assoc, Z.lxor_nilpotent, Z.lxor_0_r, IH.
Qed.

Lemma length_xor_bytes a b : length (xor_bytes a b) = Nat.min (length a) (length b).
Proof. apply length_zip_with. Qed.

Section keys.
Context {CB : Cryptobyte} {CBL : CryptobyteLaws CB} {HK : Hkdf} {HKL : HkdfLaws HK}.

Lemma hkdfExpandLabel_ok key label context n :
  len label < 250 → len context < 256 → 0 <= n <= 255 * 32 →
  ∃ d, hkdfExpandLabel key label context n = Ok d ∧ len d = n ∧ wf_bytes d.
Proof.
  intros Hl Hc Hn. unfold hkdfExpandLabel.
  erewrite cb_Bytes_AddUint8LengthPrefixed; [|by rewrite cb_Bytes_AddBytes, cb_Bytes_New|done].
  erewrite cb_Bytes_AddUint8LengthPrefixed;
    [|by rewrite !cb_Bytes_AddBytes, cb_Bytes_New|rewrite !length_app; simpl; lia].
  rewrite cb_Bytes_AddUint16, cb_Bytes_New. cbn [obind].
  unfold make_bytes, maxAlloc. rewrite (proj2 (Z.ltb_ge _ _)), (proj2 (Z.ltb_ge _ _)) by lia.
  cbn [orb obind].
  match goal with |- context [hkdf_Expand_Read key ?info ?m] =>
    destruct (hkdf_Expand_Read_spec key info m ltac:(lia)) as (d & -> & Hlen & Hwf)
  end.
  rewrite (proj2 (Z.eqb_eq (len d) n)) by lia. cbn [negb].
  rewrite copy_into_full by (rewrite length_replicate; lia).
  eexists. split; [done|]. split; [lia|done].
Qed.

Lemma ClientInitialKeysCalc_ok r :
  ∃ k iv hp, ClientInitialKeysCalc r = Ok (k, iv, hp) ∧
    (len k = 16 ∧ len iv = 12 ∧ len hp = 16) ∧ wf_bytes k ∧ wf_bytes iv ∧ wf_bytes hp.
Proof.
  unfold ClientInitialKeysCalc.
  destruct (hkdfExpandLabel_ok (hkdf_Extract r initialSalt) (bytes_of_string "client in") [] 32)
    as (s & -> & _ & _); [simpl; lia..|]. cbn [obind].
  destruct (hkdfExpandLabel_ok s (bytes_of_string "quic key") [] 16) as (k & -> & Hk & ?);
    [simpl; lia..|]. cbn [obind].
  destruct (hkdfExpandLabel_ok s (bytes_of_string "quic iv") [] 12) as (iv & -> & Hiv & ?);
    [simpl; lia..|]. cbn [obind].
  destruct (hkdfExpandLabel_ok s (bytes_of_string "quic hp") [] 16) as (hp & -> & Hhp & ?);
    [simpl; lia..|]. cbn [obind].
  exists k, iv, hp. done.
Qed.
End keys.

(** ** Properties *)

(** Given the documented behaviour of HKDF and of the label builder, the key schedule
    never fails: for every connection ID it yields a 16-byte key, a 12-byte IV and a
    16-byte header-protection key. *)
Theorem ClientInitialKeysCalc_total (CB : Cryptobyte) (HK : Hkdf) :
  CryptobyteLaws CB → HkdfLaws HK →
  ∀ dcid, ∃ key iv hp, ClientInitialKeysCalc dcid = Ok (key, iv, hp) ∧
    len key = 16 ∧ len iv = 12 ∧ len hp = 16.
Proof.
  intros ?? dcid. destruct (ClientInitialKeysCalc_ok dcid) as (k & iv & hp & -> & ? & _).
  by exists k, iv, hp.
Qed.

Lemma ClientInitialKeysCalc_total_witness :
  ∃ key iv hp, @ClientInitialKeysCalc cryptobyte_ref hkdf_ref [1; 2; 3] = Ok (key, iv, hp) ∧
    len key = 16 ∧ len iv = 12 ∧ len hp = 16.
Proof.
  apply (ClientInitialKeysCalc_total cryptobyte_ref hkdf_ref); [apply _|apply _].
Defined.

(** [buildIV] computes the nonce of RFC 9001, section 5.3: the IV XOR the packet
    number left-padded to 12 bytes; applying it twice restores the IV. *)
Theorem buildIV_nonce iv n :
  length iv = 12%nat → 0 <= n < 2 ^ 64 →
  buildIV iv n = Ok (xor_bytes iv (be_encode 12 n)) ∧
  obind (buildIV iv n) (λ iv', buildIV iv' n) = Ok iv.
Proof.
  intros Hl Hn.
  assert (be_encode 12 n = replicate 4 0 ++ be_encode 8 n) as Henc.
  { cbn [be_encode replicate app]. repeat f_equal;
      (rewrite Z.shiftr_div_pow2 by lia; rewrite Z.div_small; [done|simpl; lia]). }
  rewrite buildIV_spec, <- Henc by done. split; [done|]. cbn [obind].
  rewrite buildIV_spec, <- Henc by
    (done || (rewrite length_xor_bytes, length_be_encode; lia)).
  rewrite xor_bytes_involutive; [done|]. by rewrite length_be_encode.
Qed.

Lemma buildIV_nonce_witness :
  buildIV (replicate 12 7) 258 = Ok (xor_bytes (replicate 12 7) (be_encode 12 258)) ∧
  obind (buildIV (replicate 12 7) 258) (λ iv', buildIV iv' 258) = Ok (replicate 12 7).
Proof. apply (buildIV_nonce (replicate 12 7) 258); [reflexivity|lia]. Defined.

(** The vectors of quic_crypto_test.go. *)
Example keys_vector :
  @ClientInitialKeysCalc cryptobyte_ref hkdf_ref [0; 1; 2; 3; 4; 5; 6; 7] =
  Ok (be_encode 16 0xb14b918124fda5c8d79847602fa3520b,
      be_encode 12 0xddbc15dea80925a55686a7df,
      be_encode 16 0x6df4e9d737cdf714711d7c617ee82981).
Proof. vm_compute. reflexivity. Qed.

Example header_protection_vector :
  ComputeHeaderProtection (be_encode 16 0x6df4e9d737cdf714711d7c617ee82981)
    (be_encode 16 0xed78716be9711ba498b7ed868443bb2e) = Ok (be_encode 5 0xed9895bb15).
Proof. vm_compute. reflexivity. Qed.
