(* ===== verification/QuicHeader.v ===== *)
(** * Decoding Initial packets

    quic_header.go and [DecodeQUICHeaderAndFrames] of quic_common.go: header
    parsing, key derivation, removal of header protection, decryption and frame
    parsing of a QUIC v1 Initial packet. *)
From S2P Require Import Prelude GoIO Rewind VLI Frames GoCrypto External QuicCrypto.

Definition TOKEN_ABSENT : Z := 0x00000000.
Definition TOKEN_PRESENT : Z := 0x00000001.
Definition QUICVersion1 : Z := 0x00000001.

Record QUICHeader := mkHeader {
  Version : bytes;
  DCIDLength : Z;
  SCIDLength : Z;
  PacketNumber : bytes;
  initialPacketNumberLength : Z;
  initialPacketNumber : Z;
  HasToken : bool
}.

#[global] Instance QUICHeader_eq_dec : EqDecision QUICHeader.
Proof. solve_decision. Defined.

(** The frames of a decrypted payload; the fuel always suffices
    ([ReadAllFrames_terminates]). *)
Definition payload_frames (plain : bytes) : outcome (list QUICFrame) :=
  match ReadAllFrames_buffer plain with
  | Some o => o
  | None => Panic "out of fuel"
  end.

(** [r.Read] into a fresh slice of [n] bytes, with the check that all were read. *)
Definition read_exact (r : bytesReader) (n : Z) (short : goerror)
    : outcome (bytes * bytesReader) :=
  let! b := make_bytes n in
  let '(d, err, r) := io_read r (Z.to_nat n) in
  match err with
  | Some e => Err e
  | None => if negb (len d =? n) then Err short else Ok (copy_into b d, r)
  end.

(** Token and payload: the two lengths that are read off the datagram. *)
Definition read_token_and_payload (r : bytesReader) : outcome (bool * bytes * bytesReader) :=
  let '(v, r) := ReadNextVLI r in
  let! (tokenLen, _) := v in
  let! _ := guard (br_Len r <? tokenLen)
              (errors_New "token length exceeds remaining packet bytes") in
  let! (_, r) := read_exact r tokenLen
                   (errors_New "failed to read all token bytes, short read") in
  let '(v, r) := ReadNextVLI r in
  let! (packetLen, _) := v in
  let! _ := guard (packetLen <? 20) (errors_New "packet length too short, ignore") in
  let! _ := guard (br_Len r <? packetLen)
              (errors_New "packet length exceeds remaining packet bytes") in
  let! (payload, r) := read_exact r packetLen
                         (errors_New "failed to read all payload bytes, short read") in
  Ok (0 <? tokenLen, payload, r).

(** One iteration of the loop over the protected packet-number bytes:
    [recdata], [initialPacketNumber] and [PacketNumber] grow together. *)
Definition unprotect_step (hp : bytes) (acc : outcome (bytes * Z * bytes)) (ib : nat * Z)
    : outcome (bytes * Z * bytes) :=
  let! (recdata, pn, pnBytes) := acc in
  let! h := go_index (Z.of_nat (fst ib) + 1) hp in
  let unprotectedByte := Z.lxor (snd ib) h in
  Ok (recdata ++ [unprotectedByte], u64 (u64 (Z.shiftl pn 8) + unprotectedByte),
      pnBytes ++ [unprotectedByte]).

Section decode.
Context {CB : Cryptobyte} {HK : Hkdf}.

(** The unprotected header: everything up to the payload.  Returns the connection ID
    the keys are derived from, the fields, the payload and what follows it. *)
Definition decode_header (p : bytes)
    : outcome (bytes * Z * bool * bytes * bytesReader) :=
  let! _ := guard (len p <? 7) (errors_New "packet too short") in
  let! packetHeaderByteProtected := go_index 0 p in
  let! _ := guard (negb (Z.land packetHeaderByteProtected 0xc0 =? 0xc0))
              ErrNotQUICLongHeaderFormat in
  let! _ := guard (negb (Z.land packetHeaderByteProtected 0x30 =? 0)) ErrNotQUICInitialPacket in
  let! version := go_slice 1 5 p in
  let! _ := guard (negb (be_decode version =? QUICVersion1)) ErrUnsupportedQUICVersion in
  let! s := go_slice 5 (len p) p in
  match cb_ReadUint8LengthPrefixed s with
  | None => Err (errors_New "failed to read DCID (initial random)")
  | Some (initialRandom, s) =>
    match (cb_ReadUint8 s ≫= λ '(n, s), (λ s, (n, s)) <$> cb_Skip n s) with
    | None => Err (errors_New "failed to read SCID")
    | Some (scidLen, s) =>
      let! (hasToken, payload, r) := read_token_and_payload (NewReader s) in
      Ok (initialRandom, scidLen, hasToken, payload, r)
    end
  end.

Definition DecodeQUICHeaderAndFrames (p : bytes) : outcome (QUICHeader * list QUICFrame) :=
  let! (initialRandom, scidLen, hasToken, payload, r) := decode_header p in
  let! packetHeaderByteProtected := go_index 0 p in
  let! version := go_slice 1 5 p in
  let! (clientKey, clientIV, clientHpKey) := ClientInitialKeysCalc initialRandom in
  let! sample := go_slice 4 20 payload in
  let! hp := ComputeHeaderProtection clientHpKey sample in
  let! recdata := go_slice 0 (len p - br_Len r) p in
  let! recdata := go_slice 0 (len recdata - len payload) recdata in
  let! hp0 := go_index 0 hp in
  let headerByte := Z.lxor packetHeaderByteProtected (Z.land hp0 0x0f) in
  let! _ := go_index 0 recdata in
  let recdata := <[0%nat := headerByte]> recdata in
  let pnLen := Z.land headerByte 0x03 + 1 in
  let! packetNumberBytes := go_slice 0 pnLen payload in
  let! (recdata, pn, pnBytes) :=
    foldl (unprotect_step hp) (Ok (recdata, 0, [])) (imap (λ i b, (i, b)) packetNumberBytes) in
  let! cipherPayload := go_slice pnLen (len payload - 16) payload in
  let! authTag := go_slice (len payload - 16) (len payload) payload in
  let! plainPayload := DecryptAES128GCM clientIV pn clientKey cipherPayload recdata authTag in
  let! frames := payload_frames plainPayload in
  Ok (mkHeader version (len initialRandom) scidLen pnBytes pnLen pn hasToken, frames).
End decode.

(** ** Lemmas *)

Lemma guard_ok b e : b = false → guard b e = Ok ().
Proof. by intros ->. Qed.

Lemma read_exact_app (r : bytesReader) a t e :
  br_rest r = a ++ t → a ++ t ≠ [] → len a <= maxAlloc →
  ∃ r', read_exact r (len a) e = Ok (a, r') ∧ br_rest r' = t.
Proof.
  intros Hr Hne Ha. unfold read_exact. rewrite make_bytes_ok by lia. cbn [obind].
  rewrite Nat2Z.id. destruct (bytesReader_read_app r a t Hr Hne) as (r' & -> & Hr').
  rewrite Z.eqb_refl. cbn [negb]. exists r'. split; [|done].
  by rewrite copy_into_full by by rewrite length_replicate.
Qed.

(** Reading within what is left never panics, and splits it. *)
Lemma read_exact_cases (r : bytesReader) n e :
  0 <= n <= br_Len r → br_Len r <= maxAlloc →
  (∃ err, read_exact r n e = Err err) ∨
  (∃ d r', read_exact r n e = Ok (d, r') ∧ len d = n ∧ br_rest r = d ++ br_rest r').
Proof.
  intros Hn Hmax. destruct (decide (br_rest r = [])) as [He|Hne].
  - left. unfold read_exact. rewrite make_bytes_ok by lia. cbn [obind].
    rewrite bytesReader_read_empty by done. eauto.
  - right. unfold br_Len in *.
    pose proof (take_drop (Z.to_nat n) (br_rest r)) as Htd.
    assert (len (take (Z.to_nat n) (br_rest r)) = n) as Hl by len_solve.
    destruct (read_exact_app r (take (Z.to_nat n) (br_rest r)) (drop (Z.to_nat n) (br_rest r)) e)
      as (r' & Hr & Hr'); [done|by rewrite Htd|lia|].
    rewrite Hl in Hr. eexists _, r'. split; [done|]. split; [done|]. by rewrite Hr', Htd.
Qed.

(** The packet-number loop on a mask that is long enough. *)
Lemma unprotect_loop hp l rec0 pn0 bs0 i :
  (i + length l < length hp)%nat →
  ∃ pn, foldl (unprotect_step hp) (Ok (rec0, pn0, bs0)) (imap (λ j b, ((i + j)%nat, b)) l) =
        Ok (rec0 ++ xor_bytes l (take (length l) (drop (S i) hp)), pn,
            bs0 ++ xor_bytes l (take (length l) (drop (S i) hp))) ∧
        pn = foldl (λ a b, u64 (u64 (Z.shiftl a 8) + b)) pn0
               (xor_bytes l (take (length l) (drop (S i) hp))).
Proof.
  revert rec0 pn0 bs0 i. induction l as [|b l IH]; intros rec0 pn0 bs0 i Hl.
  { simpl. eexists. by rewrite !app_nil_r. }
  simpl in Hl. rewrite imap_cons. cbn [foldl]. unfold unprotect_step at 2. cbn [obind fst snd].
  unfold go_index. rewrite (proj2 (Z.leb_le _ _)) by lia.
  replace (Z.to_nat (Z.of_nat (i + 0) + 1)) with (S i) by lia.
  destruct (lookup_lt_is_Some_2 hp (S i) ltac:(lia)) as [h Hh]. rewrite Hh. cbn [obind].
  rewrite (drop_S _ _ _ Hh). cbn [length take xor_bytes zip_with].
  edestruct (IH (rec0 ++ [Z.lxor b h]) (u64 (u64 (Z.shiftl pn0 8) + Z.lxor b h))
              (bs0 ++ [Z.lxor b h]) (S i)) as (pn & Hf & Hpn); [lia|].
  exists pn. split; [|done]. rewrite <- !app_assoc in Hf. simpl app in Hf.
  etransitivity; [|exact Hf]. f_equal. apply imap_ext. intros j x _. simpl. f_equal. lia.
Qed.

Lemma pn_fold l :
  wf_bytes l → (length l <= 4)%nat →
  foldl (λ a b, u64 (u64 (Z.shiftl a 8) + b)) 0 l = be_decode l.
Proof.
  intros Hl. induction l as [|b l IH] using rev_ind; intros Hlen; [done|].
  rewrite length_app in Hlen. simpl in Hlen.
  apply Forall_app in Hl as [Hl Hb]. rewrite Forall_singleton in Hb. unfold is_byte in Hb.
  rewrite foldl_app, be_decode_app, IH by (done || lia). simpl.
  pose proof (be_decode_range l Hl) as R.
  assert (256 ^ len l <= 256 ^ 4) by (apply Z.pow_le_mono_r; lia).
  rewrite Z.shiftl_mul_pow2 by lia. rewrite (u64_small (be_decode l * 2 ^ 8)) by lia.
  rewrite u64_small by lia. unfold be_decode at 3. simpl. lia.
Qed.

Lemma slice_app_slice {A} i j (l : list A) :
  (i <= j <= length l)%nat → slice i j l ++ slice j (length l) l = drop i l.
Proof.
  intros [Hi Hj]. unfold slice. rewrite (take_ge (drop j l)) by len_solve.
  replace (drop j l) with (drop (j - i) (drop i l)); [apply take_drop|].
  rewrite drop_drop. f_equal. lia.
Qed.

Lemma go_index_0 b l : go_index 0 (b :: l) = Ok b.
Proof. done. Qed.


Lemma length_mask hp sample mask :
  ComputeHeaderProtection hp sample = Ok mask → length mask = 5%nat.
Proof.
  unfold ComputeHeaderProtection. case_goal; [done|]. intros <-%Ok_inj. len_solve.
Qed.

Lemma mask_wf hp sample mask :
  wf_bytes hp → ComputeHeaderProtection hp sample = Ok mask → wf_bytes mask.
Proof.
  intros Hhp. unfold ComputeHeaderProtection. case_goal; [done|]. intros <-%Ok_inj.
  auto using aes128_encrypt_wf with gohints.
Qed.

Lemma mask_hd hp sample mask :
  ComputeHeaderProtection hp sample = Ok mask → hd 0 mask = hd 0 (aes128_encrypt hp sample).
Proof.
  unfold ComputeHeaderProtection. case_goal; [done|]. intros <-%Ok_inj.
  by destruct (aes128_encrypt hp sample).
Qed.

Lemma buildIV_ok iv n :
  length iv = 12%nat → 0 <= n < 2 ^ 64 → buildIV iv n = Ok (xor_bytes iv (be_encode 12 n)).
Proof.
  intros Hl Hn. rewrite buildIV_spec by done. do 2 f_equal.
  cbn [be_encode replicate app]. repeat f_equal;
    (rewrite Z.shiftr_div_pow2 by lia; rewrite Z.div_small; [done|simpl; lia]).
Qed.

(** The header byte and the packet-number length after removing protection. *)
Definition open_byte (b : Z) (mask : bytes) : Z := Z.lxor b (Z.land (hd 0 mask) 0x0f).
Definition pn_length (b : Z) : nat := Z.to_nat (Z.land b 0x03 + 1).
Definition open_pn (n : nat) (payload mask : bytes) : bytes :=
  xor_bytes (take n payload) (take n (drop 1 mask)).

Lemma pn_length_bounds b : (1 <= pn_length b <= 4)%nat ∧ Z.land b 0x03 + 1 = Z.of_nat (pn_length b).
Proof.
  unfold pn_length. change 0x03 with (Z.ones 2). rewrite Z.land_ones by lia.
  pose proof (Z.mod_pos_bound b (2 ^ 2) ltac:(lia)). lia.
Qed.

Lemma open_pn_spec n payload mask :
  (1 <= n <= 4)%nat → 20 <= len payload → length mask = 5%nat →
  wf_bytes payload → wf_bytes mask →
  wf_bytes (open_pn n payload mask) ∧ length (open_pn n payload mask) = n ∧
  0 <= be_decode (open_pn n payload mask) < 2 ^ 32.
Proof.
  intros Hn Hp Hm Hpw Hmw. unfold open_pn.
  assert (wf_bytes (xor_bytes (take n payload) (take n (drop 1 mask)))) as Hw by auto with gohints.
  assert (length (xor_bytes (take n payload) (take n (drop 1 mask))) = n) as Hl.
  { rewrite length_xor_bytes, !length_take, length_drop. lia. }
  split_and!; [done|done|apply be_decode_range, Hw|].
  eapply Z.lt_le_trans; [apply be_decode_range, Hw|]. rewrite Hl.
  change (2 ^ 32) with (256 ^ 4). apply Z.pow_le_mono_r; lia.
Qed.

(** Cutting the packet at the end of its payload, and then at its start. *)
Lemma strip_payload hdr payload (rest : bytes) :
  go_slice 0 (len (hdr ++ payload ++ rest) - len rest) (hdr ++ payload ++ rest) = Ok (hdr ++ payload) ∧
  go_slice 0 (len (hdr ++ payload) - len payload) (hdr ++ payload) = Ok hdr.
Proof.
  split.
  - rewrite app_assoc, <- (go_slice_prefix (hdr ++ payload) rest). f_equal.
    rewrite (length_app _ rest). lia.
  - rewrite <- (go_slice_prefix hdr payload). f_equal. rewrite length_app. lia.
Qed.

(** The loop over the packet-number bytes. *)
Lemma unprotect_pn n payload mask rec0 :
  (1 <= n <= 4)%nat → 20 <= len payload → length mask = 5%nat →
  wf_bytes payload → wf_bytes mask →
  (let! packetNumberBytes := go_slice 0 (Z.of_nat n) payload in
   foldl (unprotect_step mask) (Ok (rec0, 0, [])) (imap (λ i b, (i, b)) packetNumberBytes)) =
  Ok (rec0 ++ open_pn n payload mask, be_decode (open_pn n payload mask), open_pn n payload mask).
Proof.
  intros Hn Hp Hm Hpw Hmw.
  destruct (open_pn_spec n payload mask) as (Hw & Hl & _); [done..|].
  assert (go_slice 0 (Z.of_nat n) payload = Ok (take n payload)) as ->.
  { rewrite go_slice_ok by lia. unfold slice. by rewrite drop_0, Nat2Z.id, Nat.sub_0_r. }
  cbn [obind]. assert (length (take n payload) = n) as Htl by len_solve.
  destruct (unprotect_loop mask (take n payload) rec0 0 [] 0) as (pn & Hloop & Hpn); [lia|].
  rewrite Htl in Hloop, Hpn. fold (open_pn n payload mask) in Hloop, Hpn.
  rewrite pn_fold in Hpn by (done || lia). subst pn. exact Hloop.
Qed.

(** Decrypting what follows the packet number. *)
Lemma decrypt_payload n pn payload key iv aad :
  (n <= 4)%nat → 20 <= len payload → 0 <= pn < 2 ^ 64 → len key = 16 → len iv = 12 →
  (let! cipherPayload := go_slice (Z.of_nat n) (len payload - 16) payload in
   let! authTag := go_slice (len payload - 16) (len payload) payload in
   DecryptAES128GCM iv pn key cipherPayload aad authTag) =
  gcm_open (aes128_encrypt key) (xor_bytes iv (be_encode 12 pn)) (drop n payload) aad.
Proof.
  intros Hn Hp Hpn Hk Hiv.
  rewrite (go_slice_ok (Z.of_nat n)), (go_slice_ok (len payload - 16)) by lia. cbn [obind].
  unfold DecryptAES128GCM. rewrite buildIV_ok by lia. cbn [obind].
  rewrite length_xor_bytes, length_be_encode, Hk, length_slice by lia.
  replace (Z.of_nat (Nat.min (length iv) 12)) with 12 by lia.
  replace (Z.of_nat (Z.to_nat (len payload) - Z.to_nat (len payload - 16))) with 16 by lia.
  cbn [negb orb Z.eqb Pos.eqb]. replace (Z.to_nat (len payload)) with (length payload) by lia.
  by rewrite Nat2Z.id, slice_app_slice by lia.
Qed.


Section header_lemmas.
Context {CB : Cryptobyte} {CBL : CryptobyteLaws CB}.

(** What can come out of reading the connection IDs. *)
Lemma read_ids s dcid s1 scidLen s2 :
  wf_bytes s →
  cb_ReadUint8LengthPrefixed s = Some (dcid, s1) →
  (cb_ReadUint8 s1 ≫= λ '(n, s), (λ s, (n, s)) <$> cb_Skip n s) = Some (scidLen, s2) →
  0 <= scidLen < 256 ∧ len dcid < 256 ∧ ∃ scid,
    len scid = scidLen ∧ s = (len dcid :: dcid) ++ (scidLen :: scid) ++ s2.
Proof.
  intros Hw H1 H2. rewrite cb_ReadUint8LengthPrefixed_spec in H1.
  destruct (take_exactly 1 s) as [[l t]|] eqn:E1; [|done].
  apply take_exactly_Some in E1 as [-> Hl]. destruct l as [|b [|]]; try done. clear Hl.
  apply wf_bytes_app in Hw as [Hb Hw]. unfold wf_bytes, is_byte in Hb.
  rewrite Forall_singleton in Hb.
  assert (be_decode [b] = b) as Hdb by (unfold be_decode; simpl; lia).
  cbn [mbind option_bind] in H1. rewrite Hdb in H1.
  apply take_exactly_Some in H1 as [-> Hd]. rewrite cb_ReadUint8_spec in H2.
  destruct (take_exactly 1 s1) as [[l t]|] eqn:E1; [|done].
  apply take_exactly_Some in E1 as [-> Hl]. destruct l as [|c [|]]; try done. clear Hl.
  rewrite !wf_bytes_app in Hw. destruct Hw as (_ & Hc & _).
  unfold wf_bytes, is_byte in Hc. rewrite Forall_singleton in Hc.
  assert (be_decode [c] = c) as Hdc by (unfold be_decode; simpl; lia).
  cbn [mbind option_bind fmap option_fmap option_map prod_map id fst snd] in H2.
  rewrite Hdc, cb_Skip_spec in H2 by lia.
  destruct (take_exactly (Z.to_nat c) t) as [[scid t']|] eqn:E1; [|done].
  apply take_exactly_Some in E1 as [-> Hscid]. simpl in H2. injection H2 as <- <-.
  split; [lia|]. split; [lia|]. exists scid. split; [lia|].
  by replace (len dcid) with b by lia.
Qed.

(** The part of the header that reads lengths off the datagram. *)
Lemma read_token_and_payload_cases r0 :
  wf_bytes (br_rest r0) → br_Len r0 <= maxAlloc →
  (∃ e, read_token_and_payload r0 = Err e) ∨
  (∃ tn ln token payload r, read_token_and_payload r0 = Ok (0 <? len token, payload, r) ∧
     20 <= len payload ∧ vli_fits tn (len token) ∧ vli_fits ln (len payload) ∧
     br_rest r0 = vli_encode tn (len token) ++ token ++ vli_encode ln (len payload) ++ payload ++ br_rest r).
Proof.
  intros Hw Hmax. unfold read_token_and_payload, br_Len in *.
  destruct (ReadNextVLI_cases r0 Hw) as [(e & r' & ->)|(v & n & d1 & r1 & -> & H1 & Hv & Henc1)];
    cbn [obind]; [by eauto|].
  destruct (len (br_rest r1) <? v) eqn:E1; cbn [guard obind]; [by eauto|]. bool_facts.
  rewrite H1 in Hw, Hmax. apply wf_bytes_app in Hw as [_ Hw1]. rewrite length_app in Hmax.
  destruct (read_exact_cases r1 v (errors_New "failed to read all token bytes, short read"))
    as [[e ->]|(d2 & r2 & -> & Hl2 & H2)]; unfold br_Len; [lia..|by cbn [obind]; eauto|].
  cbn [obind]. rewrite H2 in Hw1, Hmax. apply wf_bytes_app in Hw1 as [_ Hw2].
  rewrite length_app in Hmax.
  destruct (ReadNextVLI_cases r2 Hw2) as [(e & r' & ->)|(v3 & n3 & d3 & r3 & -> & H3 & Hv3 & Henc3)];
    cbn [obind]; [by eauto|].
  destruct (v3 <? 20) eqn:E2; cbn [guard obind]; [by eauto|].
  destruct (len (br_rest r3) <? v3) eqn:E3; cbn [guard obind]; [by eauto|]. bool_facts.
  rewrite H3, length_app in Hmax.
  destruct (read_exact_cases r3 v3 (errors_New "failed to read all payload bytes, short read"))
    as [[e ->]|(d4 & r4 & -> & Hl4 & H4)]; unfold br_Len; [lia..|by cbn [obind]; eauto|].
  right. cbn [obind].
  destruct Henc3 as (ln & Hfl & ->); [intros E; rewrite E in E3; simpl in E3; lia|].
  destruct Henc1 as (tn & Hft & ->).
  { rewrite H2, H3, H4. destruct d4; [simpl in Hl4; lia|]. by destruct d2, (vli_encode ln v3). }
  subst v v3. exists tn, ln, d2, d4, r4. split; [done|]. split; [lia|]. split; [done|]. split; [done|].
  by rewrite H1, H2, H3, H4.
Qed.

(** A first byte that passes the two checks. *)
Lemma first_byte_low b :
  is_byte b → Z.land b 0xc0 = 0xc0 → Z.land b 0x30 = 0 → 0 <= b - 0xc0 < 16.
Proof.
  intros Hb H1 H2.
  pose (P := λ b, bool_decide (Z.land b 0xc0 = 0xc0 → Z.land b 0x30 = 0 → 0 <= b - 0xc0 < 16)).
  pose proof (byte_exhaustive P ltac:(vm_compute; reflexivity) b Hb) as H. unfold P in H.
  apply bool_decide_eq_true in H. auto.
Qed.

(** The layout of an Initial packet (RFC 9000, section 17.2.2) after its first byte and up
    to the payload of [n] bytes. *)
Definition header_tail (dcid scid token : bytes) (tn ln : nat) (n : Z) : bytes :=
  [0; 0; 0; 1] ++ (len dcid :: dcid) ++ (len scid :: scid) ++
  vli_encode tn (len token) ++ token ++ vli_encode ln n.

(** Parsing the header either fails with an error or finds this layout. *)
Lemma decode_header_cases p :
  wf_bytes p → len p <= maxAlloc →
  (∃ e, decode_header p = Err e) ∨
  (∃ b dcid scid token tn ln payload r,
     decode_header p = Ok (dcid, len scid, 0 <? len token, payload, r) ∧
     p = (b :: header_tail dcid scid token tn ln (len payload)) ++ payload ++ br_rest r ∧
     0 <= b - 0xc0 < 16 ∧ len dcid < 256 ∧ len scid < 256 ∧ 20 <= len payload ∧
     vli_fits tn (len token) ∧ vli_fits ln (len payload)).
Proof.
  intros Hw Hmax. unfold decode_header.
  destruct (len p <? 7) eqn:E7; cbn [guard obind]; [by eauto|]. bool_facts.
  do 5 (destruct p as [|? p]; [simpl in E7; lia|]).
  rewrite go_index_0. cbn [obind].
  destruct (Z.land z 0xc0 =? 0xc0) eqn:Ec0; cbn [negb guard obind]; [|by eauto].
  destruct (Z.land z 0x30 =? 0) eqn:E30; cbn [negb guard obind]; [|by eauto].
  rewrite go_slice_ok by (simpl; lia). cbn [obind].
  change (slice (Z.to_nat 1) (Z.to_nat 5) _) with [z0; z1; z2; z3].
  destruct (negb (be_decode [z0; z1; z2; z3] =? QUICVersion1)) eqn:Ev; cbn [guard obind]; [by eauto|].
  apply (Forall_app is_byte [z; z0; z1; z2; z3] p) in Hw as [Hhd Hw].
  apply Forall_cons in Hhd as [Hz Hhd]. bool_facts.
  assert ([z0; z1; z2; z3] = [0; 0; 0; 1]) as [= -> -> -> ->]
    by by apply be_decode_inj; [|decide_now|..].
  rewrite go_slice_ok by (simpl; lia). cbn [obind].
  replace (slice _ _ _) with p by
    (unfold slice; simpl; symmetry; apply take_ge; lia).
  destruct (cb_ReadUint8LengthPrefixed p) as [[dcid s1]|] eqn:E1; [|by eauto].
  destruct (cb_ReadUint8 s1 ≫= _) as [[scidLen s2]|] eqn:E2; [|by eauto].
  destruct (read_ids p dcid s1 scidLen s2 Hw E1 E2) as (Hsc & Hdc & scid & <- & Hp).
  assert (wf_bytes s2) as Hw2 by (rewrite Hp, !wf_bytes_app in Hw; tauto).
  assert (len s2 <= maxAlloc) as Hm2 by (rewrite Hp in Hmax; len_solve).
  destruct (read_token_and_payload_cases (NewReader s2) Hw2 Hm2)
    as [[e He]|(tn & ln & token & pl & r & He & Hpl & Htn & Hln & Hs)].
  - left. exists e. by rewrite He.
  - right. exists z, dcid, scid, token, tn, ln, pl, r. rewrite He. cbn [obind]. split; [done|].
    rewrite br_rest_NewReader in Hs. split; [|split; [by apply first_byte_low|split_and!; (done || lia)]].
    rewrite Hp, Hs. unfold header_tail.
    repeat (rewrite <- ?app_comm_cons, <- ?app_assoc; cbn [app]). reflexivity.
Qed.
End header_lemmas.

Section decode_lemmas.
Context {CB : Cryptobyte} {CBL : CryptobyteLaws CB} {HK : Hkdf} {HKL : HkdfLaws HK}.

Lemma keys_and_mask dcid payload :
  20 <= len payload →
  ∃ key iv hp mask, ClientInitialKeysCalc dcid = Ok (key, iv, hp) ∧
    ComputeHeaderProtection hp (slice 4 20 payload) = Ok mask ∧
    len key = 16 ∧ len iv = 12 ∧ wf_bytes key ∧ wf_bytes mask ∧ length mask = 5%nat.
Proof.
  intros Hp. destruct (ClientInitialKeysCalc_ok dcid)
    as (key & iv & hp & Hk & (Hkl & Hivl & Hhpl) & Hkw & Hivw & Hhpw).
  destruct (ComputeHeaderProtection hp (slice 4 20 payload)) as [mask|e|w] eqn:Hm.
  - exists key, iv, hp, mask.
    pose proof (length_mask _ _ _ Hm) as Hml. pose proof (mask_wf _ _ _ Hhpw Hm) as Hmw. done.
  - by unfold ComputeHeaderProtection in Hm; case_hyp Hm.
  - unfold ComputeHeaderProtection in Hm. rewrite length_slice, Hhpl in Hm by lia. done.
Qed.

(** What the function computes once the header is parsed: with [hdr] the bytes before
    the payload, AES-128-GCM is opened under the unprotected header as additional data. *)
Lemma decode_body p dcid scidLen tok hdr payload r :
  decode_header p = Ok (dcid, scidLen, tok, payload, r) →
  p = hdr ++ payload ++ br_rest r → 7 <= len hdr → 20 <= len payload → wf_bytes p →
  ∃ key iv hp mask, (ClientInitialKeysCalc dcid = Ok (key, iv, hp) ∧
    ComputeHeaderProtection hp (slice 4 20 payload) = Ok mask ∧
    wf_bytes key ∧ len iv = 12 ∧ length mask = 5%nat ∧ wf_bytes mask) ∧
    let hb := open_byte (hd 0 hdr) mask in
    let n := pn_length hb in
    let pnb := open_pn n payload mask in
    DecodeQUICHeaderAndFrames p =
      let! plain := gcm_open (aes128_encrypt key) (xor_bytes iv (be_encode 12 (be_decode pnb)))
                      (drop n payload) (<[0%nat := hb]> hdr ++ pnb) in
      let! frames := payload_frames plain in
      Ok (mkHeader (slice 1 5 hdr) (len dcid) scidLen pnb (Z.of_nat n) (be_decode pnb) tok, frames).
Proof.
  intros Hdec Hp Hhdr Hpl Hwf.
  destruct (keys_and_mask dcid payload Hpl) as (key & iv & hp & mask & Hk & Hm & Hkl & Hivl & Hkw & Hmw & Hml).
  exists key, iv, hp, mask. split; [done|]. cbv zeta.
  assert (wf_bytes payload) as Hplw by (rewrite Hp, !wf_bytes_app in Hwf; tauto).
  destruct hdr as [|h0 hdr]; [simpl in Hhdr; lia|]. destruct mask as [|m0 mask]; [done|].
  change (hd 0 (h0 :: hdr)) with h0.
  set (hb := open_byte h0 (m0 :: mask)). set (n := pn_length hb).
  destruct (pn_length_bounds hb) as [Hn Hnz]. fold n in Hn, Hnz.
  destruct (open_pn_spec n payload (m0 :: mask)) as (Hpnw & Hpnl & Hpnr); [done..|].
  destruct (strip_payload (h0 :: hdr) payload (br_rest r)) as [Hs1 Hs2].
  unfold DecodeQUICHeaderAndFrames. rewrite Hdec. cbn [obind].
  assert (go_index 0 p = Ok h0) as -> by (rewrite Hp; reflexivity). cbn [obind].
  rewrite (go_slice_ok 1 5 p) by (rewrite ?Hp, ?length_app; lia). cbn [obind].
  rewrite Hk. cbn [obind]. rewrite (go_slice_ok 4 20 payload) by lia. cbn [obind].
  change (Z.to_nat 4) with 4%nat. change (Z.to_nat 20) with 20%nat. rewrite Hm. cbn [obind].
  unfold br_Len. rewrite Hp, Hs1. cbn [obind]. rewrite Hs2. cbn [obind].
  change (go_index 0 (m0 :: mask)) with (Ok m0). cbn [obind].
  change (go_index 0 (h0 :: hdr)) with (Ok h0). cbn [obind].
  change (Z.lxor h0 (Z.land m0 15)) with hb. rewrite Hnz.
  rewrite <- obind_assoc, unprotect_pn by done. cbn [obind].
  rewrite <- (decrypt_payload n _ payload key iv) by (done || lia). rewrite obind_assoc.
  apply obind_ext; intros ct. rewrite obind_assoc. apply obind_ext; intros tag.
  replace (slice (Z.to_nat 1) (Z.to_nat 5) ((h0 :: hdr) ++ payload ++ br_rest r))
    with (slice 1 5 (h0 :: hdr)); [done|].
  unfold slice. rewrite drop_app_le by (simpl; lia). rewrite take_app_le; [done|len_solve].
Qed.
End decode_lemmas.

(** ** Protecting a packet *)

(** The sender's side, from RFC 9000, section 17.2.2, and RFC 9001, sections 5.3 and 5.4:
    an Initial packet with its payload, what follows it in the datagram, and the choices
    left to the sender (reserved bits, sizes of the length encodings and of the packet
    number). *)
Record initial := mkInitial {
  i_reserved : Z;
  i_dcid : bytes;
  i_scid : bytes;
  i_token : bytes;
  i_tokenSize : nat;
  i_lengthSize : nat;
  i_pnLen : nat;
  i_pn : Z;
  i_plain : bytes;
  i_trailing : bytes
}.

Definition i_length (i : initial) : Z := Z.of_nat (i_pnLen i) + len (i_plain i) + 16.
Definition i_byte (i : initial) : Z := 0xc0 + (4 * i_reserved i + (Z.of_nat (i_pnLen i) - 1)).

(** The header after the first byte. *)
Definition i_tail (i : initial) : bytes :=
  header_tail (i_dcid i) (i_scid i) (i_token i) (i_tokenSize i) (i_lengthSize i) (i_length i).

(** The header as it is to be decoded. *)
Definition header_of (i : initial) : QUICHeader :=
  mkHeader [0; 0; 0; 1] (len (i_dcid i)) (len (i_scid i)) (be_encode (i_pnLen i) (i_pn i))
    (Z.of_nat (i_pnLen i)) (i_pn i) (0 <? len (i_token i)).

Record initial_ok (i : initial) : Prop := {
  io_reserved : 0 <= i_reserved i < 4;
  io_dcid : len (i_dcid i) < 256 ∧ wf_bytes (i_dcid i);
  io_scid : len (i_scid i) < 256 ∧ wf_bytes (i_scid i);
  io_token : vli_fits (i_tokenSize i) (len (i_token i)) ∧ wf_bytes (i_token i);
  io_length : vli_fits (i_lengthSize i) (i_length i);
  io_pnLen : (1 <= i_pnLen i <= 4)%nat;
  io_pn : 0 <= i_pn i < 256 ^ Z.of_nat (i_pnLen i);
  io_plain : wf_bytes (i_plain i) ∧ 20 <= i_length i;
  io_trailing : wf_bytes (i_trailing i);
  io_alloc : i_length i <= maxAlloc ∧ len (i_token i) <= maxAlloc
}.

Section protect.
Context {CB : Cryptobyte} {HK : Hkdf}.

Definition protect (i : initial) : outcome bytes :=
  let! (key, iv, hp) := ClientInitialKeysCalc (i_dcid i) in
  let pnb := be_encode (i_pnLen i) (i_pn i) in
  let sealed := gcm_seal (aes128_encrypt key) (xor_bytes iv (be_encode 12 (i_pn i)))
                  (i_plain i) ((i_byte i :: i_tail i) ++ pnb) in
  let! mask := ComputeHeaderProtection hp (slice 4 20 (pnb ++ sealed)) in
  Ok (open_byte (i_byte i) mask :: i_tail i ++
      (xor_bytes pnb (take (i_pnLen i) (drop 1 mask)) ++ sealed) ++ i_trailing i).
End protect.

Lemma first_byte_masked low x :
  0 <= low < 16 → 0 <= x < 16 →
  is_byte (Z.lxor (0xc0 + low) x) ∧
  Z.land (Z.lxor (0xc0 + low) x) 0xc0 = 0xc0 ∧ Z.land (Z.lxor (0xc0 + low) x) 0x30 = 0.
Proof.
  intros Hl Hx.
  pose (P := λ b, let low := b / 16 in let x := b mod 16 in
    bool_decide (is_byte (Z.lxor (0xc0 + low) x) ∧
    Z.land (Z.lxor (0xc0 + low) x) 0xc0 = 0xc0 ∧ Z.land (Z.lxor (0xc0 + low) x) 0x30 = 0)).
  pose proof (byte_exhaustive P ltac:(vm_compute; reflexivity) (16 * low + x)) as H.
  unfold P in H. replace ((16 * low + x) / 16) with low in H
    by (rewrite Z.mul_comm, Z.div_add_l, Z.div_small; lia).
  replace ((16 * low + x) mod 16) with x in H
    by (rewrite Z.add_comm, Z.mul_comm, Z.mod_add, Z.mod_small; lia).
  apply bool_decide_eq_true in H; [done|]. unfold is_byte. lia.
Qed.

Lemma open_byte_twice b mask : open_byte (open_byte b mask) mask = b.
Proof. unfold open_byte. by rewrite Z.lxor_assoc, Z.lxor_nilpotent, Z.lxor_0_r. Qed.

Lemma land_15_range x : 0 <= Z.land x 0x0f < 16.
Proof. change 0x0f with (Z.ones 4). rewrite Z.land_ones by lia. by apply Z.mod_pos_bound. Qed.

Lemma pn_length_i_byte i : initial_ok i → pn_length (i_byte i) = i_pnLen i.
Proof.
  intros Hi. pose proof (io_pnLen i Hi). unfold pn_length, i_byte.
  change 0x03 with (Z.ones 2). rewrite Z.land_ones by lia.
  replace (192 + (4 * i_reserved i + (Z.of_nat (i_pnLen i) - 1)))
    with ((Z.of_nat (i_pnLen i) - 1) + (48 + i_reserved i) * 2 ^ 2) by lia.
  rewrite Z.mod_add, Z.mod_small by lia. lia.
Qed.

Lemma slice_swap_prefix {A} i j (a b l : list A) :
  length a = length b → (length a <= i)%nat → slice i j (a ++ l) = slice i j (b ++ l).
Proof.
  intros Hl Hi. unfold slice. by rewrite !drop_app_ge, Hl by lia.
Qed.

(** The header of a protected packet is parsed back. *)
Lemma read_token_and_payload_app tn ln (token payload rest : bytes) :
  vli_fits tn (len token) → vli_fits ln (len payload) → 20 <= len payload ->
  len token <= maxAlloc → len payload <= maxAlloc →
  ∃ r, read_token_and_payload (NewReader (vli_encode tn (len token) ++ token ++
         vli_encode ln (len payload) ++ payload ++ rest)) = Ok (0 <? len token, payload, r) ∧
       br_rest r = rest.
Proof.
  intros Ht Hl Hp Hmt Hmp. unfold read_token_and_payload.
  edestruct ReadNextVLI_encode as (r1 & -> & H1); [apply br_rest_NewReader|done|]. cbn [obind].
  unfold br_Len. rewrite H1, guard_ok by (apply Z.ltb_ge; len_solve). cbn [obind].
  destruct (read_exact_app r1 token _ (errors_New "failed to read all token bytes, short read") H1)
    as (r2 & -> & H2); [|done|].
  { intros [_ E]%app_eq_nil. revert E. by apply vli_encode_nonempty. }
  cbn [obind]. destruct (ReadNextVLI_encode r2 _ _ _ H2 Hl) as (r3 & -> & H3). cbn [obind].
  rewrite guard_ok by (apply Z.ltb_ge; lia). cbn [obind].
  rewrite H3, guard_ok by (apply Z.ltb_ge; len_solve). cbn [obind].
  destruct (read_exact_app r3 payload rest (errors_New "failed to read all payload bytes, short read") H3)
    as (r4 & -> & H4); [|done|].
  { destruct payload; [simpl in Hp; lia|done]. }
  by exists r4.
Qed.

Section protect_lemmas.
Context {CB : Cryptobyte} {CBL : CryptobyteLaws CB} {HK : Hkdf} {HKL : HkdfLaws HK}.

Lemma decode_header_protected i b payload :
  initial_ok i → Z.land b 0xc0 = 0xc0 → Z.land b 0x30 = 0 → len payload = i_length i →
  ∃ r, decode_header (b :: i_tail i ++ payload ++ i_trailing i) =
         Ok (i_dcid i, len (i_scid i), 0 <? len (i_token i), payload, r) ∧
       br_rest r = i_trailing i.
Proof.
  intros Hi Hc0 H30 Hpl. destruct Hi.
  destruct (read_token_and_payload_app (i_tokenSize i) (i_lengthSize i) (i_token i) payload (i_trailing i))
    as (r & Hr & Hrest); [tauto|by rewrite Hpl|lia|lia|lia|].
  exists r. split; [|done]. unfold decode_header.
  rewrite guard_ok by (apply Z.ltb_ge; unfold i_tail, header_tail; len_solve). cbn [obind].
  rewrite go_index_0. cbn [obind]. rewrite Hc0, H30. cbn [negb Z.eqb Pos.eqb guard obind].
  unfold i_tail, header_tail. rewrite <- !app_assoc.
  rewrite go_slice_ok by len_solve. cbn [obind].
  change (slice (Z.to_nat 1) (Z.to_nat 5) _) with [0; 0; 0; 1].
  cbn [be_decode foldl negb guard obind].
  change (negb (_ =? QUICVersion1)) with false. cbn [guard obind].
  rewrite go_slice_ok by len_solve. cbn [obind].
  match goal with |- context [slice (Z.to_nat 5) _ (b :: [0; 0; 0; 1] ++ ?t)] =>
    replace (slice (Z.to_nat 5) (Z.to_nat (len (b :: [0; 0; 0; 1] ++ t))) (b :: [0; 0; 0; 1] ++ t))
      with t by (unfold slice; symmetry; apply take_ge; len_solve)
  end.
  rewrite <- app_comm_cons, cb_ReadUint8LengthPrefixed_app by tauto.
  rewrite <- app_comm_cons, cb_ReadUint8_cons. cbn [mbind option_bind]. rewrite cb_Skip_app.
  cbn [fmap option_fmap option_map]. rewrite <- Hpl, Hr. done.
Qed.

(** A packet that goes through protection has the parts [decode_body] looks for. *)
Lemma protect_parts i :
  initial_ok i →
  ∃ key iv hp mask sealed,
    ClientInitialKeysCalc (i_dcid i) = Ok (key, iv, hp) ∧ wf_bytes key ∧ len iv = 12 ∧
    length mask = 5%nat ∧ wf_bytes mask ∧
    sealed = gcm_seal (aes128_encrypt key) (xor_bytes iv (be_encode 12 (i_pn i)))
               (i_plain i) ((i_byte i :: i_tail i) ++ be_encode (i_pnLen i) (i_pn i)) ∧
    len sealed = len (i_plain i) + 16 ∧
    let payload := xor_bytes (be_encode (i_pnLen i) (i_pn i)) (take (i_pnLen i) (drop 1 mask)) ++ sealed in
    ComputeHeaderProtection hp (slice 4 20 payload) = Ok mask ∧
    len payload = i_length i ∧
    protect i = Ok (open_byte (i_byte i) mask :: i_tail i ++ payload ++ i_trailing i).
Proof.
  intros Hi. pose proof (io_pnLen i Hi) as Hn. pose proof (io_plain i Hi) as [_ Hlen].
  pose proof (length_be_encode (i_pnLen i) (i_pn i)) as Hpl.
  destruct (ClientInitialKeysCalc_ok (i_dcid i)) as (key & iv & hp & Hk & (Hkl & Hivl & Hhpl) & Hkw & _ & Hhw).
  unfold protect. rewrite Hk. cbn [obind].
  set (pnb := be_encode (i_pnLen i) (i_pn i)) in *.
  remember (gcm_seal _ _ _ _) as sealed eqn:Hs.
  assert (len sealed = len (i_plain i) + 16) as Hsl.
  { rewrite Hs. unfold gcm_seal. rewrite length_app, length_gcm_crypt. unfold gcm_tag.
    rewrite length_be_encode. lia. }
  destruct (keys_and_mask (i_dcid i) (pnb ++ sealed)) as (? & ? & ? & mask & Hk' & Hm & _ & _ & _ & Hmw & Hml).
  { unfold i_length in Hlen. rewrite length_app. lia. }
  rewrite Hk in Hk'. injection Hk' as <- <- <-. rewrite Hm. cbn [obind].
  assert (length (xor_bytes pnb (take (i_pnLen i) (drop 1 mask))) = i_pnLen i) as Hxl.
  { rewrite length_xor_bytes, length_take, length_drop. lia. }
  exists key, iv, hp, mask, sealed. cbv zeta. unfold i_length.
  split; [reflexivity|]. do 6 (split; [assumption|]).
  rewrite (slice_swap_prefix 4 20 _ pnb) by lia. split; [assumption|].
  split; [rewrite length_app; lia|reflexivity].
Qed.

(** The destination connection ID stands in the packet from byte 5 on, after its length. *)
Lemma protect_dcid i p :
  initial_ok i → protect i = Ok p → take (S (length (i_dcid i))) (drop 5 p) = len (i_dcid i) :: i_dcid i.
Proof.
  intros Hi Hp. destruct (protect_parts i Hi) as (? & ? & ? & ? & sealed & _ & _ & _ & _ & _ & _ & _ & _ & _ & Hp').
  rewrite Hp in Hp'. apply Ok_inj in Hp' as ->. unfold i_tail, header_tail. rewrite <- !app_assoc.
  cbn [drop app take]. f_equal. apply take_app_length.
Qed.

Lemma protected_wf i mask sealed key nonce aad :
  initial_ok i → wf_bytes key → wf_bytes mask →
  sealed = gcm_seal (aes128_encrypt key) nonce (i_plain i) aad →
  wf_bytes (open_byte (i_byte i) mask :: i_tail i ++
    (xor_bytes (be_encode (i_pnLen i) (i_pn i)) (take (i_pnLen i) (drop 1 mask)) ++ sealed) ++ i_trailing i).
Proof.
  intros Hi Hk Hm ->. destruct Hi. constructor.
  { apply first_byte_masked; [lia|apply land_15_range]. }
  assert (∀ b l, 0 <= b < 256 → wf_bytes l → wf_bytes (b :: l)) as Hcons by (intros; by constructor).
  assert (wf_bytes (gcm_seal (aes128_encrypt key) nonce (i_plain i) aad)) as Hsealed.
  { unfold gcm_seal. apply wf_bytes_app. split; [|apply be_encode_wf].
    apply gcm_crypt_wf; [|tauto]. intros b. by apply aes128_encrypt_wf. }
  unfold i_tail, header_tail. rewrite !wf_bytes_app.
  repeat match goal with |- _ ∧ _ => split end; try tauto; auto with gohints;
    apply Hcons; (lia || tauto || decide_now).
Qed.

Lemma decode_protect i :
  initial_ok i →
  ∃ p, protect i = Ok p ∧ wf_bytes p ∧ len p = len (i_byte i :: i_tail i) + i_length i + len (i_trailing i) ∧
    DecodeQUICHeaderAndFrames p =
      let! frames := payload_frames (i_plain i) in Ok (header_of i, frames).
Proof.
  intros Hi.
  destruct (protect_parts i Hi) as (key & iv & hp & mask & sealed & Hk & Hkw & Hiv & Hml & Hmw & Hs & Hsl & Hm & Hpl & Hp).
  set (pnb := be_encode (i_pnLen i) (i_pn i)) in *.
  set (payload := xor_bytes pnb _ ++ sealed) in *.
  pose proof (protected_wf i mask sealed key _ _ Hi Hkw Hmw Hs) as Hwf.
  eexists. split; [exact Hp|]. split; [exact Hwf|].
  split; [cbn [length]; rewrite !length_app, <- Hpl; lia|]. pose proof (io_pnLen i Hi) as Hn. pose proof (io_plain i Hi) as [_ Hlen].
  destruct (first_byte_masked (4 * i_reserved i + (Z.of_nat (i_pnLen i) - 1)) (Z.land (hd 0 mask) 0x0f))
    as (_ & Hc0 & H30); [pose proof (io_reserved i Hi); lia|apply land_15_range|].
  destruct (decode_header_protected i (open_byte (i_byte i) mask) payload Hi Hc0 H30 Hpl) as (r & Hdec & Hr).
  edestruct (decode_body _ _ _ _ (open_byte (i_byte i) mask :: i_tail i) payload r Hdec)
    as (key' & iv' & hp' & mask' & (Hk' & Hm' & _) & Hdb);
    [by rewrite Hr|unfold i_tail, header_tail; len_solve|lia|exact Hwf|].
  rewrite Hk in Hk'. injection Hk' as <- <- <-. rewrite Hm in Hm'. apply Ok_inj in Hm' as <-.
  cbv zeta in Hdb. rewrite Hdb. clear Hdb. cbn [hd].
  rewrite open_byte_twice, pn_length_i_byte by done.
  assert (open_pn (i_pnLen i) payload mask = pnb) as ->.
  { unfold open_pn, payload.
    assert (length (take (i_pnLen i) (drop 1 mask)) = length pnb) as Hl.
    { unfold pnb. rewrite length_be_encode, length_take, length_drop. lia. }
    rewrite take_app_le, take_ge by
      (rewrite length_xor_bytes, Hl; unfold pnb; rewrite length_be_encode; lia).
    by apply xor_bytes_involutive. }
  assert (drop (i_pnLen i) payload = sealed) as ->.
  { unfold payload. apply drop_app_length'. rewrite length_xor_bytes, length_take, length_drop.
    unfold pnb. rewrite length_be_encode. lia. }
  unfold pnb at 1. rewrite be_decode_encode, Z.mod_small by apply (io_pn i Hi).
  rewrite Hs. cbn [insert list_insert]. rewrite gcm_open_seal; cbn [obind].
  - apply obind_ext. intros fs. unfold pnb.
    rewrite be_decode_encode, Z.mod_small by apply (io_pn i Hi). done.
  - rewrite length_xor_bytes, length_be_encode. lia.
Qed.
End protect_lemmas.

Lemma gcm_open_inv E nonce c aad p :
  gcm_open E nonce c aad = Ok p → c = gcm_seal E nonce p aad.
Proof.
  unfold gcm_open, gcm_seal. repeat case_goal; try done. intros <-%Ok_inj. bool_facts.
  rewrite gcm_crypt_involutive, <- Heqb1. by rewrite take_drop.
Qed.

Lemma payload_frames_spec plain : ReadAllFrames_buffer plain = Some (payload_frames plain).
Proof.
  unfold payload_frames, ReadAllFrames_buffer. rewrite ReadAllFrames_buffer_parse by lia.
  by destruct (frames_parse_total (S (length plain)) plain []) as [o ->]; [lia|].
Qed.

Lemma wf_bytes_cons b (l : bytes) : wf_bytes (b :: l) ↔ is_byte b ∧ wf_bytes l.
Proof. unfold wf_bytes. by rewrite Forall_cons. Qed.

(** The sender's view of a packet that was decrypted: its fields with the protection
    removed. *)
Definition opened (b : Z) (dcid scid token : bytes) (tn ln : nat) (n : nat) (pn : Z)
    (plain trailing : bytes) : initial :=
  mkInitial ((b - 0xc0) / 4) dcid scid token tn ln n pn plain trailing.

Section decode_inverse.
Context {CB : Cryptobyte} {CBL : CryptobyteLaws CB} {HK : Hkdf} {HKL : HkdfLaws HK}.

(** The first byte, unprotected, consists of the reserved bits and the length. *)
Lemma open_byte_fields b mask tail :
  0 <= b - 0xc0 < 16 →
  let hb := open_byte b mask in let n := pn_length hb in
  0 <= (hb - 0xc0) / 4 < 4 ∧ i_byte (opened hb [] [] [] 1 1 n 0 [] tail) = hb.
Proof.
  intros Hb. cbv zeta. unfold opened, i_byte. cbn [i_reserved i_pnLen].
  destruct (pn_length_bounds (open_byte b mask)) as [_ <-].
  pose (P := λ c, let low := c / 16 in let x := c mod 16 in let hb := Z.lxor (0xc0 + low) x in
    bool_decide (0 <= (hb - 0xc0) / 4 < 4 ∧ 0xc0 + (4 * ((hb - 0xc0) / 4) + (Z.land hb 3 + 1 - 1)) = hb)).
  unfold open_byte. set (x := Z.land (hd 0 mask) 0x0f). pose proof (land_15_range (hd 0 mask)) as Hx. fold x in Hx.
  pose proof (byte_exhaustive P ltac:(vm_compute; reflexivity) (16 * (b - 0xc0) + x)) as H.
  unfold P in H. replace ((16 * (b - 0xc0) + x) / 16) with (b - 0xc0) in H
    by (rewrite Z.mul_comm, Z.div_add_l, Z.div_small; lia).
  replace ((16 * (b - 0xc0) + x) mod 16) with x in H
    by (rewrite Z.add_comm, Z.mul_comm, Z.mod_add, Z.mod_small; lia).
  replace (0xc0 + (b - 0xc0)) with b in H by lia.
  apply bool_decide_eq_true in H; [done|]. unfold is_byte. lia.
Qed.

(** What is opened was protected: the converse of [decode_protect]. *)
Lemma protect_opened b dcid scid token tn ln payload rest key iv hp mask plain :
  let hdr := b :: header_tail dcid scid token tn ln (len payload) in
  let hb := open_byte b mask in
  let n := pn_length hb in
  let pnb := open_pn n payload mask in
  wf_bytes (hdr ++ payload ++ rest) → len (hdr ++ payload ++ rest) <= maxAlloc →
  0 <= b - 0xc0 < 16 → len dcid < 256 → len scid < 256 → 20 <= len payload →
  vli_fits tn (len token) → vli_fits ln (len payload) →
  ClientInitialKeysCalc dcid = Ok (key, iv, hp) →
  ComputeHeaderProtection hp (slice 4 20 payload) = Ok mask →
  wf_bytes key → length mask = 5%nat → wf_bytes mask →
  gcm_open (aes128_encrypt key) (xor_bytes iv (be_encode 12 (be_decode pnb)))
    (drop n payload) (<[0%nat := hb]> hdr ++ pnb) = Ok plain →
  let i := opened hb dcid scid token tn ln n (be_decode pnb) plain rest in
  initial_ok i ∧ protect i = Ok (hdr ++ payload ++ rest).
Proof.
  intros hdr hb n pnb Hw Hmax Hb Hd Hs Hpl Htn Hln Hk Hm Hkw Hml Hmw Ho i.
  destruct (pn_length_bounds hb) as [Hn _]. fold n in Hn.
  assert (wf_bytes payload ∧ wf_bytes rest) as [Hpw Hrw] by (rewrite !wf_bytes_app in Hw; tauto).
  destruct (open_pn_spec n payload mask Hn Hpl Hml Hpw Hmw) as (Hpnw & Hpnl & Hpnr). fold pnb in Hpnw, Hpnl, Hpnr.
  destruct (open_byte_fields b mask rest Hb) as [Hres Hbyte]. cbv zeta in Hres, Hbyte. fold hb n in Hres, Hbyte.
  pose proof (gcm_open_wf _ _ _ _ _ (λ c, aes128_encrypt_wf key c Hkw) (wf_bytes_drop n payload Hpw) Ho) as [Hplw _].
  apply gcm_open_inv in Ho.
  assert (len payload = Z.of_nat n + len plain + 16) as Hlen.
  { apply (f_equal length) in Ho. unfold gcm_seal, gcm_tag in Ho.
    rewrite length_drop, length_app, length_gcm_crypt, length_be_encode in Ho. lia. }
  assert (be_encode n (be_decode pnb) = pnb) as Hpnb by (rewrite <- Hpnl; by apply be_encode_decode).
  assert (i_byte i = hb) as Hib by exact Hbyte.
  assert (i_tail i = header_tail dcid scid token tn ln (len payload)) as Hit
    by (unfold i_tail, i_length; cbn [i opened i_dcid i_scid i_token i_tokenSize i_lengthSize i_pnLen i_plain];
        by rewrite Hlen).
  split.
  - unfold hdr, header_tail in Hw, Hmax.
    rewrite !wf_bytes_app, wf_bytes_cons, !wf_bytes_app, !wf_bytes_cons in Hw.
    split; cbn [i opened i_reserved i_dcid i_scid i_token i_tokenSize i_lengthSize i_pnLen i_pn i_plain i_trailing];
      unfold i_length; cbn [i opened i_pnLen i_plain]; rewrite <- ?Hlen; try tauto; try lia.
    + rewrite <- Hpnl. apply be_decode_range, Hpnw.
    + rewrite !length_app in Hmax. cbn [length] in Hmax. rewrite ?length_app in Hmax. lia.
  - unfold protect. cbn [i opened i_dcid i_pnLen i_pn i_plain i_trailing]. rewrite Hk. cbn [obind].
    rewrite Hpnb, Hib, Hit. change (<[0%nat := hb]> hdr) with (hb :: header_tail dcid scid token tn ln (len payload)) in Ho.
    rewrite <- Ho. assert (xor_bytes pnb (take n (drop 1 mask)) = take n payload) as Hx.
    { unfold pnb, open_pn. apply xor_bytes_involutive. rewrite !length_take, length_drop. lia. }
    assert (slice 4 20 (pnb ++ drop n payload) = slice 4 20 payload) as ->.
    { rewrite <- (take_drop n payload) at 2. apply slice_swap_prefix; rewrite ?length_take; lia. }
    rewrite Hm. cbn [obind]. rewrite Hx, take_drop. unfold hb. by rewrite open_byte_twice.
Qed.

(** Every packet is either refused with an error or the protection of an Initial, which is
    then decoded. *)
Lemma decode_inv p :
  wf_bytes p → len p <= maxAlloc →
  (∃ e, DecodeQUICHeaderAndFrames p = Err e) ∨
  (∃ i, initial_ok i ∧ protect i = Ok p ∧
     DecodeQUICHeaderAndFrames p = let! frames := payload_frames (i_plain i) in Ok (header_of i, frames)).
Proof.
  intros Hw Hmax. destruct (decode_header_cases p Hw Hmax)
    as [[e He]|(b & dcid & scid & token & tn & ln & pl & r & Hdec & Hp & Hb & Hd & Hs & Hpl & Htn & Hln)].
  { left. unfold DecodeQUICHeaderAndFrames. rewrite He. by eexists. }
  edestruct (decode_body _ _ _ _ (b :: header_tail dcid scid token tn ln (len pl)) _ _ Hdec)
    as (key & iv & hp & mask & (Hk & Hm & Hkw & Hiv & Hml & Hmw) & HD);
    [exact Hp|unfold header_tail; len_solve|exact Hpl|exact Hw|]. cbv zeta in HD.
  match type of HD with _ = obind ?o _ => destruct o as [plain|e|w'] eqn:Eo end.
  - right. pose proof Hw as Hw'. rewrite Hp in Hw', Hmax.
    destruct (protect_opened _ _ _ _ _ _ _ _ _ _ _ _ _ Hw' Hmax Hb Hd Hs Hpl Htn Hln Hk Hm Hkw Hml Hmw Eo) as [Hi Hpr].
    match type of Hi with initial_ok ?i0 => exists i0 end. rewrite Hp at 1. split; [exact Hi|]. split; [exact Hpr|].
    destruct (decode_protect _ Hi) as (p' & Hpr' & _ & _ & HD'). rewrite Hpr in Hpr'. apply Ok_inj in Hpr'.
    rewrite Hp, Hpr'. exact HD'.
  - left. exists e. by rewrite HD.
  - exfalso. revert Eo. unfold gcm_open.
    rewrite length_xor_bytes, length_be_encode. replace (Nat.min (length iv) 12) with 12%nat by lia.
    repeat case_goal; done.
Qed.

Lemma decode_sound p h fs :
  wf_bytes p → len p <= maxAlloc → DecodeQUICHeaderAndFrames p = Ok (h, fs) →
  ∃ i, initial_ok i ∧ protect i = Ok p ∧ h = header_of i ∧ ReadAllFrames_buffer (i_plain i) = Some (Ok fs) ∧
    Forall frame_wf fs.
Proof.
  intros Hw Hmax HD. destruct (decode_inv p Hw Hmax) as [[e He]|(i & Hi & Hp & He)]; [congruence|].
  rewrite HD in He. pose proof (payload_frames_spec (i_plain i)) as Hf.
  destruct (payload_frames (i_plain i)) as [fs'|e|w] eqn:Ef; cbn [obind] in He; [|done|done].
  injection He as -> ->. exists i. split; [done|]. split; [done|]. split; [done|]. split; [done|].
  eapply ReadAllFrames_buffer_wf; [apply (io_plain i Hi)| |exact Hf].
  pose proof (io_alloc i Hi) as [Hl _]. unfold i_length, maxAlloc in Hl. lia.
Qed.
End decode_inverse.

(** The fields of a header are in range. *)
Lemma header_of_range i :
  initial_ok i →
  Version (header_of i) = [0; 0; 0; 1] ∧ 0 <= DCIDLength (header_of i) < 256 ∧
  0 <= SCIDLength (header_of i) < 256 ∧ 1 <= initialPacketNumberLength (header_of i) <= 4 ∧
  len (PacketNumber (header_of i)) = initialPacketNumberLength (header_of i) ∧
  initialPacketNumber (header_of i) = be_decode (PacketNumber (header_of i)) ∧
  0 <= initialPacketNumber (header_of i) < 2 ^ 32.
Proof.
  intros Hi. pose proof (io_pn i Hi) as Hpn. destruct Hi.
  cbn [header_of Version DCIDLength SCIDLength PacketNumber initialPacketNumberLength initialPacketNumber].
  rewrite length_be_encode, be_decode_encode, Z.mod_small by done.
  assert (256 ^ Z.of_nat (i_pnLen i) <= 256 ^ 4) by (apply Z.pow_le_mono_r; lia).
  split_and!; (done || lia).
Qed.

Lemma decode_rejects (CB : Cryptobyte) (HK : Hkdf) (p : bytes) :
  DecodeQUICHeaderAndFrames p =
    if len p <? 7 then Err (errors_New "packet too short")
    else if negb (Z.land (hd 0 p) 0xc0 =? 0xc0) then Err ErrNotQUICLongHeaderFormat
    else if negb (Z.land (hd 0 p) 0x30 =? 0) then Err ErrNotQUICInitialPacket
    else if negb (be_decode (slice 1 5 p) =? 1) then Err ErrUnsupportedQUICVersion
    else DecodeQUICHeaderAndFrames p.
Proof.
  destruct (len p <? 7) eqn:E7.
  { unfold DecodeQUICHeaderAndFrames, decode_header. by rewrite E7. }
  destruct p as [|b p]; [done|]. cbn [hd]. bool_facts.
  assert (go_slice 1 5 (b :: p) = Ok (slice 1 5 (b :: p))) as Hs by (apply go_slice_ok; lia).
  repeat case_goal; [..|done]; unfold DecodeQUICHeaderAndFrames, decode_header;
    rewrite (guard_ok (len (b :: p) <? 7)) by (by apply Z.ltb_ge); cbn [obind];
    rewrite go_index_0; cbn [obind]; rewrite Heqb0; cbn [guard obind]; try done;
    rewrite Heqb1; cbn [guard obind]; try done.
  rewrite Hs. cbn [obind]. unfold QUICVersion1. by rewrite Heqb2.
Qed.

(** ** Properties *)

(** C5: Decoding inverts the protection of RFC 9001: for every Initial packet - any connection
    IDs, token, packet number and encoding sizes, any payload, any bytes after the packet
    in the datagram - the header fields come out and the frame parser is run on exactly the
    payload.  If the payload consists of PADDING, PING and CRYPTO frames (a run of padding
    being one frame, the integers of CRYPTO frames in their shortest form), exactly these
    frames come out; if a frame of another type follows them (ACK, CONNECTION_CLOSE, ...,
    of a one-byte type), the packet is refused. *)
Theorem DecodeQUICHeaderAndFrames_roundtrip (CB : Cryptobyte) (HK : Hkdf) i :
  CryptobyteLaws CB → HkdfLaws HK → initial_ok i →
  ∃ p, protect i = Ok p ∧
    DecodeQUICHeaderAndFrames p = (let! frames := payload_frames (i_plain i) in Ok (header_of i, frames)) ∧
    ∀ fs, Forall frame_wf fs → no_adjacent_padding fs = true →
      (i_plain i = flat_map encode_frame fs → DecodeQUICHeaderAndFrames p = Ok (header_of i, fs)) ∧
      ∀ b t, 1 < b < 64 → b ≠ 6 → i_plain i = flat_map encode_frame fs ++ b :: t →
        DecodeQUICHeaderAndFrames p = Err unknown_frame_type.
Proof.
  intros ?? Hi. destruct (decode_protect i Hi) as (p & Hp & _ & _ & Hd).
  exists p. split; [exact Hp|]. split; [exact Hd|]. intros fs Hw Hadj. rewrite Hd. unfold payload_frames.
  split; [intros ->; by rewrite ReadAllFrames_encode|].
  intros b t Hb H6 ->. by rewrite ReadAllFrames_unknown.
Qed.

Definition sample_frames : list QUICFrame := [PING; CRYPTO 0 4 [1; 0; 0; 0]; PADDING 7].

Definition sample_initial (plain : bytes) : initial :=
  mkInitial 0 [1; 2; 3; 4; 5; 6; 7; 8] [9] [10; 11] 1 2 2 258 plain [0; 0].

Lemma DecodeQUICHeaderAndFrames_roundtrip_witness :
  ∃ p, @protect cryptobyte_ref hkdf_ref (sample_initial (flat_map encode_frame sample_frames)) = Ok p ∧
    @DecodeQUICHeaderAndFrames cryptobyte_ref hkdf_ref p =
      Ok (mkHeader [0; 0; 0; 1] 8 1 [1; 2] 2 258 true, sample_frames).
Proof.
  destruct (DecodeQUICHeaderAndFrames_roundtrip cryptobyte_ref hkdf_ref
              (sample_initial (flat_map encode_frame sample_frames)))
    as (p & Hp & _ & Hd); [apply _|apply _|split; decide_now|].
  exists p. split; [exact Hp|]. apply (Hd sample_frames); [decide_now|reflexivity|reflexivity].
Defined.

(** C27: Whatever bytes arrive, decoding them ends in a result or an error, except when they
    are an authentic Initial packet - protected for its own connection ID - with a payload
    on which the frame parser panics: all lengths read off the datagram are checked before
    they are used. *)
Theorem DecodeQUICHeaderAndFrames_panics (CB : Cryptobyte) (HK : Hkdf) p w :
  CryptobyteLaws CB → HkdfLaws HK → wf_bytes p → len p <= maxAlloc →
  DecodeQUICHeaderAndFrames p = Panic w ↔
  ∃ i, initial_ok i ∧ protect i = Ok p ∧ ReadAllFrames_buffer (i_plain i) = Some (Panic w).
Proof.
  intros ?? Hw Hmax. split.
  - intros HD. destruct (decode_inv p Hw Hmax) as [[e He]|(i & Hi & Hp & He)]; [congruence|].
    exists i. split; [done|]. split; [done|]. rewrite payload_frames_spec. rewrite HD in He.
    destruct (payload_frames (i_plain i)); cbn [obind] in He; congruence.
  - intros (i & Hi & Hp & Hf). destruct (decode_protect i Hi) as (p' & Hp' & _ & _ & HD).
    rewrite Hp in Hp'. apply Ok_inj in Hp' as <-. rewrite HD.
    rewrite payload_frames_spec in Hf. by injection Hf as ->.
Qed.

Lemma DecodeQUICHeaderAndFrames_panics_witness :
  ∃ p : bytes, @DecodeQUICHeaderAndFrames cryptobyte_ref hkdf_ref p = Panic "makeslice: len out of range".
Proof.
  pose (evil := [6; 0; 255; 255; 255; 255; 255; 255; 255; 255; 0; 0]).
  assert (initial_ok (sample_initial evil)) as Hi by (split; decide_now).
  destruct (@decode_protect cryptobyte_ref _ hkdf_ref _ (sample_initial evil) Hi) as (p & Hp & Hw & Hl & _).
  exists p. apply (DecodeQUICHeaderAndFrames_panics cryptobyte_ref hkdf_ref p);
    [apply _|apply _|exact Hw|rewrite Hl; decide_now|].
  exists (sample_initial evil). split; [exact Hi|]. split; [exact Hp|vm_compute; reflexivity].
Defined.

(** C9: A packet is accepted only if it is authentic: it is, byte for byte, the protection of
    an Initial packet under the client's keys for the destination connection ID it carries
    from byte 5 on (AES-128-GCM of the payload, with the unprotected header as additional data, and the
    header protection over first byte and packet number).  The header returned is that of
    this packet, its fields in range, and the frames are those of its payload. *)
Theorem DecodeQUICHeaderAndFrames_sound (CB : Cryptobyte) (HK : Hkdf) p h fs :
  CryptobyteLaws CB → HkdfLaws HK → wf_bytes p → len p <= maxAlloc →
  DecodeQUICHeaderAndFrames p = Ok (h, fs) →
  (Version h = [0; 0; 0; 1] ∧ 0 <= DCIDLength h < 256 ∧ 0 <= SCIDLength h < 256 ∧
   1 <= initialPacketNumberLength h <= 4 ∧ len (PacketNumber h) = initialPacketNumberLength h ∧
   initialPacketNumber h = be_decode (PacketNumber h) ∧ 0 <= initialPacketNumber h < 2 ^ 32 ∧
   Forall frame_wf fs) ∧
  ∃ i, initial_ok i ∧ protect i = Ok p ∧
    take (S (length (i_dcid i))) (drop 5 p) = len (i_dcid i) :: i_dcid i ∧
    h = header_of i ∧ ReadAllFrames_buffer (i_plain i) = Some (Ok fs).
Proof.
  intros ?? Hw Hmax HD. destruct (decode_sound p h fs Hw Hmax HD) as (i & Hi & Hp & -> & Hf & Hfs).
  split; [pose proof (header_of_range i Hi); tauto|]. exists i. pose proof (protect_dcid i p Hi Hp). done.
Qed.

Lemma DecodeQUICHeaderAndFrames_sound_witness :
  ∃ p i, initial_ok i ∧ @protect cryptobyte_ref hkdf_ref i = Ok p ∧
    take (S (length (i_dcid i))) (drop 5 p) = len (i_dcid i) :: i_dcid i ∧
    mkHeader [0; 0; 0; 1] 8 1 [1; 2] 2 258 true = header_of i ∧
    ReadAllFrames_buffer (i_plain i) = Some (Ok sample_frames).
Proof.
  destruct (@decode_protect cryptobyte_ref _ hkdf_ref _
              (sample_initial (flat_map encode_frame sample_frames)))
    as (p & _ & Hw & Hl & HD); [split; decide_now|].
  exists p.
  apply (DecodeQUICHeaderAndFrames_sound cryptobyte_ref hkdf_ref p
           (mkHeader [0; 0; 0; 1] 8 1 [1; 2] 2 258 true) sample_frames);
    [apply _|apply _|exact Hw|rewrite Hl; decide_now|rewrite HD; reflexivity].
Defined.

(** Packets that are not QUIC v1 Initial packets are rejected before any key is derived
    or any length is believed, with the error that says why. *)
Theorem DecodeQUICHeaderAndFrames_rejects (CB : Cryptobyte) (HK : Hkdf) (p : bytes) :
  DecodeQUICHeaderAndFrames p =
    if len p <? 7 then Err (errors_New "packet too short")
    else if negb (Z.land (hd 0 p) 0xc0 =? 0xc0) then Err ErrNotQUICLongHeaderFormat
    else if negb (Z.land (hd 0 p) 0x30 =? 0) then Err ErrNotQUICInitialPacket
    else if negb (be_decode (slice 1 5 p) =? 1) then Err ErrUnsupportedQUICVersion
    else DecodeQUICHeaderAndFrames p.
Proof. apply decode_rejects. Qed.
