(* ===== verification/FingerprintHash.v ===== *)
(** * Hashing and printing fingerprint identifiers

    The helpers of fingerprint_hash.go that are shared by the TLS, QUIC-header and
    transport-parameter identifiers: [updateU32], [updateU64], [vliToU64] and
    [FingerprintID.AsHex].  A [hash.Hash] is the bytes written to it so far. *)
From S2P Require Import Prelude GoCrypto.

Definition h_Write (h : bytes) (p : bytes) : bytes := h ++ p.

(** [binary.Write(h, binary.BigEndian, v)] of a 16-, 32- and 64-bit integer. *)
Definition writeU16 (h : bytes) (v : Z) : bytes := h_Write h (be_encode 2 v).
Definition updateU32 (h : bytes) (i : Z) : bytes := h_Write h (be_encode 4 i).
Definition updateU64 (h : bytes) (i : Z) : bytes := h_Write h (be_encode 8 i).

(** [binary.BigEndian.Uint64(h.Sum(nil)[:8])] of a SHA-1 hash. *)
Definition sum64 (h : bytes) : Z := be_decode (take 8 (sha1 h)).

Definition vliToU64 (arr : bytes) : Z :=
  foldl (λ val b, Z.lor (u64 (Z.shiftl val 8)) b) 0 arr.

(** [hex.EncodeToString]. *)
Definition hex_digit (n : Z) : Ascii.ascii :=
  Ascii.ascii_of_N (Z.to_N (if n <? 10 then 48 + n else 87 + n)).

Fixpoint hex_EncodeToString (b : bytes) : string :=
  match b with
  | [] => EmptyString
  | x :: b => String.String (hex_digit (Z.shiftr x 4))
                (String.String (hex_digit (Z.land x 0x0f)) (hex_EncodeToString b))
  end.

(** [id] is the value of the [int64]. *)
Definition AsHex (id : Z) : string :=
  hex_EncodeToString (be_encode 8 (u64 id)).

(** ** Lemmas *)

Lemma sum64_range h : 0 <= sum64 h < 2 ^ 64.
Proof.
  unfold sum64. pose proof (be_decode_range (take 8 (sha1 h)) (wf_bytes_take 8 _ (sha1_wf h))) as H.
  rewrite length_take, length_sha1 in H. exact H.
Qed.

Lemma vliToU64_be_decode l : wf_bytes l → (length l <= 8)%nat → vliToU64 l = be_decode l.
Proof. apply shift_in_be_decode. Qed.

(** Reading the digits back. *)
Definition hex_value (c : Ascii.ascii) : option Z :=
  let n := Z.of_N (Ascii.N_of_ascii c) in
  if (48 <=? n) && (n <? 58) then Some (n - 48)
  else if (97 <=? n) && (n <? 103) then Some (n - 87)
  else None.

Fixpoint hex_decode (s : string) : option bytes :=
  match s with
  | EmptyString => Some []
  | String.String a (String.String b s) =>
    hi ← hex_value a; lo ← hex_value b; rest ← hex_decode s; Some (hi * 16 + lo :: rest)
  | _ => None
  end.

Lemma hex_digit_value n : 0 <= n < 16 → hex_value (hex_digit n) = Some n.
Proof.
  intros Hn. unfold hex_value, hex_digit.
  rewrite Ascii.N_ascii_embedding by (case_goal; lia).
  rewrite Z2N.id by (case_goal; lia).
  destruct (n <? 10) eqn:E; bool_facts.
  - rewrite (proj2 (Z.leb_le 48 (48 + n))), (proj2 (Z.ltb_lt (48 + n) 58)) by lia. simpl. f_equal. lia.
  - rewrite (proj2 (Z.ltb_ge (87 + n) 58)), andb_false_r by lia.
    rewrite (proj2 (Z.leb_le 97 (87 + n))), (proj2 (Z.ltb_lt (87 + n) 103)) by lia. simpl. f_equal. lia.
Qed.

Lemma hex_decode_encode b : wf_bytes b → hex_decode (hex_EncodeToString b) = Some b.
Proof.
  induction 1 as [|x b Hx Hb IH]; [done|]. cbn [hex_EncodeToString hex_decode].
  unfold is_byte in Hx. change 0x0f with (Z.ones 4). rewrite Z.land_ones, Z.shiftr_div_pow2 by lia.
  rewrite !hex_digit_value, IH by
    (split; [apply Z.div_pos || apply Z.mod_pos_bound|
             apply Z.div_lt_upper_bound || apply Z.mod_pos_bound]; lia).
  cbn [mbind option_bind]. do 2 f_equal. pose proof (Z.div_mod x (2 ^ 4)). lia.
Qed.

Lemma s64_u64 z : 0 <= z < 2 ^ 64 → u64 (s64 z) = z.
Proof.
  intros Hz. unfold s64, u64. case_goal; bool_facts; [by apply Z.mod_small|].
  replace (z - 2 ^ 64) with (z + -1 * 2 ^ 64) by lia. rewrite Z.mod_add, Z.mod_small; lia.
Qed.

Lemma AsHex_decode z : 0 <= z < 2 ^ 64 → hex_decode (AsHex (s64 z)) = Some (be_encode 8 z).
Proof. intros Hz. unfold AsHex. rewrite s64_u64 by done. apply hex_decode_encode, be_encode_wf. Qed.

(** ** Properties *)

(** The hexadecimal form of a 64-bit identifier has sixteen digits and determines the
    identifier: different identifiers never print alike. *)
Theorem AsHex_injective z1 z2 :
  0 <= z1 < 2 ^ 64 → 0 <= z2 < 2 ^ 64 →
  String.length (AsHex (s64 z1)) = 16%nat ∧
  (AsHex (s64 z1) = AsHex (s64 z2) ↔ z1 = z2).
Proof.
  intros H1 H2. split.
  - assert (∀ b, String.length (hex_EncodeToString b) = (2 * length b)%nat) as Hl.
    { induction b; simpl; lia. }
    unfold AsHex. by rewrite Hl, length_be_encode.
  - split; [|by intros ->]. intros E. pose proof (AsHex_decode z1 H1) as D.
    rewrite E, AsHex_decode in D by done. apply (inj Some) in D.
    apply (f_equal be_decode) in D. rewrite !be_decode_encode in D.
    rewrite !Z.mod_small in D by (simpl; lia). done.
Qed.

Lemma AsHex_injective_witness :
  String.length (AsHex (s64 0x99ba8100cb63d949)) = 16%nat ∧
  (AsHex (s64 0x99ba8100cb63d949) = AsHex (s64 1) ↔ 0x99ba8100cb63d949 = 1).
Proof. apply (AsHex_injective 0x99ba8100cb63d949 1); lia. Defined.
