(* ===== verification/TransportParams.v ===== *)
(** * QUIC transport parameters

    quic_transport_parameters.go and the identifier of the transport parameters
    (fingerprint_hash.go). *)
From S2P Require Import Prelude GoIO VLI GoCrypto External FingerprintHash.

Definition QTP_GREASE : Z := 27.

Record QUICTransportParameters := mkQTP {
  MaxIdleTimeout : bytes;
  MaxUDPPayloadSize : bytes;
  InitialMaxData : bytes;
  InitialMaxStreamDataBidiLocal : bytes;
  InitialMaxStreamDataBidiRemote : bytes;
  InitialMaxStreamDataUni : bytes;
  InitialMaxStreamsBidi : bytes;
  InitialMaxStreamsUni : bytes;
  AckDelayExponent : bytes;
  MaxAckDelay : bytes;
  ActiveConnectionIDLimit : bytes;
  QTPIDs : list Z;
  qtp_HexID : string;
  qtp_NumID : Z;
  parseError : option goerror
}.

#[global] Instance QTP_eq_dec : EqDecision QUICTransportParameters.
Proof. solve_decision. Defined.

Definition empty_qtp : QUICTransportParameters :=
  mkQTP [] [] [] [] [] [] [] [] [] [] [] [] "" 0 (Some (errors_New "unknown error")).

Definition ParseError (qtp : QUICTransportParameters) : option goerror := parseError qtp.

Definition set_parseError (e : option goerror) (q : QUICTransportParameters) :=
  let 'mkQTP a b c d e' f g h i j k ids hex num _ := q in mkQTP a b c d e' f g h i j k ids hex num e.

Definition append_id (t : Z) (q : QUICTransportParameters) :=
  let 'mkQTP a b c d e f g h i j k ids hex num err := q in
  mkQTP a b c d e f g h i j k
    (ids ++ [if IsGREASETransportParameter t then QTP_GREASE else t]) hex num err.

Definition qtp_preimage (qtp : QUICTransportParameters) : bytes :=
  let h := foldl updateU64 [] (QTPIDs qtp) in
  let h := updateU64 h (vliToU64 (MaxIdleTimeout qtp)) in
  let h := updateU64 h (vliToU64 (MaxUDPPayloadSize qtp)) in
  let h := updateU64 h (vliToU64 (InitialMaxData qtp)) in
  let h := updateU64 h (vliToU64 (InitialMaxStreamDataBidiLocal qtp)) in
  let h := updateU64 h (vliToU64 (InitialMaxStreamDataBidiRemote qtp)) in
  let h := updateU64 h (vliToU64 (InitialMaxStreamDataUni qtp)) in
  let h := updateU64 h (vliToU64 (InitialMaxStreamsBidi qtp)) in
  let h := updateU64 h (vliToU64 (InitialMaxStreamsUni qtp)) in
  let h := updateU64 h (vliToU64 (AckDelayExponent qtp)) in
  let h := updateU64 h (vliToU64 (MaxAckDelay qtp)) in
  updateU64 h (vliToU64 (ActiveConnectionIDLimit qtp)).

Definition qtp_calcNumericID (qtp : QUICTransportParameters) : Z := sum64 (qtp_preimage qtp).

(** Sorting the identifiers, clearing the error and computing the identifier. *)
Definition qtp_finish (q : QUICTransportParameters) : QUICTransportParameters :=
  let 'mkQTP a b c d e f g h i j k ids _ _ _ := q in
  let mk hex num := mkQTP a b c d e f g h i j k (sort_ints ids) hex num None in
  let num := qtp_calcNumericID (mk "" 0) in
  mk (AsHex (s64 num)) num.

Section parse.
Context {DT : Dicttls}.

(** The [switch]: [data] is the value with the length bits of its first byte cleared. *)
Definition set_param (paramType : Z) (v : bytes) (q : QUICTransportParameters) :=
  let 'mkQTP a b c d e f g h i j k ids hex num err := q in
  if paramType =? QUICTransportParameter_max_idle_timeout
  then mkQTP v b c d e f g h i j k ids hex num err
  else if paramType =? QUICTransportParameter_max_udp_payload_size
  then mkQTP a v c d e f g h i j k ids hex num err
  else if paramType =? QUICTransportParameter_initial_max_data
  then mkQTP a b v d e f g h i j k ids hex num err
  else if paramType =? QUICTransportParameter_initial_max_stream_data_bidi_local
  then mkQTP a b c v e f g h i j k ids hex num err
  else if paramType =? QUICTransportParameter_initial_max_stream_data_bidi_remote
  then mkQTP a b c d v f g h i j k ids hex num err
  else if paramType =? QUICTransportParameter_initial_max_stream_data_uni
  then mkQTP a b c d e v g h i j k ids hex num err
  else if paramType =? QUICTransportParameter_initial_max_streams_bidi
  then mkQTP a b c d e f v h i j k ids hex num err
  else if paramType =? QUICTransportParameter_initial_max_streams_uni
  then mkQTP a b c d e f g v i j k ids hex num err
  else if paramType =? QUICTransportParameter_ack_delay_exponent
  then mkQTP a b c d e f g h v j k ids hex num err
  else if paramType =? QUICTransportParameter_max_ack_delay
  then mkQTP a b c d e f g h i v k ids hex num err
  else if paramType =? QUICTransportParameter_active_connection_id_limit
  then mkQTP a b c d e f g h i j v ids hex num err
  else q.

(** [unsetVLIBits] is called in the matching cases only, but never fails there: the
    value is not empty. *)
Definition store_param (paramType : Z) (paramData : bytes) (q : QUICTransportParameters)
    : outcome QUICTransportParameters :=
  let! v := unsetVLIBits paramData in Ok (set_param paramType v q).

(** The loop; [None] is exhaustion of the fuel. *)
Fixpoint qtp_loop (fuel : nat) (r : bytesReader) (qtp : QUICTransportParameters)
    : option (outcome QUICTransportParameters) :=
  if negb (0 <? br_Len r) then Some (Ok (qtp_finish qtp))
  else match fuel with
  | O => None
  | S fuel =>
    match ReadNextVLI r with
    | (Panic w, _) => Some (Panic w)
    | (Err e, _) => Some (Ok (set_parseError
        (Some (fmt_Errorf "failed to read transport parameter type" e)) qtp))
    | (Ok (paramType, _), r) =>
      match ReadNextVLI r with
      | (Panic w, _) => Some (Panic w)
      | (Err e, _) => Some (Ok (set_parseError
          (Some (fmt_Errorf "failed to read transport parameter value length" e)) qtp))
      | (Ok (paramValLen, _), r) =>
        let qtp := append_id paramType qtp in
        if paramValLen =? 0 then qtp_loop fuel r qtp
        else match make_bytes paramValLen with
        | Panic w => Some (Panic w)
        | Err e => Some (Err e)
        | Ok buf =>
          let '(d, err, r) := io_read r (Z.to_nat paramValLen) in
          match err with
          | Some e => Some (Ok (set_parseError
              (Some (fmt_Errorf "failed to read transport parameter value" e)) qtp))
          | None =>
            if negb (u64 (len d) =? paramValLen)
            then Some (Ok (set_parseError (Some (errors_New "corrupted transport parameter")) qtp))
            else match store_param paramType (copy_into buf d) qtp with
            | Ok qtp => qtp_loop fuel r qtp
            | Err e => Some (Err e)
            | Panic w => Some (Panic w)
            end
          end
        end
      end
    end
  end.

(** Every iteration reads at least one byte. *)
Definition ParseQUICTransportParameters (extData : bytes)
    : option (outcome QUICTransportParameters) :=
  qtp_loop (length extData) (NewReader extData) empty_qtp.
End parse.

(** ** The parameters a client sends *)

(** A parameter of RFC 9000, section 18: identifier, value, and the sizes chosen for the
    two variable-length integers. *)
Record param := mkParam {
  p_id : Z; p_value : bytes; p_idSize : nat; p_lenSize : nat
}.

Definition encode_param (p : param) : bytes :=
  vli_encode (p_idSize p) (p_id p) ++ vli_encode (p_lenSize p) (len (p_value p)) ++ p_value p.

Definition param_ok (p : param) : Prop :=
  vli_fits (p_idSize p) (p_id p) ∧ vli_fits (p_lenSize p) (len (p_value p)) ∧
  len (p_value p) <= maxAlloc.

#[global] Instance param_ok_dec p : Decision (param_ok p).
Proof. unfold param_ok. apply _. Defined.

(** What one parameter does to the result. *)
Definition clear_bits (v : bytes) : bytes :=
  match v with [] => [] | b :: v => Z.land b 0x3f :: v end.

Section spec.
Context {DT : Dicttls}.

Definition apply_param (q : QUICTransportParameters) (p : param) : QUICTransportParameters :=
  let q := append_id (p_id p) q in
  match p_value p with [] => q | v => set_param (p_id p) (clear_bits v) q end.

Lemma br_Len_pos (r : bytesReader) n v t :
  vli_fits n v → br_rest r = vli_encode n v ++ t → negb (0 <? br_Len r) = false.
Proof.
  intros Hf Hr. apply negb_false_iff, Z.ltb_lt. unfold br_Len. rewrite Hr.
  pose proof (vli_encode_nonempty n v t Hf). destruct (vli_encode n v ++ t); [done|simpl; lia].
Qed.

(** The loop on well-formed parameters, followed by anything. *)
Lemma qtp_loop_encode ps t fuel (r : bytesReader) q :
  Forall param_ok ps → br_rest r = flat_map encode_param ps ++ t → (length ps <= fuel)%nat →
  ∃ r', qtp_loop fuel r q = qtp_loop (fuel - length ps) r' (foldl apply_param q ps) ∧ br_rest r' = t.
Proof.
  revert fuel r q. induction ps as [|p ps IH]; intros fuel r q Hok Hr Hf.
  { exists r. by rewrite Nat.sub_0_r. }
  destruct fuel as [|fuel]; [simpl in Hf; lia|]. apply Forall_cons in Hok as [(Hid & Hlen & Hmax) Hok].
  cbn [qtp_loop flat_map foldl length Nat.sub] in *. apply le_S_n in Hf.
  unfold encode_param in Hr at 1. rewrite <- !app_assoc in Hr. rewrite (br_Len_pos _ _ _ _ Hid Hr).
  destruct (ReadNextVLI_encode r _ _ _ Hr Hid) as (r1 & -> & Hr1).
  destruct (ReadNextVLI_encode r1 _ _ _ Hr1 Hlen) as (r2 & -> & Hr2).
  cbv zeta. unfold apply_param at 2. destruct (p_value p) as [|b v] eqn:Ev; rewrite ?Ev in *.
  { by apply IH. }
  rewrite (proj2 (Z.eqb_neq _ 0)) by (simpl; lia). rewrite make_bytes_ok by lia.
  destruct (bytesReader_read_app r2 (b :: v) _ Hr2) as (r3 & Hread & Hr3); [done|].
  rewrite !Nat2Z.id, Hread. unfold maxAlloc in Hmax. rewrite u64_small by lia.
  rewrite Z.eqb_refl. cbn [negb]. rewrite copy_into_full by by rewrite length_replicate.
  cbn [store_param unsetVLIBits UNSET_VLI_BITS obind]. by apply IH.
Qed.

Lemma encode_params_length ps :
  Forall param_ok ps → (length ps <= length (flat_map encode_param ps))%nat.
Proof.
  induction 1 as [|p ps (Hid & _) _ IH]; simpl; [lia|]. unfold encode_param at 1.
  pose proof (vli_encode_nonempty _ _ [] Hid) as Hne. rewrite app_nil_r in Hne.
  destruct (vli_encode (p_idSize p) (p_id p)); [done|]. rewrite !length_app. simpl. lia.
Qed.

Lemma Parse_encode_app ps t :
  Forall param_ok ps →
  ∃ fuel r, (length t <= fuel)%nat ∧ br_rest r = t ∧
    ParseQUICTransportParameters (flat_map encode_param ps ++ t) =
      qtp_loop fuel r (foldl apply_param empty_qtp ps).
Proof.
  intros Hok. pose proof (encode_params_length ps Hok) as Hl. unfold ParseQUICTransportParameters.
  destruct (qtp_loop_encode ps t (length (flat_map encode_param ps ++ t))
    (NewReader (flat_map encode_param ps ++ t)) empty_qtp) as (r & -> & Hr); [done|done|len_solve|].
  eexists _, r. split; [|by split]. len_solve.
Qed.

Lemma Parse_encode ps :
  Forall param_ok ps →
  ParseQUICTransportParameters (flat_map encode_param ps) =
    Some (Ok (qtp_finish (foldl apply_param empty_qtp ps))).
Proof.
  intros Hok. destruct (Parse_encode_app ps [] Hok) as (fuel & r & _ & Hr & Hp).
  rewrite app_nil_r in Hp. rewrite Hp. destruct fuel; cbn [qtp_loop]; unfold br_Len; by rewrite Hr.
Qed.

(** Identifiers and values are collected independently of each other. *)
Definition id_out (t : Z) : Z := if IsGREASETransportParameter t then QTP_GREASE else t.

Definition store (q : QUICTransportParameters) (p : param) : QUICTransportParameters :=
  match p_value p with [] => q | v => set_param (p_id p) (clear_bits v) q end.

Definition with_ids (ids : list Z) (q : QUICTransportParameters) : QUICTransportParameters :=
  let 'mkQTP a b c d e f g h i j k _ hex num err := q in mkQTP a b c d e f g h i j k ids hex num err.

Lemma set_param_with_ids t v ids q :
  set_param t v (with_ids ids q) = with_ids ids (set_param t v q).
Proof. destruct q. unfold set_param, with_ids. repeat (case_match; [done|]). done. Qed.

Lemma foldl_apply_param ps ids q :
  foldl apply_param (with_ids ids q) ps =
  with_ids (ids ++ (id_out ∘ p_id <$> ps)) (foldl store q ps).
Proof.
  revert ids q. induction ps as [|p ps IH]; intros ids q; cbn [foldl].
  { by rewrite app_nil_r. }
  assert (apply_param (with_ids ids q) p = with_ids (ids ++ [id_out (p_id p)]) (store q p)) as ->.
  { unfold apply_param, store. replace (append_id (p_id p) (with_ids ids q))
      with (with_ids (ids ++ [id_out (p_id p)]) q) by by destruct q.
    destruct (p_value p); [done|]. apply set_param_with_ids. }
  rewrite IH, <- app_assoc. done.
Qed.

Lemma set_param_comm t1 v1 t2 v2 q :
  t1 ≠ t2 → set_param t1 v1 (set_param t2 v2 q) = set_param t2 v2 (set_param t1 v1 q).
Proof.
  intros Hne. destruct q. unfold set_param.
  repeat match goal with
  | |- context [t2 =? ?c] => destruct (t2 =? c) eqn:?; cbn beta iota
  end;
  repeat match goal with
  | |- context [t1 =? ?c] => destruct (t1 =? c) eqn:?; cbn beta iota
  end; try done; bool_facts; congruence.
Qed.

Lemma store_perm ps qs q :
  NoDup (p_id <$> ps) → ps ≡ₚ qs → foldl store q ps = foldl store q qs.
Proof.
  intros Hnd P. revert q Hnd.
  induction P as [|p ps qs P IH|p1 p2 ps|ps qs rs P1 IH1 P2 IH2]; intros q Hids; [done|..].
  - cbn [foldl]. rewrite fmap_cons, NoDup_cons in Hids. apply IH, Hids.
  - cbn [foldl]. f_equal. rewrite !fmap_cons, !NoDup_cons, elem_of_cons in Hids.
    unfold store. destruct (p_value p1), (p_value p2); try done.
    apply set_param_comm. naive_solver.
  - rewrite IH1 by done. apply IH2. by rewrite <- P1.
Qed.

Lemma qtp_finish_ids ids ids' q :
  ids ≡ₚ ids' → qtp_finish (with_ids ids q) = qtp_finish (with_ids ids' q).
Proof.
  intros P. destruct q. unfold qtp_finish, with_ids. by rewrite (sort_ints_perm _ _ P).
Qed.

(** GREASE parameters are interchangeable. *)
Definition grease_equiv (p q : param) : Prop :=
  p = q ∨ (IsGREASETransportParameter (p_id p) = true ∧ IsGREASETransportParameter (p_id q) = true).

Context {DR : DicttlsRegistered DT}.

Lemma set_param_grease t v q : IsGREASETransportParameter t = true → set_param t v q = q.
Proof.
  intros H. unfold IsGREASETransportParameter in H. bool_facts. rewrite dicttls_values.
  destruct q. unfold set_param, dicttls_ref; cbn.
  repeat (rewrite (proj2 (Z.eqb_neq t _)) by lia). done.
Qed.

Lemma store_grease ps qs q :
  Forall2 grease_equiv ps qs →
  foldl store q ps = foldl store q qs ∧ id_out ∘ p_id <$> ps = id_out ∘ p_id <$> qs.
Proof.
  intros H. revert q. induction H as [|p p' ps qs Hp H IH]; intros q; [done|]. cbn [foldl].
  rewrite !fmap_cons. assert (store q p = store q p' ∧ id_out (p_id p) = id_out (p_id p')) as [-> E].
  { destruct Hp as [->|[H1 H2]]; [done|]. unfold store, id_out. rewrite H1, H2. split; [|done].
    destruct (p_value p), (p_value p'); by rewrite ?set_param_grease by done. }
  destruct (IH (store q p')) as [-> ->]. split; [done|]. simpl. by rewrite E.
Qed.

(** The value a parameter ends up with: the last non-empty one. *)
Definition last_value (id : Z) (ps : list param) : bytes :=
  foldl (λ acc p, match p_value p with
                  | [] => acc
                  | v => if p_id p =? id then clear_bits v else acc
                  end) [] ps.

Definition stored (ps : list param) (ids : list Z) (hex : string) (num : Z) (err : option goerror) :=
  mkQTP (last_value 0x01 ps) (last_value 0x03 ps) (last_value 0x04 ps) (last_value 0x05 ps)
    (last_value 0x06 ps) (last_value 0x07 ps) (last_value 0x08 ps) (last_value 0x09 ps)
    (last_value 0x0a ps) (last_value 0x0b ps) (last_value 0x0e ps) ids hex num err.

Lemma store_stored ps :
  foldl store empty_qtp ps = stored ps [] "" 0 (Some (errors_New "unknown error")).
Proof.
  induction ps as [|p ps IH] using rev_ind; [done|]. rewrite foldl_app, IH. cbn [foldl].
  unfold store, stored, last_value. rewrite !foldl_app. cbn [foldl].
  destruct (p_value p) as [|b v]; [done|]. rewrite dicttls_values. unfold set_param, dicttls_ref; cbn.
  repeat match goal with
  | |- context [p_id p =? ?c] =>
    let E := fresh in destruct (p_id p =? c) eqn:E; [apply Z.eqb_eq in E; by rewrite ?E|]
  end. done.
Qed.
End spec.

Lemma foldl_updateU64 l h : foldl updateU64 h l = h ++ flat_map (be_encode 8) l.
Proof.
  revert h. induction l as [|x l IH]; intros h; simpl; [by rewrite app_nil_r|].
  rewrite IH. unfold updateU64, h_Write. by rewrite <- app_assoc.
Qed.

Lemma qtp_preimage_flat q :
  qtp_preimage q = flat_map (be_encode 8) (QTPIDs q ++ (vliToU64 <$>
    [MaxIdleTimeout q; MaxUDPPayloadSize q; InitialMaxData q; InitialMaxStreamDataBidiLocal q;
     InitialMaxStreamDataBidiRemote q; InitialMaxStreamDataUni q; InitialMaxStreamsBidi q;
     InitialMaxStreamsUni q; AckDelayExponent q; MaxAckDelay q; ActiveConnectionIDLimit q])).
Proof.
  unfold qtp_preimage. rewrite foldl_updateU64, flat_map_app, app_nil_l.
  unfold updateU64, h_Write. cbn [fmap list_fmap flat_map]. by rewrite <- !app_assoc.
Qed.

(** The loop ends: every iteration takes at least one byte, and nothing but an absurd
    length can go wrong. *)
Lemma qtp_loop_total {DT : Dicttls} fuel (r : bytesReader) q :
  (length (br_rest r) <= fuel)%nat →
  (∃ q', qtp_loop fuel r q = Some (Ok q')) ∨
  qtp_loop fuel r q = Some (Panic "makeslice: len out of range").
Proof.
  revert r q. induction fuel as [|fuel IH]; intros r q Hf; cbn [qtp_loop]; unfold br_Len;
    destruct (negb (0 <? len (br_rest r))) eqn:Epos; [by eauto| |by eauto|].
  { bool_facts. lia. }
  destruct (ReadNextVLI_parse r I) as (r1 & -> & Hs1 & _).
  change (stream r) with (br_rest r) in *. simpl in Hs1.
  destruct (vli_parse (br_rest r)) as [[[t n]|e|w] s1] eqn:E1; cbn [fst snd] in *;
    [|by eauto|by apply vli_parse_no_panic in E1].
  pose proof (vli_parse_consumes _ _ _ _ E1) as Hc1.
  destruct (ReadNextVLI_parse r1 I) as (r2 & -> & Hs2 & _).
  change (stream r1) with (br_rest r1) in *. simpl in Hs2. rewrite Hs1 in Hs2 |- *.
  destruct (vli_parse s1) as [[[l n']|e|w] s2] eqn:E2; cbn [fst snd] in *;
    [|by eauto|by apply vli_parse_no_panic in E2].
  pose proof (vli_parse_consumes _ _ _ _ E2) as Hc2. cbv zeta.
  destruct (l =? 0) eqn:El; [apply IH; rewrite Hs2; lia|].
  unfold make_bytes. destruct ((l <? 0) || (maxAlloc <? l)) eqn:Em; [by right|].
  destruct (io_read r2 (Z.to_nat l)) as [[d [e|]] r3] eqn:Er; [by eauto|].
  apply read_stream in Er as [Hs3 _]. simpl in Hs3.
  destruct (negb (u64 (len d) =? l)); [by eauto|]. bool_facts.
  destruct (copy_into (replicate (Z.to_nat l) 0) d) as [|b v] eqn:Ec.
  { apply (f_equal length) in Ec. rewrite length_copy_into, length_replicate in Ec. simpl in Ec. lia. }
  cbn [store_param unsetVLIBits UNSET_VLI_BITS obind]. apply IH.
  apply (f_equal length) in Hs3. rewrite length_app, Hs2 in Hs3. lia.
Qed.

(** What goes wrong then: at some place a variable-length integer is read that [make] does
    not accept as a length. *)
Definition absurd_length (data : bytes) : Prop :=
  ∃ before rest v n, data = before ++ rest ∧ fst (ReadNextVLI (NewReader rest)) = Ok (v, n) ∧
    ¬ 0 <= v <= maxAlloc.

Lemma absurd_length_app a data : absurd_length data → absurd_length (a ++ data).
Proof.
  intros (before & rest & v & n & -> & H). exists (a ++ before), rest, v, n. by rewrite app_assoc.
Qed.

Lemma qtp_loop_panics {DT : Dicttls} fuel (r : bytesReader) q w :
  qtp_loop fuel r q = Some (Panic w) → absurd_length (br_rest r).
Proof.
  revert r q. induction fuel as [|fuel IH]; intros r q; cbn [qtp_loop]; (case_goal; [done|]); [done|].
  destruct (ReadNextVLI_parse r I) as (r1 & -> & Hs1 & _). cbn [stream bytesReader_stream] in *.
  destruct (vli_parse_suffix (br_rest r)) as [d1 Hd1].
  destruct (vli_parse (br_rest r)) as [[[t n]|e|w1] s1] eqn:E1; cbn [fst snd] in *;
    [|done|by apply vli_parse_no_panic in E1].
  rewrite Hd1. destruct (ReadNextVLI_parse r1 I) as (r2 & -> & Hs2 & _). cbn [stream bytesReader_stream] in *.
  rewrite Hs1 in Hs2 |- *. destruct (vli_parse_suffix s1) as [d2 Hd2].
  destruct (vli_parse s1) as [[[l n']|e|w1] s2] eqn:E2; cbn [fst snd] in *;
    [|done|by apply vli_parse_no_panic in E2].
  cbv zeta. destruct (l =? 0) eqn:El; [intros H%IH; rewrite Hd2, <- Hs2; by do 2 apply absurd_length_app|].
  unfold make_bytes. destruct ((l <? 0) || (maxAlloc <? l)) eqn:Em.
  { intros _. exists d1, s1, l, n'. split; [done|]. destruct (ReadNextVLI_parse (NewReader s1) I) as (r' & -> & _).
    cbn [stream bytesReader_stream fst]. rewrite br_rest_NewReader, E2. split; [done|].
    apply orb_true_iff in Em as [Em|Em]; bool_facts; lia. }
  destruct (io_read r2 (Z.to_nat l)) as [[d [e|]] r3] eqn:Er; [done|].
  apply read_stream in Er as [Hs3 _]. cbn [stream bytesReader_stream] in Hs3.
  case_goal; [done|]. destruct (store_param _ _ _) as [q'|e|w1] eqn:Es; [|done|].
  - intros H%IH. rewrite Hd2, <- Hs2, Hs3. by do 3 apply absurd_length_app.
  - exfalso. revert Es. destruct (copy_into (replicate (Z.to_nat l) 0) d) as [|b v] eqn:Ec; [|done].
    apply (f_equal length) in Ec. rewrite length_copy_into, length_replicate in Ec. simpl in Ec.
    bool_facts. lia.
Qed.

(** ** Properties *)

(** Parsing always ends, with a structure (which may carry an error) or - when a value
    announces more than the runtime can allocate - with a panic. *)
Theorem ParseQUICTransportParameters_total (DT : Dicttls) p :
  (∃ q, ParseQUICTransportParameters p = Some (Ok q)) ∨
  ParseQUICTransportParameters p = Some (Panic "makeslice: len out of range").
Proof. by apply qtp_loop_total. Qed.

(** C21: Every list of parameters a client can encode, with whatever integer sizes, is parsed
    completely: the identifiers come out sorted with GREASE replaced, each known
    parameter with its last non-empty value (length bits cleared), and the identifier is
    the hash of exactly these numbers. *)
Theorem ParseQUICTransportParameters_roundtrip (DT : Dicttls) ps :
  DicttlsRegistered DT → Forall param_ok ps →
  let ids := sort_ints ((λ p, if IsGREASETransportParameter (p_id p) then 27 else p_id p) <$> ps) in
  let n := sum64 (flat_map (be_encode 8) (ids ++ ((λ id, vliToU64 (last_value id ps)) <$>
             [0x01; 0x03; 0x04; 0x05; 0x06; 0x07; 0x08; 0x09; 0x0a; 0x0b; 0x0e]))) in
  ParseQUICTransportParameters (flat_map encode_param ps) =
    Some (Ok (stored ps ids (AsHex (s64 n)) n None)).
Proof.
  intros ? Hok. cbv zeta. rewrite Parse_encode by done. do 2 f_equal.
  change empty_qtp with (with_ids [] empty_qtp) at 1. rewrite foldl_apply_param, store_stored, app_nil_l.
  unfold stored, with_ids, qtp_finish, qtp_calcNumericID. rewrite !qtp_preimage_flat.
  cbn [QTPIDs MaxIdleTimeout MaxUDPPayloadSize InitialMaxData InitialMaxStreamDataBidiLocal
    InitialMaxStreamDataBidiRemote InitialMaxStreamDataUni InitialMaxStreamsBidi
    InitialMaxStreamsUni AckDelayExponent MaxAckDelay ActiveConnectionIDLimit fmap list_fmap].
  done.
Qed.

Definition sample_params : list param :=
  [mkParam 9 [0x40; 0x67] 1 1; mkParam 15 [] 1 1; mkParam 1 [0x80; 0; 0x75; 0x30] 1 1;
   mkParam 58 [0x96] 8 2].

Lemma ParseQUICTransportParameters_roundtrip_witness :
  let n := sum64 (flat_map (be_encode 8) ([1; 9; 15; 27] ++ [30000; 0; 0; 0; 0; 0; 0; 103; 0; 0; 0])) in
  @ParseQUICTransportParameters dicttls_ref (flat_map encode_param sample_params) =
    Some (Ok (stored sample_params [1; 9; 15; 27] (AsHex (s64 n)) n None)).
Proof.
  exact (ParseQUICTransportParameters_roundtrip dicttls_ref sample_params
           dicttls_ref_registered ltac:(decide_now)).
Defined.

(** C13: The transport-parameter fingerprint ignores what clients randomise: the order of the
    parameters, and which GREASE identifiers they use with which values and encodings. *)
Theorem qtp_order_and_GREASE (DT : Dicttls) ps ps' qs :
  DicttlsRegistered DT →
  Forall param_ok ps → Forall param_ok qs → NoDup (p_id <$> ps) →
  ps ≡ₚ ps' → Forall2 grease_equiv ps' qs →
  ParseQUICTransportParameters (flat_map encode_param ps) =
  ParseQUICTransportParameters (flat_map encode_param qs).
Proof.
  intros ? Hps Hqs Hnd P G. rewrite !Parse_encode by done. do 2 f_equal.
  change empty_qtp with (with_ids [] empty_qtp). rewrite !foldl_apply_param, !app_nil_l.
  rewrite (store_perm ps ps') by done. destruct (store_grease _ _ empty_qtp G) as [-> <-].
  apply qtp_finish_ids. by rewrite P.
Qed.

Lemma qtp_order_and_GREASE_witness :
  @ParseQUICTransportParameters dicttls_ref (flat_map encode_param sample_params) =
  @ParseQUICTransportParameters dicttls_ref (flat_map encode_param
    [mkParam 1 [0x80; 0; 0x75; 0x30] 1 1; mkParam 27 [] 1 1; mkParam 9 [0x40; 0x67] 1 1;
     mkParam 15 [] 1 1]).
Proof.
  apply (qtp_order_and_GREASE dicttls_ref sample_params
    [mkParam 1 [0x80; 0; 0x75; 0x30] 1 1; mkParam 58 [0x96] 8 2; mkParam 9 [0x40; 0x67] 1 1;
     mkParam 15 [] 1 1]); [apply _|decide_now|decide_now|decide_now| |].
  - unfold sample_params. symmetry.
    eapply Permutation_trans; [apply Permutation_cons; [reflexivity|apply perm_swap]|].
    eapply Permutation_trans; [apply perm_swap|]. apply perm_skip.
    eapply Permutation_trans; [apply Permutation_cons; [reflexivity|apply perm_swap]|].
    apply perm_swap.
  - constructor; [left; reflexivity|]. constructor; [right; split; reflexivity|].
    do 2 (constructor; [left; reflexivity|]). constructor.
Defined.

(** A value length that the runtime cannot allocate is not checked against the bytes that
    are left: after any well-formed parameters it makes the parser panic. *)
Theorem qtp_length_panics (DT : Dicttls) ps id n m l rest :
  Forall param_ok ps → vli_fits n id → vli_fits m l → maxAlloc < l →
  ParseQUICTransportParameters
    (flat_map encode_param ps ++ vli_encode n id ++ vli_encode m l ++ rest) =
  Some (Panic "makeslice: len out of range").
Proof.
  intros Hok Hid Hl Hmax.
  destruct (Parse_encode_app ps (vli_encode n id ++ vli_encode m l ++ rest) Hok)
    as (fuel & r & Hf & Hr & ->).
  pose proof (vli_encode_nonempty n id (vli_encode m l ++ rest) Hid) as Hne.
  destruct fuel as [|fuel].
  { destruct (vli_encode n id ++ _); [done|simpl in Hf; lia]. }
  cbn [qtp_loop]. rewrite (br_Len_pos _ _ _ _ Hid Hr).
  destruct (ReadNextVLI_encode r _ _ _ Hr Hid) as (r1 & -> & Hr1).
  destruct (ReadNextVLI_encode r1 _ _ _ Hr1 Hl) as (r2 & -> & Hr2). cbv zeta.
  unfold make_bytes. rewrite (proj2 (Z.eqb_neq l 0)), (proj2 (Z.ltb_lt maxAlloc l)), orb_true_r
    by (unfold maxAlloc in *; lia). done.
Qed.

Lemma qtp_length_panics_witness :
  @ParseQUICTransportParameters dicttls_ref
    (flat_map encode_param sample_params ++ vli_encode 1 4 ++ vli_encode 8 (2 ^ 62 - 1) ++ []) =
  Some (Panic "makeslice: len out of range").
Proof.
  apply (qtp_length_panics dicttls_ref sample_params 4 1 8 (2 ^ 62 - 1) []); decide_now.
Defined.

(** quic_transport_parameters_test.go: the parameters of Chrome 120. *)
Example qtp_Chrome120 :
  (λ q, (QTPIDs q, qtp_HexID q, qtp_NumID q, parseError q)) <$>
  match @ParseQUICTransportParameters dicttls_ref
    [0x09; 0x02; 0x40; 0x67; 0x0f; 0x00; 0x01; 0x04; 0x80; 0x00; 0x75; 0x30;
     0x05; 0x04; 0x80; 0x60; 0x00; 0x00;
     0xe2; 0xd0; 0x11; 0x38; 0x87; 0x0c; 0x6f; 0x9f; 0x01; 0x96;
     0x07; 0x04; 0x80; 0x60; 0x00; 0x00; 0x71; 0x28; 0x04; 0x52; 0x56; 0x43; 0x4d;
     0x03; 0x02; 0x45; 0xc0; 0x20; 0x04; 0x80; 0x01; 0x00; 0x00; 0x08; 0x02; 0x40; 0x64;
     0x80; 0xff; 0x73; 0xdb; 0x0c; 0x00; 0x00; 0x00; 0x01; 0xba; 0xca; 0x5a; 0x5a; 0x00; 0x00; 0x00; 0x01;
     0x80; 0x00; 0x47; 0x52; 0x04; 0x00; 0x00; 0x00; 0x01;
     0x06; 0x04; 0x80; 0x60; 0x00; 0x00; 0x04; 0x04; 0x80; 0xf0; 0x00; 0x00] with
  | Some (Ok q) => Some q
  | _ => None
  end =
  Some ([1; 3; 4; 5; 6; 7; 8; 9; 15; 27; 32; 0x3128; 0x4752; 0xff73db],
        "99ba8100cb63d949"%string, 11077308073883457865, None).
Proof. vm_compute. reflexivity. Qed.
