(* ===== verification/QuicClientHello.v ===== *)
(** * ClientHellos carried by QUIC

    quic_clienthello.go, and [Reconstruct] of quic_clienthello_reconstructor.go: a
    reassembled ClientHello is given the record header it does not have on the wire and
    parsed like a TLS one. *)
From S2P Require Import Prelude GoIO Frames Reconstructor External TransportParams ClientHello.

Record QUICClientHello := mkQUICClientHello { qch_ClientHello : ClientHello }.

Section quic_clienthello.
Context {CB : Cryptobyte} {DT : Dicttls} {UT : Utls}.

(** The record is [make([]byte, 5+len(p))] with its first five bytes assigned and [p]
    copied behind them. *)
Definition ParseQUICClientHello (p : bytes) : outcome QUICClientHello :=
  let! record := make_bytes (5 + len p) in
  let record := copy_into record
    ([0x16; 0x00; 0x00; u8 (Z.shiftr (len p) 8); u8 (len p)] ++ p) in
  match ReadClientHello 3 (NewReader record) with
  | None => Panic "out of fuel"
  | Some (_, Some err, _) => Err err
  | Some (raw, None, _) =>
    let! (ch, err) := ParseClientHello (set_raw raw new_ClientHello) in
    match err with
    | Some err => Err err
    | None =>
      match qtp ch with
      | None => Err ErrNotQUICInitialPacket
      | Some q =>
        match ParseError q with
        | Some err => Err err
        | None => Ok (mkQUICClientHello ch)
        end
      end
    end
  end.

Definition QUICClientHello_Raw (qch : QUICClientHello) : outcome bytes :=
  go_slice 5 (len (Raw (qch_ClientHello qch))) (Raw (qch_ClientHello qch)).

Definition Reconstruct (qchr : QUICClientHelloReconstructor) : outcome QUICClientHello :=
  match ReconstructAsBytes qchr with
  | Some (b :: l) => ParseQUICClientHello (b :: l)
  | _ => Err ErrNeedMoreFrames
  end.
End quic_clienthello.

(** ** Lemmas *)

Lemma ReadClientHello_record version body rest :
  len version = 2 → len body < 2 ^ 16 →
  ∃ r, ReadClientHello 3 (NewReader (0x16 :: version ++ be_encode 2 (len body) ++ body ++ rest)) =
       Some (0x16 :: version ++ be_encode 2 (len body) ++ body, None, r).
Proof.
  intros Hv Hb. set (hdr := 0x16 :: version ++ be_encode 2 (len body)).
  assert (length hdr = 5%nat) as Hh by (unfold hdr; rewrite length_cons, length_app, length_be_encode; lia).
  replace (0x16 :: version ++ be_encode 2 (len body) ++ body ++ rest) with (hdr ++ body ++ rest)
    by (unfold hdr; by rewrite <- !app_comm_cons, <- !app_assoc).
  unfold ReadClientHello.
  destruct (ReadFull_bytesReader (NewReader (hdr ++ body ++ rest)) 5) as (r1 & -> & Hr1).
  rewrite br_rest_NewReader in *. rewrite <- Hh in Hr1. rewrite drop_app_length in Hr1.
  replace (take 5 (hdr ++ body ++ rest)) with hdr by (rewrite <- Hh; by rewrite take_app_length).
  rewrite (proj2 (Nat.leb_le 5 _)) by len_solve. rewrite copy_into_full by by rewrite length_replicate.
  assert (Z.to_nat (be_decode (slice 3 5 hdr)) = length body) as Hn.
  { unfold hdr. clear -Hv Hb. destruct version as [|v0 [|v1 [|]]]; simpl in Hv; try lia.
    change (slice 3 5 _) with (be_encode 2 (len body)).
    rewrite be_decode_encode, Z.mod_small by (simpl; lia). lia. }
  change (hd 0 hdr) with 0x16. cbn [negb Z.eqb Pos.eqb]. rewrite Hn.
  destruct (ReadFull_bytesReader r1 (length body)) as (r2 & -> & _). rewrite Hr1.
  rewrite (proj2 (Nat.leb_le _ _)) by len_solve. rewrite take_app_length.
  rewrite copy_into_full by by rewrite length_replicate. exists r2.
  unfold hdr. by rewrite <- !app_comm_cons, <- !app_assoc.
Qed.

Lemma patched_length (p : bytes) : [u8 (Z.shiftr (len p) 8); u8 (len p)] = be_encode 2 (len p).
Proof. unfold u8. cbn [be_encode]. by rewrite Z.shiftr_0_r. Qed.

Section lemmas.
Context {CB : Cryptobyte} {DT : Dicttls} {UT : Utls}.

(** The header that is put in front of a message of fewer than 64 KiB is the right one. *)
Lemma ParseQUICClientHello_spec p :
  len p < 2 ^ 16 →
  ParseQUICClientHello p =
    let! (ch, err) := ParseClientHello (set_raw ([0x16; 0; 0] ++ be_encode 2 (len p) ++ p) new_ClientHello) in
    match err, qtp ch with
    | Some err, _ => Err err
    | None, None => Err ErrNotQUICInitialPacket
    | None, Some q => match ParseError q with Some err => Err err | None => Ok (mkQUICClientHello ch) end
    end.
Proof.
  intros Hp. unfold ParseQUICClientHello.
  rewrite make_bytes_ok by (unfold maxAlloc; lia). cbn [obind].
  rewrite copy_into_full by (rewrite length_replicate, length_app; cbn [length]; lia).
  change ([0x16; 0x00; 0x00; ?a; ?b] ++ p) with ([0x16; 0; 0] ++ [a; b] ++ p).
  rewrite patched_length.
  destruct (ReadClientHello_record [0; 0] p [] eq_refl Hp) as [r Hr]. rewrite app_nil_r in Hr.
  change (0x16 :: [0; 0] ++ ?t) with ([0x16; 0; 0] ++ t) in Hr. rewrite Hr.
  apply obind_ext. intros [ch [e|]]; [done|]. by destruct (qtp ch).
Qed.
End lemmas.

(** ** Properties *)

(** C33: A QUIC ClientHello that is accepted carries parseable transport parameters, and its
    raw bytes are the reassembled message: the record header that was added for the
    parser is removed again. *)
Theorem ParseQUICClientHello_raw (CB : Cryptobyte) (DT : Dicttls) (UT : Utls) p q :
  len p < 2 ^ 16 → ParseQUICClientHello p = Ok q →
  QUICClientHello_Raw q = Ok p ∧
  ∃ t, qtp (qch_ClientHello q) = Some t ∧ ParseError t = None.
Proof.
  intros Hp. rewrite ParseQUICClientHello_spec by done.
  destruct (ParseClientHello _) as [[ch [e|]]|e|w] eqn:E; cbn [obind]; try done.
  destruct (qtp ch) as [t|] eqn:Et; [|done]. destruct (ParseError t) eqn:Ep; [done|].
  intros [= <-]. unfold QUICClientHello_Raw. cbn [qch_ClientHello].
  apply ParseClientHello_raw in E. split; [|by exists t].
  unfold Raw. rewrite E. change (raw (set_raw ?x new_ClientHello)) with x.
  rewrite app_assoc.
  assert (len ([0x16; 0; 0] ++ be_encode 2 (len p)) = 5) as H5
    by by rewrite length_app, length_be_encode.
  rewrite go_slice_ok by (rewrite ?length_app in *; lia). f_equal. unfold slice.
  replace (Z.to_nat 5) with (length ([0x16; 0; 0] ++ be_encode 2 (len p))) by lia.
  rewrite drop_app_length, take_ge; [done|]. rewrite length_app. lia.
Qed.

(** uTLS on a hello whose only extension is the transport parameters. *)
Definition utls_quic : Utls := {|
  RawClientHello _ := Ok (mkSpec [0x1301] [0] [GenericExtension 57 (flat_map encode_param sample_params)]);
  tls_UnmarshalClientHello _ := inl (Some []);
  GREASE_PLACEHOLDER := 0x0a0a
|}.

Definition sample_message : bytes :=
  drop 5 (encode_hello sample_hello [(57, flat_map encode_param sample_params)]).

Lemma ParseQUICClientHello_raw_witness :
  ∃ q, @ParseQUICClientHello cryptobyte_ref dicttls_ref utls_quic sample_message = Ok q ∧
  QUICClientHello_Raw q = Ok sample_message ∧
  ∃ t, qtp (qch_ClientHello q) = Some t ∧ ParseError t = None.
Proof.
  destruct (@ParseQUICClientHello cryptobyte_ref dicttls_ref utls_quic sample_message) as [q|e|w] eqn:E;
    [|exfalso; vm_compute in E; discriminate E..].
  exists q. split; [reflexivity|].
  apply (ParseQUICClientHello_raw cryptobyte_ref dicttls_ref utls_quic sample_message q);
    [vm_compute; reflexivity|exact E].
Defined.

(** The two length bytes of the added record header wrap around: of a message of 64 KiB
    or more (the reconstructor lets 64 KiB through) only what exceeds 64 KiB is parsed -
    of exactly 64 KiB, nothing. *)
Theorem ParseQUICClientHello_wraps (CB : Cryptobyte) (DT : Dicttls) (UT : Utls) p :
  2 ^ 16 <= len p < 2 ^ 17 →
  ParseQUICClientHello p = ParseQUICClientHello (take (Z.to_nat (len p - 2 ^ 16)) p).
Proof.
  intros Hp. set (t := take (Z.to_nat (len p - 2 ^ 16)) p).
  assert (len t = len p - 2 ^ 16) as Ht by (unfold t; len_solve).
  rewrite (ParseQUICClientHello_spec t) by lia. unfold ParseQUICClientHello.
  rewrite make_bytes_ok by (unfold maxAlloc; lia). cbn [obind].
  rewrite copy_into_full by (rewrite length_replicate, length_app; cbn [length]; lia).
  change ([0x16; 0x00; 0x00; ?a; ?b] ++ p) with ([0x16; 0; 0] ++ [a; b] ++ p).
  rewrite patched_length.
  assert (be_encode 2 (len p) = be_encode 2 (len t)) as ->.
  { rewrite <- (be_encode_mod 2 (len p)), <- (be_encode_mod 2 (len t)), Ht. f_equal.
    change (256 ^ Z.of_nat 2) with (2 ^ 16). replace (len p) with (len p - 2 ^ 16 + 1 * 2 ^ 16) at 1 by lia.
    apply Z.mod_add. lia. }
  rewrite <- (take_drop (Z.to_nat (len p - 2 ^ 16)) p). fold t.
  destruct (ReadClientHello_record [0; 0] t (drop (Z.to_nat (len p - 2 ^ 16)) p)) as [r Hr]; [done|lia|].
  change (0x16 :: [0; 0] ++ ?t) with ([0x16; 0; 0] ++ t) in Hr. rewrite Hr.
  apply obind_ext. intros [ch [e|]]; [done|]. by destruct (qtp ch).
Qed.

Lemma ParseQUICClientHello_wraps_witness :
  @ParseQUICClientHello cryptobyte_ref dicttls_ref utls_ref (replicate (Z.to_nat 65536) 1) =
  @ParseQUICClientHello cryptobyte_ref dicttls_ref utls_ref
    (take (Z.to_nat (len (replicate (Z.to_nat 65536) 1) - 2 ^ 16)) (replicate (Z.to_nat 65536) 1)).
Proof.
  apply (ParseQUICClientHello_wraps cryptobyte_ref dicttls_ref utls_ref (replicate (Z.to_nat 65536) 1)).
  rewrite length_replicate, Z2Nat.id; lia.
Defined.
