(* ===== verification/Gather.v ===== *)
(** * Gathering the Initial packets of a connection

    quic_client_initial.go, [GatheredClientInitials.calcNumericID] of
    fingerprint_hash.go and [GenerateQUICFingerprint] of quic_fingerprint.go.  The
    methods run under the structure's mutex, so each is one state transition; times are
    nanoseconds, the zero [time.Time] is 0. *)
From S2P Require Import Prelude GoIO Utils VLI Frames Reconstructor GoCrypto External QuicCrypto QuicHeader.
From S2P Require Import FingerprintHash TransportParams ClientHello QuicClientHello.

(** ** Data *)

Record ClientInitial := mkClientInitial {
  Header : QUICHeader;
  ci_FrameTypes : list Z;
  ci_frames : list QUICFrame;
  ci_raw : bytes
}.

Definition pn (ci : ClientInitial) : Z := initialPacketNumber (Header ci).

Record GatheredClientInitials := mkGathered {
  Packets : list ClientInitial;
  maxPacketNumber : Z;
  maxPacketCount : Z;
  pnBase : Z;
  pnBaseSet : bool;
  clientHelloReconstructor : QUICClientHelloReconstructor;
  gci_ClientHello : option QUICClientHello;
  TransportParameters : option QUICTransportParameters;
  gci_HexID : string;
  gci_NumID : Z;
  deadline : Z;
  completed : bool;
  completeChan_closed : bool
}.

Definition DEFAULT_MAX_INITIAL_PACKET_NUMBER : Z := 32.
Definition DEFAULT_MAX_INITIAL_PACKET_COUNT : Z := 4.

Definition GatherClientInitials : GatheredClientInitials :=
  mkGathered [] DEFAULT_MAX_INITIAL_PACKET_NUMBER DEFAULT_MAX_INITIAL_PACKET_COUNT 0 false
    NewQUICClientHelloReconstructor None None "" 0 0 false false.

Definition SetDeadline (d : Z) (g : GatheredClientInitials) : GatheredClientInitials :=
  let 'mkGathered p mn mc b bs r ch tp hex num _ c cc := g in
  mkGathered p mn mc b bs r ch tp hex num d c cc.

Definition SetMaxPacketNumber (n : Z) (g : GatheredClientInitials) : GatheredClientInitials :=
  let 'mkGathered p _ mc b bs r ch tp hex num d c cc := g in
  mkGathered p n mc b bs r ch tp hex num d c cc.

Definition SetMaxPacketCount (n : Z) (g : GatheredClientInitials) : GatheredClientInitials :=
  let 'mkGathered p mn _ b bs r ch tp hex num d c cc := g in
  mkGathered p mn n b bs r ch tp hex num d c cc.

Definition GatherClientInitialsWithDeadline (d : Z) : GatheredClientInitials :=
  SetDeadline d GatherClientInitials.

Definition Completed (g : GatheredClientInitials) : bool := completed g.

(** [time.Now().After(gci.deadline)]. *)
Definition Expired (now : Z) (g : GatheredClientInitials) : bool := deadline g <? now.

Definition pnDistance (a b : Z) : Z := if b <? a then u64 (a - b) else u64 (b - a).

(** The assignments of [AddPacket]. *)
Definition set_base (b : Z) (g : GatheredClientInitials) : GatheredClientInitials :=
  let 'mkGathered p mn mc _ _ r ch tp hex num d c cc := g in
  mkGathered p mn mc b true r ch tp hex num d c cc.

Definition set_Packets (p : list ClientInitial) (g : GatheredClientInitials) : GatheredClientInitials :=
  let 'mkGathered _ mn mc b bs r ch tp hex num d c cc := g in
  mkGathered p mn mc b bs r ch tp hex num d c cc.

Definition set_reconstructor (r : QUICClientHelloReconstructor) (g : GatheredClientInitials) :=
  let 'mkGathered p mn mc b bs _ ch tp hex num d c cc := g in
  mkGathered p mn mc b bs r ch tp hex num d c cc.

(** The assignments of [lockedGatherComplete] when it succeeds. *)
Definition set_complete (ch : QUICClientHello) (num : Z) (g : GatheredClientInitials) :=
  let 'mkGathered p mn mc b bs r _ _ _ _ d _ _ := g in
  mkGathered p mn mc b bs r (Some ch) (qtp (qch_ClientHello ch)) (AsHex (s64 num)) num d true true.

Definition clear_ClientHello (g : GatheredClientInitials) : GatheredClientInitials :=
  let 'mkGathered p mn mc b bs r _ tp hex num d c cc := g in
  mkGathered p mn mc b bs r None tp hex num d c cc.

(** ** Operations *)

(** The header identifier of the packet with the lowest number. *)
Definition gci_preimage (ci : ClientInitial) : bytes :=
  let h := h_Write [] (Version (Header ci)) in
  let h := updateU32 h (DCIDLength (Header ci)) in
  let h := updateU32 h (SCIDLength (Header ci)) in
  let h := updateU32 h (initialPacketNumberLength (Header ci)) in
  let h := h_Write h (dedupUint8 (sort_ints (FrameTypesUint8 (ci_frames ci)))) in
  if HasToken (Header ci) then h_Write h [1] else h_Write h [0].

Definition gci_calcNumericID (g : GatheredClientInitials) : outcome Z :=
  match Packets g with
  | [] => Panic "index out of range"
  | ci :: _ => Ok (sum64 (gci_preimage ci))
  end.

(** How a method with an error result ends: it returns ([None] is [nil]) or panics; the
    state it leaves behind matters in both cases. *)
Inductive ret :=
  | Return (err : option goerror)
  | Panicked (why : string).

#[global] Instance ret_eq_dec : EqDecision ret.
Proof. solve_decision. Defined.

Section gather.
Context {CB : Cryptobyte} {HK : Hkdf} {DT : Dicttls} {UT : Utls}.

Definition UnmarshalQUICClientInitialPacket (p : bytes) : outcome ClientInitial :=
  let! (hdr, frames) := DecodeQUICHeaderAndFrames p in
  Ok (mkClientInitial hdr (FrameTypes frames) frames p).

Definition lockedGatherComplete (g : GatheredClientInitials) : ret * GatheredClientInitials :=
  match Reconstruct (clientHelloReconstructor g) with
  | Panic w => (Panicked w, g)
  | Err err => (Return (Some (fmt_Errorf "failed to reconstruct ClientHello" err)), clear_ClientHello g)
  | Ok ch =>
    match gci_calcNumericID g with
    | Ok num => (Return None, set_complete ch num g)
    | Err err => (Return (Some err), g)
    | Panic w => (Panicked w, g)
    end
  end.

(** [sort.Slice] has one result here: the packet numbers are distinct
    ([gather_invariant]). *)
Definition AddPacket (now : Z) (cip : ClientInitial) (g : GatheredClientInitials)
    : ret * GatheredClientInitials :=
  if Expired now g then (Return (Some ErrGatheringExpired), g)
  else match gci_ClientHello g with
  | Some _ => (Return None, g)
  | None =>
    let g := if pnBaseSet g then g else set_base (pn cip) g in
    if (maxPacketNumber g <? pnDistance (pn cip) (pnBase g)) || (maxPacketCount g <=? len (Packets g))
    then (Return (Some ErrPacketRejected), g)
    else if existsb (λ p, pn p =? pn cip) (Packets g) then (Return None, g)
    else
      let g := set_Packets (sort_by pn (Packets g ++ [cip])) g in
      let '(err, r) := FromFrames (clientHelloReconstructor g) (ci_frames cip) in
      let g := set_reconstructor r g in
      match err with
      | Some err =>
        if errors_Is err ErrNeedMoreFrames then (Return None, g)
        else (Return (Some (fmt_Errorf "failed to reassemble ClientHello" err)), g)
      | None => lockedGatherComplete g
      end
  end.

(** ** Waiting and the combined fingerprint *)

(** [Wait], called in state [g]: it returns at once when complete; otherwise the timer or
    the closing of the channel ends it, in state [g'] at time [now]. *)
Inductive Wait (g : GatheredClientInitials) : GatheredClientInitials → Z → option goerror → Prop :=
  | Wait_completed now : completed g = true → Wait g g now None
  | Wait_timer g' now :
    completed g = false → deadline g <= now → Wait g g' now (Some ErrGatheringExpired)
  | Wait_channel g' now :
    completed g = false → completeChan_closed g' = true →
    Wait g g' now (if completed g' then None
                   else Some ErrGatheredClientInitialsChannelClosedBeforeCompletion).

Record QUICFingerprint := mkFingerprint {
  ClientInitials : GatheredClientInitials;
  qfp_HexID : string;
  qfp_NumID : Z;
  qfp_UserAgent : bytes
}.

(** The hash over the three identifiers; a [nil] ClientHello or [nil] transport
    parameters would be dereferenced. *)
Definition fingerprint_of (g : GatheredClientInitials) : outcome QUICFingerprint :=
  match gci_ClientHello g, TransportParameters g with
  | Some ch, Some tp =>
    let h := updateU64 [] (gci_NumID g) in
    let h := updateU64 h (u64 (NormNumID (qch_ClientHello ch))) in
    let h := updateU64 h (qtp_NumID tp) in
    Ok (mkFingerprint g (AsHex (s64 (sum64 h))) (sum64 h) [])
  | _, _ => Panic "nil pointer dereference"
  end.

(** [GenerateQUICFingerprint(gci)], called in state [g] and returning in state [g']. *)
Inductive GenerateQUICFingerprint (g : GatheredClientInitials)
    : GatheredClientInitials → Z → outcome QUICFingerprint → Prop :=
  | Generate_wait_failed g' now e :
    Wait g g' now (Some e) → GenerateQUICFingerprint g g' now (Err e)
  | Generate_waited g' now :
    Wait g g' now None → GenerateQUICFingerprint g g' now (fingerprint_of g').
End gather.

(** ** Invariant *)

(** Packets as the decoder produces them. *)
Definition ci_ok (ci : ClientInitial) : Prop :=
  0 <= pn ci < 2 ^ 64 ∧ Forall frame_wf (ci_frames ci).

Record gather_inv (g : GatheredClientInitials) : Prop := {
  gi_sorted : sorted_by pn (Packets g);
  gi_distinct : NoDup (pn <$> Packets g);
  gi_base : pnBaseSet g = false → Packets g = [];
  gi_reconstructor : wf (clientHelloReconstructor g);
  gi_complete : completed g = completeChan_closed g ∧
    completed g = bool_decide (is_Some (gci_ClientHello g));
  gi_result : ∀ ch, gci_ClientHello g = Some ch →
    Packets g ≠ [] ∧ gci_calcNumericID g = Ok (gci_NumID g) ∧
    gci_HexID g = AsHex (s64 (gci_NumID g)) ∧
    TransportParameters g = qtp (qch_ClientHello ch) ∧
    ∃ tp, TransportParameters g = Some tp ∧ ParseError tp = None
}.

Lemma FromFrames_wf q frames :
  wf q → Forall frame_wf frames → wf (snd (FromFrames q frames)).
Proof.
  intros Hq Hf. revert q Hq. induction Hf as [|f frames Hf Hfs IH]; intros q Hq; [done|].
  destruct f as [L| |off L d]; cbn [FromFrames]; [by apply IH..|].
  destruct Hf as (Ho & HL & Hd & Hw). unfold maxAlloc in HL.
  pose proof (AddCRYPTOFragment_wf q off d Hq Hw ltac:(lia) ltac:(lia)) as Hq'.
  destruct (AddCRYPTOFragment q off d) as [[err|] q']; [done|by apply IH].
Qed.

Lemma sort_by_insert l ci :
  NoDup (pn <$> l) → existsb (λ p, pn p =? pn ci) l = false →
  sorted_by pn (sort_by pn (l ++ [ci])) ∧ NoDup (pn <$> sort_by pn (l ++ [ci])) ∧
  sort_by pn (l ++ [ci]) ≡ₚ ci :: l.
Proof.
  intros Hnd Hex. destruct (sort_by_result pn (l ++ [ci])) as [P S].
  split; [done|]. assert (sort_by pn (l ++ [ci]) ≡ₚ ci :: l) as P'
    by (rewrite P; symmetry; apply Permutation_cons_append).
  split; [|done]. rewrite P', fmap_cons. apply NoDup_cons. split; [|done].
  intros (p & Hp & Hin)%list_elem_of_fmap. apply not_true_iff_false in Hex. apply Hex.
  apply existsb_exists. exists p. split; [by apply list_elem_of_In|]. by apply Z.eqb_eq.
Qed.

Section invariant.
Context {CB : Cryptobyte} {DT : Dicttls} {UT : Utls}.

Lemma Reconstruct_qtp r ch :
  Reconstruct r = Ok ch → ∃ tp, qtp (qch_ClientHello ch) = Some tp ∧ ParseError tp = None.
Proof.
  unfold Reconstruct. destruct (ReconstructAsBytes r) as [[|b l]|]; [done| |done].
  unfold ParseQUICClientHello. destruct (make_bytes _); cbn [obind]; [|done..].
  destruct (ReadClientHello _ _) as [[[raw0 [e|]] r0]|]; [done| |done].
  destruct (ParseClientHello _) as [[c [e|]]| |]; cbn [obind]; try done.
  destruct (qtp c) as [tp|] eqn:Et; [|done]. destruct (ParseError tp) eqn:Ep; [done|].
  intros [= <-]. by exists tp.
Qed.

Lemma lockedGatherComplete_inv g :
  gather_inv g → gci_ClientHello g = None → Packets g ≠ [] → gather_inv (snd (lockedGatherComplete g)).
Proof.
  intros Hg Hch Hp. unfold lockedGatherComplete.
  destruct (Reconstruct (clientHelloReconstructor g)) as [ch|e|w] eqn:Er; cbn [snd]; [| |done].
  - destruct (gci_calcNumericID g) as [num|e|w] eqn:En; cbn [snd]; [|done..].
    apply Reconstruct_qtp in Er as (tp & Htp & Hpe). destruct Hg, g; simpl in *.
    split; simpl; try done. intros ch' [= <-]. rewrite Htp. split_and!; eauto.
  - destruct Hg, g; simpl in *. subst. by split.
Qed.

Lemma AddPacket_inv now ci g : ci_ok ci → gather_inv g → gather_inv (snd (AddPacket now ci g)).
Proof.
  intros [Hpn Hfr] Hg. unfold AddPacket.
  destruct (Expired now g); [done|]. destruct (gci_ClientHello g) eqn:Hch; [done|].
  set (g1 := if pnBaseSet g then g else set_base (pn ci) g).
  assert (gather_inv g1 ∧ pnBaseSet g1 = true ∧ gci_ClientHello g1 = None) as (Hg1 & Hb & Hch1).
  { unfold g1. destruct (pnBaseSet g) eqn:E; [done|]. destruct Hg, g; simpl in *. by split. }
  clearbody g1. cbv zeta. destruct (_ || _); [done|].
  destruct (existsb _ _) eqn:Hex; [done|].
  destruct (sort_by_insert (Packets g1) ci (gi_distinct _ Hg1) Hex) as (HS & HN & HP).
  set (ps := sort_by pn (Packets g1 ++ [ci])) in *.
  destruct (FromFrames _ _) as [err r] eqn:Ef.
  assert (wf r) as Hr.
  { replace r with (snd (FromFrames (clientHelloReconstructor (set_Packets ps g1)) (ci_frames ci)))
      by by rewrite Ef. apply FromFrames_wf; [|done]. destruct Hg1, g1. done. }
  assert (gather_inv (set_reconstructor r (set_Packets ps g1))) as Hg2.
  { destruct Hg1, g1; simpl in *. split; simpl; try done; congruence. }
  destruct err as [err|]; [case_goal; done|]. apply lockedGatherComplete_inv; [done|..].
  - by destruct g1.
  - destruct g1. simpl. intros ->. by apply Permutation_nil_cons in HP.
Qed.
End invariant.

(** ** Packets in any order *)

Section any_order.
Context {CB : Cryptobyte} {DT : Dicttls} {UT : Utls}.

(** Packets that arrive one after the other, with their times. *)
Fixpoint add_packets (arrivals : list (Z * ClientInitial)) (g : GatheredClientInitials)
    : list ret * GatheredClientInitials :=
  match arrivals with
  | [] => ([], g)
  | (now, ci) :: arrivals =>
    let '(r, g) := AddPacket now ci g in
    let '(rs, g) := add_packets arrivals g in (r :: rs, g)
  end.

(** A gathering that is under way: [seen] are the packets taken so far. *)
Definition under_way (d : Z) (seen : list ClientInitial) (r : QUICClientHelloReconstructor) :=
  mkGathered (sort_by pn seen) DEFAULT_MAX_INITIAL_PACKET_NUMBER DEFAULT_MAX_INITIAL_PACKET_COUNT
    (match seen with [] => 0 | c :: _ => pn c end) (match seen with [] => false | _ => true end)
    r None None "" 0 d false false.

(** Packets that fit together: distinct numbers close to each other, not too many. *)
Record fit (l : list ClientInitial) : Prop := {
  fit_distinct : NoDup (pn <$> l);
  fit_range : Forall (λ c, 0 <= pn c < 2 ^ 64) l;
  fit_close : ∀ a b, a ∈ l → b ∈ l → Z.abs (pn a - pn b) <= DEFAULT_MAX_INITIAL_PACKET_NUMBER;
  fit_count : Z.of_nat (length l) <= DEFAULT_MAX_INITIAL_PACKET_COUNT
}.

Lemma fit_perm l l' : l ≡ₚ l' → fit l → fit l'.
Proof.
  intros P []. split; [by rewrite <- P|by rewrite <- P|setoid_rewrite <- P; done|].
  by rewrite <- P.
Qed.

Lemma fit_app_l l l' : fit (l ++ l') → fit l.
Proof.
  intros []. rewrite fmap_app in fit_distinct0. apply NoDup_app in fit_distinct0 as (? & _ & _).
  apply Forall_app in fit_range0 as [? _]. rewrite length_app in fit_count0.
  split; [done|done| |lia]. intros a b Ha Hb. apply fit_close0; set_solver.
Qed.

Lemma pnDistance_abs a b : 0 <= a < 2 ^ 64 → 0 <= b < 2 ^ 64 → pnDistance a b = Z.abs (a - b).
Proof. intros Ha Hb. unfold pnDistance. case_goal; bool_facts; rewrite u64_small; lia. Qed.

Lemma sort_by_app l ci :
  NoDup (pn <$> l ++ [ci]) → sort_by pn (sort_by pn l ++ [ci]) = sort_by pn (l ++ [ci]).
Proof.
  intros Hnd. apply (sort_result_unique pn (l ++ [ci])); [done| |apply sort_by_result].
  destruct (sort_by_result pn (sort_by pn l ++ [ci])) as [P S]. split; [|done]. rewrite P.
  destruct (sort_by_result pn l) as [P' _]. by rewrite P'.
Qed.

(** What [AddPacket] does with a new packet of a set that fits. *)
Lemma AddPacket_under_way now d seen ci r :
  fit (seen ++ [ci]) → now <= d →
  AddPacket now ci (under_way d seen r) =
    let '(err, r') := FromFrames r (ci_frames ci) in
    match err with
    | Some err =>
      if errors_Is err ErrNeedMoreFrames then (Return None, under_way d (seen ++ [ci]) r')
      else (Return (Some (fmt_Errorf "failed to reassemble ClientHello" err)),
            under_way d (seen ++ [ci]) r')
    | None => lockedGatherComplete (under_way d (seen ++ [ci]) r')
    end.
Proof.
  intros Hfit Hnow. pose proof Hfit as [Hnd Hrange Hclose Hcount]. unfold AddPacket.
  unfold Expired. rewrite (proj2 (Z.ltb_ge _ _)) by (simpl; lia). cbn [gci_ClientHello under_way].
  set (g1 := if pnBaseSet (under_way d seen r) then _ else _).
  assert (g1 = mkGathered (sort_by pn seen) DEFAULT_MAX_INITIAL_PACKET_NUMBER
    DEFAULT_MAX_INITIAL_PACKET_COUNT (match seen ++ [ci] with [] => 0 | c :: _ => pn c end) true
    r None None "" 0 d false false) as -> by by destruct seen.
  cbn [maxPacketNumber maxPacketCount pnBase Packets clientHelloReconstructor set_Packets set_reconstructor].
  assert (length (sort_by pn seen) = length seen) as Hl.
  { destruct (sort_by_result pn seen) as [P _]. by rewrite P. }
  rewrite Hl. rewrite length_app in Hcount. simpl in Hcount.
  assert (pnDistance (pn ci) (match seen ++ [ci] with [] => 0 | c :: _ => pn c end)
          <= DEFAULT_MAX_INITIAL_PACKET_NUMBER) as Hdist.
  { destruct (seen ++ [ci]) as [|c l] eqn:E; [by destruct seen|].
    assert (ci ∈ c :: l) as H1 by (rewrite <- E; set_solver).
    assert (c ∈ c :: l) as H2 by constructor.
    rewrite Forall_forall in Hrange. rewrite pnDistance_abs by by apply Hrange. by apply Hclose. }
  rewrite (proj2 (Z.ltb_ge _ _)) by done. rewrite (proj2 (Z.leb_gt _ _)) by lia. cbn [orb].
  assert (existsb (λ p, pn p =? pn ci) (sort_by pn seen) = false) as ->.
  { apply not_true_iff_false. intros (p & Hp & Hpn)%existsb_exists. apply Z.eqb_eq in Hpn.
    rewrite fmap_app in Hnd. apply NoDup_app in Hnd as (_ & Hnd & _). apply (Hnd (pn ci)); [|constructor].
    apply list_elem_of_fmap. exists p. split; [done|].
    destruct (sort_by_result pn seen) as [P _]. rewrite <- P. by apply list_elem_of_In. }
  rewrite sort_by_app by done.
  replace (mkGathered (sort_by pn (seen ++ [ci])) _ _ _ true r None None "" 0 d false false)
    with (under_way d (seen ++ [ci]) r) by by destruct seen.
  destruct (FromFrames r (ci_frames ci)) as [err r'].
  replace (mkGathered (sort_by pn (seen ++ [ci])) _ _ _ true r' None None "" 0 d false false)
    with (under_way d (seen ++ [ci]) r') by by destruct seen. done.
Qed.

Lemma replicate_app_inv {A} (e1 e2 : list A) n x :
  e1 ++ e2 = replicate n x → e1 = replicate (length e1) x ∧ e2 = replicate (length e2) x.
Proof.
  intros E. assert (Forall (λ y, y = x) (e1 ++ e2)) as H by (rewrite E; by apply Forall_replicate).
  apply Forall_app in H as [H1 H2]. clear E.
  split; [clear H2; induction H1|clear H1; induction H2]; simpl; congruence.
Qed.

Lemma replicate_last_inv {A} (e1 e2 : list A) n x y :
  e1 ++ e2 = replicate n x ++ [y] → e2 ≠ [] →
  e1 = replicate (length e1) x ∧ e2 = replicate (length e2 - 1) x ++ [y].
Proof.
  intros E Hne. destruct e2 as [|z e2] using rev_ind; [done|]. clear IHe2.
  rewrite app_assoc in E. apply app_inj_tail in E as [E <-].
  apply replicate_app_inv in E as [-> E2]. split; [by rewrite length_replicate|].
  rewrite length_app. simpl. replace (length e2 + 1 - 1)%nat with (length e2) by lia. by rewrite <- E2.
Qed.

Definition packet_calls (l : list ClientInitial) : list (Z * bytes) :=
  flat_map (λ ci, crypto_calls (ci_frames ci)) l.

(** Packets that do not complete the message. *)
Lemma add_packets_more arrivals d seen r n r' :
  fit (seen ++ (snd <$> arrivals)) → Forall (λ a, fst a <= d) arrivals →
  add_all r (packet_calls (snd <$> arrivals)) = (replicate n None, r') →
  add_packets arrivals (under_way d seen r) =
    (replicate (length arrivals) (Return None), under_way d (seen ++ (snd <$> arrivals)) r').
Proof.
  revert seen r n. induction arrivals as [|[now ci] arrivals IH]; intros seen r n Hfit Hd Hadd.
  { simpl in *. injection Hadd as _ <-. by rewrite app_nil_r. }
  apply Forall_cons in Hd as [Hnow Hd]. rewrite fmap_cons in *. cbn [snd fst] in *.
  change (packet_calls (ci :: ?l)) with (crypto_calls (ci_frames ci) ++ packet_calls l) in Hadd.
  rewrite add_all_app in Hadd.
  destruct (add_all r (crypto_calls (ci_frames ci))) as [e1 r1] eqn:E1.
  destruct (add_all r1 (packet_calls (snd <$> arrivals))) as [e2 r2] eqn:E2.
  injection Hadd as He <-. apply replicate_app_inv in He as [He1 He2]. rewrite He1 in E1. rewrite He2 in E2.
  cbn [add_packets length]. change (ci :: (snd <$> arrivals)) with ([ci] ++ (snd <$> arrivals)) in *.
  rewrite app_assoc in Hfit. rewrite AddPacket_under_way by (done || by eapply fit_app_l).
  rewrite (FromFrames_more _ _ _ _ E1). cbn [errors_Is]. rewrite bool_decide_true by done. cbn [orb].
  rewrite (IH _ _ _ Hfit Hd E2), app_assoc. done.
Qed.

Lemma add_packets_app l1 l2 g :
  add_packets (l1 ++ l2) g =
  let '(r1, g1) := add_packets l1 g in let '(r2, g2) := add_packets l2 g1 in (r1 ++ r2, g2).
Proof.
  revert g. induction l1 as [|[now ci] l1 IH]; intros g; cbn [add_packets app].
  { by destruct (add_packets l2 g). }
  destruct (AddPacket now ci g) as [r g1]. rewrite IH.
  destruct (add_packets l1 g1) as [r1 g2]. by destruct (add_packets l2 g2).
Qed.

(** The state in which a gathering of the packets [ps] ends. *)
Definition gathered (d : Z) (base : Z) (ps : list ClientInitial) (r : QUICClientHelloReconstructor)
    (ch : QUICClientHello) : GatheredClientInitials :=
  let num := match sort_by pn ps with [] => 0 | ci :: _ => sum64 (gci_preimage ci) end in
  mkGathered (sort_by pn ps) DEFAULT_MAX_INITIAL_PACKET_NUMBER DEFAULT_MAX_INITIAL_PACKET_COUNT
    base true r (Some ch) (qtp (qch_ClientHello ch)) (AsHex (s64 num)) num d true true.

Lemma lockedGatherComplete_under_way d seen r ch :
  seen ≠ [] → Reconstruct r = Ok ch →
  ∃ base, lockedGatherComplete (under_way d seen r) = (Return None, gathered d base seen r ch).
Proof.
  intros Hne Hr. unfold lockedGatherComplete, gci_calcNumericID.
  cbn [clientHelloReconstructor under_way Packets]. rewrite Hr.
  destruct (sort_by_result pn seen) as [P _].
  destruct (sort_by pn seen) as [|ci l] eqn:E; [by apply Permutation_nil in P|].
  exists (match seen with [] => 0 | c :: _ => pn c end). unfold gathered, under_way, set_complete. rewrite E.
  destruct seen; done.
Qed.

(** The last packet completes the message. *)
Lemma add_packets_complete arrivals now ci d n r msg ch :
  fit ((snd <$> arrivals) ++ [ci]) → Forall (λ a, fst a <= d) arrivals → now <= d →
  crypto_calls (ci_frames ci) ≠ [] →
  add_all NewQUICClientHelloReconstructor (packet_calls ((snd <$> arrivals) ++ [ci])) =
    (replicate n None ++ [Some io_EOF], r) →
  ReconstructAsBytes r = Some msg → msg ≠ [] → ParseQUICClientHello msg = Ok ch →
  ∃ base, add_packets (arrivals ++ [(now, ci)]) (GatherClientInitialsWithDeadline d) =
    (replicate (length arrivals + 1) (Return None), gathered d base ((snd <$> arrivals) ++ [ci]) r ch).
Proof.
  intros Hfit Hd Hnow Hci Hadd Hmsg Hne Hch.
  unfold packet_calls in Hadd. rewrite flat_map_app in Hadd. cbn [flat_map] in Hadd.
  rewrite app_nil_r, add_all_app in Hadd.
  fold (packet_calls (snd <$> arrivals)) in Hadd.
  destruct (add_all NewQUICClientHelloReconstructor _) as [e1 r1] eqn:E1.
  pose proof (length_add_all r1 (crypto_calls (ci_frames ci))) as Hl2.
  destruct (add_all r1 _) as [e2 r2] eqn:E2. injection Hadd as He ->. cbn [fst] in Hl2.
  apply replicate_last_inv in He as [He1 He2]; [|by destruct e2, (crypto_calls (ci_frames ci))].
  rewrite He1 in E1. rewrite He2 in E2. rewrite add_packets_app.
  change (GatherClientInitialsWithDeadline d) with (under_way d [] NewQUICClientHelloReconstructor).
  rewrite (add_packets_more arrivals d [] _ _ _ (fit_app_l _ _ Hfit) Hd E1). cbn [app add_packets].
  rewrite AddPacket_under_way by done. rewrite (FromFrames_complete _ _ _ _ E2).
  destruct (lockedGatherComplete_under_way d ((snd <$> arrivals) ++ [ci]) r ch) as [base ->].
  - intros E. by apply app_eq_nil in E as [_ ?].
  - unfold Reconstruct. rewrite Hmsg. by destruct msg.
  - exists base. by rewrite replicate_add.
Qed.
End any_order.

(** ** Properties *)

Section bounds.
Context {CB : Cryptobyte} {DT : Dicttls} {UT : Utls}.

Lemma lockedGatherComplete_keeps g :
  let g' := snd (lockedGatherComplete g) in
  maxPacketNumber g' = maxPacketNumber g ∧ maxPacketCount g' = maxPacketCount g ∧
  Packets g' = Packets g ∧ pnBase g' = pnBase g ∧ pnBaseSet g' = pnBaseSet g.
Proof. unfold lockedGatherComplete. destruct g. repeat case_goal; done. Qed.

Lemma AddPacket_deadline now ci g : deadline (snd (AddPacket now ci g)) = deadline g.
Proof.
  unfold AddPacket. destruct (Expired now g); [done|]. destruct (gci_ClientHello g); [done|].
  set (g1 := if pnBaseSet g then g else set_base (pn ci) g).
  assert (deadline g1 = deadline g) as <- by (unfold g1; destruct (pnBaseSet g), g; done).
  clearbody g1. cbv zeta. destruct (_ || _); [done|]. destruct (existsb _ _); [done|].
  destruct (FromFrames _ _) as [[err|] r]; [destruct (errors_Is _ _); by destruct g1|].
  unfold lockedGatherComplete. repeat case_goal; by destruct g1.
Qed.

(** The packet number the distance is measured from is that of the first packet that was
    not too late. *)
Lemma AddPacket_base now ci g :
  (pnBaseSet g = false → gci_ClientHello g = None) →
  let g' := snd (AddPacket now ci g) in
  (pnBaseSet g' = false → gci_ClientHello g' = None) ∧
  (pnBaseSet g', pnBase g') =
    if Expired now g || pnBaseSet g then (pnBaseSet g, pnBase g) else (true, pn ci).
Proof.
  intros Hg. cbv zeta. unfold AddPacket. destruct (Expired now g); [done|].
  destruct (gci_ClientHello g) as [ch|] eqn:Ech.
  { destruct (pnBaseSet g) eqn:E; [cbn [orb snd]; by rewrite E|by specialize (Hg eq_refl)]. }
  set (g1 := if pnBaseSet g then g else set_base (pn ci) g).
  assert (pnBaseSet g1 = true ∧ (if pnBaseSet g then (pnBaseSet g, pnBase g) else (true, pn ci)) =
          (pnBaseSet g1, pnBase g1)) as [Hs1 Hb1].
  { unfold g1. destruct (pnBaseSet g) eqn:E; [by rewrite E|by destruct g]. }
  clearbody g1. cbv zeta. cbn [orb]. rewrite Hb1.
  assert (∀ g', pnBaseSet g' = pnBaseSet g1 ∧ pnBase g' = pnBase g1 →
    (pnBaseSet g' = false → gci_ClientHello g' = None) ∧ (pnBaseSet g', pnBase g') = (pnBaseSet g1, pnBase g1))
    as Hsame by (intros g' [-> ->]; by rewrite Hs1).
  destruct (_ || _); [by apply Hsame|]. destruct (existsb _ _); [by apply Hsame|].
  destruct (FromFrames _ _) as [[err|] r]; apply Hsame; [destruct (errors_Is _ _); by destruct g1|].
  destruct (lockedGatherComplete_keeps (set_reconstructor r (set_Packets (sort_by pn (Packets g1 ++ [ci])) g1)))
    as (_ & _ & _ & -> & ->). by destruct g1.
Qed.

(** What one packet can do to the limits that are set. *)
Lemma AddPacket_bounds now ci g :
  ci_ok ci → Forall (λ p, 0 <= pn p < 2 ^ 64) (Packets g) → 0 <= pnBase g < 2 ^ 64 →
  (pnBaseSet g = false → Packets g = []) →
  let g' := snd (AddPacket now ci g) in
  maxPacketNumber g' = maxPacketNumber g ∧ maxPacketCount g' = maxPacketCount g ∧
  Forall (λ p, 0 <= pn p < 2 ^ 64) (Packets g') ∧ 0 <= pnBase g' < 2 ^ 64 ∧
  (pnBaseSet g' = false → Packets g' = []) ∧
  (len (Packets g) <= maxPacketCount g → len (Packets g') <= maxPacketCount g) ∧
  (Forall (λ p, Z.abs (pn p - pnBase g) <= maxPacketNumber g) (Packets g) →
   Forall (λ p, Z.abs (pn p - pnBase g') <= maxPacketNumber g) (Packets g')).
Proof.
  intros [Hpn _] Hps Hb Hset. cbv zeta. unfold AddPacket.
  destruct (Expired now g); [done|]. destruct (gci_ClientHello g); [done|].
  set (g1 := if pnBaseSet g then g else set_base (pn ci) g).
  assert (maxPacketNumber g1 = maxPacketNumber g ∧ maxPacketCount g1 = maxPacketCount g ∧
          Packets g1 = Packets g ∧ 0 <= pnBase g1 < 2 ^ 64 ∧ pnBaseSet g1 = true ∧
          (pnBase g1 = pnBase g ∨ Packets g = [])) as (E1 & E2 & E3 & E4 & E5 & E6).
  { unfold g1. destruct (pnBaseSet g) eqn:E; [split_and!; try done; try lia; by left|].
    destruct g; simpl in *. split_and!; try done; [lia..|right; by apply Hset]. }
  clearbody g1. cbv zeta.
  assert (Forall (λ p, Z.abs (pn p - pnBase g) <= maxPacketNumber g) (Packets g) →
          Forall (λ p, Z.abs (pn p - pnBase g1) <= maxPacketNumber g) (Packets g1)) as Hclose.
  { rewrite E3. destruct E6 as [->| ->]; [done|constructor]. }
  destruct (_ || _) eqn:Hrej; cbn [snd]; [by rewrite E1, E2, ?E3, ?E5 in *|].
  destruct (existsb _ _); cbn [snd]; [by rewrite E1, E2, ?E3, ?E5 in *|].
  apply orb_false_iff in Hrej as [Hd Hc]. bool_facts. rewrite pnDistance_abs in Hd by done.
  destruct (sort_by_result pn (Packets g1 ++ [ci])) as [P _].
  set (ps := sort_by pn (Packets g1 ++ [ci])) in *.
  assert (∀ r, let g' := set_reconstructor r (set_Packets ps g1) in
    maxPacketNumber g' = maxPacketNumber g ∧ maxPacketCount g' = maxPacketCount g ∧
    Packets g' = ps ∧ pnBase g' = pnBase g1 ∧ pnBaseSet g' = true) as Hg'.
  { intros r. cbv zeta. rewrite <- E1, <- E2, <- E5. by destruct g1. }
  assert (∀ r, let g' := snd (lockedGatherComplete (set_reconstructor r (set_Packets ps g1))) in
    maxPacketNumber g' = maxPacketNumber g ∧ maxPacketCount g' = maxPacketCount g ∧
    Packets g' = ps ∧ pnBase g' = pnBase g1 ∧ pnBaseSet g' = true) as Hg''.
  { intros r. cbv zeta. destruct (Hg' r) as (F1 & F2 & F3 & F4 & F5).
    destruct (lockedGatherComplete_keeps (set_reconstructor r (set_Packets ps g1)))
      as (-> & -> & -> & -> & ->). done. }
  assert (len ps <= maxPacketCount g ∧ Forall (λ p, 0 <= pn p < 2 ^ 64) ps ∧
    (Forall (λ p, Z.abs (pn p - pnBase g1) <= maxPacketNumber g) (Packets g1) →
     Forall (λ p, Z.abs (pn p - pnBase g1) <= maxPacketNumber g) ps)) as (B1 & B2 & B3).
  { rewrite P, length_app. rewrite E1 in Hd. rewrite E2 in Hc. rewrite E3 in *. simpl.
    split; [lia|]. split; [apply Forall_app; split; [done|by apply Forall_singleton]|].
    intros Hall. apply Forall_app. split; [done|by apply Forall_singleton]. }
  destruct (FromFrames _ _) as [[err|] r]; [|specialize (Hg'' r); cbv zeta in Hg''].
  - specialize (Hg' r). cbv zeta in Hg'. destruct Hg' as (F1 & F2 & F3 & F4 & F5).
    case_goal; cbn [snd]; rewrite F1, F2, F3, F4, F5; split_and!; try done; tauto.
  - destruct Hg'' as (F1 & F2 & F3 & F4 & F5). rewrite F1, F2, F3, F4, F5.
    split_and!; try done; tauto.
Qed.
End bounds.

(** The calls a gathering can see in its life; each runs under the mutex or is a single
    atomic store. *)
Inductive gather_step {CB : Cryptobyte} {DT : Dicttls} {UT : Utls} (g : GatheredClientInitials)
    : GatheredClientInitials → Prop :=
  | step_AddPacket now ci : ci_ok ci → gather_step g (snd (AddPacket now ci g))
  | step_SetDeadline d : gather_step g (SetDeadline d g)
  | step_SetMaxPacketNumber n : gather_step g (SetMaxPacketNumber n g)
  | step_SetMaxPacketCount n : gather_step g (SetMaxPacketCount n g).

Lemma gather_inv_initial : gather_inv GatherClientInitials.
Proof.
  split; simpl; try done; [constructor|constructor|apply wf_New].
Qed.

Lemma gather_inv_reachable {CB : Cryptobyte} {DT : Dicttls} {UT : Utls} g :
  rtc gather_step GatherClientInitials g → gather_inv g.
Proof.
  intros H. pose proof gather_inv_initial as Hi. revert Hi. induction H as [|g1 g2 g3 Hs _ IH]; [done|].
  intros Hg. apply IH. destruct Hs; [by apply AddPacket_inv|..]; destruct Hg, g1; by split.
Qed.

(** C16: invariant of gathering: in every state the calls can lead to, the packets are sorted by
    strictly increasing packet number, the reconstructor is well formed, the completion
    flag, the closed channel and the presence of the ClientHello agree, and once there is
    a ClientHello the transport parameters and the header identifier belong to it. *)
Theorem gather_invariant (CB : Cryptobyte) (DT : Dicttls) (UT : Utls) g :
  rtc gather_step GatherClientInitials g → gather_inv g.
Proof. apply gather_inv_reachable. Qed.

Definition sample_ci (n : Z) (frames : list QUICFrame) : ClientInitial :=
  mkClientInitial (mkHeader [0; 0; 0; 1] 8 0 [u8 n] 1 n false) (FrameTypes frames) frames [].

Lemma gather_invariant_witness :
  gather_inv (snd (@AddPacket cryptobyte_ref dicttls_ref utls_ref 5 (sample_ci 7 [PING])
                    (SetDeadline 9 GatherClientInitials))).
Proof.
  apply (gather_invariant cryptobyte_ref dicttls_ref utls_ref).
  eapply rtc_l; [apply (step_SetDeadline _ 9)|]. eapply rtc_l; [|apply rtc_refl].
  apply step_AddPacket. split; [vm_compute; split; [discriminate|reflexivity]|]. decide_now.
Defined.

Lemma add_packets_bounds {CB : Cryptobyte} {DT : Dicttls} {UT : Utls} arrivals g0 :
  Forall (λ a, ci_ok (snd a)) arrivals →
  Forall (λ p, 0 <= pn p < 2 ^ 64) (Packets g0) → 0 <= pnBase g0 < 2 ^ 64 →
  (pnBaseSet g0 = false → Packets g0 = []) →
  len (Packets g0) <= maxPacketCount g0 →
  Forall (λ p, Z.abs (pn p - pnBase g0) <= maxPacketNumber g0) (Packets g0) →
  let g := snd (add_packets arrivals g0) in
  (pnBaseSet g = false → Packets g = []) ∧ len (Packets g) <= maxPacketCount g0 ∧
  Forall (λ p, Z.abs (pn p - pnBase g) <= maxPacketNumber g0) (Packets g).
Proof.
  intros Hok. revert g0.
  induction Hok as [|[now ci] arrivals Hci Hok IH]; intros g0 H1 H2 H3 H4 H5; cbv zeta; [done|].
  pose proof (AddPacket_bounds now ci g0 Hci H1 H2 H3) as Hb. cbv zeta in Hb.
  cbn [add_packets]. destruct (AddPacket now ci g0) as [r g1]. cbn [snd] in Hb.
  destruct Hb as (B1 & B2 & B3 & B4 & B5 & B6 & B7).
  destruct (IH g1) as (C0 & C1 & C2); [done|done|done|rewrite B2; by apply B6|rewrite B1; by apply B7|].
  destruct (add_packets arrivals g1) as [rs g2]. cbn [snd] in *. rewrite <- B1, <- B2. done.
Qed.

Lemma add_packets_base {CB : Cryptobyte} {DT : Dicttls} {UT : Utls} arrivals g0 :
  (pnBaseSet g0 = false → gci_ClientHello g0 = None) →
  let g := snd (add_packets arrivals g0) in
  (pnBaseSet g, pnBase g) =
    if pnBaseSet g0 then (true, pnBase g0)
    else match filter (λ a, fst a <= deadline g0) arrivals with
         | [] => (false, pnBase g0)
         | (_, first) :: _ => (true, pn first)
         end.
Proof.
  revert g0. induction arrivals as [|[now ci] arrivals IH]; intros g0 Hg; cbv zeta.
  { cbn [add_packets snd]. rewrite filter_nil. by destruct (pnBaseSet g0) eqn:E. }
  destruct (AddPacket_base now ci g0 Hg) as [Hg1 Hb]. pose proof (AddPacket_deadline now ci g0) as Hd.
  cbn [add_packets]. destruct (AddPacket now ci g0) as [r g1]. cbn [snd] in *.
  specialize (IH g1 Hg1). cbv zeta in IH. destruct (add_packets arrivals g1) as [rs g]. cbn [snd] in *.
  rewrite IH, Hd. clear IH. rewrite filter_cons. cbn [fst]. unfold Expired in Hb.
  destruct (pnBaseSet g0) eqn:E0.
  - rewrite orb_true_r in Hb. injection Hb as -> ->. done.
  - rewrite orb_false_r in Hb. destruct (decide (now <= deadline g0)) as [Hle|Hgt].
    + rewrite (proj2 (Z.ltb_ge _ _)) in Hb by lia. by injection Hb as -> ->.
    + rewrite (proj2 (Z.ltb_lt _ _)) in Hb by lia. by injection Hb as -> ->.
Qed.

(** C17: the memory guards hold: whatever packets arrive, never more than the maximal number are
    kept, and all lie within the allowed distance of the packet number of the first packet
    that arrived in time - for the limits that were set, the defaults (4 and 32) or
    others. *)
Theorem gather_bounds (CB : Cryptobyte) (DT : Dicttls) (UT : Utls) arrivals d maxNumber maxCount :
  Forall (λ a, ci_ok (snd a)) arrivals → 0 <= maxCount →
  let g0 := GatherClientInitialsWithDeadline d in
  let g1 := SetMaxPacketCount maxCount (SetMaxPacketNumber maxNumber g0) in
  let within (g : GatheredClientInitials) count number :=
    len (Packets g) <= count ∧
    match filter (λ a, fst a <= d) arrivals with
    | [] => Packets g = []
    | (_, first) :: _ => Forall (λ p, Z.abs (pn p - pn first) <= number) (Packets g)
    end in
  within (snd (add_packets arrivals g0)) 4 32 ∧
  within (snd (add_packets arrivals g1)) maxCount maxNumber.
Proof.
  intros Hok Hmc. cbv zeta.
  assert (∀ g0, Packets g0 = [] → pnBaseSet g0 = false → pnBase g0 = 0 → gci_ClientHello g0 = None →
    deadline g0 = d → 0 <= maxPacketCount g0 →
    let g := snd (add_packets arrivals g0) in
    len (Packets g) <= maxPacketCount g0 ∧
    match filter (λ a, fst a <= d) arrivals with
    | [] => Packets g = []
    | (_, first) :: _ => Forall (λ p, Z.abs (pn p - pn first) <= maxPacketNumber g0) (Packets g)
    end) as H.
  { intros g0 E1 E2 E3 E4 E5 E6. cbv zeta.
    destruct (add_packets_bounds arrivals g0 Hok) as (B0 & B1 & B2); rewrite ?E1; [done|by rewrite E3|done|done|done|].
    split; [done|]. pose proof (add_packets_base arrivals g0 (λ _, E4)) as Hb. cbv zeta in Hb.
    rewrite E2, E5 in Hb. destruct (filter _ arrivals) as [|[t first] l]; injection Hb as Hbs Hbb; [by apply B0|].
    by rewrite Hbb in B2. }
  split; by apply H.
Qed.

Lemma gather_bounds_witness :
  let arrivals := (2, sample_ci 90 [PING]) :: ((λ n, (0, sample_ci (Z.of_nat n) [PING])) <$> seq 7 9) in
  let g := snd (@add_packets cryptobyte_ref dicttls_ref utls_ref arrivals
                 (SetMaxPacketCount 3 (SetMaxPacketNumber 2 (GatherClientInitialsWithDeadline 1)))) in
  len (Packets g) <= 3 ∧ Forall (λ p, Z.abs (pn p - 7) <= 2) (Packets g).
Proof.
  destruct (gather_bounds cryptobyte_ref dicttls_ref utls_ref
           ((2, sample_ci 90 [PING]) :: ((λ n, (0, sample_ci (Z.of_nat n) [PING])) <$> seq 7 9)) 1 2 3)
    as [_ H]; [|lia|exact H].
  repeat (apply Forall_cons; split; [split; [vm_compute; split; [discriminate|reflexivity]|decide_now]|]).
  apply Forall_nil_2.
Defined.

(** C36: a gathering that is over stays as it is: after the deadline every packet is refused,
    and once the ClientHello is there packets are ignored.  In particular a gathering
    without a deadline refuses every packet: the zero time is always in the past. *)
Theorem gather_closed (CB : Cryptobyte) (DT : Dicttls) (UT : Utls) now ci g :
  (deadline g < now → AddPacket now ci g = (Return (Some ErrGatheringExpired), g)) ∧
  (now <= deadline g → is_Some (gci_ClientHello g) → AddPacket now ci g = (Return None, g)) ∧
  (0 < now → AddPacket now ci GatherClientInitials =
             (Return (Some ErrGatheringExpired), GatherClientInitials)).
Proof.
  unfold AddPacket, Expired. split_and!.
  - intros H. by rewrite (proj2 (Z.ltb_lt _ _)).
  - intros H [ch ->]. by rewrite (proj2 (Z.ltb_ge _ _)) by lia.
  - intros H. by rewrite (proj2 (Z.ltb_lt _ _)) by done.
Qed.

Lemma Wait_result g g' now e :
  gather_inv g' → Wait g g' now e →
  (e = None ∧ completed g' = true) ∨ e = Some ErrGatheringExpired.
Proof.
  intros Hinv Hw. destruct Hw as [now Hc|g' now Hc Hd|g' now Hc Hcl]; [by left|by right|].
  left. destruct (gi_complete _ Hinv) as [Heq _]. by rewrite Heq, Hcl.
Qed.

(** Waiting for and generating the fingerprint of a gathering ends in the fingerprint of a
    completed gathering or in [ErrGatheringExpired]: no [nil] is dereferenced, and the
    "divergent state" error does not occur. *)
Lemma GenerateQUICFingerprint_safe {CB : Cryptobyte} {DT : Dicttls} {UT : Utls} g g' now o :
  rtc gather_step GatherClientInitials g → rtc gather_step g g' →
  GenerateQUICFingerprint g g' now o →
  o = Err ErrGatheringExpired ∨
  completed g' = true ∧ ∃ fp, o = Ok fp ∧ ClientInitials fp = g' ∧
    0 <= qfp_NumID fp < 2 ^ 64 ∧ qfp_HexID fp = AsHex (s64 (qfp_NumID fp)).
Proof.
  intros Hg Hgg'. pose proof (gather_inv_reachable g' ltac:(by transitivity g)) as Hinv'.
  apply gather_inv_reachable in Hg.
  assert (completed g' = true → ∃ fp, fingerprint_of g' = Ok fp ∧ ClientInitials fp = g' ∧
    0 <= qfp_NumID fp < 2 ^ 64 ∧ qfp_HexID fp = AsHex (s64 (qfp_NumID fp))) as Hfp.
  { intros Hc. destruct (gi_complete _ Hinv') as [_ Hch]. rewrite Hc in Hch. symmetry in Hch.
    apply bool_decide_eq_true in Hch as [ch Hch].
    destruct (gi_result _ Hinv' ch Hch) as (_ & _ & _ & _ & tp & Htp & _).
    unfold fingerprint_of. rewrite Hch, Htp. cbv zeta.
    match goal with |- context [sum64 ?h] => pose proof (sum64_range h) as Hr; revert Hr end.
    generalize (sum64 (updateU64 (updateU64 (updateU64 [] (gci_NumID g'))
      (u64 (NormNumID (qch_ClientHello ch)))) (qtp_NumID tp))) as num.
    intros num Hr. by eexists. }
  intros Hgen. destruct Hgen as [g' now e Hw|g' now Hw];
    apply Wait_result in Hw as [[? ?]|?]; simplify_eq; eauto.
Qed.

Lemma sort_by_perm l l' : NoDup (pn <$> l) → l ≡ₚ l' → sort_by pn l = sort_by pn l'.
Proof.
  intros Hnd P. apply (sort_result_unique pn l); [done|apply sort_by_result|].
  destruct (sort_by_result pn l') as [P' S]. split; [by rewrite P', P|done].
Qed.

Lemma packet_calls_pieces pieces (idx : ClientInitial → list nat) ps :
  Forall (λ ci, idx ci ≠ [] ∧ crypto_calls (ci_frames ci) =
            (λ i, (piece_off pieces i, default [] (pieces !! i))) <$> idx ci) ps →
  packet_calls ps = (λ i, (piece_off pieces i, default [] (pieces !! i))) <$> flat_map idx ps.
Proof.
  induction 1 as [|ci ps [_ Hci] _ IH]; [done|]. cbn [flat_map packet_calls].
  rewrite fmap_app, <- Hci. fold (packet_calls ps). by rewrite IH.
Qed.

Lemma add_packets_any_order (CB : Cryptobyte) (DT : Dicttls) (UT : Utls)
    pieces (idx : ClientInitial → list nat) ps arrivals d ch :
  Forall (λ d, d ≠ []) pieces → 4 < len (concat pieces) <= maxCRYPTOLength →
  parse_fullLen (concat pieces) = len (concat pieces) → (length pieces <= 33)%nat →
  fit ps →
  Forall (λ ci, idx ci ≠ [] ∧ crypto_calls (ci_frames ci) =
            (λ i, (piece_off pieces i, default [] (pieces !! i))) <$> idx ci) ps →
  flat_map idx ps ≡ₚ seq 0 (length pieces) →
  ParseQUICClientHello (concat pieces) = Ok ch →
  snd <$> arrivals ≡ₚ ps → Forall (λ a, fst a <= d) arrivals →
  ∃ g, add_packets arrivals (GatherClientInitialsWithDeadline d) =
         (replicate (length ps) (Return None), g) ∧
    Packets g = sort_by pn ps ∧ gci_ClientHello g = Some ch ∧
    TransportParameters g = qtp (qch_ClientHello ch) ∧ completed g = true ∧
    gci_calcNumericID g = Ok (gci_NumID g) ∧ gci_HexID g = AsHex (s64 (gci_NumID g)).
Proof.
  intros Hne Hlen Hfull Hn Hfit Hidx Hall Hch P Hd. rewrite <- P in Hidx, Hall.
  destruct (add_all_any_order pieces (flat_map idx (snd <$> arrivals))) as (r & Hadd & Hrec); try done.
  rewrite <- packet_calls_pieces in Hadd by done.
  assert (fit (snd <$> arrivals)) as Hfit' by by eapply fit_perm.
  destruct arrivals as [|[now ci] arrivals _] using rev_ind.
  { simpl in Hall. apply Permutation_nil in Hall. destruct pieces; [simpl in Hlen; lia|done]. }
  rewrite fmap_app in *. cbn [fmap list_fmap snd] in *.
  apply Forall_app in Hd as [Hd Hnow]. rewrite Forall_singleton in Hnow.
  apply Forall_app in Hidx as [_ Hci]. rewrite Forall_singleton in Hci. destruct Hci as [Hi Hc].
  destruct (add_packets_complete arrivals now ci d (length pieces - 1) r (concat pieces) ch Hfit' Hd Hnow) as [base Hrun];
    [by rewrite Hc; destruct (idx ci)|done|done|by destruct (concat pieces)|done|].
  eexists. rewrite Hrun. apply Permutation_length in P as Hl. rewrite length_app, length_fmap in Hl.
  simpl in Hl. rewrite <- Hl. split; [reflexivity|]. unfold gathered, gci_calcNumericID.
  cbn [Packets gci_ClientHello TransportParameters completed gci_NumID gci_HexID].
  split; [apply sort_by_perm; [apply Hfit'|done]|]. do 3 (split; [done|]). split; [|done].
  destruct (sort_by_result pn ((snd <$> arrivals) ++ [ci])) as [P' _].
  destruct (sort_by pn _) as [|c l]; [|done]. by apply Permutation_nil, app_eq_nil in P' as [_ ?].
Qed.

(** C6: order independence of gathering: when the CRYPTO frames of a ClientHello (more than 4
    bytes and at most 64 KiB, in at most 33 non-empty fragments) are spread over up to
    four Initial packets with distinct numbers within 32 of each other, then in whatever order
    the packets arrive (before the deadline) every call returns [nil], and the result is
    the same: packets sorted, ClientHello and transport parameters parsed from the whole
    message, the header identifier computed from the packet with the lowest number. *)
Theorem gather_any_order (CB : Cryptobyte) (DT : Dicttls) (UT : Utls)
    pieces (idx : ClientInitial → list nat) ps arrivals d ch :
  Forall (λ d, d ≠ []) pieces → 4 < len (concat pieces) <= maxCRYPTOLength →
  parse_fullLen (concat pieces) = len (concat pieces) → (length pieces <= 33)%nat →
  fit ps →
  Forall (λ ci, idx ci ≠ [] ∧ crypto_calls (ci_frames ci) =
            (λ i, (piece_off pieces i, default [] (pieces !! i))) <$> idx ci) ps →
  flat_map idx ps ≡ₚ seq 0 (length pieces) →
  ParseQUICClientHello (concat pieces) = Ok ch →
  snd <$> arrivals ≡ₚ ps → Forall (λ a, fst a <= d) arrivals →
  ∃ g, add_packets arrivals (GatherClientInitialsWithDeadline d) =
         (replicate (length ps) (Return None), g) ∧
    Packets g = sort_by pn ps ∧ gci_ClientHello g = Some ch ∧
    TransportParameters g = qtp (qch_ClientHello ch) ∧ completed g = true ∧
    gci_calcNumericID g = Ok (gci_NumID g) ∧ gci_HexID g = AsHex (s64 (gci_NumID g)).
Proof. apply add_packets_any_order. Qed.

(** A message whose handshake header announces its length, in three fragments over two
    packets. *)
Definition gather_message : bytes :=
  [1; 0; 0; 72] ++ drop 4 sample_message.
Definition gather_pieces : list bytes :=
  [take 10 gather_message; take 20 (drop 10 gather_message); drop 30 gather_message].
Definition gather_packet (n : Z) (idx : list nat) : ClientInitial :=
  sample_ci n (PING :: ((λ i, CRYPTO (piece_off gather_pieces i) (len (default [] (gather_pieces !! i)))
                               (default [] (gather_pieces !! i))) <$> idx)).

Lemma gather_any_order_witness :
  ∃ ch, @ParseQUICClientHello cryptobyte_ref dicttls_ref utls_quic (concat gather_pieces) = Ok ch ∧
  ∃ g, @add_packets cryptobyte_ref dicttls_ref utls_quic
         [(2, gather_packet 18 [1%nat]); (1, gather_packet 17 [2%nat; 0%nat])]
         (GatherClientInitialsWithDeadline 3) = ([Return None; Return None], g) ∧
    Packets g = sort_by pn [gather_packet 17 [2%nat; 0%nat]; gather_packet 18 [1%nat]] ∧
    gci_ClientHello g = Some ch ∧
    TransportParameters g = qtp (qch_ClientHello ch) ∧ completed g = true ∧
    gci_calcNumericID g = Ok (gci_NumID g) ∧ gci_HexID g = AsHex (s64 (gci_NumID g)).
Proof.
  destruct (@ParseQUICClientHello cryptobyte_ref dicttls_ref utls_quic (concat gather_pieces))
    as [ch|e|w] eqn:E; [|exfalso; vm_compute in E; discriminate E..].
  exists ch. split; [reflexivity|].
  apply (gather_any_order cryptobyte_ref dicttls_ref utls_quic gather_pieces
           (λ ci, if pn ci =? 17 then [2%nat; 0%nat] else [1%nat])
           [gather_packet 17 [2%nat; 0%nat]; gather_packet 18 [1%nat]]
           [(2, gather_packet 18 [1%nat]); (1, gather_packet 17 [2%nat; 0%nat])] 3 ch).
  - decide_now.
  - decide_now.
  - vm_compute. reflexivity.
  - simpl. lia.
  - split; [decide_now|decide_now| |decide_now].
    intros a b Ha Hb. rewrite !elem_of_cons, elem_of_nil in Ha, Hb.
    destruct Ha as [->|[->|[]]], Hb as [->|[->|[]]]; vm_compute; discriminate.
  - constructor; [split; [discriminate|vm_compute; reflexivity]|].
    constructor; [split; [discriminate|vm_compute; reflexivity]|]. apply Forall_nil_2.
  - apply (bool_decide_unpack _). vm_compute. exact I.
  - exact E.
  - apply perm_swap.
  - decide_now.
Defined.

(** C34: the header identifier depends on the version, the lengths, the token and the set of
    frame types of the first packet: neither the order nor the number of the frames, nor
    the packet number itself, change it. *)
Theorem header_id_frame_set a b ps qs :
  Version (Header a) = Version (Header b) → DCIDLength (Header a) = DCIDLength (Header b) →
  SCIDLength (Header a) = SCIDLength (Header b) →
  initialPacketNumberLength (Header a) = initialPacketNumberLength (Header b) →
  HasToken (Header a) = HasToken (Header b) →
  (∀ t, t ∈ FrameTypesUint8 (ci_frames a) ↔ t ∈ FrameTypesUint8 (ci_frames b)) →
  gci_calcNumericID (set_Packets (a :: ps) GatherClientInitials) =
  gci_calcNumericID (set_Packets (b :: qs) GatherClientInitials).
Proof.
  intros E1 E2 E3 E4 E5 Hset. unfold gci_calcNumericID. cbn [Packets set_Packets GatherClientInitials].
  unfold gci_preimage. by rewrite E1, E2, E3, E4, E5, (dedup_sort_set _ _ Hset).
Qed.

Lemma header_id_frame_set_witness :
  gci_calcNumericID (set_Packets [sample_ci 1 [PING; CRYPTO 0 1 [7]; PADDING 9]] GatherClientInitials) =
  gci_calcNumericID (set_Packets [sample_ci 40 [CRYPTO 0 1 [7]; PADDING 3; PING; PADDING 2]] GatherClientInitials).
Proof.
  apply (header_id_frame_set (sample_ci 1 [PING; CRYPTO 0 1 [7]; PADDING 9])
           (sample_ci 40 [CRYPTO 0 1 [7]; PADDING 3; PING; PADDING 2])); try reflexivity.
  intros t. vm_compute FrameTypesUint8. set_solver.
Defined.
