(* ===== verification/QuicFingerprinter.v ===== *)
(** * The QUIC fingerprinter

    quic_fingerprint.go: [QUICFingerprinter], which sorts packets by sender into
    gatherings and hands out fingerprints.  Gatherings are shared objects - the map and
    running calls hold pointers to them - so they live in a heap; the map operations of
    [sync.Map] and the calls under a gathering's mutex are atomic.  The goroutines that
    forget a sender after the timeout are pending timers. *)
From S2P Require Import Prelude GoIO GoNet Utils VLI Frames Reconstructor GoCrypto External QuicCrypto QuicHeader.
From S2P Require Import FingerprintHash TransportParams ClientHello QuicClientHello Gather.

(** ** State *)

Record QUICFingerprinter := mkQFP {
  mapGatheringClientInitials : gmap string nat;   (* sender to gathering *)
  heap : list GatheredClientInitials;             (* by address *)
  timers : list (Z * string);                     (* goroutines: when, and which key *)
  timeout : Z;
  closed : bool
}.

Definition NewQUICFingerprinterWithTimeout (d : Z) : QUICFingerprinter := mkQFP ∅ [] [] d false.
Definition NewQUICFingerprinter : QUICFingerprinter := mkQFP ∅ [] [] 0 false.

Definition SetTimeout (d : Z) (q : QUICFingerprinter) : QUICFingerprinter :=
  mkQFP (mapGatheringClientInitials q) (heap q) (timers q) d (closed q).

Definition Close (q : QUICFingerprinter) : QUICFingerprinter :=
  mkQFP (mapGatheringClientInitials q) (heap q) (timers q) (timeout q) true.

(** 60 seconds, in nanoseconds. *)
Definition DEFAULT_QUICFINGERPRINT_EXPIRY : Z := 60 * 10 ^ 9.

Definition set_gathering (ptr : nat) (g : GatheredClientInitials) (q : QUICFingerprinter) :=
  mkQFP (mapGatheringClientInitials q) (<[ptr := g]> (heap q)) (timers q) (timeout q) (closed q).

Definition delete_key (k : string) (q : QUICFingerprinter) : QUICFingerprinter :=
  mkQFP (delete k (mapGatheringClientInitials q)) (heap q) (timers q) (timeout q) (closed q).

(** ** Operations *)

(** [LoadOrStore(from, testGci)] with the goroutine that is started when it stored: the
    new gathering is allocated in either case. *)
Definition LoadOrStore (now : Z) (from : string) (q : QUICFingerprinter) : nat * QUICFingerprinter :=
  let testGci := if timeout q =? 0 then GatherClientInitials
                 else GatherClientInitialsWithDeadline (now + timeout q) in
  let ptr := length (heap q) in
  match mapGatheringClientInitials q !! from with
  | Some chosen => (chosen, mkQFP (mapGatheringClientInitials q) (heap q ++ [testGci]) (timers q)
                              (timeout q) (closed q))
  | None =>
    let d := if timeout q =? 0 then DEFAULT_QUICFINGERPRINT_EXPIRY else timeout q in
    (ptr, mkQFP (<[from := ptr]> (mapGatheringClientInitials q)) (heap q ++ [testGci])
            (timers q ++ [(now + d, from)]) (timeout q) (closed q))
  end.

Definition recovered : goerror := errors_New "recovered from panic handling QUIC packet".

Section fingerprinter.
Context {CB : Cryptobyte} {HK : Hkdf} {DT : Dicttls} {UT : Utls}.

(** The first part of [HandlePacket], up to the choice of the gathering: either the call
    returns, or it goes on to add the packet to a gathering. *)
Definition HandlePacket_lookup (now : Z) (from : string) (p : bytes) (q : QUICFingerprinter)
    : (option goerror + nat * ClientInitial) * QUICFingerprinter :=
  if closed q then (inl (Some (errors_New "QUICFingerprinter closed")), q)
  else match UnmarshalQUICClientInitialPacket p with
  | Panic _ => (inl (Some recovered), q)
  | Err err =>
    if errors_Is err ErrNotQUICLongHeaderFormat || errors_Is err ErrNotQUICInitialPacket ||
       errors_Is err ErrUnsupportedQUICVersion
    then (inl None, q) else (inl (Some err), q)
  | Ok ci => let '(ptr, q) := LoadOrStore now from q in (inr (ptr, ci), q)
  end.

(** The second part: [gci.AddPacket(ci)], a panic recovered. *)
Definition HandlePacket_add (now : Z) (ptr : nat) (ci : ClientInitial) (q : QUICFingerprinter)
    : option goerror * QUICFingerprinter :=
  match heap q !! ptr with
  | None => (Some recovered, q)
  | Some g =>
    match AddPacket now ci g with
    | (Return err, g) => (err, set_gathering ptr g q)
    | (Panicked _, g) => (Some recovered, set_gathering ptr g q)
    end
  end.

Definition HandlePacket (now : Z) (from : string) (p : bytes) (q : QUICFingerprinter)
    : option goerror * QUICFingerprinter :=
  match HandlePacket_lookup now from p q with
  | (inl err, q) => (err, q)
  | (inr (ptr, ci), q) => HandlePacket_add now ptr ci q
  end.

(** A goroutine whose time has come deletes its key, whatever the map holds for it. *)
Inductive fire (now : Z) (q : QUICFingerprinter) : QUICFingerprinter → Prop :=
  | fire_timer before t k after :
    timers q = before ++ (t, k) :: after → t <= now →
    fire now q (mkQFP (delete k (mapGatheringClientInitials q)) (heap q) (before ++ after)
                  (timeout q) (closed q)).

(** The same as a function: at time [now] the goroutine that sleeps until [t] on behalf of
    [k] wakes up; nothing happens when it is too early or there is no such goroutine. *)
Definition expire (now t : Z) (k : string) (q : QUICFingerprinter) : QUICFingerprinter :=
  if t <=? now then
    match remove_first (t, k) (timers q) with
    | Some rest => mkQFP (delete k (mapGatheringClientInitials q)) (heap q) rest (timeout q) (closed q)
    | None => q
    end
  else q.

(** The gathering a key leads to. *)
Definition Load (k : string) (q : QUICFingerprinter) : option GatheredClientInitials :=
  mapGatheringClientInitials q !! k ≫= λ ptr, heap q !! ptr.

(** [Peek]: [Wait] returns at once for a completed gathering.  A panic of
    [GenerateQUICFingerprint] would not be recovered here. *)
Definition Peek (from : string) (q : QUICFingerprinter) : outcome (option QUICFingerprint) :=
  match Load from q with
  | None => Ok None
  | Some g =>
    if negb (Completed g) then Ok None
    else let! fp := fingerprint_of g in Ok (Some fp)
  end.

(** [LoadAndDelete]; the gathering, if any, stays in the heap. *)
Definition LoadAndDelete (from : string) (q : QUICFingerprinter) : option nat * QUICFingerprinter :=
  (mapGatheringClientInitials q !! from, delete_key from q).

Definition Pop (from : string) (q : QUICFingerprinter)
    : outcome (option QUICFingerprint) * QUICFingerprinter :=
  let '(gci, q') := LoadAndDelete from q in
  match gci ≫= λ ptr, heap q' !! ptr with
  | None => (Ok None, q')
  | Some g =>
    if negb (Completed g) then (Ok None, q')
    else (let! fp := fingerprint_of g in Ok (Some fp), q')
  end.

(** What is popped is what [Peek] would have returned. *)
Lemma Pop_spec from q : Pop from q = (Peek from q, delete_key from q).
Proof. unfold Pop, Peek, Load. cbn. repeat case_match; done. Qed.

Definition not_found : goerror := errors_New "GatheredClientInitials not found for the given key".

(** [GenerateQUICFingerprint] on what the map gave: the call blocks from state [q] to
    state [q'], at time [now], while others go on; the pointer keeps leading to the same,
    possibly changed, gathering. *)
Inductive await (gci : option nat) (q q' : QUICFingerprinter) (now : Z) : outcome QUICFingerprint → Prop :=
  | await_missing : gci = None → await gci q q' now (Err not_found)
  | await_found ptr g g' o :
    gci = Some ptr → heap q !! ptr = Some g → heap q' !! ptr = Some g' →
    GenerateQUICFingerprint g g' now o → await gci q q' now o.

(** [PeekAwait] and [PopAwait], called in state [q] and returning in state [q']. *)
Definition PeekAwait (from : string) (q q' : QUICFingerprinter) (now : Z) (o : outcome QUICFingerprint) : Prop :=
  await (mapGatheringClientInitials q !! from) q q' now o.

Definition PopAwait (from : string) (q q' : QUICFingerprinter) (now : Z) (o : outcome QUICFingerprint) : Prop :=
  await (fst (LoadAndDelete from q)) (snd (LoadAndDelete from q)) q' now o.

(** ** The receive loops *)

(** What happens next to a receive loop: [ReadFrom] returns a datagram or an error, or, while
    it blocks, an expiry goroutine wakes up. *)
Inductive occurrence :=
  | Received (addr : string) (p : bytes)
  | ReadError (e : goerror)
  | Woken (t : Z) (k : string).

Definition stops (err : goerror) : bool :=
  errors_Is err io_EOF || errors_Is err io_ErrClosedPipe || errors_Is err net_ErrClosed.

(** [HandleUDPConn] over what happens, with the times; [None]: it is still waiting after
    the last occurrence. *)
Fixpoint HandleUDPConn (reads : list (Z * occurrence)) (q : QUICFingerprinter)
    : option goerror * QUICFingerprinter :=
  if closed q then (Some (errors_New "QUICFingerprinter closed"), q)
  else match reads with
  | [] => (None, q)
  | (_, ReadError err) :: reads => if stops err then (Some err, q) else HandleUDPConn reads q
  | (now, Received addr p) :: reads => HandleUDPConn reads (snd (HandlePacket now addr p q))
  | (now, Woken t k) :: reads => HandleUDPConn reads (expire now t k q)
  end.

(** internal/utils/udppacket.go. *)
Definition ParseUDPPacket {GP : Gopacket} (buf : bytes) : (Z * Z * bytes) + goerror :=
  match udp_DecodeFromBytes buf with
  | inr err => inr err
  | inl udp => inl udp
  end.

(** [HandleIPConn]; the reads deliver the sender's IP address and the IP payload. *)
Fixpoint HandleIPConn {GP : Gopacket} (reads : list (Z * occurrence)) (q : QUICFingerprinter)
    : option goerror * QUICFingerprinter :=
  if closed q then (Some (errors_New "QUICFingerprinter closed"), q)
  else match reads with
  | [] => (None, q)
  | (_, ReadError err) :: reads => if stops err then (Some err, q) else HandleIPConn reads q
  | (now, Received ip p) :: reads =>
    match ParseUDPPacket p with
    | inr _ => HandleIPConn reads q
    | inl (srcPort, dstPort, payload) =>
      if negb (dstPort =? 443) then HandleIPConn reads q
      else HandleIPConn reads (snd (HandlePacket now (UDPAddr_String ip srcPort) payload q))
    end
  | (now, Woken t k) :: reads => HandleIPConn reads (expire now t k q)
  end.
End fingerprinter.

(** ** Concurrent histories *)

(** The fingerprinter with the calls of [HandlePacket] that are between their two parts. *)
Record sys := mkSys { fp_state : QUICFingerprinter; in_flight : list (nat * ClientInitial) }.

Section histories.
Context {CB : Cryptobyte} {HK : Hkdf} {DT : Dicttls} {UT : Utls}.

Inductive sys_step (s : sys) : sys → Prop :=
  | s_lookup now from p r q :
    wf_bytes p → len p <= maxAlloc → HandlePacket_lookup now from p (fp_state s) = (r, q) →
    sys_step s (mkSys q (in_flight s ++ match r with inl _ => [] | inr a => [a] end))
  | s_add now before ptr ci after :
    in_flight s = before ++ (ptr, ci) :: after →
    sys_step s (mkSys (snd (HandlePacket_add now ptr ci (fp_state s))) (before ++ after))
  | s_fire now q : fire now (fp_state s) q → sys_step s (mkSys q (in_flight s))
  | s_pop from : sys_step s (mkSys (snd (Pop from (fp_state s))) (in_flight s))
  | s_pop_await from : sys_step s (mkSys (snd (LoadAndDelete from (fp_state s))) (in_flight s))
  | s_timeout d : sys_step s (mkSys (SetTimeout d (fp_state s)) (in_flight s))
  | s_close : sys_step s (mkSys (Close (fp_state s)) (in_flight s)).

Record qfp_inv (q : QUICFingerprinter) : Prop := {
  qi_valid : ∀ k ptr, mapGatheringClientInitials q !! k = Some ptr → (ptr < length (heap q))%nat;
  qi_inj : ∀ k k' ptr, mapGatheringClientInitials q !! k = Some ptr →
    mapGatheringClientInitials q !! k' = Some ptr → k = k';
  qi_gatherings : Forall (λ g, rtc gather_step GatherClientInitials g) (heap q);
  qi_timers : ∀ k, is_Some (mapGatheringClientInitials q !! k) → k ∈ snd <$> timers q
}.

Record sys_inv (s : sys) : Prop := {
  si_state : qfp_inv (fp_state s);
  si_flight : Forall (λ a, (fst a < length (heap (fp_state s)))%nat ∧ ci_ok (snd a)) (in_flight s)
}.

Context {CBL : CryptobyteLaws CB} {HKL : HkdfLaws HK}.

Lemma Unmarshal_ok p ci :
  wf_bytes p → len p <= maxAlloc → UnmarshalQUICClientInitialPacket p = Ok ci → ci_ok ci.
Proof.
  intros Hw Hl. unfold UnmarshalQUICClientInitialPacket.
  destruct (DecodeQUICHeaderAndFrames p) as [[h fs]| |] eqn:E; cbn [obind]; [|done..].
  apply decode_sound in E as (i & Hi & _ & -> & _ & Hfs); [|done..].
  pose proof (header_of_range i Hi) as (_ & _ & _ & _ & _ & _ & Hpn).
  intros [= <-]. split; [|done]. unfold pn. cbn [Header]. lia.
Qed.

Lemma fresh_gathering now d :
  rtc gather_step GatherClientInitials
    (if d =? 0 then GatherClientInitials else GatherClientInitialsWithDeadline (now + d)).
Proof. case_goal; [apply rtc_refl|]. apply rtc_once, step_SetDeadline. Qed.

Lemma LoadOrStore_inv now from q ptr q' :
  qfp_inv q → LoadOrStore now from q = (ptr, q') →
  qfp_inv q' ∧ (ptr < length (heap q'))%nat ∧ (length (heap q) <= length (heap q'))%nat.
Proof.
  intros [Hv Hi Hg Ht]. unfold LoadOrStore.
  pose proof (fresh_gathering now (timeout q)) as Hf.
  set (g := if timeout q =? 0 then _ else _) in *. clearbody g.
  destruct (mapGatheringClientInitials q !! from) as [chosen|] eqn:E; intros [= <- <-];
    cbn [heap]; rewrite length_app; cbn [length].
  - specialize (Hv _ _ E) as Hlt. split; [|lia]. split; cbn [mapGatheringClientInitials heap timers].
    + intros k p Hk. rewrite length_app. apply Hv in Hk. lia.
    + done.
    + apply Forall_app. split; [done|by apply Forall_singleton].
    + done.
  - split; [|lia]. split; cbn [mapGatheringClientInitials heap timers].
    + intros k p. rewrite length_app, lookup_insert_Some. intros [[_ <-]|[_ Hk%Hv]]; simpl; lia.
    + intros k k' p. rewrite !lookup_insert_Some. intros [[<- <-]|[Hn Hk]] [[<- Hp]|[Hn' Hk']]; eauto.
      * apply Hv in Hk'. lia.
      * apply Hv in Hk. lia.
    + apply Forall_app. split; [done|by apply Forall_singleton].
    + intros k. rewrite fmap_app, elem_of_app, lookup_insert_is_Some. cbn [fmap list_fmap snd].
      intros [<-|[_ Hk]]; [right; constructor|left; by apply Ht].
Qed.

Lemma HandlePacket_lookup_inv now from p q r q' :
  qfp_inv q → wf_bytes p → len p <= maxAlloc → HandlePacket_lookup now from p q = (r, q') →
  qfp_inv q' ∧ (length (heap q) <= length (heap q'))%nat ∧
  match r with inl _ => True | inr (ptr, ci) => (ptr < length (heap q'))%nat ∧ ci_ok ci end.
Proof.
  intros Hq Hw Hl. unfold HandlePacket_lookup. case_goal; [by intros [= <- <-]|].
  destruct (UnmarshalQUICClientInitialPacket p) as [ci|e|w] eqn:Ep.
  - destruct (LoadOrStore now from q) as [ptr q1] eqn:El. intros [= <- <-].
    destruct (LoadOrStore_inv _ _ _ _ _ Hq El) as (? & ? & ?).
    split; [done|]. split; [done|]. split; [done|]. by eapply Unmarshal_ok.
  - case_goal; by intros [= <- <-].
  - by intros [= <- <-].
Qed.

Lemma set_gathering_inv ptr g q :
  qfp_inv q → rtc gather_step GatherClientInitials g → qfp_inv (set_gathering ptr g q).
Proof.
  intros [Hv Hi Hg Ht] Hr. split; cbn; [|done| |done].
  - intros k p Hk. rewrite length_insert. by eapply Hv.
  - by apply Forall_insert.
Qed.

Lemma HandlePacket_add_inv now ptr ci q :
  qfp_inv q → ci_ok ci → qfp_inv (snd (HandlePacket_add now ptr ci q)) ∧
  length (heap (snd (HandlePacket_add now ptr ci q))) = length (heap q).
Proof.
  intros Hq Hci. unfold HandlePacket_add. destruct (heap q !! ptr) as [g|] eqn:Eg; [|done].
  assert (rtc gather_step GatherClientInitials (snd (AddPacket now ci g))) as Hr.
  { eapply rtc_r; [|by apply step_AddPacket].
    exact (Forall_lookup_1 _ _ _ _ (qi_gatherings _ Hq) Eg). }
  destruct (AddPacket now ci g) as [[err|w] g']; cbn [snd] in *;
    (split; [by apply set_gathering_inv|apply length_insert]).
Qed.

Lemma delete_inv k tms q :
  qfp_inv q → (∀ k', k' ≠ k → k' ∈ snd <$> timers q → k' ∈ snd <$> tms) →
  qfp_inv (mkQFP (delete k (mapGatheringClientInitials q)) (heap q) tms (timeout q) (closed q)).
Proof.
  intros [Hv Hi Hg Ht] Htms. split; cbn.
  - intros k' p [_ Hk]%lookup_delete_Some. eauto.
  - intros k1 k2 p [_ H1]%lookup_delete_Some [_ H2]%lookup_delete_Some. eauto.
  - done.
  - intros k' [p [Hne Hk]%lookup_delete_Some]. apply Htms; [done|]. eauto.
Qed.

Lemma sys_step_inv s s' : sys_inv s → sys_step s s' → sys_inv s'.
Proof.
  intros [Hq Hf] Hs. destruct Hs as [now from p r q Hw Hl E|now before ptr ci after E|now q Hfire|
                                     from|from|d|].
  - destruct (HandlePacket_lookup_inv _ _ _ _ _ _ Hq Hw Hl E) as (Hq' & Hlen & Hr).
    split; cbn; [done|]. apply Forall_app. split.
    + eapply Forall_impl; [exact Hf|]. intros [ptr ci] [? ?]. simpl in *. split; [lia|done].
    + destruct r as [e|[ptr ci]]; [constructor|]. by apply Forall_singleton.
  - rewrite E in Hf. apply Forall_app in Hf as [Hf1 Hf2]. apply Forall_cons in Hf2 as [[Hp Hci] Hf2].
    destruct (HandlePacket_add_inv now ptr ci (fp_state s) Hq Hci) as [Hq' Hlen].
    split; cbn; [done|]. rewrite Hlen. by apply Forall_app.
  - destruct Hfire as [before t k after Et Hle]. split; cbn; [|done].
    apply delete_inv; [done|]. intros k' Hne. rewrite Et, !fmap_app, !elem_of_app, fmap_cons, elem_of_cons.
    simpl. tauto.
  - rewrite Pop_spec. split; cbn; [|done]. by apply delete_inv.
  - split; cbn; [|done]. by apply delete_inv.
  - destruct Hq. by split.
  - destruct Hq. by split.
Qed.

Lemma sys_inv_reachable d s :
  rtc sys_step (mkSys (NewQUICFingerprinterWithTimeout d) []) s → sys_inv s.
Proof.
  intros H. assert (sys_inv (mkSys (NewQUICFingerprinterWithTimeout d) [])) as Hi.
  { split; cbn; [|constructor].
    split; cbn; [| |constructor|].
    - intros k ptr Hk. by rewrite lookup_empty in Hk.
    - intros k k' ptr Hk. by rewrite lookup_empty in Hk.
    - intros k [p Hp]. by rewrite lookup_empty in Hp. }
  revert Hi. induction H; eauto using sys_step_inv.
Qed.

(** A gathering, once allocated, stays at its address - whatever happens to the map - and
    changes only by its own operations. *)
Lemma heap_evolves s s' ptr g :
  sys_inv s → rtc sys_step s s' → heap (fp_state s) !! ptr = Some g →
  ∃ g', heap (fp_state s') !! ptr = Some g' ∧ rtc gather_step g g'.
Proof.
  intros Hi H. revert g Hi. induction H as [s|s1 s2 s3 Hs _ IH]; intros g Hi Hg; [by eauto using rtc_refl|].
  cut (∃ g', heap (fp_state s2) !! ptr = Some g' ∧ rtc gather_step g g').
  { intros (g2 & Hg2 & Hr2). destruct (IH g2 (sys_step_inv _ _ Hi Hs) Hg2) as (g3 & Hg3 & Hr3).
    exists g3. split; [done|]. by transitivity g2. }
  clear IH. destruct Hs as [now from p r q Hw Hl E|now before p ci after E|now q []|from|from|d|];
    rewrite ?Pop_spec; cbn [fp_state heap snd LoadAndDelete delete_key SetTimeout Close];
    try by eauto using rtc_refl.
  - exists g. split; [|apply rtc_refl]. unfold HandlePacket_lookup, LoadOrStore in E.
    repeat case_match; simplify_eq; try done; by apply lookup_app_l_Some.
  - destruct Hi as [_ Hf]. rewrite E in Hf. apply Forall_app in Hf as [_ Hf].
    apply Forall_cons in Hf as [[_ Hci] _]. unfold HandlePacket_add.
    destruct (heap (fp_state s1) !! p) as [gp|] eqn:Ep; [|by eauto using rtc_refl].
    destruct (decide (p = ptr)) as [->|Hne].
    + assert (gp = g) as -> by congruence. exists (snd (AddPacket now ci g)). split.
      * destruct (AddPacket now ci g) as [[]]; cbn; apply list_lookup_insert_eq; by eapply lookup_lt_Some.
      * by apply rtc_once, step_AddPacket.
    + exists g. split; [|apply rtc_refl].
      destruct (AddPacket now ci gp) as [[]]; cbn; by rewrite list_lookup_insert_ne.
Qed.

Lemma await_safe d s s' gci q1 now o :
  rtc sys_step (mkSys (NewQUICFingerprinterWithTimeout d) []) s → rtc sys_step s s' →
  heap q1 = heap (fp_state s) → await gci q1 (fp_state s') now o →
  o = Err not_found ∧ gci = None ∨ o = Err ErrGatheringExpired ∨
  ∃ ptr g fp, gci = Some ptr ∧ heap (fp_state s') !! ptr = Some g ∧ completed g = true ∧
    o = Ok fp ∧ ClientInitials fp = g ∧ qfp_HexID fp = AsHex (s64 (qfp_NumID fp)).
Proof.
  intros Hr Hr' Hq1 Ha. apply sys_inv_reachable in Hr as Hi.
  destruct Ha as [Hg|ptr g g' o -> Hg Hg' Hgen]; [by left|right]. rewrite Hq1 in Hg.
  destruct (heap_evolves _ _ _ _ Hi Hr' Hg) as (g2 & Hg2 & Hev). assert (g2 = g') as -> by congruence.
  pose proof (Forall_lookup_1 _ _ _ _ (qi_gatherings _ (si_state _ Hi)) Hg) as Hreach. simpl in Hreach.
  destruct (GenerateQUICFingerprint_safe g g' now o Hreach Hev Hgen) as [?|(Hc & fp & -> & Hci & _ & Hhex)];
    [by left|right]. by exists ptr, g', fp.
Qed.
End histories.

(** ** Demultiplexing *)

Section demux.
Context {CB : Cryptobyte} {HK : Hkdf} {DT : Dicttls} {UT : Utls}.

(** What happens to a fingerprinter: a packet is handled, or an expiry goroutine wakes up. *)
Inductive hevent := Packet (from : string) (p : bytes) | Expiry (t : Z) (k : string).

(** A history: events with their times; the results of the calls of [HandlePacket]. *)
Fixpoint run (events : list (Z * hevent)) (q : QUICFingerprinter)
    : list (option goerror) * QUICFingerprinter :=
  match events with
  | [] => ([], q)
  | (now, Packet from p) :: events =>
    let '(err, q) := HandlePacket now from p q in
    let '(errs, q) := run events q in (err :: errs, q)
  | (now, Expiry t k) :: events => run events (expire now t k q)
  end.

(** The part of a history that concerns one sender: its packets that decode, and its
    timers. *)
Inductive sender_event := Arrival (ci : ClientInitial) | Timer (t : Z).

Definition own (k : string) (events : list (Z * hevent)) : list (Z * sender_event) :=
  omap (λ e, match e with
             | (now, Packet from p) =>
               if bool_decide (from = k) then
                 match UnmarshalQUICClientInitialPacket p with Ok ci => Some (now, Arrival ci) | _ => None end
               else None
             | (now, Expiry t k') => if bool_decide (k' = k) then Some (now, Timer t) else None
             end) events.

(** The packets of one sender that decode, with their times. *)
Definition arrivals (k : string) (events : list (Z * hevent)) : list (Z * ClientInitial) :=
  omap (λ e, match e with (now, Arrival ci) => Some (now, ci) | _ => None end) (own k events).

(** The specification, for one sender alone: a gathering while there is one, and the times
    of the pending timers.  The first packet starts a gathering with deadline and timer
    [d] later; a timer that is due forgets the gathering, whichever it was started for. *)
Record sender := mkSender { gathering : option GatheredClientInitials; pending : list Z }.

Definition no_sender : sender := mkSender None [].

Definition sender_step (d : Z) (s : sender) (e : Z * sender_event) : sender :=
  match e with
  | (now, Arrival ci) =>
    match gathering s with
    | Some g => mkSender (Some (snd (AddPacket now ci g))) (pending s)
    | None => mkSender (Some (snd (AddPacket now ci (GatherClientInitialsWithDeadline (now + d)))))
                (pending s ++ [now + d])
    end
  | (now, Timer t) =>
    if t <=? now then
      match remove_first t (pending s) with
      | Some rest => mkSender None rest
      | None => s
      end
    else s
  end.

(** What the fingerprinter keeps for one sender. *)
Definition timers_of (k : string) (l : list (Z * string)) : list Z :=
  omap (λ e, if bool_decide (snd e = k) then Some (fst e) else None) l.

Definition view (k : string) (q : QUICFingerprinter) : sender :=
  mkSender (Load k q) (timers_of k (timers q)).

(** Distinct senders have distinct, allocated gatherings. *)
Definition ptr_ok (q : QUICFingerprinter) : Prop :=
  (∀ k ptr, mapGatheringClientInitials q !! k = Some ptr → (ptr < length (heap q))%nat) ∧
  (∀ k k' ptr, mapGatheringClientInitials q !! k = Some ptr →
     mapGatheringClientInitials q !! k' = Some ptr → k = k').

(** [LoadOrStore] gives every key a gathering of its own. *)
Lemma LoadOrStore_spec now from q ptr q' :
  ptr_ok q → LoadOrStore now from q = (ptr, q') →
  ptr_ok q' ∧ mapGatheringClientInitials q' !! from = Some ptr ∧ closed q' = closed q ∧
  timeout q' = timeout q ∧
  heap q' !! ptr = Some (default (if timeout q =? 0 then GatherClientInitials
                                  else GatherClientInitialsWithDeadline (now + timeout q)) (Load from q)) ∧
  ∀ k, k ≠ from → Load k q' = Load k q.
Proof.
  intros [Hv Hi]. unfold LoadOrStore. set (g := if timeout q =? 0 then GatherClientInitials else _).
  destruct (mapGatheringClientInitials q !! from) as [chosen|] eqn:E; intros [= <- <-].
  - pose proof (Hv _ _ E) as Hlt. split; [split|]; cbn [mapGatheringClientInitials heap].
    + intros k p Hk. rewrite length_app. apply Hv in Hk. lia.
    + done.
    + do 3 (split; [done|]). unfold Load. cbn [mapGatheringClientInitials heap]. rewrite E. cbn [mbind option_bind].
      rewrite lookup_app_l by done. destruct (lookup_lt_is_Some_2 _ _ Hlt) as [g0 Hg0]. rewrite Hg0.
      split; [done|]. intros k _. destruct (mapGatheringClientInitials q !! k) as [p|] eqn:Ek; [|done].
      cbn [mbind option_bind]. apply lookup_app_l. by eapply Hv.
  - split; [split|]; cbn [mapGatheringClientInitials heap].
    + intros k p. rewrite length_app, lookup_insert_Some. intros [[_ <-]|[_ Hk%Hv]]; simpl; lia.
    + intros k k' p. rewrite !lookup_insert_Some. intros [[<- <-]|[Hn Hk]] [[<- Hp]|[Hn' Hk']]; eauto.
      * apply Hv in Hk'. lia.
      * apply Hv in Hk. lia.
    + rewrite lookup_insert_eq. do 3 (split; [done|]). unfold Load. cbn [mapGatheringClientInitials heap].
      rewrite E, list_lookup_middle by done. split; [done|].
      intros k Hne. rewrite lookup_insert_ne by done.
      destruct (mapGatheringClientInitials q !! k) as [p|] eqn:Ek; [|done].
      cbn [mbind option_bind]. apply lookup_app_l. by eapply Hv.
Qed.

(** What one packet does: nothing to other senders, and to its own sender what [AddPacket]
    does to the gathering that is there or to a new one. *)
Lemma HandlePacket_spec now from p q :
  ptr_ok q → closed q = false →
  let q' := snd (HandlePacket now from p q) in
  ptr_ok q' ∧ closed q' = false ∧ timeout q' = timeout q ∧
  (∀ k, k ≠ from → Load k q' = Load k q) ∧
  Load from q' =
    match UnmarshalQUICClientInitialPacket p with
    | Ok ci => Some (snd (AddPacket now ci
                 (default (if timeout q =? 0 then GatherClientInitials
                           else GatherClientInitialsWithDeadline (now + timeout q)) (Load from q))))
    | _ => Load from q
    end.
Proof.
  intros Hok Hc. cbv zeta. unfold HandlePacket, HandlePacket_lookup. rewrite Hc.
  destruct (UnmarshalQUICClientInitialPacket p) as [ci|e|w]; [|by destruct (_ || _)|done].
  destruct (LoadOrStore now from q) as [ptr q1] eqn:El.
  destruct (LoadOrStore_spec _ _ _ _ _ Hok El) as ([Hv Hi] & Hm & Hc1 & Ht1 & Hh & Hothers).
  set (g := default _ (Load from q)) in *. clearbody g.
  unfold HandlePacket_add. rewrite Hh.
  assert (∀ g', let q' := set_gathering ptr g' q1 in
    ptr_ok q' ∧ closed q' = false ∧ timeout q' = timeout q ∧
    (∀ k, k ≠ from → Load k q' = Load k q) ∧ Load from q' = Some g') as H.
  { intros g'. cbv zeta. split; [split|]; cbn [set_gathering mapGatheringClientInitials heap closed timeout];
      [|done|split; [congruence|split; [done|split]]].
    - intros k p' Hk. rewrite length_insert. eauto.
    - intros k Hne. rewrite <- (Hothers k Hne). unfold Load. cbn [set_gathering mapGatheringClientInitials heap].
      destruct (mapGatheringClientInitials q1 !! k) as [p'|] eqn:Ek; [|done]. cbn [mbind option_bind].
      apply list_lookup_insert_ne. intros <-. by apply Hne, (Hi _ _ ptr).
    - unfold Load. cbn [set_gathering mapGatheringClientInitials heap]. rewrite Hm.
      cbn [mbind option_bind]. apply list_lookup_insert_eq. eauto. }
  destruct (AddPacket now ci g) as [[err|w] g']; apply (H g').
Qed.

Lemma HandlePacket_add_timers now ptr ci q : timers (snd (HandlePacket_add now ptr ci q)) = timers q.
Proof.
  unfold HandlePacket_add. destruct (heap q !! ptr) as [g|]; [|done].
  by destruct (AddPacket now ci g) as [[e|w] g'].
Qed.

(** A packet that decodes starts a timer exactly when its sender is new. *)
Lemma HandlePacket_timers now k p ci q :
  closed q = false → UnmarshalQUICClientInitialPacket p = Ok ci →
  timers (snd (HandlePacket now k p q)) =
  timers q ++ match mapGatheringClientInitials q !! k with
              | Some _ => []
              | None => [(now + (if timeout q =? 0 then DEFAULT_QUICFINGERPRINT_EXPIRY else timeout q), k)]
              end.
Proof.
  intros Hc Hp. unfold HandlePacket, HandlePacket_lookup, LoadOrStore. rewrite Hc, Hp.
  destruct (mapGatheringClientInitials q !! k); rewrite HandlePacket_add_timers; cbn [timers];
    [by rewrite app_nil_r|done].
Qed.

Lemma Load_None q k : ptr_ok q → Load k q = None ↔ mapGatheringClientInitials q !! k = None.
Proof.
  intros [Hv _]. unfold Load. destruct (mapGatheringClientInitials q !! k) as [ptr|] eqn:E; [|done].
  cbn [mbind option_bind]. destruct (lookup_lt_is_Some_2 _ _ (Hv _ _ E)) as [g ->]. done.
Qed.

Lemma run_app e1 e2 q :
  run (e1 ++ e2) q =
  let '(r1, q1) := run e1 q in let '(r2, q2) := run e2 q1 in (r1 ++ r2, q2).
Proof.
  revert q. induction e1 as [|[now [from p|t k]] e1 IH]; intros q; cbn [run app].
  { by destruct (run e2 q). }
  - destruct (HandlePacket now from p q) as [err q1]. rewrite IH.
    destruct (run e1 q1) as [r1 q2]. by destruct (run e2 q2).
  - apply IH.
Qed.

Lemma timers_of_app k l1 l2 : timers_of k (l1 ++ l2) = timers_of k l1 ++ timers_of k l2.
Proof. apply omap_app. Qed.

Lemma timers_of_cons k t k' l :
  timers_of k ((t, k') :: l) = if bool_decide (k' = k) then t :: timers_of k l else timers_of k l.
Proof. unfold timers_of. cbn. by case_bool_decide. Qed.

(** Removing a timer, seen by one sender. *)
Lemma timers_of_remove k t k' l :
  (k' = k → timers_of k <$> remove_first (t, k') l = remove_first t (timers_of k l)) ∧
  (k' ≠ k → ∀ l', remove_first (t, k') l = Some l' → timers_of k l' = timers_of k l).
Proof.
  split; [intros ->|intros Hne]; induction l as [|[t1 k1] l IH]; [done| |done|];
    cbn [remove_first]; rewrite timers_of_cons.
  - destruct (decide ((t, k) = (t1, k1))) as [[= <- <-]|Hne].
    { rewrite bool_decide_true by done. cbn [remove_first]. by rewrite decide_True by done. }
    destruct (decide (k1 = k)) as [->|Hk].
    + rewrite bool_decide_true by done. cbn [remove_first]. rewrite decide_False by congruence.
      rewrite <- IH. destruct (remove_first (t, k) l); [|done]. cbn [fmap option_fmap option_map].
      by rewrite timers_of_cons, bool_decide_true by done.
    + rewrite bool_decide_false by done. rewrite <- IH.
      destruct (remove_first (t, k) l); [|done]. cbn [fmap option_fmap option_map].
      by rewrite timers_of_cons, bool_decide_false by done.
  - intros l'. destruct (decide ((t, k') = (t1, k1))) as [[= <- <-]|Hne'].
    + intros [= <-]. by rewrite bool_decide_false by done.
    + destruct (remove_first (t, k') l) as [l2|]; [|done]. intros [= <-].
      by rewrite timers_of_cons, (IH l2).
Qed.

(** A timer that fires, seen by one sender. *)
Lemma expire_view now t k' q k :
  ptr_ok q →
  let q' := expire now t k' q in
  ptr_ok q' ∧ closed q' = closed q ∧ timeout q' = timeout q ∧
  view k q' = if bool_decide (k' = k) then sender_step 0 (view k q) (now, Timer t) else view k q.
Proof.
  intros [Hv Hi]. cbv zeta. unfold expire. cbn [sender_step]. destruct (t <=? now).
  2: { split; [done|]. do 2 (split; [done|]). by case_bool_decide. }
  destruct (timers_of_remove k t k' (timers q)) as [Hsame Hother].
  destruct (remove_first (t, k') (timers q)) as [rest|] eqn:E.
  - split; [|split; [done|split; [done|]]].
    { split; cbn [mapGatheringClientInitials heap].
      - intros k1 ptr [_ ?]%lookup_delete_Some. eauto.
      - intros k1 k2 ptr [_ ?]%lookup_delete_Some [_ ?]%lookup_delete_Some. eauto. }
    unfold view, Load. cbn [mapGatheringClientInitials heap timers].
    case_bool_decide as Hk.
    + subst k'. specialize (Hsame eq_refl). cbn [fmap option_fmap option_map] in Hsame.
      cbn [pending]. rewrite <- Hsame. by rewrite lookup_delete_eq.
    + rewrite lookup_delete_ne by done. by rewrite (Hother Hk rest).
  - split; [done|]. do 2 (split; [done|]). case_bool_decide as Hk; [|done].
    specialize (Hsame Hk). cbn [fmap option_fmap option_map] in Hsame. cbn [view pending]. by rewrite <- Hsame.
Qed.

Lemma ptr_ok_New d : ptr_ok (NewQUICFingerprinterWithTimeout d).
Proof.
  split; cbn [NewQUICFingerprinterWithTimeout mapGatheringClientInitials].
  - intros k ptr Hk. by rewrite lookup_empty in Hk.
  - intros k k' ptr Hk. by rewrite lookup_empty in Hk.
Qed.

(** A packet, seen by one sender. *)
Lemma HandlePacket_view now from p q d k :
  ptr_ok q → closed q = false → timeout q = d → d ≠ 0 →
  view k (snd (HandlePacket now from p q)) =
    foldl (sender_step d) (view k q) (own k [(now, Packet from p)]).
Proof.
  intros Hok Hc Ht Hd. pose proof (HandlePacket_spec now from p q Hok Hc) as HP. cbv zeta in HP.
  destruct HP as (_ & _ & _ & Hothers & Hself). cbn [own omap list_omap].
  destruct (UnmarshalQUICClientInitialPacket p) as [ci|e|w] eqn:Ep.
  2,3: replace (snd (HandlePacket now from p q)) with q
    by (unfold HandlePacket, HandlePacket_lookup; rewrite Hc, Ep; by try destruct (_ || _)); by case_bool_decide.
  pose proof (HandlePacket_timers now from p ci q Hc Ep) as Htm.
  rewrite Ht, (proj2 (Z.eqb_neq d 0)) in Htm by done.
  unfold view at 1. rewrite Htm, timers_of_app.
  assert (timers_of k (match mapGatheringClientInitials q !! from with
            | Some _ => [] | None => [(now + d, from)] end) =
          if bool_decide (from = k) then match Load k q with Some _ => [] | None => [now + d] end else []) as ->.
  { destruct (mapGatheringClientInitials q !! from) as [ptr|] eqn:E; cbn [timers_of omap list_omap snd fst].
    - case_bool_decide as Hk; [|done]. subst k. destruct (Load from q) eqn:El; [done|].
      apply Load_None in El; [congruence|done].
    - case_bool_decide as Hk; [|done]. subst k. by rewrite (proj2 (Load_None q from Hok)). }
  case_bool_decide as Hk; [subst k|].
  - cbn [foldl sender_step view gathering pending].
    rewrite Hself, Ht, (proj2 (Z.eqb_neq d 0)) by done.
    destruct (Load from q) as [g|]; cbn [default id from_option]; by rewrite ?app_nil_r.
  - cbn [foldl]. rewrite Hothers by done. by rewrite app_nil_r.
Qed.

(** Refinement: for every sender a history does what the specification does with the part
    that concerns this sender. *)
Lemma run_refines d events q k :
  d ≠ 0 → ptr_ok q → closed q = false → timeout q = d →
  let q' := snd (run events q) in
  ptr_ok q' ∧ closed q' = false ∧ timeout q' = d ∧
  view k q' = foldl (sender_step d) (view k q) (own k events).
Proof.
  intros Hd. revert q. induction events as [|[now [from p|t k']] events IH]; intros q Hok Hc Ht; cbv zeta; [done|..];
    cbn [run].
  - pose proof (HandlePacket_spec now from p q Hok Hc) as HP. cbv zeta in HP.
    pose proof (HandlePacket_view now from p q d k Hok Hc Ht Hd) as HV.
    destruct (HandlePacket now from p q) as [err q1]. cbn [snd] in HP, HV.
    destruct HP as (Hok1 & Hc1 & Ht1 & _). specialize (IH q1 Hok1 Hc1 (eq_trans Ht1 Ht)). cbv zeta in IH.
    destruct (run events q1) as [errs q2]. cbn [snd] in *.
    change (own k ((now, Packet from p) :: events)) with (own k ([(now, Packet from p)] ++ events)).
    unfold own at 1. rewrite omap_app. fold (own k [(now, Packet from p)]). fold (own k events).
    rewrite foldl_app, <- HV. exact IH.
  - destruct (expire_view now t k' q k Hok) as (Hok1 & Hc1 & Ht1 & HV).
    specialize (IH (expire now t k' q) Hok1 (eq_trans Hc1 Hc) (eq_trans Ht1 Ht)). cbv zeta in IH.
    rewrite HV in IH. cbn [own omap list_omap]. by case_bool_decide.
Qed.

(** From a new fingerprinter. *)
Lemma run_New d events k :
  d ≠ 0 →
  let q := snd (run events (NewQUICFingerprinterWithTimeout d)) in
  closed q = false ∧ view k q = foldl (sender_step d) no_sender (own k events).
Proof.
  intros Hd. cbv zeta.
  destruct (run_refines d events (NewQUICFingerprinterWithTimeout d) k Hd (ptr_ok_New d)) as (_ & ? & _ & ?); done.
Qed.

(** As long as no time reaches the end of its timeout, the gathering of a sender is that of
    its packets. *)
Lemma sender_gathers d T l g :
  Forall (λ e, fst e < T) l →
  foldl (sender_step d) (mkSender (Some g) [T]) l =
  mkSender (Some (snd (add_packets (omap (λ e, match e with (now, Arrival ci) => Some (now, ci) | _ => None end) l) g))) [T].
Proof.
  intros H. revert g. induction H as [|[now [ci|t]] l Hnow _ IH]; intros g; [done|..]; cbn [foldl sender_step fst] in *.
  - cbn [gathering pending omap list_omap add_packets]. rewrite IH.
    destruct (AddPacket now ci g) as [r g1]. cbn [snd]. by destruct (add_packets _ g1).
  - cbn [omap list_omap]. destruct (t <=? now) eqn:E; [|apply IH]. bool_facts.
    cbn [pending remove_first]. rewrite decide_False by lia. apply IH.
Qed.

Lemma sender_first d l t0 c0 rest :
  omap (λ e, match e with (now, Arrival ci) => Some (now, ci) | _ => None end) l = (t0, c0) :: rest →
  Forall (λ e, fst e < t0 + d) l →
  foldl (sender_step d) no_sender l =
  mkSender (Some (snd (add_packets ((t0, c0) :: rest) (GatherClientInitialsWithDeadline (t0 + d))))) [t0 + d].
Proof.
  intros Ho H. induction H as [|[now [ci|t]] l Hnow Hl IH]; [done|..]; cbn [omap list_omap] in Ho.
  - injection Ho as -> -> <-. cbn [foldl sender_step no_sender gathering pending app].
    rewrite sender_gathers by done. cbn [add_packets].
    destruct (AddPacket t0 c0 _) as [r g1]. cbn [snd]. by destruct (add_packets _ g1).
  - cbn [foldl sender_step no_sender pending remove_first]. fold no_sender. destruct (t <=? now); by apply IH.
Qed.

Lemma own_times k events T : Forall (λ e, fst e < T) events → Forall (λ e, fst e < T) (own k events).
Proof.
  unfold own. induction 1 as [|[now [from p|t k']] events Hnow _ IH]; [apply Forall_nil_2|..];
    cbn [omap list_omap]; repeat case_match; simplify_eq; try apply Forall_cons; done.
Qed.

Lemma arrivals_times k events T : Forall (λ e, fst e < T) events → Forall (λ a, fst a <= T) (arrivals k events).
Proof.
  intros H%(own_times k). unfold arrivals. induction H as [|[now [ci|t]] l Hnow _ IH]; cbn [omap list_omap fst] in *;
    [apply Forall_nil_2|apply Forall_cons; split; [simpl; lia|done]|done].
Qed.

Lemma run_gathers d events k t0 c0 l :
  d ≠ 0 → arrivals k events = (t0, c0) :: l → Forall (λ e, fst e < t0 + d) events →
  Load k (snd (run events (NewQUICFingerprinterWithTimeout d))) =
    Some (snd (add_packets ((t0, c0) :: l) (GatherClientInitialsWithDeadline (t0 + d)))).
Proof.
  intros Hd Ha Ht. destruct (run_New d events k Hd) as [_ Hv]. cbv zeta in Hv.
  rewrite (sender_first d _ t0 c0 l Ha (own_times k _ _ Ht)) in Hv. by injection Hv.
Qed.

(** The events a receive loop handles and the error it ends with, if it does. *)
Fixpoint received (reads : list (Z * occurrence)) : list (Z * hevent) * option goerror :=
  match reads with
  | [] => ([], None)
  | (_, ReadError err) :: reads => if stops err then ([], Some err) else received reads
  | (now, Received addr p) :: reads => let '(l, e) := received reads in ((now, Packet addr p) :: l, e)
  | (now, Woken t k) :: reads => let '(l, e) := received reads in ((now, Expiry t k) :: l, e)
  end.

(** What the raw-socket loop makes of an IP datagram: the UDP payload to port 443. *)
Definition of_ip {GP : Gopacket} (r : Z * occurrence) : option (Z * occurrence) :=
  match r with
  | (now, Received ip p) =>
    match ParseUDPPacket p with
    | inl (srcPort, dstPort, payload) =>
      if dstPort =? 443 then Some (now, Received (UDPAddr_String ip srcPort) payload) else None
    | inr _ => None
    end
  | r => Some r
  end.

Lemma HandlePacket_closed now from p q : closed (snd (HandlePacket now from p q)) = closed q.
Proof.
  unfold HandlePacket, HandlePacket_lookup, HandlePacket_add, LoadOrStore.
  destruct (closed q) eqn:Ec; [done|].
  destruct (UnmarshalQUICClientInitialPacket p) as [ci|e|w]; [|by destruct (_ || _)|done].
  destruct (mapGatheringClientInitials q !! from); cbn [heap];
    match goal with |- context [match ?l !! ?i with _ => _ end] => destruct (l !! i) end; try done;
    match goal with |- context [AddPacket ?a ?b ?c] => destruct (AddPacket a b c) as [[]] end; done.
Qed.

Lemma expire_closed now t k q : closed (expire now t k q) = closed q.
Proof. unfold expire. by repeat case_match. Qed.

Lemma HandleUDPConn_run reads q :
  closed q = false →
  HandleUDPConn reads q = (snd (received reads), snd (run (fst (received reads)) q)).
Proof.
  revert q. induction reads as [|[now [addr p|err|t k]] reads IH]; intros q Hc; cbn [HandleUDPConn received];
    rewrite Hc; [done| | |].
  - rewrite IH by by rewrite HandlePacket_closed. destruct (received reads) as [l e]. cbn [fst snd run].
    destruct (HandlePacket now addr p q) as [err q1]. cbn [snd]. by destruct (run l q1).
  - destruct (stops err); [done|]. by apply IH.
  - rewrite IH by by rewrite expire_closed. by destruct (received reads).
Qed.

Lemma HandleIPConn_UDP {GP : Gopacket} reads q :
  closed q = false → HandleIPConn reads q = HandleUDPConn (omap of_ip reads) q.
Proof.
  revert q. induction reads as [|[now [ip p|err|t k]] reads IH]; intros q Hc; cbn [HandleIPConn]; rewrite Hc.
  - cbn. by rewrite Hc.
  - cbn [omap list_omap of_ip]. destruct (ParseUDPPacket p) as [[[src dst] payload]|e]; [|by apply IH].
    destruct (dst =? 443); cbn [negb]; [|by apply IH].
    cbn [HandleUDPConn]. rewrite Hc. apply IH. by rewrite HandlePacket_closed.
  - cbn [omap list_omap of_ip HandleUDPConn]. rewrite Hc. destruct (stops err); [done|]. by apply IH.
  - cbn [omap list_omap of_ip HandleUDPConn]. rewrite Hc. apply IH. by rewrite expire_closed.
Qed.

(** [expire] is what a timer does. *)
Lemma expire_fire now t k q : expire now t k q = q ∨ fire now q (expire now t k q).
Proof.
  unfold expire. destruct (t <=? now) eqn:Et; [|by left]. bool_facts.
  destruct (remove_first (t, k) (timers q)) as [rest|] eqn:E; [right|by left].
  apply remove_first_Some in E as (l1 & l2 & H1 & ->).
  by apply (fire_timer now q l1 t k l2).
Qed.
End demux.

Section expiry_lemmas.
Context {CB : Cryptobyte} {HK : Hkdf} {DT : Dicttls} {UT : Utls}.

Lemma AddPacket_zero_deadline now ci :
  0 < now → AddPacket now ci GatherClientInitials = (Return (Some ErrGatheringExpired), GatherClientInitials).
Proof. intros H. unfold AddPacket, Expired. by rewrite (proj2 (Z.ltb_lt _ _)). Qed.

(** Without a timeout the stored gatherings never leave their initial state. *)
Lemma run_no_timeout events q :
  ptr_ok q → closed q = false → timeout q = 0 → Forall (λ e, 0 < fst e) events →
  (∀ k, Load k q = None ∨ Load k q = Some GatherClientInitials) →
  ∀ k, Load k (snd (run events q)) = None ∨ Load k (snd (run events q)) = Some GatherClientInitials.
Proof.
  intros Hok Hc Ht Hnow. revert q Hok Hc Ht.
  induction Hnow as [|[now [from p|t k']] events Hpos Hnow IH]; intros q Hok Hc Ht Hl; [done|..]; cbn [run fst] in *.
  - pose proof (HandlePacket_spec now from p q Hok Hc) as HP. cbv zeta in HP.
    destruct (HandlePacket now from p q) as [err q1]. cbn [snd] in HP.
    destruct HP as (Hok1 & Hc1 & Ht1 & Hothers & Hself).
    specialize (IH q1 Hok1 Hc1 (eq_trans Ht1 Ht)).
    destruct (run events q1) as [errs q2]. cbn [snd] in *. apply IH. intros k.
    destruct (decide (k = from)) as [->|Hne]; [|rewrite Hothers by done; apply Hl].
    rewrite Hself. destruct (UnmarshalQUICClientInitialPacket p) as [ci|e|w]; [|apply Hl..].
    right. f_equal. rewrite Ht. cbn [Z.eqb].
    replace (default _ (Load from q)) with GatherClientInitials by by destruct (Hl from) as [-> | ->].
    by rewrite AddPacket_zero_deadline.
  - destruct (expire_view now t k' q k' Hok) as (Hok1 & Hc1 & Ht1 & _).
    apply IH; [done|congruence|congruence|]. intros k.
    destruct (expire_view now t k' q k Hok) as (_ & _ & _ & HV). apply (f_equal gathering) in HV.
    cbn [view gathering] in HV. rewrite HV. case_bool_decide; [|apply Hl].
    cbn [sender_step]. repeat case_match; cbn [gathering view]; [by left|apply Hl..].
Qed.
End expiry_lemmas.

(** ** Properties *)

(** C7: the receive loops: whatever is read from the raw socket - truncated datagrams, other
    ports, undecodable or crashing packets, temporary read errors - the loop goes on until
    the socket is closed, while expiry goroutines wake up in between.  What it leaves for
    a sender, under its printed address, is what the one-sender specification makes of the
    UDP payloads of this sender to port 443 that decode and of its timers: a first packet
    starts a gathering that ends, and is forgotten by a timer, after the timeout; a packet
    after that starts the next. *)
Theorem HandleIPConn_survives (CB : Cryptobyte) (HK : Hkdf) (DT : Dicttls) (UT : Utls) (GP : Gopacket) d reads :
  d ≠ 0 →
  let '(events, stop) := received (omap of_ip reads) in
  let '(err, q) := HandleIPConn reads (NewQUICFingerprinterWithTimeout d) in
  err = stop ∧ closed q = false ∧
  ∀ k, view k q = foldl (sender_step d) no_sender (own k events).
Proof.
  intros Hd. rewrite HandleIPConn_UDP, HandleUDPConn_run by done.
  destruct (received (omap of_ip reads)) as [events stop]. cbn [fst snd].
  split; [done|]. split; [by destruct (run_New d events "" Hd)|].
  intros k. by destruct (run_New d events k Hd).
Qed.

(** UDP headers as the wire has them: ports, length, checksum. *)
Definition gopacket_ref : Gopacket := λ p,
  if len p <? 8 then inr (errors_New "Invalid UDP header")
  else inl (be_decode (slice 0 2 p), be_decode (slice 2 4 p), drop 8 p).

(** A UDP datagram from port 7 to port 443. *)
Definition udp_sample (p : bytes) : bytes := [0; 7; 1; 187; 0; 0; 0; 0] ++ p.

Lemma udp_sample_parse p : @ParseUDPPacket gopacket_ref (udp_sample p) = inl (7, 443, p).
Proof.
  unfold ParseUDPPacket, udp_DecodeFromBytes, gopacket_ref, udp_sample.
  rewrite (proj2 (Z.ltb_ge _ _)) by len_solve. reflexivity.
Qed.

(** A packet of "10.0.0.1:7", its expiry, and the same packet again. *)
Definition sample_reads (p : bytes) : list (Z * occurrence) :=
  [(1, Received "10.0.0.1" [0; 7]); (2, Received "10.0.0.1" [0; 7; 0; 80; 0; 0; 0; 0; 1]);
   (3, Received "10.0.0.1" (udp_sample p)); (4, ReadError (errors_New "temporary"));
   (12, Woken 12 "10.0.0.1:7"); (20, Received "10.0.0.1" (udp_sample p));
   (21, ReadError net_ErrClosed); (22, Received "10.0.0.1" [])].

Lemma HandleIPConn_survives_witness : ∃ p ci,
  @UnmarshalQUICClientInitialPacket cryptobyte_ref hkdf_ref p = Ok ci ∧
  let '(err, q) := @HandleIPConn cryptobyte_ref hkdf_ref dicttls_ref utls_ref gopacket_ref (sample_reads p)
                     (NewQUICFingerprinterWithTimeout 9) in
  err = Some net_ErrClosed ∧ closed q = false ∧
  view "10.0.0.1:7" q = mkSender (Some (snd (@AddPacket cryptobyte_ref dicttls_ref utls_ref 20 ci
                                              (GatherClientInitialsWithDeadline 29)))) [29].
Proof.
  destruct (@decode_protect cryptobyte_ref _ hkdf_ref _
              (sample_initial (flat_map encode_frame sample_frames)))
    as (p & _ & Hw & Hl & HD); [split; decide_now|].
  assert (∃ ci, @UnmarshalQUICClientInitialPacket cryptobyte_ref hkdf_ref p = Ok ci) as [ci Hci]
    by (unfold UnmarshalQUICClientInitialPacket; rewrite HD; eexists; reflexivity).
  exists p, ci. split; [exact Hci|].
  pose proof (HandleIPConn_survives cryptobyte_ref hkdf_ref dicttls_ref utls_ref gopacket_ref 9 (sample_reads p)) as H.
  assert (received (omap (@of_ip gopacket_ref) (sample_reads p)) =
    ([(3, Packet "10.0.0.1:7" p); (12, Expiry 12 "10.0.0.1:7"); (20, Packet "10.0.0.1:7" p)], Some net_ErrClosed)) as E.
  { unfold sample_reads. cbn [omap list_omap of_ip]. rewrite !udp_sample_parse. vm_compute. reflexivity. }
  rewrite E in H.
  destruct (@HandleIPConn cryptobyte_ref hkdf_ref dicttls_ref utls_ref gopacket_ref (sample_reads p)
              (NewQUICFingerprinterWithTimeout 9)) as [err q].
  destruct H as (He & Hc & Hv); [lia|]. split; [exact He|]. split; [exact Hc|]. rewrite Hv.
  cbn [own omap list_omap]. rewrite Hci, !bool_decide_true by reflexivity. reflexivity.
Defined.

(** C8: safety under concurrency: in every state that interleavings of the two halves of
    [HandlePacket], expiring timers, [Pop], [PopAwait], [SetTimeout] and [Close] can lead
    to, senders have gatherings of their own that satisfy the gathering invariant, every
    stored sender has a timer that will remove it, and [Peek] does not panic. *)
Theorem QUICFingerprinter_invariant (CB : Cryptobyte) (HK : Hkdf) (DT : Dicttls) (UT : Utls) d s :
  CryptobyteLaws CB → HkdfLaws HK →
  rtc sys_step (mkSys (NewQUICFingerprinterWithTimeout d) []) s →
  sys_inv s ∧ (∀ k g, Load k (fp_state s) = Some g → gather_inv g) ∧
  ∀ k, ∃ r, Peek k (fp_state s) = Ok r.
Proof.
  intros ?? Hs. apply sys_inv_reachable in Hs as Hinv. split; [done|].
  assert (∀ k g, Load k (fp_state s) = Some g → gather_inv g) as Hg.
  { intros k g. unfold Load. destruct (mapGatheringClientInitials _ !! k) as [p|]; [|done].
    cbn [mbind option_bind]. intros Hp. apply gather_inv_reachable.
    exact (Forall_lookup_1 _ _ _ _ (qi_gatherings _ (si_state _ Hinv)) Hp). }
  split; [done|]. intros k. unfold Peek. destruct (Load k (fp_state s)) as [g|] eqn:E; [|by eauto].
  specialize (Hg k g E). unfold Completed. destruct (completed g) eqn:Ec; cbn [negb]; [|by eauto].
  destruct (gi_complete _ Hg) as [_ Hc]. rewrite Ec in Hc. symmetry in Hc.
  apply bool_decide_eq_true in Hc as [ch Hch].
  destruct (gi_result _ Hg ch Hch) as (_ & _ & _ & _ & tp & Htp & _).
  unfold fingerprint_of. rewrite Hch, Htp. cbn [obind]. eauto.
Qed.

(** A first packet of "a" that has been looked up and not yet added. *)
Definition looked_up (ci : ClientInitial) : sys :=
  mkSys (mkQFP {["a"%string := 0%nat]} [GatherClientInitialsWithDeadline 11] [(11, "a"%string)] 10 false)
    [(0%nat, ci)].

(** ... and the same after the sender was popped and the packet was added. *)
Definition popped_and_added `{Cryptobyte} `{Dicttls} `{Utls} (ci : ClientInitial) : sys :=
  mkSys (snd (HandlePacket_add 2 0 ci (snd (LoadAndDelete "a" (fp_state (looked_up ci)))))) [].

Lemma sample_history : ∃ ci,
  rtc (@sys_step cryptobyte_ref hkdf_ref dicttls_ref utls_ref)
    (mkSys (NewQUICFingerprinterWithTimeout 10) []) (looked_up ci) ∧
  rtc (@sys_step cryptobyte_ref hkdf_ref dicttls_ref utls_ref)
    (looked_up ci) (@popped_and_added cryptobyte_ref dicttls_ref utls_ref ci).
Proof.
  destruct (@decode_protect cryptobyte_ref _ hkdf_ref _
              (sample_initial (flat_map encode_frame sample_frames)))
    as (p & _ & Hw & Hl & HD); [split; decide_now|].
  assert (∃ ci, @UnmarshalQUICClientInitialPacket cryptobyte_ref hkdf_ref p = Ok ci) as [ci Hci]
    by (unfold UnmarshalQUICClientInitialPacket; rewrite HD; eexists; reflexivity).
  exists ci. split.
  - apply rtc_once, (s_lookup (mkSys _ []) 1 "a" p (inr (0%nat, ci)) (fp_state (looked_up ci)));
      [exact Hw|rewrite Hl; decide_now|]. unfold HandlePacket_lookup. by rewrite Hci.
  - eapply rtc_l; [apply (s_pop_await _ "a")|]. apply rtc_once.
    eapply (s_add (mkSys (snd (LoadAndDelete "a" _)) _) 2 [] 0 _ []). reflexivity.
Qed.

Lemma QUICFingerprinter_invariant_witness : ∃ ci,
  let s := @popped_and_added cryptobyte_ref dicttls_ref utls_ref ci in
  @sys_inv cryptobyte_ref dicttls_ref utls_ref s ∧
  (∀ k g, Load k (fp_state s) = Some g → gather_inv g) ∧ ∀ k, ∃ r, Peek k (fp_state s) = Ok r.
Proof.
  destruct sample_history as (ci & H1 & H2). exists ci.
  apply (QUICFingerprinter_invariant cryptobyte_ref hkdf_ref dicttls_ref utls_ref 10
           (@popped_and_added cryptobyte_ref dicttls_ref utls_ref ci)); [apply _|apply _|].
  transitivity (looked_up ci); assumption.
Defined.

(** C20: waiting for a fingerprint is safe while everything else goes on: [PeekAwait] and
    [PopAwait] return the fingerprint of the completed gathering they found, the expiry
    error, or "not found" when there was none - they dereference no [nil], even when the
    sender was popped or expired in the meantime. *)
Theorem Await_safe (CB : Cryptobyte) (HK : Hkdf) (DT : Dicttls) (UT : Utls) d s s' from now o :
  CryptobyteLaws CB → HkdfLaws HK →
  rtc sys_step (mkSys (NewQUICFingerprinterWithTimeout d) []) s → rtc sys_step s s' →
  PeekAwait from (fp_state s) (fp_state s') now o ∨ PopAwait from (fp_state s) (fp_state s') now o →
  o = Err not_found ∧ mapGatheringClientInitials (fp_state s) !! from = None ∨
  o = Err ErrGatheringExpired ∨
  ∃ ptr g fp, mapGatheringClientInitials (fp_state s) !! from = Some ptr ∧
    heap (fp_state s') !! ptr = Some g ∧ completed g = true ∧
    o = Ok fp ∧ ClientInitials fp = g ∧ qfp_HexID fp = AsHex (s64 (qfp_NumID fp)).
Proof.
  intros ?? Hr Hr' [Ha|Ha]; eapply (await_safe _ _ _ _ _ _ _ Hr Hr'); [|exact Ha| |exact Ha]; done.
Qed.

Lemma Await_safe_witness : ∃ ci,
  let s := looked_up ci in let s' := @popped_and_added cryptobyte_ref dicttls_ref utls_ref ci in
  let o := Err ErrGatheringExpired in
  PopAwait "a" (fp_state s) (fp_state s') 11 o ∧
  (o = Err not_found ∧ mapGatheringClientInitials (fp_state s) !! "a"%string = None ∨
   o = Err ErrGatheringExpired ∨
   ∃ ptr g fp, mapGatheringClientInitials (fp_state s) !! "a"%string = Some ptr ∧
     heap (fp_state s') !! ptr = Some g ∧ completed g = true ∧
     o = Ok fp ∧ ClientInitials fp = g ∧ qfp_HexID fp = AsHex (s64 (qfp_NumID fp))).
Proof.
  destruct sample_history as (ci & H1 & H2). exists ci. cbv zeta.
  assert (PopAwait "a" (fp_state (looked_up ci))
            (fp_state (@popped_and_added cryptobyte_ref dicttls_ref utls_ref ci)) 11 (Err ErrGatheringExpired)) as Ha.
  { unfold popped_and_added, HandlePacket_add. cbn [fp_state].
    destruct (@AddPacket cryptobyte_ref dicttls_ref utls_ref 2 ci (GatherClientInitialsWithDeadline 11))
      as [r g'] eqn:E.
    apply (await_found _ _ _ _ 0%nat (GatherClientInitialsWithDeadline 11) g').
    - reflexivity.
    - reflexivity.
    - cbn [looked_up LoadAndDelete delete_key heap snd fp_state lookup list_lookup]. rewrite E. by destruct r.
    - apply Generate_wait_failed, Wait_timer; [reflexivity|simpl; lia]. }
  split; [exact Ha|].
  apply (Await_safe cryptobyte_ref hkdf_ref dicttls_ref utls_ref 10 (looked_up ci)
           (@popped_and_added cryptobyte_ref dicttls_ref utls_ref ci) "a" 11 (Err ErrGatheringExpired));
    [apply _|apply _|exact H1|exact H2|right; exact Ha].
Defined.

(** C38: a fingerprinter made by [NewQUICFingerprinter], which sets no timeout, never yields a
    fingerprint: the gatherings it makes have the zero deadline and refuse every packet. *)
Theorem NewQUICFingerprinter_never_completes (CB : Cryptobyte) (HK : Hkdf) (DT : Dicttls) (UT : Utls) events k :
  Forall (λ e, 0 < fst e) events →
  Peek k (snd (run events NewQUICFingerprinter)) = Ok None.
Proof.
  intros Hnow. unfold Peek.
  destruct (run_no_timeout events NewQUICFingerprinter (ptr_ok_New 0) eq_refl eq_refl Hnow) with (k := k)
    as [-> | ->]; [|done|done].
  intros k'. left. unfold Load. cbn [NewQUICFingerprinter mapGatheringClientInitials].
  by rewrite lookup_empty.
Qed.

Lemma NewQUICFingerprinter_never_completes_witness : ∃ p ci,
  @UnmarshalQUICClientInitialPacket cryptobyte_ref hkdf_ref p = Ok ci ∧
  Peek "a" (snd (@run cryptobyte_ref hkdf_ref dicttls_ref utls_ref
                   [(1, Packet "a" p); (2, Expiry 61 "a"); (3, Packet "a" p)] NewQUICFingerprinter)) = Ok None.
Proof.
  destruct (@decode_protect cryptobyte_ref _ hkdf_ref _
              (sample_initial (flat_map encode_frame sample_frames)))
    as (p & _ & Hw & Hl & HD); [split; decide_now|].
  exists p. eexists. split; [unfold UnmarshalQUICClientInitialPacket; rewrite HD; reflexivity|].
  apply (NewQUICFingerprinter_never_completes cryptobyte_ref hkdf_ref dicttls_ref utls_ref).
  repeat (apply Forall_cons; split; [simpl; lia|]). apply Forall_nil_2.
Defined.

(** C37: the timer of a sender deletes whatever is stored for it when it fires.  A sender whose
    fingerprint was popped and who connects again is forgotten by the timer of the first
    connection, before the timeout of the second has passed. *)
Theorem stale_timer_deletes (CB : Cryptobyte) (HK : Hkdf) (DT : Dicttls) (UT : Utls) p ci k d t0 t1 :
  UnmarshalQUICClientInitialPacket p = Ok ci → d ≠ 0 → t0 < t1 → t1 < t0 + d →
  let q1 := snd (HandlePacket t0 k p (NewQUICFingerprinterWithTimeout d)) in
  let q2 := snd (Pop k q1) in
  let q3 := snd (HandlePacket t1 k p q2) in
  (∃ g, Load k q3 = Some g ∧ t0 + d < deadline g) ∧
  ∃ q4, fire (t0 + d) q3 q4 ∧ Load k q4 = None.
Proof.
  intros Hp Hd H01 H1d. cbv zeta.
  pose proof (HandlePacket_spec t0 k p _ (ptr_ok_New d) eq_refl) as S1. cbv zeta in S1.
  set (q1 := snd (HandlePacket t0 k p _)) in *. destruct S1 as (Hok1 & Hc1 & Ht1 & _ & _).
  assert (∃ rest, timers q1 = (t0 + d, k) :: rest) as [rest Hrest].
  { unfold q1. rewrite (HandlePacket_timers _ _ _ ci) by done.
    cbn [NewQUICFingerprinterWithTimeout timers timeout mapGatheringClientInitials].
    rewrite lookup_empty, (proj2 (Z.eqb_neq d 0)) by done. by eexists. }
  clearbody q1.
  rewrite Pop_spec. cbn [snd]. assert (ptr_ok (delete_key k q1)) as Hok2.
  { destruct Hok1 as [Hv Hi]. split; cbn.
    - intros k' ptr [_ ?]%lookup_delete_Some. eauto.
    - intros k1 k2 ptr [_ ?]%lookup_delete_Some [_ ?]%lookup_delete_Some. eauto. }
  set (q2 := delete_key k q1) in *.
  assert (timers q2 = (t0 + d, k) :: rest ∧ closed q2 = false ∧ timeout q2 = d ∧ Load k q2 = None)
    as (Htm2 & Hc2 & Ht2 & Hl2).
  { unfold q2. cbn. split_and!; try done. unfold Load, delete_key.
    cbn [mapGatheringClientInitials]. by rewrite lookup_delete_eq. }
  clearbody q2.
  pose proof (HandlePacket_spec t1 k p q2 Hok2 Hc2) as S2. cbv zeta in S2.
  assert (∃ rest', timers (snd (HandlePacket t1 k p q2)) = (t0 + d, k) :: rest') as [rest' Hrest'].
  { rewrite (HandlePacket_timers _ _ _ ci), Htm2 by done. by eexists. }
  set (q3 := snd (HandlePacket t1 k p q2)) in *. clearbody q3.
  destruct S2 as (_ & _ & _ & _ & Hself). rewrite Hp, Hl2, Ht2 in Hself.
  rewrite (proj2 (Z.eqb_neq d 0)) in Hself by done. cbn [from_option id] in Hself. split.
  - eexists. split; [exact Hself|]. rewrite AddPacket_deadline. simpl. lia.
  - eexists. split; [eapply (fire_timer _ _ [] _ _ rest' Hrest'); lia|].
    unfold Load. cbn [mapGatheringClientInitials]. by rewrite lookup_delete_eq.
Qed.

Lemma stale_timer_deletes_witness :
  ∃ p,
  let q1 := snd (@HandlePacket cryptobyte_ref hkdf_ref dicttls_ref utls_ref 1 "a" p (NewQUICFingerprinterWithTimeout 10)) in
  let q2 := snd (Pop "a" q1) in
  let q3 := snd (@HandlePacket cryptobyte_ref hkdf_ref dicttls_ref utls_ref 9 "a" p q2) in
  (∃ g, Load "a" q3 = Some g ∧ 1 + 10 < deadline g) ∧
  ∃ q4, fire (1 + 10) q3 q4 ∧ Load "a" q4 = None.
Proof.
  destruct (@decode_protect cryptobyte_ref _ hkdf_ref _
              (sample_initial (flat_map encode_frame sample_frames)))
    as (p & _ & _ & _ & HD); [split; decide_now|].
  exists p. eapply (stale_timer_deletes cryptobyte_ref hkdf_ref dicttls_ref utls_ref p);
    [unfold UnmarshalQUICClientInitialPacket; rewrite HD; reflexivity|lia|lia|lia].
Defined.

Lemma Peek_any_order {CB : Cryptobyte} {HK : Hkdf} {DT : Dicttls} {UT : Utls}
    events k d t0 c0 l pieces (idx : ClientInitial → list nat) ps ch tp :
  d ≠ 0 → arrivals k events = (t0, c0) :: l → Forall (λ e, fst e < t0 + d) events →
  snd <$> arrivals k events ≡ₚ ps → fit ps →
  Forall (λ d, d ≠ []) pieces → 4 < len (concat pieces) <= maxCRYPTOLength →
  parse_fullLen (concat pieces) = len (concat pieces) → (length pieces <= 33)%nat →
  Forall (λ ci, idx ci ≠ [] ∧ crypto_calls (ci_frames ci) =
            (λ i, (piece_off pieces i, default [] (pieces !! i))) <$> idx ci) ps →
  flat_map idx ps ≡ₚ seq 0 (length pieces) →
  ParseQUICClientHello (concat pieces) = Ok ch → qtp (qch_ClientHello ch) = Some tp →
  ∃ fp first rest, Peek k (snd (run events (NewQUICFingerprinterWithTimeout d))) = Ok (Some fp) ∧
    sort_by pn ps = first :: rest ∧
    qfp_NumID fp = sum64 (be_encode 8 (sum64 (gci_preimage first)) ++
                          be_encode 8 (u64 (NormNumID (qch_ClientHello ch))) ++
                          be_encode 8 (qtp_NumID tp)) ∧
    qfp_HexID fp = AsHex (s64 (qfp_NumID fp)).
Proof.
  intros Hd Harr Htime P Hfit H1 H2 H3 H4 H5 H6 Hch Htp.
  pose proof (run_gathers d events k t0 c0 l Hd Harr Htime) as Hload.
  pose proof (arrivals_times k events _ Htime) as Htimes. rewrite Harr in P, Htimes.
  destruct (add_packets_any_order CB DT UT pieces idx ps ((t0, c0) :: l) (t0 + d) ch)
    as (g & Hg & Hps & Hgch & Hgtp & Hgc & Hid & _); try done.
  rewrite Hg in Hload. cbn [snd] in Hload.
  unfold Peek. rewrite Hload. unfold Completed. rewrite Hgc. cbn [negb].
  unfold fingerprint_of. rewrite Hgch, Hgtp, Htp. cbv zeta.
  unfold gci_calcNumericID in Hid. rewrite Hps in Hid.
  destruct (sort_by pn ps) as [|first rest]; [done|]. apply Ok_inj in Hid.
  unfold updateU64, h_Write. rewrite app_nil_l, <- app_assoc, <- Hid.
  set (num := sum64 (be_encode 8 (sum64 (gci_preimage first)) ++
    be_encode 8 (u64 (NormNumID (qch_ClientHello ch))) ++ be_encode 8 (qtp_NumID tp))).
  exists (mkFingerprint g (AsHex (s64 num)) num []), first, rest. cbn [obind qfp_NumID qfp_HexID].
  repeat (split; [reflexivity|]). reflexivity.
Qed.

(** C3: end to end: a new fingerprinter with a timeout sees a history of packets of any
    senders and of expiry goroutines waking up, all before the timeout of the first packet
    of one sender has passed.  If the decodable packets of this sender - at most four, with
    distinct numbers within 32 of each other - together carry its ClientHello once (in at
    most 33 non-empty CRYPTO fragments, at least one in each packet, more than 4 bytes and
    at most 64 KiB in all), in any order and among any packets of other senders, then
    [Peek] returns the fingerprint, and it is the hash of the three identifiers: of the
    packet with the lowest number, of the ClientHello (extension order ignored) and of
    the transport parameters. *)
Theorem fingerprint_any_order (CB : Cryptobyte) (HK : Hkdf) (DT : Dicttls) (UT : Utls)
    events k d t0 c0 l pieces (idx : ClientInitial → list nat) ps ch tp :
  d ≠ 0 → arrivals k events = (t0, c0) :: l → Forall (λ e, fst e < t0 + d) events →
  snd <$> arrivals k events ≡ₚ ps → fit ps →
  Forall (λ d, d ≠ []) pieces → 4 < len (concat pieces) <= maxCRYPTOLength →
  parse_fullLen (concat pieces) = len (concat pieces) → (length pieces <= 33)%nat →
  Forall (λ ci, idx ci ≠ [] ∧ crypto_calls (ci_frames ci) =
            (λ i, (piece_off pieces i, default [] (pieces !! i))) <$> idx ci) ps →
  flat_map idx ps ≡ₚ seq 0 (length pieces) →
  ParseQUICClientHello (concat pieces) = Ok ch → qtp (qch_ClientHello ch) = Some tp →
  ∃ fp first rest, Peek k (snd (run events (NewQUICFingerprinterWithTimeout d))) = Ok (Some fp) ∧
    sort_by pn ps = first :: rest ∧
    qfp_NumID fp = sum64 (be_encode 8 (sum64 (gci_preimage first)) ++
                          be_encode 8 (u64 (NormNumID (qch_ClientHello ch))) ++
                          be_encode 8 (qtp_NumID tp)) ∧
    qfp_HexID fp = AsHex (s64 (qfp_NumID fp)).
Proof. apply Peek_any_order. Qed.

(** Packets over the wire for one ClientHello: the frames of [gather_packet]. *)
Definition wire_frames (idx : list nat) : list QUICFrame := ci_frames (gather_packet 0 idx).

Definition wire_initial (n : Z) (idx : list nat) : initial :=
  mkInitial 0 [1; 2; 3; 4; 5; 6; 7; 8] [] [] 1 2 1 n (flat_map encode_frame (wire_frames idx)) [].

Lemma wire_unmarshal n idx :
  initial_ok (wire_initial n idx) → Forall frame_wf (wire_frames idx) →
  no_adjacent_padding (wire_frames idx) = true →
  ∃ p, @UnmarshalQUICClientInitialPacket cryptobyte_ref hkdf_ref p =
       Ok (mkClientInitial (mkHeader [0; 0; 0; 1] 8 0 (be_encode 1 n) 1 n false)
             (FrameTypes (wire_frames idx)) (wire_frames idx) p).
Proof.
  intros Hi Hf Ha. destruct (@decode_protect cryptobyte_ref _ hkdf_ref _ _ Hi) as (p & _ & _ & _ & HD).
  exists p. unfold UnmarshalQUICClientInitialPacket. rewrite HD. unfold payload_frames.
  cbn [i_plain wire_initial]. by rewrite ReadAllFrames_encode by done.
Qed.

(** The fragments each of the two packets carries. *)
Definition sample_idx (ci : ClientInitial) : list nat := if pn ci =? 17 then [2%nat; 0%nat] else [1%nat].

Lemma wire_sample : ∃ p17 p18 c17 c18 ch tp,
  @UnmarshalQUICClientInitialPacket cryptobyte_ref hkdf_ref p17 = Ok c17 ∧
  @UnmarshalQUICClientInitialPacket cryptobyte_ref hkdf_ref p18 = Ok c18 ∧
  fit [c18; c17] ∧
  Forall (λ ci, sample_idx ci ≠ [] ∧ crypto_calls (ci_frames ci) =
    (λ i, (piece_off gather_pieces i, default [] (gather_pieces !! i))) <$> sample_idx ci) [c18; c17] ∧
  flat_map sample_idx [c18; c17] ≡ₚ seq 0 (length gather_pieces) ∧
  @ParseQUICClientHello cryptobyte_ref dicttls_ref utls_quic (concat gather_pieces) = Ok ch ∧
  qtp (qch_ClientHello ch) = Some tp.
Proof.
  destruct (wire_unmarshal 17 [2%nat; 0%nat]) as [p17 U17]; [split; decide_now|decide_now|reflexivity|].
  destruct (wire_unmarshal 18 [1%nat]) as [p18 U18]; [split; decide_now|decide_now|reflexivity|].
  destruct (@ParseQUICClientHello cryptobyte_ref dicttls_ref utls_quic (concat gather_pieces))
    as [ch|e|w] eqn:E; [|exfalso; vm_compute in E; discriminate E..].
  destruct (qtp (qch_ClientHello ch)) as [tp|] eqn:Etp;
    [|exfalso; vm_compute in E; injection E as <-; discriminate Etp].
  match type of U17 with _ = Ok ?c => exists p17, p18, c end.
  match type of U18 with _ = Ok ?c => exists c, ch, tp end.
  split; [exact U17|]. split; [exact U18|]. split; [|split; [|split; [|split; [reflexivity|exact Etp]]]].
  - split; [decide_now|decide_now| |decide_now].
    intros a b Hina Hinb. rewrite !elem_of_cons, elem_of_nil in Hina, Hinb.
    destruct Hina as [->|[->|[]]], Hinb as [->|[->|[]]]; vm_compute; discriminate.
  - apply Forall_cons. split; [split; [discriminate|vm_compute; reflexivity]|].
    apply Forall_cons. split; [split; [discriminate|vm_compute; reflexivity]|]. apply Forall_nil_2.
  - apply (bool_decide_unpack _). vm_compute. exact I.
Qed.

(** The two packets of the sample, another sender and a timer that is not due. *)
Definition sample_events (p17 p18 : bytes) : list (Z * hevent) :=
  [(1, Packet "a" p18); (2, Packet "b" p17); (3, Expiry 11 "a"); (4, Packet "a" p17)].

Lemma fingerprint_any_order_witness :
  ∃ p17 p18 fp,
    Peek "a" (snd (@run cryptobyte_ref hkdf_ref dicttls_ref utls_quic (sample_events p17 p18)
      (NewQUICFingerprinterWithTimeout 10))) = Ok (Some fp) ∧
    qfp_HexID fp = AsHex (s64 (qfp_NumID fp)).
Proof.
  destruct wire_sample as (p17 & p18 & c17 & c18 & ch & tp & U17 & U18 & Hfit & Hidx & Hperm & Hch & Htp).
  assert (@arrivals cryptobyte_ref hkdf_ref "a" (sample_events p17 p18) = [(1, c18); (4, c17)]) as Ha.
  { unfold arrivals, own, sample_events. cbn [omap list_omap]. rewrite U17, U18. reflexivity. }
  destruct (fingerprint_any_order cryptobyte_ref hkdf_ref dicttls_ref utls_quic
    (sample_events p17 p18) "a" 10 1 c18 [(4, c17)]
    gather_pieces sample_idx [c18; c17] ch tp)
    as (fp & first & rest & HP & _ & _ & Hhex);
    [lia|exact Ha| |rewrite Ha; reflexivity|exact Hfit|decide_now|decide_now|vm_compute; reflexivity|
     simpl; lia|exact Hidx|exact Hperm|exact Hch|exact Htp|].
  - repeat (apply Forall_cons; split; [simpl; lia|]). apply Forall_nil_2.
  - exists p17, p18, fp. split; [exact HP|exact Hhex].
Defined.

(** C35: what leaves no trace: a closed fingerprinter takes nothing; a packet of at least 7
    bytes that is not a QUIC v1 Initial packet - a GREASE-version probe that reuses a
    sender's address included - is ignored without an error, and a shorter one is refused
    as "packet too short"; a packet that does not decode, even one that makes the decoder
    panic, changes nothing. *)
Theorem HandlePacket_no_trace (CB : Cryptobyte) (HK : Hkdf) (DT : Dicttls) (UT : Utls) now k p q :
  (closed q = true → HandlePacket now k p q = (Some (errors_New "QUICFingerprinter closed"), q)) ∧
  (closed q = false → len p < 7 → HandlePacket now k p q = (Some (errors_New "packet too short"), q)) ∧
  (closed q = false → 7 <= len p →
   Z.land (hd 0 p) 0xc0 ≠ 0xc0 ∨ Z.land (hd 0 p) 0x30 ≠ 0 ∨ be_decode (slice 1 5 p) ≠ 1 →
   HandlePacket now k p q = (None, q)) ∧
  ((∀ ci, UnmarshalQUICClientInitialPacket p ≠ Ok ci) → snd (HandlePacket now k p q) = q).
Proof.
  unfold HandlePacket, HandlePacket_lookup. split_and!.
  - by intros ->.
  - intros -> Hl. unfold UnmarshalQUICClientInitialPacket. rewrite decode_rejects.
    by rewrite (proj2 (Z.ltb_lt _ _)) by done.
  - intros -> Hl Hp. unfold UnmarshalQUICClientInitialPacket. rewrite decode_rejects.
    rewrite (proj2 (Z.ltb_ge _ _)) by done.
    destruct (Z.land (hd 0 p) 0xc0 =? 0xc0) eqn:E1; cbn [negb obind]; [|done].
    destruct (Z.land (hd 0 p) 0x30 =? 0) eqn:E2; cbn [negb obind]; [|done].
    destruct (be_decode (slice 1 5 p) =? 1) eqn:E3; cbn [negb obind]; [|done]. bool_facts. tauto.
  - intros Hno. destruct (closed q); [done|].
    destruct (UnmarshalQUICClientInitialPacket p) as [ci|e|w]; [by destruct (Hno ci)|by destruct (_ || _)|done].
Qed.
