(* ===== verification/TlsFingerprinter.v ===== *)
(** * The TLS fingerprinter

    tls_fingerprint.go: [TLSFingerprinter], which reads the ClientHello off a new
    connection, keeps it for a while under the client's address and gives the
    connection back with the bytes it has read put in front.  ClientHellos are shared
    by pointer, and an expiring entry is deleted only if it still is the same pointer,
    so they live in a heap. *)
From S2P Require Import Prelude GoIO Rewind Utils VLI GoCrypto External FingerprintHash TransportParams ClientHello QuicClientHello.

Module TLS.

Record TLSFingerprinter := mkTFP {
  mapClientHellos : gmap string nat;         (* address to ClientHello *)
  heap : list ClientHello;
  timers : list (Z * string * nat);          (* when, key, and the entry it was started for *)
  timeout : Z;
  closed : bool
}.

Definition NewTLSFingerprinter : TLSFingerprinter := mkTFP ∅ [] [] 0 false.
Definition NewTLSFingerprinterWithTimeout (d : Z) : TLSFingerprinter := mkTFP ∅ [] [] d false.

Definition SetTimeout (d : Z) (t : TLSFingerprinter) : TLSFingerprinter :=
  mkTFP (mapClientHellos t) (heap t) (timers t) d (closed t).

Definition Close (t : TLSFingerprinter) : TLSFingerprinter :=
  mkTFP (mapClientHellos t) (heap t) (timers t) (timeout t) true.

(** 5 seconds, in nanoseconds. *)
Definition DEFAULT_TLSFINGERPRINT_EXPIRY : Z := 5 * 10 ^ 9.

(** [Store(from, ch)] and the goroutine that will remove it. *)
Definition store (now : Z) (from : string) (ch : ClientHello) (t : TLSFingerprinter) : TLSFingerprinter :=
  let ptr := length (heap t) in
  let d := if timeout t =? 0 then DEFAULT_TLSFINGERPRINT_EXPIRY else timeout t in
  mkTFP (<[from := ptr]> (mapClientHellos t)) (heap t ++ [ch]) (timers t ++ [(now + d, from, ptr)])
    (timeout t) (closed t).

Section fingerprinter.
Context {CB : Cryptobyte} {DT : Dicttls} {UT : Utls}.

(** The error ([None] is [nil]), or the panic, which nothing recovers here. *)
Definition HandleMessage (now : Z) (from : string) (p : bytes) (t : TLSFingerprinter)
    : outcome (option goerror) * TLSFingerprinter :=
  if closed t then (Ok (Some (errors_New "TLSFingerprinter closed")), t)
  else match UnmarshalClientHello p with
  | Panic w => (Panic w, t)
  | Err e => (Err e, t)
  | Ok (_, Some err) => (Ok (Some err), t)
  | Ok (ch, None) => (Ok None, store now from ch t)
  end.

(** [HandleTCPConn] on a connection from [addr]; [None]: the fuel of the reads ran out. *)
Definition HandleTCPConn {C} `{IOReader C} (fuel : nat) (now : Z) (addr : string) (c : C) (t : TLSFingerprinter)
    : option (outcome (conn C) * TLSFingerprinter) :=
  if closed t then Some (Err (errors_New "TLSFingerprinter closed"), t)
  else match ReadClientHello fuel c with
  | None => None
  | Some (_, Some err, _) => Some (Err (fmt_Errorf "failed to read ClientHello from connection" err), t)
  | Some (raw, None, c) =>
    match ParseClientHello (set_raw raw new_ClientHello) with
    | Panic w => Some (Panic w, t)
    | Err e => Some (Err e, t)
    | Ok (_, Some err) => Some (Err (fmt_Errorf "failed to parse ClientHello" err), t)
    | Ok (ch, None) => Some (RewindConn (Some c) (Raw ch), store now addr ch t)
    end
  end.

Definition Peek (from : string) (t : TLSFingerprinter) : option ClientHello :=
  mapClientHellos t !! from ≫= λ ptr, heap t !! ptr.

Definition Pop (from : string) (t : TLSFingerprinter) : option ClientHello * TLSFingerprinter :=
  (Peek from t, mkTFP (delete from (mapClientHellos t)) (heap t) (timers t) (timeout t) (closed t)).

(** [CompareAndDelete(key, oldCh)] of a goroutine whose time has come. *)
Inductive fire (now : Z) (t : TLSFingerprinter) : TLSFingerprinter → Prop :=
  | fire_timer before at_ k ptr after :
    timers t = before ++ (at_, k, ptr) :: after → at_ <= now →
    fire now t (mkTFP (if bool_decide (mapClientHellos t !! k = Some ptr)
                       then delete k (mapClientHellos t) else mapClientHellos t)
                  (heap t) (before ++ after) (timeout t) (closed t)).

(** ** Histories *)

Inductive step (t : TLSFingerprinter) : TLSFingerprinter → Prop :=
  | step_message now from p : step t (snd (HandleMessage now from p t))
  | step_conn fuel now addr (c : netConn) r t' :
    HandleTCPConn fuel now addr c t = Some (r, t') → step t t'
  | step_fire now t' : fire now t t' → step t t'
  | step_pop from : step t (snd (Pop from t))
  | step_timeout d : step t (SetTimeout d t)
  | step_close : step t (Close t).

(** Entries are allocated, every entry has a timer of its own, and no two timers were
    started for the same entry. *)
Record inv (t : TLSFingerprinter) : Prop := {
  inv_valid : ∀ k ptr, mapClientHellos t !! k = Some ptr → (ptr < length (heap t))%nat;
  inv_timer : ∀ k ptr, mapClientHellos t !! k = Some ptr → ∃ at_, (at_, k, ptr) ∈ timers t;
  inv_timers_valid : Forall (λ x, (snd x < length (heap t))%nat) (timers t);
  inv_timers_distinct : NoDup (snd <$> timers t)
}.

Lemma store_inv now from ch t : inv t → inv (store now from ch t).
Proof.
  intros [Hv Ht Htv Hnd]. split; cbn [store mapClientHellos heap timers].
  - intros k ptr. rewrite length_app, lookup_insert_Some. intros [[_ <-]|[_ Hk%Hv]]; simpl; lia.
  - intros k ptr. rewrite lookup_insert_Some. intros [[<- <-]|[_ Hk]].
    + eexists. apply elem_of_app. right. constructor.
    + destruct (Ht _ _ Hk) as [a Ha]. exists a. apply elem_of_app. by left.
  - apply Forall_app. split.
    + eapply Forall_impl; [exact Htv|]. intros x Hx. simpl in *. rewrite length_app. lia.
    + apply Forall_singleton. rewrite length_app. simpl. lia.
  - rewrite fmap_app. apply NoDup_app. split; [done|]. split; [|apply NoDup_singleton].
    intros ptr (x & -> & Hx)%list_elem_of_fmap Hin. rewrite Forall_forall in Htv.
    specialize (Htv _ Hx). simpl in *. apply list_elem_of_singleton in Hin. lia.
Qed.

(** An entry disappears only when it is popped, replaced, or its own timer fires. *)
Lemma fire_inv now t t' : inv t → fire now t t' → inv t'.
Proof.
  intros [Hv Ht Htv Hnd] [before a k ptr after E Hle].
  assert (∀ k' ptr', (if bool_decide (mapClientHellos t !! k = Some ptr)
            then delete k (mapClientHellos t) else mapClientHellos t) !! k' = Some ptr' →
          mapClientHellos t !! k' = Some ptr' ∧ (k', ptr') ≠ (k, ptr)) as Hsub.
  { intros k' ptr'. case_bool_decide as Hc.
    - intros [Hne Hk]%lookup_delete_Some. split; [done|]. by intros [= -> ->].
    - intros Hk. split; [done|]. by intros [= -> ->]. }
  split; cbn [mapClientHellos heap timers].
  - intros k' ptr' [Hk _]%Hsub. eauto.
  - intros k' ptr' [Hk Hne]%Hsub. destruct (Ht _ _ Hk) as [a' Ha]. exists a'.
    rewrite E, elem_of_app, elem_of_cons in Ha. rewrite elem_of_app.
    destruct Ha as [?|[[= -> -> ->]|?]]; auto. done.
  - rewrite E in Htv. apply Forall_app in Htv as [H1 H2]. apply Forall_cons in H2 as [_ H2].
    by apply Forall_app.
  - rewrite E, fmap_app, fmap_cons in Hnd. rewrite fmap_app.
    apply NoDup_app in Hnd as (N1 & N2 & N3). apply NoDup_cons in N3 as [N4 N5].
    apply NoDup_app. split; [done|]. split; [|done]. intros x Hx Hx'. apply (N2 x Hx). by right.
Qed.

Lemma step_inv t t' : inv t → step t t' → inv t'.
Proof.
  intros Ht Hs. destruct Hs as [now from p|fuel now addr c r t' E|now t' Hf|from|d|].
  - unfold HandleMessage. destruct (closed t); [done|].
    destruct (UnmarshalClientHello p) as [[ch [e|]]| |]; try done. by apply store_inv.
  - unfold HandleTCPConn in E. destruct (closed t); [by injection E as _ <-|].
    destruct (ReadClientHello fuel c) as [[[rw [e|]] c1]|]; [by injection E as _ <-| |done].
    destruct (ParseClientHello _) as [[ch [e|]]| |]; injection E as _ <-; try done. by apply store_inv.
  - by eapply fire_inv.
  - destruct Ht as [Hv Htm Htv Hnd]. split; cbn; [| |done|done].
    + intros k ptr [_ Hk]%lookup_delete_Some. eauto.
    + intros k ptr [_ Hk]%lookup_delete_Some. eauto.
  - destruct Ht. by split.
  - destruct Ht. by split.
Qed.

Lemma inv_New d : inv (NewTLSFingerprinterWithTimeout d).
Proof.
  split; cbn [NewTLSFingerprinterWithTimeout mapClientHellos heap timers]; [| |constructor|constructor].
  - intros k ptr Hk. by rewrite lookup_empty in Hk.
  - intros k ptr Hk. by rewrite lookup_empty in Hk.
Qed.

Lemma inv_reachable d t : rtc step (NewTLSFingerprinterWithTimeout d) t → inv t.
Proof. intros H. pose proof (inv_New d) as Hi. revert Hi. induction H; eauto using step_inv. Qed.

Lemma Peek_store now from ch t : Peek from (store now from ch t) = Some ch.
Proof.
  unfold Peek, store. cbn [mapClientHellos heap]. rewrite lookup_insert_eq. cbn [mbind option_bind].
  by rewrite list_lookup_middle.
Qed.

(** A successful call: the hello is the parse of exactly the record taken off the
    connection, which is put back in front of it. *)
Lemma HandleTCPConn_parsed fuel now addr (c : netConn) t rc t' :
  HandleTCPConn fuel now addr c t = Some (Ok rc, t') →
  stream rc = stream c ∧
  ∃ ch rest, t' = store now addr ch t ∧ stream c = Raw ch ++ rest ∧
    hd 0 (Raw ch) = 0x16 ∧ length (Raw ch) = (5 + Z.to_nat (be_decode (slice 3 5 (Raw ch))))%nat ∧
    ParseClientHello (set_raw (Raw ch) new_ClientHello) = Ok (ch, None).
Proof.
  unfold HandleTCPConn. destruct (closed t); [done|].
  destruct (ReadClientHello fuel c) as [[[rw [e|]] c1]|] eqn:Er; [done| |done].
  apply ReadClientHello_stream in Er as (d & z & Hs & Hrw & Hok).
  destruct (Hok eq_refl) as (-> & H16 & H5 & Hlen). rewrite app_nil_r in Hrw. subst d.
  destruct (ParseClientHello _) as [[ch [e|]]| |] eqn:Ep; [done| |done|done]. pose proof Ep as Hraw.
  apply ParseClientHello_raw in Hraw. change (raw (set_raw rw new_ClientHello)) with rw in Hraw.
  unfold RewindConn, Raw. rewrite Hraw. rewrite (proj2 (Z.eqb_neq _ 0)) by lia. intros [= <- <-].
  split; [by rewrite Hs|]. exists ch, (stream c1). rewrite Hraw. by rewrite Hs.
Qed.

Lemma HandleTCPConn_ok fuel now addr (c : netConn) t rc t' :
  HandleTCPConn fuel now addr c t = Some (Ok rc, t') →
  stream rc = stream c ∧
  ∃ ch rest, Peek addr t' = Some ch ∧ stream c = Raw ch ++ rest ∧
    hd 0 (Raw ch) = 0x16 ∧ length (Raw ch) = (5 + Z.to_nat (be_decode (slice 3 5 (Raw ch))))%nat.
Proof.
  intros (Hs & ch & rest & -> & Hc & H16 & Hl & _)%HandleTCPConn_parsed.
  split; [done|]. exists ch, rest. by rewrite Peek_store.
Qed.

Lemma HandleTCPConn_timeout fuel now addr (c : netConn) t r t' :
  HandleTCPConn fuel now addr c t = Some (r, t') → timeout t' = timeout t.
Proof. unfold HandleTCPConn. repeat case_match; intros ?; by simplify_eq. Qed.

(** ** How long an entry stays *)

(** What may happen up to the time [now] that leaves the entry of [addr] alone: anything for
    other addresses, timers that are due by [now], and changes of the settings. *)
Inductive later (addr : string) (now : Z) (t : TLSFingerprinter) : TLSFingerprinter → Prop :=
  | later_message at_ from p : from ≠ addr → later addr now t (snd (HandleMessage at_ from p t))
  | later_conn fuel at_ from (c : netConn) r t' :
    from ≠ addr → HandleTCPConn fuel at_ from c t = Some (r, t') → later addr now t t'
  | later_fire at_ t' : at_ <= now → fire at_ t t' → later addr now t t'
  | later_pop from : from ≠ addr → later addr now t (snd (Pop from t))
  | later_timeout d : later addr now t (SetTimeout d t)
  | later_close : later addr now t (Close t).

(** The entry of [addr] is [ch], up to the User-Agent the handler notes in it, and its timer
    is not due by [now]. *)
Definition kept (addr : string) (now : Z) (ch : ClientHello) (t : TLSFingerprinter) : Prop :=
  ∃ ptr ch', mapClientHellos t !! addr = Some ptr ∧ heap t !! ptr = Some ch' ∧
    (∀ ua, set_UserAgent ua ch' = set_UserAgent ua ch) ∧
    ∀ at_, (at_, addr, ptr) ∈ timers t → now < at_.

Lemma kept_Peek addr now ch t :
  kept addr now ch t → ∃ ch', Peek addr t = Some ch' ∧ ∀ ua, set_UserAgent ua ch' = set_UserAgent ua ch.
Proof. intros (ptr & ch' & Hm & Hh & Hua & _). exists ch'. unfold Peek. by rewrite Hm. Qed.

Lemma kept_store_other addr now ch t at_ from ch1 :
  from ≠ addr → kept addr now ch t → kept addr now ch (store at_ from ch1 t).
Proof.
  intros Hne (ptr & ch' & Hm & Hh & Hua & Ht). exists ptr, ch'. cbn [store mapClientHellos heap timers].
  split; [by rewrite lookup_insert_ne|]. split; [by apply lookup_app_l_Some|]. split; [done|].
  intros a [H|H]%elem_of_app; [by apply Ht|]. apply list_elem_of_singleton in H. by simplify_eq.
Qed.

Lemma kept_later addr now ch t t' : kept addr now ch t → later addr now t t' → kept addr now ch t'.
Proof.
  intros Hk Hl. destruct Hl as [at_ from p Hne|fuel at_ from c r t' Hne E|at_ t' Hle Hf|from Hne|d|].
  - unfold HandleMessage. repeat case_match; try done. by apply kept_store_other.
  - unfold HandleTCPConn in E. repeat case_match; simplify_eq; try done. by apply kept_store_other.
  - destruct Hk as (ptr & ch' & Hm & Hh & Hua & Ht). destruct Hf as [before a k p after E Ha].
    exists ptr, ch'. cbn [mapClientHellos heap timers]. split.
    + case_bool_decide as Hc; [|done]. destruct (decide (k = addr)) as [->|Hne]; [|by rewrite lookup_delete_ne].
      assert (p = ptr) as -> by congruence. assert ((a, addr, ptr) ∈ timers t) as Hin%Ht; [|lia].
      rewrite E. apply elem_of_app. right. left.
    + split; [done|]. split; [done|]. intros a' Hin. apply Ht. rewrite E. set_solver.
  - destruct Hk as (ptr & ch' & Hm & Hh & Hua & Ht). exists ptr, ch'. cbn [Pop snd mapClientHellos heap timers].
    by rewrite lookup_delete_ne.
  - done.
  - done.
Qed.

(** A fresh entry is kept until its timeout. *)
Lemma kept_store addr now ch t at_ :
  inv t → now < at_ + (if timeout t =? 0 then DEFAULT_TLSFINGERPRINT_EXPIRY else timeout t) →
  kept addr now ch (store at_ addr ch t).
Proof.
  intros Hi Hn. exists (length (heap t)), ch. cbn [store mapClientHellos heap timers].
  split; [by rewrite lookup_insert_eq|]. split; [by rewrite list_lookup_middle|]. split; [done|].
  intros a [H|H]%elem_of_app.
  - pose proof (inv_timers_valid t Hi) as Hv. rewrite Forall_forall in Hv. specialize (Hv _ H). simpl in Hv. lia.
  - apply list_elem_of_singleton in H. by simplify_eq.
Qed.

(** The reads of [HandleTCPConn] end on every connection, one that stalls (until its
    read deadline) included. *)
Lemma HandleTCPConn_total fuel now addr (c : netConn) t :
  (length (nc_chunks c) < fuel)%nat → ∃ r t', HandleTCPConn fuel now addr c t = Some (r, t').
Proof.
  intros Hf. unfold HandleTCPConn. case_match; [by eauto|].
  assert (∃ r, ReadClientHello fuel c = Some r) as [r ->].
  { unfold ReadClientHello. destruct (ReadFull_netConn_total c 5 fuel Hf) as (d & e & c1 & -> & Hc).
    destruct e as [e|]; [by eauto|]. case_match; [by eauto|].
    match goal with |- context [ReadFull fuel c1 ?n] =>
      destruct (ReadFull_netConn_total c1 n fuel) as (d2 & e2 & c2 & -> & _); [lia|] end. eauto. }
  destruct r as [[rw [e|]] c1]; [by eauto|]. repeat case_match; eauto.
Qed.
End fingerprinter.

(** ** Properties *)

(** C10: transparency: when a connection is fingerprinted successfully, the connection that is
    returned delivers exactly the bytes the client sent, from the first on, and the
    ClientHello is available under the client's address with those bytes as its raw form. *)
Theorem HandleTCPConn_transparent (CB : Cryptobyte) (DT : Dicttls) (UT : Utls)
    fuel now addr (c : netConn) t rc t' :
  HandleTCPConn fuel now addr c t = Some (Ok rc, t') →
  stream rc = stream c ∧
  ∃ ch rest, Peek addr t' = Some ch ∧ stream c = Raw ch ++ rest ∧
    hd 0 (Raw ch) = 0x16 ∧ length (Raw ch) = (5 + Z.to_nat (be_decode (slice 3 5 (Raw ch))))%nat.
Proof. apply HandleTCPConn_ok. Qed.

(** A hello, in a record of its own, that arrives in two chunks and is followed by more. *)
Definition sample_record : bytes := [0x16; 3; 1] ++ be_encode 2 (len sample_message) ++ sample_message.

Definition sample_conn : netConn := mkConn [take 9 sample_record; drop 9 sample_record ++ [1; 2; 3]] io_EOF.

Lemma HandleTCPConn_transparent_witness :
  ∃ rc t', @HandleTCPConn cryptobyte_ref dicttls_ref utls_quic netConn _ 4 0 "1.2.3.4:5" sample_conn
             NewTLSFingerprinter = Some (Ok rc, t') ∧
  stream rc = stream sample_conn ∧
  ∃ ch rest, Peek "1.2.3.4:5" t' = Some ch ∧ stream sample_conn = Raw ch ++ rest ∧
    hd 0 (Raw ch) = 0x16 ∧ length (Raw ch) = Nat.add 5 (Z.to_nat (be_decode (slice 3 5 (Raw ch)))).
Proof.
  destruct (@HandleTCPConn cryptobyte_ref dicttls_ref utls_quic netConn _ 4 0 "1.2.3.4:5" sample_conn
             NewTLSFingerprinter) as [[[rc|e|w] t']|] eqn:E; [|exfalso; vm_compute in E; discriminate E..].
  exists rc, t'. split; [reflexivity|].
  apply (HandleTCPConn_transparent cryptobyte_ref dicttls_ref utls_quic 4 0 "1.2.3.4:5" sample_conn
           NewTLSFingerprinter rc t'). exact E.
Defined.

(** C29: entries expire by identity: in every reachable state each stored ClientHello has a timer
    of its own, and a timer that fires removes nothing but the entry it was started for -
    an address that was popped or overwritten in the meantime keeps its newer entry. *)
Theorem TLS_timers_exact (CB : Cryptobyte) (DT : Dicttls) (UT : Utls) d t now t' :
  rtc step (NewTLSFingerprinterWithTimeout d) t → fire now t t' →
  (∀ k ptr, mapClientHellos t !! k = Some ptr → ∃ at_, (at_, k, ptr) ∈ timers t) ∧
  ∃ at_ k ptr, (at_, k, ptr) ∈ timers t ∧ at_ <= now ∧
    (∀ k', mapClientHellos t' !! k' = mapClientHellos t !! k' ∨
           k' = k ∧ mapClientHellos t !! k' = Some ptr ∧ mapClientHellos t' !! k' = None) ∧
    mapClientHellos t' !! k ≠ Some ptr.
Proof.
  intros Hr Hf. apply inv_reachable in Hr as [Hv Ht Htv Hnd]. split; [done|].
  destruct Hf as [before a k ptr after E Hle]. exists a, k, ptr.
  split; [rewrite E; apply elem_of_app; right; constructor|]. split; [done|].
  cbn [mapClientHellos]. case_bool_decide as Hc; [|by split; [left|]]. split.
  - intros k'. destruct (decide (k' = k)) as [->|Hne]; [right|left].
    + by rewrite lookup_delete_eq.
    + by rewrite lookup_delete_ne.
  - by rewrite lookup_delete_eq.
Qed.

(** The same client twice: the timer of the first entry fires and removes nothing. *)
Definition stored_twice : TLSFingerprinter :=
  let handle now t := snd (@HandleMessage cryptobyte_ref dicttls_ref utls_quic now "a" sample_record t) in
  handle 2 (handle 0 (NewTLSFingerprinterWithTimeout 3)).

Lemma TLS_timers_exact_witness :
  ∃ t', fire 4 stored_twice t' ∧ mapClientHellos t' !! "a" = Some 1%nat ∧
  (∀ k ptr, mapClientHellos stored_twice !! k = Some ptr → ∃ at_, (at_, k, ptr) ∈ timers stored_twice) ∧
  ∃ at_ k ptr, (at_, k, ptr) ∈ timers stored_twice ∧ at_ <= 4 ∧
    (∀ k', mapClientHellos t' !! k' = mapClientHellos stored_twice !! k' ∨
           k' = k ∧ mapClientHellos stored_twice !! k' = Some ptr ∧ mapClientHellos t' !! k' = None) ∧
    mapClientHellos t' !! k ≠ Some ptr.
Proof.
  assert (timers stored_twice = [] ++ (3, "a", 0%nat) :: [(5, "a", 1%nat)]) as Ht by (vm_compute; reflexivity).
  eexists. split; [|split].
  - apply (fire_timer 4 stored_twice [] 3 "a" 0 [(5, "a", 1%nat)] Ht). lia.
  - vm_compute. reflexivity.
  - apply (TLS_timers_exact cryptobyte_ref dicttls_ref utls_quic 3 stored_twice 4).
    + eapply rtc_l; [apply step_message|]. eapply rtc_l; [apply step_message|]. apply rtc_refl.
    + apply (fire_timer 4 stored_twice [] 3 "a" 0 [(5, "a", 1%nat)] Ht). lia.
Defined.

(** A ClientHello whose QUIC transport parameters announce an absurd length takes the
    process down: the panic of the parameter parser leaves [HandleMessage], which, unlike
    its QUIC counterpart, does not recover. *)
Theorem HandleMessage_panics (CB : Cryptobyte) (DT : Dicttls) (UT : Utls) now from p t rw r chs data w :
  closed t = false → ReadClientHello 3 (NewReader p) = Some (rw, None, r) →
  RawClientHello rw = Ok chs → spec_Extensions chs = [GenericExtension ExtType_quic_transport_parameters data] →
  ParseQUICTransportParameters data = Some (Panic w) →
  HandleMessage now from p t = (Panic w, t).
Proof.
  intros Hc Hr Hraw He Hq. unfold HandleMessage, UnmarshalClientHello. rewrite Hc, Hr.
  unfold ParseClientHello. change (raw (set_raw rw new_ClientHello)) with rw. rewrite Hraw.
  unfold parseExtensions. rewrite He. cbn [foldl obind parseExtension]. rewrite Z.eqb_refl.
  unfold parse_qtp. by rewrite Hq.
Qed.

Lemma HandleMessage_panics_witness :
  @HandleMessage cryptobyte_ref dicttls_ref utls_absurd 0 "1.2.3.4:5" [0x16; 3; 1; 0; 2; 9; 8] NewTLSFingerprinter =
  (Panic "makeslice: len out of range", NewTLSFingerprinter).
Proof.
  eapply (HandleMessage_panics cryptobyte_ref dicttls_ref utls_absurd 0 "1.2.3.4:5"
            [0x16; 3; 1; 0; 2; 9; 8] NewTLSFingerprinter);
    [reflexivity|vm_compute; reflexivity|reflexivity|reflexivity|vm_compute; reflexivity].
Defined.

End TLS.
