(* ===== verification/CaddyApp.v ===== *)
(** * The Caddy app

    modcaddy/app/reservoir.go and modcaddy/app/caddyfile.go: [Reservoir], which owns the
    two fingerprinters and remembers the last QUIC visitor of an IP address, and the
    parser of its Caddyfile block.  Caddy's token dispenser and duration parser are an
    interface. *)
From S2P Require Import Prelude GoNet Gather QuicFingerprinter TlsFingerprinter.

(** ** [caddyfile.Dispenser] *)

(** A cursor over the tokens of a configuration block. *)
Class Dispenser (D : Type) := {
  d_Next : D → bool * D;
  d_NextBlock : D → bool * D;
  d_Val : D → string;
  d_RemainingArgs : D → list string * D;
  d_Err : D → string → goerror;                    (* the message with the position *)
  d_ArgErr : D → goerror;
  caddy_ParseDuration : string → Z + goerror       (* in nanoseconds *)
}.

Section loops.
Context {D : Type} {DD : Dispenser D} {St : Type}.

(** What a parser does for one directive: the token, the dispenser, and its own state. *)
Variable directive : string → D → St → outcome St * D.

(** [for d.NextBlock(0) { switch d.Val() ... }]; [None]: the fuel ran out. *)
Fixpoint block_loop (fuel : nat) (d : D) (st : St) : option (outcome St * D) :=
  match fuel with
  | O => None
  | S fuel =>
    let '(more, d) := d_NextBlock d in
    if more then
      match directive (d_Val d) d st with
      | (Ok st, d) => block_loop fuel d st
      | r => Some r
      end
    else Some (Ok st, d)
  end.

(** [for d.Next() { ... }] around it. *)
Fixpoint dispense (fuel : nat) (d : D) (st : St) : option (outcome St) :=
  match fuel with
  | O => None
  | S fuel' =>
    let '(more, d) := d_Next d in
    if more then
      match block_loop fuel d st with
      | None => None
      | Some (Ok st, d) => dispense fuel' d st
      | Some (r, _) => Some r
      end
    else Some (Ok st)
  end.

(** A property of the state every directive preserves holds of the result. *)
Lemma block_loop_inv (P : St → Prop) fuel d st st' d' :
  (∀ v d st st' d', P st → directive v d st = (Ok st', d') → P st') →
  P st → block_loop fuel d st = Some (Ok st', d') → P st'.
Proof.
  intros Hd. revert d st. induction fuel as [|fuel IH]; intros d st Hst; cbn [block_loop]; [done|].
  destruct (d_NextBlock d) as [[] d1]; [|by intros [= <- <-]].
  destruct (directive (d_Val d1) d1 st) as [[st1|e|w] d2] eqn:E; [|done..]. eauto.
Qed.

Lemma dispense_inv (P : St → Prop) fuel d st st' :
  (∀ v d st st' d', P st → directive v d st = (Ok st', d') → P st') →
  P st → dispense fuel d st = Some (Ok st') → P st'.
Proof.
  intros Hd. revert d st. induction fuel as [|fuel IH]; intros d st Hst; cbn [dispense]; [done|].
  destruct (d_Next d) as [[] d1]; [|by intros [= <-]].
  destruct (block_loop (S fuel) d1 st) as [[[st1|e|w] d2]|] eqn:E; [|done..].
  apply (block_loop_inv P) in E; eauto.
Qed.
End loops.

(** A dispenser over lists of tokens: blocks of lines. *)
Record tokens := mkTokens { t_blocks : list (list (list string)); t_lines : list (list string); t_val : string }.

Fixpoint next_token (lines : list (list string)) : option (string * list (list string)) :=
  match lines with
  | [] => None
  | [] :: lines => next_token lines
  | (v :: line) :: lines => Some (v, line :: lines)
  end.

Definition tokens_ref (duration : string → Z + goerror) : Dispenser tokens := {|
  d_Next t := match t_blocks t with
    | [] => (false, t)
    | b :: bs => (true, mkTokens bs b "clienthellod")
    end;
  d_NextBlock t := match next_token (t_lines t) with
    | None => (false, mkTokens (t_blocks t) [] (t_val t))
    | Some (v, lines) => (true, mkTokens (t_blocks t) lines v)
    end;
  d_Val := t_val;
  d_RemainingArgs t := match t_lines t with
    | [] => ([], t)
    | line :: lines => (line, mkTokens (t_blocks t) lines (t_val t))
    end;
  d_Err _ msg := errors_New msg;
  d_ArgErr _ := errors_New "wrong argument count";
  caddy_ParseDuration := duration
|}.

(** ** Configuration *)

Definition DEFAULT_TLS_FP_TTL : Z := TLS.DEFAULT_TLSFINGERPRINT_EXPIRY.
Definition DEFAULT_QUIC_FP_TTL : Z := DEFAULT_QUICFINGERPRINT_EXPIRY.

(** The exported fields: what the configuration sets. *)
Record config := mkConfig { cfg_TlsTTL : Z; cfg_QuicTTL : Z }.

(** [CaddyModule().New()]. *)
Definition default_config : config := mkConfig DEFAULT_TLS_FP_TTL DEFAULT_QUIC_FP_TTL.

Section caddyfile.
Context {D : Type} {DD : Dispenser D}.

(** The body the two cases share: one duration argument, once. *)
Definition ttl_directive (name : string) (current default_ : Z) (set : Z → config) (d : D)
    : outcome config * D :=
  if negb (current =? default_) then (Err (d_Err d ("only one " +:+ name +:+ " is allowed")), d)
  else
    let '(args, d) := d_RemainingArgs d in
    match args with
    | [] => (Err (d_ArgErr d), d)
    | a :: more =>
      match caddy_ParseDuration a with
      | inr e => (Err (d_Err d "invalid duration"), d)
      | inl duration =>
        match more with
        | [] => (Ok (set duration), d)
        | _ => (Err (d_Err d "too many arguments"), d)
        end
      end
    end.

Definition app_directive (v : string) (d : D) (app : config) : outcome config * D :=
  if bool_decide (v = "tls_ttl") then
    ttl_directive "tls_ttl" (cfg_TlsTTL app) DEFAULT_TLS_FP_TTL (λ t, mkConfig t (cfg_QuicTTL app)) d
  else if bool_decide (v = "quic_ttl") then
    ttl_directive "quic_ttl" (cfg_QuicTTL app) DEFAULT_QUIC_FP_TTL (λ t, mkConfig (cfg_TlsTTL app) t) d
  else (Ok app, d).

Definition parseCaddyfile (fuel : nat) (d : D) : option (outcome config) :=
  dispense app_directive fuel d default_config.
End caddyfile.

(** ** The reservoir *)

Record Reservoir := mkReservoir {
  TlsTTL : Z;
  QuicTTL : Z;
  tlsFingerprinter : TLS.TLSFingerprinter;
  quicFingerprinter : QUICFingerprinter;
  mapLastQUICVisitorPerIP : gmap string string;    (* IP to full address *)
  visitor_timers : list (Z * string * string)      (* goroutines: when, IP and address *)
}.

Definition Provision (c : config) : Reservoir :=
  mkReservoir (cfg_TlsTTL c) (cfg_QuicTTL c) (TLS.NewTLSFingerprinterWithTimeout (cfg_TlsTTL c))
    (NewQUICFingerprinterWithTimeout (cfg_QuicTTL c)) ∅ [].

Definition Start (r : Reservoir) : option goerror :=
  if (QuicTTL r <=? 0) || (TlsTTL r <=? 0) then Some (errors_New "ttl must be a positive duration") else None.

Definition with_tls (t : TLS.TLSFingerprinter) (r : Reservoir) : Reservoir :=
  mkReservoir (TlsTTL r) (QuicTTL r) t (quicFingerprinter r) (mapLastQUICVisitorPerIP r) (visitor_timers r).

Definition with_quic (q : QUICFingerprinter) (r : Reservoir) : Reservoir :=
  mkReservoir (TlsTTL r) (QuicTTL r) (tlsFingerprinter r) q (mapLastQUICVisitorPerIP r) (visitor_timers r).

Definition with_visitors (m : gmap string string) (tms : list (Z * string * string)) (r : Reservoir) : Reservoir :=
  mkReservoir (TlsTTL r) (QuicTTL r) (tlsFingerprinter r) (quicFingerprinter r) m tms.

Definition Stop (r : Reservoir) : Reservoir :=
  with_tls (TLS.Close (tlsFingerprinter r)) (with_quic (Close (quicFingerprinter r)) r).

Definition NewQUICVisitor (now : Z) (ip fullKey : string) (r : Reservoir) : Reservoir :=
  with_visitors (<[ip := fullKey]> (mapLastQUICVisitorPerIP r))
    (visitor_timers r ++ [(now + QuicTTL r, ip, fullKey)]) r.

Definition GetLastQUICVisitor (ip : string) (r : Reservoir) : option string := mapLastQUICVisitorPerIP r !! ip.

(** [CompareAndDelete(ip, fullKey)]: strings are compared by value. *)
Definition CompareAndDelete (ip fullKey : string) (m : gmap string string) : gmap string string :=
  if bool_decide (m !! ip = Some fullKey) then delete ip m else m.

Inductive fire_visitor (now : Z) (r : Reservoir) : Reservoir → Prop :=
  | fire_visitor_timer before t ip fullKey after :
    visitor_timers r = before ++ (t, ip, fullKey) :: after → t <= now →
    fire_visitor now r (with_visitors (CompareAndDelete ip fullKey (mapLastQUICVisitorPerIP r)) (before ++ after) r).

Inductive visitor_step (r : Reservoir) : Reservoir → Prop :=
  | visitor_new now ip fullKey : visitor_step r (NewQUICVisitor now ip fullKey r)
  | visitor_fire now r' : fire_visitor now r r' → visitor_step r r'.

Lemma CompareAndDelete_lookup ip k m ip' :
  CompareAndDelete ip k m !! ip' = if bool_decide (ip' = ip ∧ m !! ip = Some k) then None else m !! ip'.
Proof.
  unfold CompareAndDelete. case_bool_decide as H.
  - destruct (decide (ip' = ip)) as [->|Hne].
    + by rewrite lookup_delete_eq, bool_decide_eq_true_2.
    + by rewrite lookup_delete_ne, bool_decide_eq_false_2 by naive_solver.
  - by rewrite bool_decide_eq_false_2 by naive_solver.
Qed.

(** Every entry has a goroutine that will delete it. *)
Definition visitors_inv (r : Reservoir) : Prop :=
  ∀ ip k, GetLastQUICVisitor ip r = Some k → ∃ t, (t, ip, k) ∈ visitor_timers r.

Lemma visitors_inv_step r r' : visitors_inv r → visitor_step r r' → visitors_inv r'.
Proof.
  intros Hi [now ip k|now r1 [before t ip k after E Hle]] ip' k'; unfold GetLastQUICVisitor; cbn.
  - rewrite lookup_insert_Some. intros [[<- <-]|[_ Hk]].
    + eexists. apply elem_of_app. right. by apply list_elem_of_singleton.
    + destruct (Hi ip' k' Hk) as [t Ht]. exists t. apply elem_of_app. by left.
  - rewrite CompareAndDelete_lookup. case_bool_decide as Hc; [done|]. intros Hk.
    destruct (Hi ip' k' Hk) as [t' Ht']. exists t'. rewrite E, elem_of_app, elem_of_cons in Ht'.
    apply elem_of_app. destruct Ht' as [?|[[= -> -> ->]|?]]; auto. naive_solver.
Qed.

(** ** Properties *)

(** The last QUIC visitor of an address is forgotten: in every state that visits and expiring
    timers can lead to, each entry has a pending timer for exactly its value, so it does
    not stay for good. *)
Theorem visitors_expire c r :
  rtc visitor_step (Provision c) r → ∀ ip k, GetLastQUICVisitor ip r = Some k →
  ∃ t r', (t, ip, k) ∈ visitor_timers r ∧ fire_visitor t r r' ∧ GetLastQUICVisitor ip r' = None.
Proof.
  intros H ip k Hk. assert (visitors_inv r) as Hi.
  { clear Hk. assert (visitors_inv (Provision c)) as H0.
    { intros ip' k'. unfold GetLastQUICVisitor. cbn. by rewrite lookup_empty. }
    revert H0. induction H; eauto using visitors_inv_step. }
  destruct (Hi ip k Hk) as [t Ht]. apply list_elem_of_split in Ht as (before & after & E).
  exists t. eexists. split; [rewrite E; apply elem_of_app; right; constructor|].
  split; [eapply fire_visitor_timer; [exact E|lia]|].
  unfold GetLastQUICVisitor. cbn. rewrite CompareAndDelete_lookup. by rewrite bool_decide_eq_true_2.
Qed.

Lemma visitors_expire_witness :
  ∃ t r', (t, "10.0.0.1"%string, "10.0.0.1:7"%string) ∈
            visitor_timers (NewQUICVisitor 1 "10.0.0.1" "10.0.0.1:7" (Provision default_config)) ∧
    fire_visitor t (NewQUICVisitor 1 "10.0.0.1" "10.0.0.1:7" (Provision default_config)) r' ∧
    GetLastQUICVisitor "10.0.0.1" r' = None.
Proof.
  apply (visitors_expire default_config (NewQUICVisitor 1 "10.0.0.1" "10.0.0.1:7" (Provision default_config)));
    [apply rtc_once, visitor_new|reflexivity].
Defined.

(** C40: what the expiry of a visitor respects: a client that comes back from another port before
    its first entry expires keeps its newer entry, but one that comes back from the same
    port loses it when the first timer fires, although it was updated. *)
Theorem visitor_update c r ip k k' t0 t1 :
  r = Provision c → t0 < t1 → t1 < t0 + QuicTTL r →
  let r2 := NewQUICVisitor t1 ip k' (NewQUICVisitor t0 ip k r) in
  GetLastQUICVisitor ip r2 = Some k' ∧
  ∃ r3, fire_visitor (t0 + QuicTTL r) r2 r3 ∧
    GetLastQUICVisitor ip r3 = (if bool_decide (k' = k) then None else Some k').
Proof.
  intros -> H01 H1d. cbv zeta. unfold GetLastQUICVisitor.
  split; [cbn; by rewrite lookup_insert_eq|]. eexists. split.
  - eapply (fire_visitor_timer _ _ [] _ ip k); [reflexivity|lia].
  - cbn. rewrite CompareAndDelete_lookup, lookup_insert_eq. repeat case_bool_decide; naive_solver.
Qed.

Lemma visitor_update_witness :
  let r2 := NewQUICVisitor 2 "ip" "ip:2" (NewQUICVisitor 1 "ip" "ip:2" (Provision (mkConfig 5 5))) in
  GetLastQUICVisitor "ip" r2 = Some "ip:2"%string ∧
  ∃ r3, fire_visitor (1 + 5) r2 r3 ∧
    GetLastQUICVisitor "ip" r3 = (if bool_decide ("ip:2"%string = "ip:2"%string) then None else Some "ip:2"%string).
Proof.
  apply (visitor_update (mkConfig 5 5) (Provision (mkConfig 5 5)) "ip" "ip:2" "ip:2" 1 2); simpl; [reflexivity|lia|lia].
Defined.

(** A reservoir that starts has fingerprinters with the configured, positive timeouts - never
    the zero that would make the QUIC fingerprinter refuse everything; the parsed
    Caddyfile keeps the default of what it does not set. *)
Theorem Reservoir_start (D : Type) (DD : Dispenser D) fuel d c :
  parseCaddyfile fuel d = Some (Ok c) → Start (Provision c) = None →
  0 < timeout (quicFingerprinter (Provision c)) ∧ 0 < TLS.timeout (tlsFingerprinter (Provision c)) ∧
  (cfg_TlsTTL c = DEFAULT_TLS_FP_TTL ∨ ∃ a, caddy_ParseDuration a = inl (cfg_TlsTTL c)) ∧
  (cfg_QuicTTL c = DEFAULT_QUIC_FP_TTL ∨ ∃ a, caddy_ParseDuration a = inl (cfg_QuicTTL c)).
Proof.
  intros Hp Hs. unfold Start in Hs. cbn in *.
  destruct (cfg_QuicTTL c <=? 0) eqn:E1, (cfg_TlsTTL c <=? 0) eqn:E2; try done.
  split; [lia|]. split; [lia|]. clear Hs E1 E2.
  revert Hp. apply (dispense_inv app_directive (λ c,
    (cfg_TlsTTL c = DEFAULT_TLS_FP_TTL ∨ ∃ a, caddy_ParseDuration a = inl (cfg_TlsTTL c)) ∧
    (cfg_QuicTTL c = DEFAULT_QUIC_FP_TTL ∨ ∃ a, caddy_ParseDuration a = inl (cfg_QuicTTL c)))); [|by split; left].
  intros v d0 st st' d' [Ht Hq]. unfold app_directive, ttl_directive.
  repeat case_match; intros; simplify_eq; cbn; eauto.
Qed.

(** A block with one of the two directives; durations in seconds, one digit. *)
Definition seconds (s : string) : Z + goerror :=
  if bool_decide (s = "5s") then inl (5 * 10 ^ 9) else if bool_decide (s = "7s") then inl (7 * 10 ^ 9)
  else inr (errors_New "time: invalid duration").

Lemma Reservoir_start_witness :
  let c := mkConfig (7 * 10 ^ 9) (60 * 10 ^ 9) in
  0 < timeout (quicFingerprinter (Provision c)) ∧ 0 < TLS.timeout (tlsFingerprinter (Provision c)) ∧
  (cfg_TlsTTL c = DEFAULT_TLS_FP_TTL ∨ ∃ a, seconds a = inl (cfg_TlsTTL c)) ∧
  (cfg_QuicTTL c = DEFAULT_QUIC_FP_TTL ∨ ∃ a, seconds a = inl (cfg_QuicTTL c)).
Proof.
  apply (Reservoir_start tokens (tokens_ref seconds) 5
           (mkTokens [[["tls_ttl"%string; "7s"%string]]] [] "") (mkConfig (7 * 10 ^ 9) (60 * 10 ^ 9)));
    vm_compute; reflexivity.
Defined.

(** A repeated option is noticed only if the first value differs from the default. *)
Example repeated_ttl_accepted :
  @parseCaddyfile tokens (tokens_ref seconds) 9
    (mkTokens [[["tls_ttl"%string; "5s"%string]; ["tls_ttl"%string; "7s"%string]]] [] "") =
    Some (Ok (mkConfig (7 * 10 ^ 9) (60 * 10 ^ 9))) ∧
  @parseCaddyfile tokens (tokens_ref seconds) 9
    (mkTokens [[["tls_ttl"%string; "7s"%string]; ["tls_ttl"%string; "5s"%string]]] [] "") =
    Some (Err (errors_New "only one tls_ttl is allowed")).
Proof. split; vm_compute; reflexivity. Qed.
