(* ===== verification/CaddyHandler.v ===== *)
(** * The Caddy HTTP handler

    modcaddy/handler/handler.go: [Handler], which answers a request with the fingerprint
    of the client that sent it.  The handler shares the reservoir - and the ClientHellos
    in it, whose [UserAgent] it sets - with the listeners.  Encoding into JSON is a
    parameter; the HTTP response is the sequence of calls made on the writer. *)
From S2P Require Import Prelude GoNet External FingerprintHash ClientHello QuicClientHello Gather QuicFingerprinter.
From S2P Require Import TlsFingerprinter CaddyApp.

(** ** Configuration *)

Record Handler := mkHandler { h_TLS : bool; h_QUIC : bool }.

Section caddyfile.
Context {D : Type} {DD : Dispenser D}.

Definition handler_directive (v : string) (d : D) (h : Handler) : outcome Handler * D :=
  if bool_decide (v = "tls") then
    if h_TLS h then (Err (d_Err d "clienthellod: repeated tls in block"), d)
    else if h_QUIC h then (Err (d_Err d "clienthellod: tls and quic are mutually exclusive in one block"), d)
    else (Ok (mkHandler true (h_QUIC h)), d)
  else if bool_decide (v = "quic") then
    if h_QUIC h then (Err (d_Err d "clienthellod: repeated quic in block"), d)
    else if h_TLS h then (Err (d_Err d "clienthellod: tls and quic are mutually exclusive in one block"), d)
    else (Ok (mkHandler (h_TLS h) true), d)
  else (Ok h, d).

Definition Handler_UnmarshalCaddyfile (fuel : nat) (d : D) (h : Handler) : option (outcome Handler) :=
  dispense handler_directive fuel d h.
End caddyfile.

(** [app]: the error of [ctx.AppIfConfigured], if any. *)
Definition Handler_Provision (app : option goerror) (h : Handler) : option goerror :=
  match app with
  | Some err => Some err
  | None =>
    if h_TLS h && h_QUIC h
    then Some (errors_New "clienthellod handler: mutually exclusive TLS and QUIC are both enabled")
    else if negb (h_TLS h || h_QUIC h)
    then Some (errors_New "clienthellod handler: one and only one of TLS or QUIC must be enabled")
    else None
  end.

(** ** Requests and responses *)

Record Request := mkRequest {
  req_RemoteAddr : string;
  req_ProtoMajor : Z;
  req_UserAgent : bytes;
  req_beautify : bool            (* the query has beautify=true *)
}.

(** The calls on the response writer and on the next handler, in order. *)
Inductive event :=
  | SetHeader (key value : string)
  | WriteBody (b : bytes)
  | CallNext.

(** [json.Marshal] ([false]) and [json.MarshalIndent] ([true]). *)
Class Json := {
  json_ClientHello : bool → ClientHello → bytes + goerror;
  json_QUICFingerprint : bool → QUICFingerprint → bytes + goerror
}.

Definition content_type : event := SetHeader "Content-Type" "application/json".

(** The end of [serveTLS] and [serveQUIC]: headers, body; [w] is what [wr.Write] returns. *)
Definition respond (req : Request) (w : option goerror) (b : bytes) : list event :=
  [content_type] ++ (if req_ProtoMajor req =? 1 then [SetHeader "Connection" "close"] else []) ++
  [WriteBody b] ++ (if w then [CallNext] else []).

(** ** Shared objects *)

(** [ch.UserAgent = ...] through the pointer in the TLS fingerprinter's map. *)
Definition set_tls_UserAgent (from : string) (ua : bytes) (t : TLS.TLSFingerprinter) : TLS.TLSFingerprinter :=
  match TLS.mapClientHellos t !! from with
  | None => t
  | Some ptr => TLS.mkTFP (TLS.mapClientHellos t) (alter (set_UserAgent ua) ptr (TLS.heap t)) (TLS.timers t)
                  (TLS.timeout t) (TLS.closed t)
  end.

Definition set_gci_UserAgent (ua : bytes) (g : GatheredClientInitials) : GatheredClientInitials :=
  mkGathered (Packets g) (maxPacketNumber g) (maxPacketCount g) (pnBase g) (pnBaseSet g)
    (clientHelloReconstructor g)
    ((λ q, mkQUICClientHello (set_UserAgent ua (qch_ClientHello q))) <$> gci_ClientHello g)
    (TransportParameters g) (gci_HexID g) (gci_NumID g) (deadline g) (completed g) (completeChan_closed g).

(** ... and through the gathering in the QUIC fingerprinter's map. *)
Definition set_quic_UserAgent (from : string) (ua : bytes) (q : QUICFingerprinter) : QUICFingerprinter :=
  match mapGatheringClientInitials q !! from with
  | None => q
  | Some ptr => mkQFP (mapGatheringClientInitials q) (alter (set_gci_UserAgent ua) ptr (heap q)) (timers q)
                  (timeout q) (closed q)
  end.

Section handler.
Context {JS : Json}.

(** ** Serving *)

Definition serveTLS (req : Request) (w : option goerror) (r : Reservoir) : list event * Reservoir :=
  match TLS.Peek (req_RemoteAddr req) (tlsFingerprinter r) with
  | None => ([CallNext], r)
  | Some ch =>
    let ch := set_UserAgent (req_UserAgent req) ch in
    let r := with_tls (set_tls_UserAgent (req_RemoteAddr req) (req_UserAgent req) (tlsFingerprinter r)) r in
    match json_ClientHello (req_beautify req) ch with
    | inr _ => ([CallNext], r)
    | inl b => (respond req w b, r)
    end
  end.

(** The last QUIC visitor of the request's IP, with its fingerprint. *)
Definition visitor_fallback (req : Request) (r : Reservoir) : outcome (option (string * QUICFingerprint)) :=
  match SplitHostPort (req_RemoteAddr req) with
  | Ok (ip, _) =>
    match GetLastQUICVisitor ip r with
    | Some lastFrom => let! qfp := Peek lastFrom (quicFingerprinter r) in Ok ((λ fp, (lastFrom, fp)) <$> qfp)
    | None => Ok None
    end
  | _ => Ok None
  end.

(** The fingerprint stored for the address itself, or else the fallback. *)
Definition lookup_direct (req : Request) (r : Reservoir) : outcome (option (string * QUICFingerprint)) :=
  let! qfp := Peek (req_RemoteAddr req) (quicFingerprinter r) in
  match qfp with
  | Some fp => Ok (Some (req_RemoteAddr req, fp))
  | None => visitor_fallback req r
  end.

Definition serveTLSOverH3 (req : Request) (w : option goerror) (r : Reservoir)
    : outcome (list event) * Reservoir :=
  match lookup_direct req r with
  | Panic why => (Panic why, r)
  | Err _ | Ok None => (Ok [CallNext], r)
  | Ok (Some (key, qfp)) =>
    match gci_ClientHello (ClientInitials qfp) with
    | None => (Ok [CallNext], r)
    | Some qch =>
      let ch := set_UserAgent (req_UserAgent req) (qch_ClientHello qch) in
      let r := with_quic (set_quic_UserAgent key (req_UserAgent req) (quicFingerprinter r)) r in
      match json_ClientHello (req_beautify req) ch with
      | inr _ => (Ok [CallNext], r)
      | inl b => (Ok [content_type; WriteBody b], r)
      end
    end
  end.

(** The lookup of [serveQUIC]: HTTP/3 by address with the fallback, older versions by the last
    QUIC visitor of the IP only. *)
Definition lookup_quic (req : Request) (r : Reservoir) : outcome (option (string * QUICFingerprint)) :=
  if req_ProtoMajor req =? 3 then lookup_direct req r else visitor_fallback req r.

Definition record_visitor (now : Z) (req : Request) (r : Reservoir) : Reservoir :=
  if req_ProtoMajor req =? 3 then
    match SplitHostPort (req_RemoteAddr req) with
    | Ok (ip, _) => NewQUICVisitor now ip (req_RemoteAddr req) r
    | _ => r
    end
  else r.

Definition with_UserAgent (ua : bytes) (fp : QUICFingerprint) : QUICFingerprint :=
  mkFingerprint (ClientInitials fp) (qfp_HexID fp) (qfp_NumID fp) ua.

Definition serveQUIC (now : Z) (req : Request) (w : option goerror) (r : Reservoir)
    : outcome (list event) * Reservoir :=
  match lookup_quic req r with
  | Panic why => (Panic why, r)
  | Err _ | Ok None => (Ok [CallNext], r)
  | Ok (Some (_, qfp)) =>
    let r := record_visitor now req r in
    match json_QUICFingerprint (req_beautify req) (with_UserAgent (req_UserAgent req) qfp) with
    | inr _ => (Ok [CallNext], r)
    | inl b => (Ok (respond req w b), r)
    end
  end.

Definition ServeHTTP (h : Handler) (now : Z) (req : Request) (w : option goerror) (r : Reservoir)
    : outcome (list event) * Reservoir :=
  if h_TLS h then
    if req_ProtoMajor req <=? 2 then let '(ev, r) := serveTLS req w r in (Ok ev, r)
    else serveTLSOverH3 req w r
  else if h_QUIC h then serveQUIC now req w r
  else (Ok [CallNext], r).
End handler.

(** ** Visitors *)

(** What can happen to the reservoir: requests, expiring timers, and anything the listeners
    do to the fingerprinters. *)
Inductive handler_step {JS : Json} (r : Reservoir) : Reservoir → Prop :=
  | hs_serve h now req w : handler_step r (snd (ServeHTTP h now req w r))
  | hs_fire now r' : fire_visitor now r r' → handler_step r r'
  | hs_tls t : handler_step r (with_tls t r)
  | hs_quic q : handler_step r (with_quic q r).

(** The address recorded for an IP is one of that IP. *)
Definition visitors_host (r : Reservoir) : Prop :=
  ∀ ip k, GetLastQUICVisitor ip r = Some k → ∃ port, SplitHostPort k = Ok (ip, port).

Definition same_host (a b : string) : Prop :=
  a = b ∨ ∃ ip p1 p2, SplitHostPort a = Ok (ip, p1) ∧ SplitHostPort b = Ok (ip, p2).

Section lemmas.
Context {JS : Json}.

Lemma record_visitor_host now req r : visitors_host r → visitors_host (record_visitor now req r).
Proof.
  intros Hr. unfold record_visitor. case_match; [|done].
  destruct (SplitHostPort (req_RemoteAddr req)) as [[ip p]| |] eqn:E; [|done..].
  intros ip' k. unfold GetLastQUICVisitor. cbn. rewrite lookup_insert_Some.
  intros [[<- <-]|[_ Hk]]; [by eauto|by apply Hr].
Qed.

Lemma ServeHTTP_visitors h now req w r :
  let r' := snd (ServeHTTP h now req w r) in
  mapLastQUICVisitorPerIP r' = mapLastQUICVisitorPerIP r ∧ visitor_timers r' = visitor_timers r ∨
  mapLastQUICVisitorPerIP r' = mapLastQUICVisitorPerIP (record_visitor now req r) ∧
  visitor_timers r' = visitor_timers (record_visitor now req r).
Proof. cbv zeta. unfold ServeHTTP, serveTLS, serveTLSOverH3, serveQUIC. repeat case_match; simplify_eq; cbn; auto. Qed.

Lemma handler_step_host r r' : visitors_host r → handler_step r r' → visitors_host r'.
Proof.
  intros Hr [h now req w|now r1 [before t ip k after E Hle]|t|q]; [| |done..].
  - pose proof (record_visitor_host now req r Hr) as Hr'. unfold visitors_host, GetLastQUICVisitor in *.
    destruct (ServeHTTP_visitors h now req w r) as [[-> _]|[-> _]]; done.
  - intros ip' k'. unfold GetLastQUICVisitor. cbn. rewrite CompareAndDelete_lookup.
    case_bool_decide; [done|]. apply Hr.
Qed.

Lemma handler_host c r : rtc handler_step (Provision c) r → visitors_host r.
Proof.
  intros H. assert (visitors_host (Provision c)) as H0.
  { intros ip k. unfold GetLastQUICVisitor. cbn. by rewrite lookup_empty. }
  revert H0. induction H; eauto using handler_step_host.
Qed.

Lemma visitor_fallback_host req r key fp :
  visitors_host r → visitor_fallback req r = Ok (Some (key, fp)) →
  Peek key (quicFingerprinter r) = Ok (Some fp) ∧ same_host key (req_RemoteAddr req).
Proof.
  intros Hr. unfold visitor_fallback.
  destruct (SplitHostPort (req_RemoteAddr req)) as [[ip p]| |] eqn:E; [|done..].
  destruct (GetLastQUICVisitor ip r) as [k|] eqn:Ek; [|done].
  destruct (Peek k (quicFingerprinter r)) as [[f|]| |] eqn:Ep; cbn; intros [= <- <-].
  destruct (Hr ip k Ek) as [p1 Hp1]. split; [done|]. right. by exists ip, p1, p.
Qed.

Lemma lookup_direct_host req r key fp :
  visitors_host r → lookup_direct req r = Ok (Some (key, fp)) →
  Peek key (quicFingerprinter r) = Ok (Some fp) ∧ same_host key (req_RemoteAddr req).
Proof.
  intros Hr. unfold lookup_direct.
  destruct (Peek (req_RemoteAddr req) (quicFingerprinter r)) as [[f|]| |] eqn:Ep; cbn [obind]; [| |done..].
  - intros [= <- <-]. split; [done|]. by left.
  - by apply visitor_fallback_host.
Qed.

Lemma respond_body req w b b' : WriteBody b' ∈ respond req w b → b' = b.
Proof.
  unfold respond. rewrite !elem_of_app. intros [H|[H|[H|H]]]; [|destruct (_ =? 1)| |destruct w];
    try (apply list_elem_of_singleton in H; by simplify_eq); by apply elem_of_nil in H.
Qed.
End lemmas.

(** ** Properties *)

(** C15: whose fingerprint is served: in every state of the reservoir, a response body is the
    encoding of the ClientHello stored under the client's own address, or of the QUIC
    fingerprint (or its ClientHello) stored under an address of the client's own IP,
    with the User-Agent of this request. *)
Theorem served_same_host (JS : Json) c r h now req w ev r' b :
  rtc handler_step (Provision c) r → ServeHTTP h now req w r = (Ok ev, r') → WriteBody b ∈ ev →
  (∃ ch, TLS.Peek (req_RemoteAddr req) (tlsFingerprinter r) = Some ch ∧
     json_ClientHello (req_beautify req) (set_UserAgent (req_UserAgent req) ch) = inl b) ∨
  ∃ key fp, Peek key (quicFingerprinter r) = Ok (Some fp) ∧ same_host key (req_RemoteAddr req) ∧
    (json_QUICFingerprint (req_beautify req) (with_UserAgent (req_UserAgent req) fp) = inl b ∨
     ∃ qch, gci_ClientHello (ClientInitials fp) = Some qch ∧
       json_ClientHello (req_beautify req) (set_UserAgent (req_UserAgent req) (qch_ClientHello qch)) = inl b).
Proof.
  intros Hr. apply handler_host in Hr as Hh. unfold ServeHTTP, serveTLS, serveTLSOverH3, serveQUIC, lookup_quic.
  assert (∀ b : bytes, WriteBody b ∈ [CallNext] → False) as Hn by (intros ? ?%list_elem_of_singleton; done).
  destruct (h_TLS h); [destruct (req_ProtoMajor req <=? 2)|destruct (h_QUIC h)].
  - destruct (TLS.Peek _ _) as [ch|] eqn:Ep; [|intros [= <- <-] []%Hn].
    destruct (json_ClientHello _ _) as [b0|] eqn:Ej; [|intros [= <- <-] []%Hn].
    intros [= <- <-] ->%respond_body. left. eauto.
  - destruct (lookup_direct req r) as [[[key fp]|]| |] eqn:El; [|intros [= <- <-] []%Hn..|done].
    apply lookup_direct_host in El as [Hp Hs]; [|done].
    destruct (gci_ClientHello (ClientInitials fp)) as [qch|] eqn:Eq; [|intros [= <- <-] []%Hn].
    destruct (json_ClientHello _ _) as [b0|] eqn:Ej; [|intros [= <- <-] []%Hn].
    intros [= <- <-] Hb. right. exists key, fp. split; [done|]. split; [done|]. right. exists qch.
    set_unfold. destruct Hb as [?|[[= ->]|[]]]; done.
  - match goal with |- context [if ?c then ?a else ?b] =>
      assert (∀ key fp, (if c then a else b) = Ok (Some (key, fp)) →
        Peek key (quicFingerprinter r) = Ok (Some fp) ∧ same_host key (req_RemoteAddr req)) as Hk
        by (intros key fp; destruct c; [by apply lookup_direct_host|by apply visitor_fallback_host]);
      destruct (if c then a else b) as [[[key fp]|]| |] eqn:El end; [|intros [= <- <-] []%Hn..|done].
    destruct (Hk _ _ eq_refl) as [Hp Hs].
    destruct (json_QUICFingerprint _ _) as [b0|] eqn:Ej; [|intros [= <- <-] []%Hn].
    intros [= <- <-] ->%respond_body. right. eauto 10.
  - intros [= <- <-] []%Hn.
Qed.

(** A reservoir with one fingerprinted HTTP/3 client, an encoder that writes the identifier, and
    a completed gathering. *)
Definition sample_gathered : GatheredClientInitials :=
  mkGathered [] 32 4 0 true Reconstructor.NewQUICClientHelloReconstructor
    (Some (mkQUICClientHello new_ClientHello)) (Some TransportParams.empty_qtp) "" 0 100 true true.

Definition sample_reservoir : Reservoir :=
  with_quic (mkQFP {["10.0.0.1:7"%string := 0%nat]} [sample_gathered] [] 10 false) (Provision default_config).

Definition json_ref : Json := {|
  json_ClientHello _ ch := inl (UserAgent ch);
  json_QUICFingerprint _ fp := inl (qfp_UserAgent fp)
|}.

Definition h3_request (addr : string) : Request := mkRequest addr 3 [65; 66] false.

Lemma served_same_host_witness :
  let req := h3_request "10.0.0.1:7" in let r := sample_reservoir in
  (∃ ch, TLS.Peek (req_RemoteAddr req) (tlsFingerprinter r) = Some ch ∧
     @json_ClientHello json_ref (req_beautify req) (set_UserAgent (req_UserAgent req) ch) = inl [65; 66]) ∨
  ∃ key fp, Peek key (quicFingerprinter r) = Ok (Some fp) ∧ same_host key (req_RemoteAddr req) ∧
    (@json_QUICFingerprint json_ref (req_beautify req) (with_UserAgent (req_UserAgent req) fp) = inl [65; 66] ∨
     ∃ qch, gci_ClientHello (ClientInitials fp) = Some qch ∧
       @json_ClientHello json_ref (req_beautify req)
         (set_UserAgent (req_UserAgent req) (qch_ClientHello qch)) = inl [65; 66]).
Proof.
  eapply (served_same_host json_ref default_config sample_reservoir (mkHandler false true) 5
            (h3_request "10.0.0.1:7") None).
  - apply rtc_once, hs_quic.
  - unfold ServeHTTP, serveQUIC, lookup_quic, lookup_direct, Peek, Load. cbn -[sum64]. reflexivity.
  - right. left.
Defined.

(** The shape of a response: either nothing is written and the next handler is called, or
    the headers and one body are written - with "Connection: close" for HTTP/1 only - and
    the next handler is called after that only if the write failed. *)
Theorem ServeHTTP_shape (JS : Json) h now req w r ev r' :
  ServeHTTP h now req w r = (Ok ev, r') →
  ev = [CallNext] ∨
  ∃ close b rest, ev = content_type :: close ++ WriteBody b :: rest ∧
    (close = [] ∨ close = [SetHeader "Connection" "close"] ∧ req_ProtoMajor req = 1) ∧
    (rest = [] ∨ rest = [CallNext] ∧ w ≠ None).
Proof.
  assert (∀ b, ∃ close b' rest, respond req w b = content_type :: close ++ WriteBody b' :: rest ∧
    (close = [] ∨ close = [SetHeader "Connection" "close"] ∧ req_ProtoMajor req = 1) ∧
    (rest = [] ∨ rest = [CallNext] ∧ w ≠ None)) as Hresp.
  { intros b. eexists _, b, _. split; [reflexivity|]. split.
    - destruct (req_ProtoMajor req =? 1) eqn:E; [right|by left]. split; [done|lia].
    - destruct w; [by right|by left]. }
  unfold ServeHTTP, serveTLS, serveTLSOverH3, serveQUIC.
  repeat case_match; intros; simplify_eq; auto.
  right. eexists [], _, []. split; [reflexivity|]. by split; left.
Qed.

Lemma ServeHTTP_shape_witness :
  respond (mkRequest "a" 1 [] true) (Some io_EOF) [] = [CallNext] ∨
  ∃ close b rest, respond (mkRequest "a" 1 [] true) (Some io_EOF) [] = content_type :: close ++ WriteBody b :: rest ∧
    (close = [] ∨ close = [SetHeader "Connection" "close"] ∧ req_ProtoMajor (mkRequest "a" 1 [] true) = 1) ∧
    (rest = [] ∨ rest = [CallNext] ∧ Some io_EOF ≠ None).
Proof.
  eapply (ServeHTTP_shape json_ref (mkHandler true false) 5 (mkRequest "a" 1 [] true) (Some io_EOF)
            (with_tls (TLS.store 1 "a" new_ClientHello TLS.NewTLSFingerprinter) (Provision default_config))).
  reflexivity.
Defined.

Lemma Peek_record_visitor now req r k :
  Peek k (quicFingerprinter (record_visitor now req r)) = Peek k (quicFingerprinter r).
Proof. unfold record_visitor. by repeat case_match. Qed.

Lemma record_visitor_Last now host port req r :
  addr_ok host port → req_RemoteAddr req = JoinHostPort host port → req_ProtoMajor req = 3 →
  GetLastQUICVisitor host (record_visitor now req r) = Some (JoinHostPort host port).
Proof.
  intros Hok Ha H3. unfold record_visitor. rewrite H3, Ha, SplitHostPort_JoinHostPort by done.
  unfold GetLastQUICVisitor. cbn. by rewrite lookup_insert_eq.
Qed.

Lemma visitor_fallback_spec host port req r :
  addr_ok host port → req_RemoteAddr req = JoinHostPort host port →
  visitor_fallback req r =
  match GetLastQUICVisitor host r with
  | Some lastFrom => let! qfp := Peek lastFrom (quicFingerprinter r) in Ok ((λ fp, (lastFrom, fp)) <$> qfp)
  | None => Ok None
  end.
Proof. intros Hok Ha. unfold visitor_fallback. by rewrite Ha, SplitHostPort_JoinHostPort. Qed.

Lemma serveQUIC_served {JS : Json} now req w r key fp b :
  lookup_quic req r = Ok (Some (key, fp)) →
  json_QUICFingerprint (req_beautify req) (with_UserAgent (req_UserAgent req) fp) = inl b →
  serveQUIC now req w r = (Ok (respond req w b), record_visitor now req r).
Proof. intros Hl Hj. unfold serveQUIC. by rewrite Hl, Hj. Qed.

(** What may happen between two requests of an IP, up to the time [now]: timers that are due,
    requests other than an HTTP/3 request from this IP, and anything the listeners do to
    the fingerprinters. *)
Inductive between {JS : Json} (ip : string) (now : Z) (r : Reservoir) : Reservoir → Prop :=
  | between_serve h at_ req w :
    (∀ port, SplitHostPort (req_RemoteAddr req) ≠ Ok (ip, port)) ∨ req_ProtoMajor req ≠ 3 →
    between ip now r (snd (ServeHTTP h at_ req w r))
  | between_fire at_ r' : at_ <= now → fire_visitor at_ r r' → between ip now r r'
  | between_tls t : between ip now r (with_tls t r)
  | between_quic q : between ip now r (with_quic q r).

(** The last visitor of [ip] is [key], and no timer that could forget it is due by [now]. *)
Definition remembered (ip key : string) (now : Z) (r : Reservoir) : Prop :=
  GetLastQUICVisitor ip r = Some key ∧ ∀ t, (t, ip, key) ∈ visitor_timers r → now < t.

Lemma remembered_record_other {JS : Json} ip key now at_ req r :
  (∀ port, SplitHostPort (req_RemoteAddr req) ≠ Ok (ip, port)) ∨ req_ProtoMajor req ≠ 3 →
  remembered ip key now r → remembered ip key now (record_visitor at_ req r).
Proof.
  intros Hother [Hl Ht]. unfold record_visitor. destruct (req_ProtoMajor req =? 3) eqn:E3; [|done].
  destruct (SplitHostPort (req_RemoteAddr req)) as [[ip' port]| |] eqn:E; [|done..].
  assert (ip' ≠ ip) as Hne. { intros ->. bool_facts. destruct Hother as [H|H]; [by destruct (H port)|done]. }
  split.
  - unfold GetLastQUICVisitor. cbn. by rewrite lookup_insert_ne.
  - cbn. intros t [H|H]%elem_of_app; [by apply Ht|]. apply list_elem_of_singleton in H. by simplify_eq.
Qed.

Lemma remembered_between {JS : Json} ip key now r r' :
  remembered ip key now r → between ip now r r' → remembered ip key now r'.
Proof.
  intros Hr [h at_ req w Hother|at_ r1 Hle Hf|t|q]; [| |done..].
  - pose proof (remembered_record_other ip key now at_ req r Hother Hr) as Hr'.
    unfold remembered, GetLastQUICVisitor in *.
    destruct (ServeHTTP_visitors h at_ req w r) as [[-> ->]|[-> ->]]; done.
  - destruct Hr as [Hl Ht], Hf as [before t ip' k after E Hd]. split.
    + unfold GetLastQUICVisitor in *. cbn. rewrite CompareAndDelete_lookup. case_bool_decide as Hc; [|done].
      destruct Hc as [<- Hk]. assert (k = key) as -> by congruence.
      assert ((t, ip, key) ∈ visitor_timers r) as Hin%Ht; [rewrite E; apply elem_of_app; right; left|lia].
    + cbn. intros t' Hin. apply Ht. rewrite E. set_solver.
Qed.

(** C24: a fingerprint follows the IP: an HTTP/3 request from an address whose own fingerprint is
    stored is answered with it, and so is a later request from the same IP, from whatever
    port, over HTTP/1 or HTTP/2 - with whatever fingerprint is then stored under the first
    address - provided that in between no other HTTP/3 client of this IP was served and no
    timer for the recorded visitor (of this or of an earlier visit of the same address) has
    become due. *)
Theorem serveQUIC_association (JS : Json) host p1 p2 now1 now2 req1 w1 r fp b1 :
  addr_ok host p1 → addr_ok host p2 →
  req_RemoteAddr req1 = JoinHostPort host p1 → req_ProtoMajor req1 = 3 →
  Peek (JoinHostPort host p1) (quicFingerprinter r) = Ok (Some fp) →
  json_QUICFingerprint (req_beautify req1) (with_UserAgent (req_UserAgent req1) fp) = inl b1 →
  now2 < now1 + QuicTTL r → (∀ t, (t, host, JoinHostPort host p1) ∈ visitor_timers r → now2 < t) →
  let '(ev1, r1) := serveQUIC now1 req1 w1 r in
  ev1 = Ok (respond req1 w1 b1) ∧
  ∀ r2 req2 w2 fp2 b2, rtc (between host now2) r1 r2 →
    req_RemoteAddr req2 = JoinHostPort host p2 → req_ProtoMajor req2 ≠ 3 →
    Peek (JoinHostPort host p1) (quicFingerprinter r2) = Ok (Some fp2) →
    json_QUICFingerprint (req_beautify req2) (with_UserAgent (req_UserAgent req2) fp2) = inl b2 →
    fst (serveQUIC now2 req2 w2 r2) = Ok (respond req2 w2 b2).
Proof.
  intros H1 H2 Ha1 Hv1 Hp Hj1 Hnow Htimers.
  rewrite (serveQUIC_served _ _ _ _ (JoinHostPort host p1) fp b1).
  2: { unfold lookup_quic, lookup_direct. rewrite Hv1, Ha1, Hp. done. }
  2: done.
  split; [done|]. intros r2 req2 w2 fp2 b2 Hr Ha2 Hv2 Hp2 Hj2.
  assert (remembered host (JoinHostPort host p1) now2 (record_visitor now1 req1 r)) as Hrem.
  { split; [by apply record_visitor_Last|]. unfold record_visitor.
    rewrite Hv1, Ha1, SplitHostPort_JoinHostPort by done. cbn.
    intros t [H|H]%elem_of_app; [by apply Htimers|]. apply list_elem_of_singleton in H. by simplify_eq. }
  assert (remembered host (JoinHostPort host p1) now2 r2) as [Hlast _]
    by (clear -Hr Hrem; induction Hr; eauto using remembered_between).
  erewrite (serveQUIC_served now2 _ _ _ (JoinHostPort host p1) fp2 b2); [done| |done].
  unfold lookup_quic. rewrite (proj2 (Z.eqb_neq _ _)) by done.
  by rewrite (visitor_fallback_spec host p2), Hlast, Hp2.
Qed.

(** C25: the fallback for a client that changed its port works once: the request is answered with
    the fingerprint of the old port, but the new port - for which there is no fingerprint -
    is recorded as the last visitor, so the next request of this IP finds nothing. *)
Theorem serveQUIC_migration_once (JS : Json) host p1 p2 p3 now1 now2 req1 req2 w1 w2 r fp b :
  addr_ok host p2 → addr_ok host p3 →
  req_RemoteAddr req1 = JoinHostPort host p2 → req_ProtoMajor req1 = 3 →
  req_RemoteAddr req2 = JoinHostPort host p3 →
  GetLastQUICVisitor host r = Some (JoinHostPort host p1) →
  Peek (JoinHostPort host p1) (quicFingerprinter r) = Ok (Some fp) →
  Peek (JoinHostPort host p2) (quicFingerprinter r) = Ok None →
  Peek (JoinHostPort host p3) (quicFingerprinter r) = Ok None →
  json_QUICFingerprint (req_beautify req1) (with_UserAgent (req_UserAgent req1) fp) = inl b →
  let '(ev1, r1) := serveQUIC now1 req1 w1 r in
  ev1 = Ok (respond req1 w1 b) ∧ fst (serveQUIC now2 req2 w2 r1) = Ok [CallNext].
Proof.
  intros H2 H3 Ha1 Hv1 Ha2 Hlast Hp1 Hp2 Hp3 Hj.
  rewrite (serveQUIC_served _ _ _ _ (JoinHostPort host p1) fp b).
  2: { unfold lookup_quic, lookup_direct. rewrite Hv1, Ha1, Hp2. cbn [Z.eqb Pos.eqb obind].
       rewrite (visitor_fallback_spec host p2), Hlast by done. by rewrite Hp1. }
  2: done.
  split; [done|]. unfold serveQUIC.
  enough (lookup_quic req2 (record_visitor now1 req1 r) = Ok None) as -> by done.
  assert (visitor_fallback req2 (record_visitor now1 req1 r) = Ok None) as Hf.
  { rewrite (visitor_fallback_spec host p3) by done. rewrite (record_visitor_Last _ host p2) by done.
    by rewrite Peek_record_visitor, Hp2. }
  unfold lookup_quic, lookup_direct. rewrite Ha2, Peek_record_visitor, Hp3. cbn [obind]. by case_match.
Qed.

(** Two clients behind one IPv6 address: the encoder writes the User-Agent, so the bodies tell
    the requests apart. *)
Definition v6_reservoir : Reservoir :=
  with_quic (mkQFP {["[::1]:7"%string := 0%nat]} [sample_gathered] [] 10 false)
    (NewQUICVisitor 1 "::1" "[::1]:7" (Provision default_config)).

Lemma v6_Peek fp :
  fingerprint_of sample_gathered = Ok fp →
  Peek (JoinHostPort "::1" "7") (quicFingerprinter v6_reservoir) = Ok (Some fp).
Proof.
  intros E. unfold Peek. replace (Load _ _) with (Some sample_gathered) by reflexivity.
  change (negb (Completed sample_gathered)) with false. by rewrite E.
Qed.

(** The fingerprint of the sample, not yet visited. *)
Definition v6_fresh : Reservoir :=
  with_quic (mkQFP {["[::1]:7"%string := 0%nat]} [sample_gathered] [] 10 false) (Provision default_config).

(** In between somebody else is served. *)
Lemma serveQUIC_association_witness :
  ∃ ev1 r1, @serveQUIC json_ref 2 (h3_request "[::1]:7") None v6_fresh = (ev1, r1) ∧
    ev1 = Ok (respond (h3_request "[::1]:7") None [65; 66]) ∧
    fst (@serveQUIC json_ref 9 (mkRequest "[::1]:9" 2 [67] false) None
           (snd (@ServeHTTP json_ref (mkHandler false true) 5 (h3_request "10.0.0.1:7") None r1))) =
      Ok (respond (mkRequest "[::1]:9" 2 [67] false) None [67]).
Proof.
  destruct (fingerprint_of sample_gathered) as [fp| |] eqn:Efp; [|discriminate Efp..].
  assert (Peek (JoinHostPort "::1" "7") (quicFingerprinter v6_fresh) = Ok (Some fp)) as Hp.
  { unfold Peek. replace (Load _ _) with (Some sample_gathered) by reflexivity.
    change (negb (Completed sample_gathered)) with false. by rewrite Efp. }
  destruct (@serveQUIC json_ref 2 (h3_request "[::1]:7") None v6_fresh) as [ev1 r1] eqn:E.
  exists ev1, r1. split; [done|].
  pose proof (serveQUIC_association json_ref "::1" "7" "9" 2 9 (h3_request "[::1]:7")
    None v6_fresh fp [65; 66]) as H.
  rewrite E in H. destruct H as [H1 H2];
    [decide_now|decide_now|reflexivity|reflexivity|exact Hp|reflexivity|vm_compute; reflexivity| |].
  { intros t Ht. apply elem_of_nil in Ht as []. }
  split; [exact H1|].
  assert (quicFingerprinter r1 = quicFingerprinter v6_fresh) as Hq.
  { revert E. unfold serveQUIC, lookup_quic, lookup_direct. cbn [h3_request req_ProtoMajor Z.eqb Pos.eqb req_RemoteAddr].
    change "[::1]:7"%string with (JoinHostPort "::1" "7"). rewrite Hp. cbn [obind json_QUICFingerprint json_ref].
    intros [= _ <-]. reflexivity. }
  apply (H2 _ _ None fp [67]); [|reflexivity|discriminate| |reflexivity].
  - apply rtc_once, between_serve. left. intros port. vm_compute. discriminate.
  - rewrite <- Hp, <- Hq. unfold ServeHTTP, serveQUIC. cbn [h_TLS h_QUIC].
    destruct (@lookup_quic (h3_request "10.0.0.1:7") r1) as [[[key f]|]| |]; reflexivity.
Defined.

Lemma serveQUIC_migration_once_witness :
  ∃ ev1 r1, @serveQUIC json_ref 2 (h3_request "[::1]:8") None v6_reservoir = (ev1, r1) ∧
    ev1 = Ok (respond (h3_request "[::1]:8") None [65; 66]) ∧
    fst (@serveQUIC json_ref 3 (h3_request "[::1]:8") None r1) = Ok [CallNext].
Proof.
  destruct (fingerprint_of sample_gathered) as [fp| |] eqn:Efp; [|discriminate Efp..].
  destruct (@serveQUIC json_ref 2 (h3_request "[::1]:8") None v6_reservoir) as [ev1 r1] eqn:E.
  exists ev1, r1. split; [done|].
  pose proof (serveQUIC_migration_once json_ref "::1" "7" "8" "8" 2 3 (h3_request "[::1]:8")
    (h3_request "[::1]:8") None None v6_reservoir fp [65; 66]) as H.
  rewrite E in H. apply H; [decide_now|decide_now|reflexivity|reflexivity|reflexivity|reflexivity| |
                            reflexivity|reflexivity|reflexivity].
  by apply v6_Peek.
Defined.

(** The two modes exclude each other: a handler that was configured from a Caddyfile and
    provisioned has exactly one of them enabled, and the configuration alone never enables
    both. *)
Theorem Handler_exclusive (D : Type) (DD : Dispenser D) fuel d h :
  Handler_UnmarshalCaddyfile fuel d (mkHandler false false) = Some (Ok h) →
  h_TLS h && h_QUIC h = false ∧ (Handler_Provision None h = None → xorb (h_TLS h) (h_QUIC h) = true).
Proof.
  intros Hp. assert (h_TLS h && h_QUIC h = false) as Hx.
  { revert Hp. apply (dispense_inv handler_directive (λ h, h_TLS h && h_QUIC h = false)); [|done].
    intros v d0 [[] []] st' d' ?; unfold handler_directive; repeat case_bool_decide; cbn;
      intros ?; by simplify_eq. }
  split; [done|]. destruct h as [[] []]; done.
Qed.

Lemma Handler_exclusive_witness :
  true && false = false ∧ (Handler_Provision None (mkHandler true false) = None → xorb true false = true).
Proof.
  apply (Handler_exclusive tokens (tokens_ref seconds) 5 (mkTokens [[["tls"%string]]] [] "") (mkHandler true false)).
  vm_compute. reflexivity.
Defined.
