(* ===== verification/CaddyListener.v ===== *)
(** * The Caddy listener wrapper

    modcaddy/listener/listener.go: [ListenerWrapper], which starts the raw-socket loops
    of the QUIC fingerprinter, and [tlsListener], whose [Accept] reads the ClientHello of
    every new connection before anybody else sees it.  Opening and closing sockets is
    outside: its results are arguments. *)
From S2P Require Import Prelude GoIO Rewind GoCrypto External ClientHello QuicClientHello TlsFingerprinter CaddyApp.

(** ** The wrapper *)

(** Raw sockets are opaque handles. *)
Record ListenerWrapper := mkWrapper {
  lw_TCP : bool;
  lw_UDP : bool;
  udpListener : option nat;
  udp6Listener : option nat
}.

Definition listener_directive {D} `{Dispenser D} (v : string) (d : D) (lw : ListenerWrapper)
    : outcome ListenerWrapper * D :=
  if bool_decide (v = "tcp") then
    if lw_TCP lw then (Err (d_Err d "clienthellod: tcp already specified"), d)
    else (Ok (mkWrapper true (lw_UDP lw) (udpListener lw) (udp6Listener lw)), d)
  else if bool_decide (v = "udp") then
    if lw_UDP lw then (Err (d_Err d "clienthellod: udp already specified"), d)
    else (Ok (mkWrapper (lw_TCP lw) true (udpListener lw) (udp6Listener lw)), d)
  else (Ok lw, d).

Definition Listener_UnmarshalCaddyfile {D} `{Dispenser D} (fuel : nat) (d : D) (lw : ListenerWrapper)
    : option (outcome ListenerWrapper) := dispense listener_directive fuel d lw.

(** [app]: the error of [ctx.AppIfConfigured]; [listen4], [listen6]: what [net.ListenIP] returns.
    The last result is the sockets a goroutine with [HandleIPConn] was started for. *)
Definition Listener_Provision (app : option goerror) (listen4 listen6 : nat + goerror) (lw : ListenerWrapper)
    : option goerror * ListenerWrapper * list nat :=
  match app with
  | Some err => (Some err, lw, [])
  | None =>
    if lw_UDP lw && bool_decide (udpListener lw = None) then
      match listen4 with
      | inr err => (Some err, mkWrapper (lw_TCP lw) (lw_UDP lw) None (udp6Listener lw), [])
      | inl s4 =>
        match listen6 with
        | inr err => (Some err, mkWrapper (lw_TCP lw) (lw_UDP lw) (Some s4) None, [s4])
        | inl s6 => (None, mkWrapper (lw_TCP lw) (lw_UDP lw) (Some s4) (Some s6), [s4; s6])
        end
      end
    else (None, lw, [])
  end.

(** [close] is what closing a socket returns; the result: the error and the sockets closed. *)
Definition Cleanup (close : nat → option goerror) (lw : ListenerWrapper) : option goerror * list nat :=
  if lw_UDP lw then
    let '(err, closed) := match udpListener lw with
                          | Some s => (close s, [s])
                          | None => (None, [])
                          end in
    match err with
    | Some err => (Some err, closed)
    | None =>
      match udp6Listener lw with
      | Some s => (close s, closed ++ [s])
      | None => (None, closed)
      end
    end
  else (None, []).

(** Whether the listener of a network is wrapped. *)
Definition WrapListener (network : string) (lw : ListenerWrapper) : bool :=
  bool_decide (network = "tcp" ∨ network = "tcp4" ∨ network = "tcp6") && lw_TCP lw.

(** ** [Accept] *)

(** 10 seconds, in nanoseconds. *)
Definition clientHelloReadTimeout : Z := 10 * 10 ^ 9.

(** The calls on the accepted connections ([None]: the zero time, no deadline). *)
Inductive conn_call :=
  | SetReadDeadline (addr : string) (t : option Z)
  | CloseConn (addr : string).

Section accept.
Context {CB : Cryptobyte} {DT : Dicttls} {UT : Utls}.

(** What [l.Listener.Accept] returns, with the time: a connection and its address, or an error. *)
Abbreviation accepted := (Z * (string * netConn + goerror))%type.

(** [Accept] on what the underlying listener will deliver.  The result is [None] while it waits
    for more; then the calls made, what has not been accepted yet, and the fingerprinter.
    The outer [None]: the fuel of the reads ran out. *)
Fixpoint Accept (fuel : nat) (l : list accepted) (t : TLS.TLSFingerprinter)
    : option (option (outcome (conn netConn)) * list conn_call * list accepted * TLS.TLSFingerprinter) :=
  match l with
  | [] => Some (None, [], [], t)
  | (_, inr err) :: l => Some (Some (Err err), [], l, t)
  | (now, inl (addr, c)) :: l =>
    let deadline := SetReadDeadline addr (Some (now + clientHelloReadTimeout)) in
    match TLS.HandleTCPConn fuel now addr c t with
    | None => None
    | Some (Panic w, t) => Some (Some (Panic w), [deadline], l, t)
    | Some (Err _, t) =>
      match Accept fuel l t with
      | None => None
      | Some (r, calls, l, t) => Some (r, deadline :: CloseConn addr :: calls, l, t)
      end
    | Some (Ok rc, t) => Some (Some (Ok rc), [deadline; SetReadDeadline addr None], l, t)
    end
  end.

(** What [Accept] did with the connections it dropped. *)
Definition dropped (l : list accepted) : list conn_call :=
  flat_map (λ a, match a with
    | (now, inl (addr, _)) => [SetReadDeadline addr (Some (now + clientHelloReadTimeout)); CloseConn addr]
    | _ => []
    end) l.

Lemma Accept_cases fuel l t o calls rest t' :
  Accept fuel l t = Some (Some o, calls, rest, t') →
  ∃ pre a, l = pre ++ a :: rest ∧ Forall (λ a, ∃ x, snd a = inl x) pre ∧
    match a with
    | (_, inr err) => o = Err err ∧ calls = dropped pre
    | (now, inl (addr, c)) => ∃ t0, TLS.HandleTCPConn fuel now addr c t0 = Some (o, t') ∧ (∀ e, o ≠ Err e) ∧
      rtc TLS.step t t0 ∧ TLS.timeout t0 = TLS.timeout t ∧
      calls = dropped pre ++ SetReadDeadline addr (Some (now + clientHelloReadTimeout)) ::
        match o with Ok _ => [SetReadDeadline addr None] | _ => [] end
    end.
Proof.
  revert t calls. induction l as [|[now [[addr c]|err]] l IH]; intros t calls; cbn [Accept]; [done| |].
  - destruct (TLS.HandleTCPConn fuel now addr c t) as [[[rc|e|w] t1]|] eqn:E; [| | |done].
    + intros [= <- <- <- <-]. exists [], (now, inl (addr, c)). split; [done|]. split; [constructor|].
      by exists t.
    + destruct (Accept fuel l t1) as [[[[r calls1] l1] t2]|] eqn:Ea; [|done].
      intros [= -> <- <- <-]. apply IH in Ea as (pre & a & -> & Hpre & Ha).
      exists ((now, inl (addr, c)) :: pre), a. split; [done|].
      split; [apply Forall_cons; by split; [eexists|]|].
      destruct a as [now' [[addr' c']|err']].
      * destruct Ha as (t0 & Hh & Hne & Hr & Ht & ->). exists t0. split; [done|]. split; [done|].
        split; [eapply rtc_l; [by eapply TLS.step_conn|done]|]. split; [|done].
        by rewrite Ht, (TLS.HandleTCPConn_timeout _ _ _ _ _ _ _ E).
      * destruct Ha as [-> ->]. done.
    + intros [= <- <- <- <-]. exists [], (now, inl (addr, c)). split; [done|]. split; [constructor|].
      by exists t.
  - intros [= <- <- <- <-]. by exists [], (now, inr err).
Qed.

Lemma Accept_total fuel l t :
  Forall (λ a, ∀ addr c, snd a = inl (addr, c) → (length (nc_chunks c) < fuel)%nat) l →
  ∃ r calls rest t', Accept fuel l t = Some (r, calls, rest, t') ∧
    (r = None → rest = [] ∧ calls = dropped l ∧ Forall (λ a, ∃ x, snd a = inl x) l).
Proof.
  intros Hl. revert t. induction Hl as [|[now [[addr c]|err]] l Ha _ IH]; intros t; cbn [Accept].
  - by exists None, [], [], t.
  - destruct (TLS.HandleTCPConn_total fuel now addr c t (Ha _ _ eq_refl)) as (o & t1 & ->).
    destruct o as [rc|e|w]; [by eexists _, _, _, _| |by eexists _, _, _, _].
    destruct (IH t1) as (r & calls & rest & t' & -> & Hr). eexists _, _, _, _. split; [done|].
    intros ->. destruct (Hr eq_refl) as (-> & -> & Hf). split; [done|]. split; [done|].
    apply Forall_cons. by split; [eexists|].
  - by eexists _, _, _, _.
Qed.
End accept.

(** ** Properties *)

(** C11: bad clients do not stop the listener: whatever connections arrive - silent, not TLS,
    malformed - [Accept] goes through all of them in order, closes each it cannot
    fingerprint, and returns an error only when the underlying listener did.  The
    connection it returns has no read deadline left, delivers the client's bytes from the
    first on, and has its ClientHello stored under its address; otherwise the call ends
    with a panic of the parser or keeps waiting. *)
Theorem Accept_serves (CB : Cryptobyte) (DT : Dicttls) (UT : Utls) fuel l t :
  Forall (λ a, ∀ addr c, snd a = inl (addr, c) → (length (nc_chunks c) < fuel)%nat) l →
  ∃ r calls rest t', Accept fuel l t = Some (r, calls, rest, t') ∧
  match r with
  | None => rest = [] ∧ calls = dropped l ∧ Forall (λ a, ∃ x, snd a = inl x) l
  | Some o => ∃ pre now a, l = pre ++ (now, a) :: rest ∧ Forall (λ a, ∃ x, snd a = inl x) pre ∧
    match o with
    | Err err => a = inr err ∧ calls = dropped pre
    | Ok rc => ∃ addr c ch tail, a = inl (addr, c) ∧
      calls = dropped pre ++ [SetReadDeadline addr (Some (now + clientHelloReadTimeout));
                              SetReadDeadline addr None] ∧
      stream rc = stream c ∧ TLS.Peek addr t' = Some ch ∧ stream c = Raw ch ++ tail
    | Panic _ => ∃ addr c, a = inl (addr, c)
    end
  end.
Proof.
  intros Hl. destruct (Accept_total fuel l t Hl) as (r & calls & rest & t' & E & Hw).
  exists r, calls, rest, t'. split; [done|]. destruct r as [o|]; [|by apply Hw].
  apply Accept_cases in E as (pre & [now a] & -> & Hpre & Ha). exists pre, now, a. split; [done|]. split; [done|].
  destruct a as [[addr c]|err]; [|by destruct Ha as [-> ->]].
  destruct Ha as (t0 & Hh & Hne & _ & _ & ->). destruct o as [rc|e|w]; [|by destruct (Hne e)|by eauto].
  apply TLS.HandleTCPConn_ok in Hh as (Hs & ch & tail & Hp & Hc & _). by exists addr, c, ch, tail.
Qed.

(** A client that says nothing until the read deadline, one that speaks HTTP, and a TLS client. *)
Definition sample_arrivals : list (Z * (string * netConn + goerror)) :=
  [(1, inl ("a:1"%string, mkConn [] (errors_New "i/o timeout")));
   (2, inl ("b:2"%string, mkConn [[71; 69; 84; 32]; [47; 13; 10]] io_EOF));
   (3, inl ("c:3"%string, TLS.sample_conn)); (4, inr net_ErrClosed)].

Lemma Accept_serves_witness :
  ∃ r calls rest t', @Accept cryptobyte_ref dicttls_ref utls_quic 4 sample_arrivals TLS.NewTLSFingerprinter =
    Some (r, calls, rest, t') ∧
  match r with
  | None => rest = [] ∧ calls = dropped sample_arrivals ∧ Forall (λ a, ∃ x, snd a = inl x) sample_arrivals
  | Some o => ∃ pre now a, sample_arrivals = pre ++ (now, a) :: rest ∧ Forall (λ a, ∃ x, snd a = inl x) pre ∧
    match o with
    | Err err => a = inr err ∧ calls = dropped pre
    | Ok rc => ∃ addr c ch tail, a = inl (addr, c) ∧
      calls = dropped pre ++ [SetReadDeadline addr (Some (now + clientHelloReadTimeout));
                              SetReadDeadline addr None] ∧
      stream rc = stream c ∧ TLS.Peek addr t' = Some ch ∧ stream c = Raw ch ++ tail
    | Panic _ => ∃ addr c, a = inl (addr, c)
    end
  end.
Proof.
  apply (Accept_serves cryptobyte_ref dicttls_ref utls_quic 4 sample_arrivals TLS.NewTLSFingerprinter).
  unfold sample_arrivals.
  repeat (apply Forall_cons; split; [intros addr c E; try discriminate E; injection E as _ <-; simpl; lia|]).
  apply Forall_nil_2.
Defined.

(** The third client is the one that is served, the first two are closed. *)
Example Accept_skips_bad_clients :
  match @Accept cryptobyte_ref dicttls_ref utls_quic 4 sample_arrivals TLS.NewTLSFingerprinter with
  | Some (Some (Ok rc), calls, rest, _) =>
    bool_decide (stream rc = stream TLS.sample_conn) && bool_decide (length rest = 1%nat) &&
    bool_decide (omap (λ c, match c with CloseConn a => Some a | _ => None end) calls = ["a:1"; "b:2"]%string)
  | _ => false
  end = true.
Proof. vm_compute. reflexivity. Qed.

(** No socket is lost: whatever becomes of provisioning a wrapper - also when only the second
    socket cannot be opened - [Cleanup] closes exactly the sockets a receive loop was
    started for, as long as closing them succeeds; provisioning again opens nothing. *)
Theorem Listener_sockets app listen4 listen6 lw0 err lw started :
  udpListener lw0 = None → udp6Listener lw0 = None →
  Listener_Provision app listen4 listen6 lw0 = (err, lw, started) →
  (∀ close, (∀ s, close s = None) → Cleanup close lw = (None, started)) ∧
  (err = None → ∀ l4 l6, Listener_Provision None l4 l6 lw = (None, lw, [])).
Proof.
  destruct lw0 as [tcp udp u4 u6]. cbn [udpListener udp6Listener]. intros -> ->.
  unfold Listener_Provision, Cleanup. cbn.
  destruct app as [e|]; [|destruct udp; [destruct listen4 as [s4|e4]; [destruct listen6 as [s6|e6]|]|]];
    intros [= <- <- <-]; cbn; (split; [intros close Hc|]); rewrite ?Hc; try destruct udp; eauto; done.
Qed.

Lemma Listener_sockets_witness :
  (∀ close, (∀ s, close s = None) →
     Cleanup close (mkWrapper true true (Some 4%nat) None) = (None, [4%nat])) ∧
  (Some io_EOF = None → ∀ l4 l6,
     Listener_Provision None l4 l6 (mkWrapper true true (Some 4%nat) None) =
       (None, mkWrapper true true (Some 4%nat) None, [])).
Proof.
  apply (Listener_sockets None (inl 4%nat) (inr io_EOF) (mkWrapper true true None None)); reflexivity.
Defined.
