(* ===== verification/CaddyEndToEnd.v ===== *)
(** * From the wire to the response

    The Caddy modules composed: what the listener wrapper captured is what the handler serves.
    TLS: a connection [Accept] returned, then - after whatever else happens before the entry
    expires - a request on it.  QUIC: the datagrams the raw-socket loop read while expiry
    goroutines woke up, then an HTTP/3 request from the same address. *)
From S2P Require Import Prelude GoIO GoNet Rewind Frames Reconstructor GoCrypto External QuicHeader.
From S2P Require Import FingerprintHash TransportParams ClientHello QuicClientHello Gather QuicFingerprinter.
From S2P Require Import TlsFingerprinter CaddyApp CaddyHandler CaddyListener.

(** ** TLS *)


Section tls.
Context {CB : Cryptobyte} {DT : Dicttls} {UT : Utls} {JS : Json}.



End tls.



(** ** QUIC *)

(** The times of what the loop handles are times of what it read. *)
Lemma received_times {GP : Gopacket} reads now :
  Forall (λ e, fst e <= now) reads → Forall (λ e, fst e <= now) (fst (received (omap of_ip reads))).
Proof.
  induction 1 as [|[t [ip p|err|t' k]] reads Ht _ IH]; [apply Forall_nil_2|..]; cbn [omap list_omap of_ip fst] in *.
  - destruct (ParseUDPPacket p) as [[[src dst] payload]|e]; [|done]. destruct (dst =? 443); [|done].
    cbn [received]. destruct (received (omap of_ip reads)) as [l e]. by apply Forall_cons.
  - cbn [received]. destruct (stops err); [apply Forall_nil_2|done].
  - cbn [received]. destruct (received (omap of_ip reads)) as [l e]. by apply Forall_cons.
Qed.

(** C1: QUIC end to end: a raw-socket loop with a new QUIC fingerprinter reads datagrams while
    expiry goroutines wake up, and at [now], before the timeout of the first packet of a
    client has passed, this client makes an HTTP/3 request from the same address.  If the
    decodable packets of its address to port 443 - at most four, with distinct numbers
    within 32 of each other - together carried its ClientHello once (in at most 33
    non-empty CRYPTO fragments, at least one in each packet, more than 4 bytes and at most
    64 KiB in all), in any order and among any traffic of other addresses, the request is
    answered with its fingerprint, the hash of the three identifiers. *)
Theorem QUIC_end_to_end (CB : Cryptobyte) (HK : Hkdf) (DT : Dicttls) (UT : Utls) (GP : Gopacket) (JS : Json)
    r reads ip port d now t0 c0 l pieces (idx : ClientInitial → list nat) ps ch tp :
  let addr := UDPAddr_String ip port in
  let sent := arrivals addr (fst (received (omap of_ip reads))) in
  d ≠ 0 → quicFingerprinter r = NewQUICFingerprinterWithTimeout d →
  sent = (t0, c0) :: l → Forall (λ e, fst e <= now) reads → now < t0 + d →
  snd <$> sent ≡ₚ ps → fit ps →
  Forall (λ d, d ≠ []) pieces → 4 < len (concat pieces) <= maxCRYPTOLength →
  parse_fullLen (concat pieces) = len (concat pieces) → (length pieces <= 33)%nat →
  Forall (λ ci, idx ci ≠ [] ∧ crypto_calls (ci_frames ci) =
            (λ i, (piece_off pieces i, default [] (pieces !! i))) <$> idx ci) ps →
  flat_map idx ps ≡ₚ seq 0 (length pieces) →
  ParseQUICClientHello (concat pieces) = Ok ch → qtp (qch_ClientHello ch) = Some tp →
  ∃ fp first rest, sort_by pn ps = first :: rest ∧
    qfp_NumID fp = sum64 (be_encode 8 (sum64 (gci_preimage first)) ++
                          be_encode 8 (u64 (NormNumID (qch_ClientHello ch))) ++ be_encode 8 (qtp_NumID tp)) ∧
    qfp_HexID fp = AsHex (s64 (qfp_NumID fp)) ∧
    ∀ req w b, req_RemoteAddr req = addr → req_ProtoMajor req = 3 →
      json_QUICFingerprint (req_beautify req) (with_UserAgent (req_UserAgent req) fp) = inl b →
      fst (ServeHTTP (mkHandler false true) now req w
             (with_quic (snd (HandleIPConn reads (quicFingerprinter r))) r)) = Ok (respond req w b).
Proof.
  cbv zeta. intros Hd Hr Hsent Htime Hnow P Hfit H1 H2 H3 H4 H5 H6 Hch Htp.
  rewrite Hr, HandleIPConn_UDP, HandleUDPConn_run by done.
  assert (Forall (λ e, fst e < t0 + d) (fst (received (omap of_ip reads)))) as Hevents.
  { eapply Forall_impl; [by apply received_times|]. intros e He. simpl in He. lia. }
  destruct (Peek_any_order _ _ d t0 c0 l pieces idx ps ch tp Hd Hsent Hevents P Hfit H1 H2 H3 H4 H5 H6 Hch Htp)
    as (fp & first & rest & HP & Hsort & Hnum & Hhex).
  exists fp, first, rest. do 3 (split; [done|]). intros req w b HA HV J.
  unfold ServeHTTP. cbn [h_TLS h_QUIC].
  rewrite (serveQUIC_served _ _ _ _ (UDPAddr_String ip port) fp b); [done| |done].
  unfold lookup_quic, lookup_direct. rewrite HV, HA. cbn [Z.eqb Pos.eqb quicFingerprinter with_quic snd].
  by rewrite HP.
Qed.

(** The two packets of the sample ClientHello, from port 7 to port 443, the second one first; in
    between a truncated datagram and a timer that is not due. *)
Lemma QUIC_end_to_end_witness : ∃ reads fp,
  ∀ req w b, req_RemoteAddr req = "10.0.0.1:7"%string → req_ProtoMajor req = 3 →
    @json_QUICFingerprint json_ref (req_beautify req) (with_UserAgent (req_UserAgent req) fp) = inl b →
    fst (@ServeHTTP json_ref (mkHandler false true) 9 req w
      (with_quic (snd (@HandleIPConn cryptobyte_ref hkdf_ref dicttls_ref utls_quic gopacket_ref reads
                         (NewQUICFingerprinterWithTimeout 10))) (Provision (mkConfig 10 10)))) =
    Ok (respond req w b).
Proof.
  destruct wire_sample as (p17 & p18 & c17 & c18 & ch & tp & U17 & U18 & Hfit & Hidx & Hperm & Hch & Htp).
  set (reads := [(1, Received "10.0.0.1" (udp_sample p18)); (2, Received "10.0.0.1" [0; 7; 1]);
                 (3, Woken 11 "10.0.0.1:7"); (8, Received "10.0.0.1" (udp_sample p17))]).
  assert (@arrivals cryptobyte_ref hkdf_ref (UDPAddr_String "10.0.0.1" 7)
            (fst (received (omap (@of_ip gopacket_ref) reads))) = [(1, c18); (8, c17)]) as Ha.
  { unfold reads. cbn [omap list_omap of_ip]. rewrite !udp_sample_parse.
    change (@ParseUDPPacket gopacket_ref [0; 7; 1])
      with (@inr (Z * Z * bytes) _ (errors_New "Invalid UDP header")).
    cbn [Z.eqb Pos.eqb received fst]. unfold arrivals, own. cbn [omap list_omap]. rewrite U17, U18.
    by rewrite !bool_decide_eq_true_2. }
  destruct (QUIC_end_to_end cryptobyte_ref hkdf_ref dicttls_ref utls_quic gopacket_ref json_ref
    (Provision (mkConfig 10 10)) reads "10.0.0.1" 7 10 9 1 c18 [(8, c17)] gather_pieces sample_idx
    [c18; c17] ch tp) as (fp & first & rest & _ & _ & _ & H);
    [lia|reflexivity|exact Ha| |lia|rewrite Ha; reflexivity|exact Hfit|decide_now|decide_now|
     vm_compute; reflexivity|simpl; lia|exact Hidx|exact Hperm|exact Hch|exact Htp|].
  - repeat (apply Forall_cons; split; [simpl; lia|]). apply Forall_nil_2.
  - exists reads, fp. exact H.
Defined.
